(** * Graph passes and block partitioning of mppq: a shallow embedding

    The development follows two source files:
    - [mppq/quantization/algorithm/training.py]: [PriorityQueue],
      [TrainableBlock] and [BlockBuilder];
    - [mppq/ir/morph.py]: [GraphReplacer], [GraphFormatter] and
      [GraphMerger].

    Python exceptions are values of [outcome]; loops that Python writes as
    [while] take a fuel argument and answer [OutOfFuel] when it is used
    up. *)

From Stdlib Require Import ZArith Lia QArith Qcanon Qround.
From Stdlib Require Import Floats.PrimFloat Numbers.Cyclic.Int63.Uint63.
From stdpp Require Import functions gmap strings list sorting pretty.

Close Scope Qc_scope.
Close Scope Q_scope.
Open Scope Z_scope.

(** ** Exceptions and the result of a call *)

Inductive exception : Type :=
  | KeyError
  | IndexError
  | ValueError
  | TypeError
  | AttributeError
  | AssertionError.

Inductive outcome (A : Type) : Type :=
  | Return (a : A)
  | Raise (e : exception)
  | OutOfFuel.

Arguments Return {A} a.
Arguments Raise {A} e.
Arguments OutOfFuel {A}.

#[export] Instance outcome_bind : MBind outcome := λ A B k m,
  match m with
  | Return a => k a
  | Raise e => Raise e
  | OutOfFuel => OutOfFuel
  end.

(** [[f(x) for x in l]] where [f] may raise: the first exception wins. *)
Fixpoint for_each {A B : Type} (f : A → outcome B) (l : list A) : outcome (list B) :=
  match l with
  | [] => Return []
  | x :: l' => y ← f x ; ys ← for_each f l' ; Return (y :: ys)
  end.

(** ** training.py *)

Module Training.

(** The builder only reads the graph.  [BaseGraph] and [SearchableGraph]
    are not part of the sources at hand, so the queries the builder makes
    are gathered in an interface; [Op] is the type of operation handles
    (Python hashes and compares [Operation] objects). *)
Class GraphQueries (Op : Type) : Type := {
  get_downstream_operations : Op → list Op;
  get_upstream_operations : Op → list Op;
  num_of_input : Op → Z;
  num_of_parameter : Op → Z;
  (* [search_engine.opset_matching(sp_expr = (== sp), rp_expr = True,
     ep_expr = (== ep), direction = "down")], as some enumeration of the
     returned set *)
  opset_matching : Op → Op → list Op
}.

Section Builder.
Context {Op : Type} `{Countable Op} {G : GraphQueries Op}.

  (** *** class PriorityQueue *)

Record PriorityQueue : Type := {
    _data : list (Z * Op);
    _ops : gset Op;
    _idx : nat;
    _lazy_tag : bool
  }.

  (** [__init__] *)
Definition PriorityQueue_init : PriorityQueue :=
    {| _data := []; _ops := ∅; _idx := 0%nat; _lazy_tag := true |}.

  (** [sorted(self._data, key=lambda x: x[0])]: Python's sort is stable, and
      a stable sort has one possible result; insertion sort computes it. *)
Fixpoint insert_by_key (x : Z * Op) (l : list (Z * Op)) : list (Z * Op) :=
    match l with
    | [] => [x]
    | y :: l' => if y.1 <? x.1 then y :: insert_by_key x l' else x :: y :: l'
    end.

Fixpoint sorted (l : list (Z * Op)) : list (Z * Op) :=
    match l with
    | [] => []
    | x :: l' => insert_by_key x (sorted l')
    end.

Definition pop (q : PriorityQueue) : outcome ((Z * Op) * PriorityQueue) :=
    let q1 :=
      if negb (_lazy_tag q)
      then {| _data := sorted (_data q); _ops := _ops q;
              _idx := _idx q; _lazy_tag := true |}
      else q in
    match _data q1 !! _idx q1 with
    | None => Raise IndexError
    | Some ele =>
        Return (ele, {| _data := _data q1; _ops := _ops q1;
                        _idx := S (_idx q1); _lazy_tag := _lazy_tag q1 |})
    end.

Definition push (depth : Z) (op : Op) (q : PriorityQueue) : PriorityQueue :=
    if decide (op ∈ _ops q) then q
    else {| _data := _data q ++ [(depth, op)];
            _ops := {[op]} ∪ _ops q;
            _idx := _idx q;
            _lazy_tag := false |}.

Definition empty (q : PriorityQueue) : bool :=
    bool_decide (length (_data q) ≤ _idx q)%nat.

  (** *** class TrainableBlock *)

Record TrainableBlock : Type := {
    sp : Op;
    ep : Op;
    rps : list Op
  }.

  (** *** class BlockBuilder *)

Record BlockBuilder : Type := {
    op_orders : list Op;
    depth : gmap Op Z
  }.

  (** [self.depth[op]] *)
Definition depth_of (d : gmap Op Z) (op : Op) : outcome Z :=
    match d !! op with
    | Some z => Return z
    | None => Raise KeyError
    end.

  (** [max(depths_cache)] on a list known to be non-empty *)
Definition max_of (z : Z) (zs : list Z) : Z := foldl Z.max z zs.

  (** [initialize_depth]: one pass over [op_orders], the dictionary being
      threaded through the loop. *)
Fixpoint initialize_depth_from (orders : list Op) (d : gmap Op Z)
    : outcome (gmap Op Z) :=
    match orders with
    | [] => Return d
    | operation :: rest =>
        if bool_decide (length (get_upstream_operations operation) = 0%nat)
        then initialize_depth_from rest (<[operation := 0]> d)
        else
          depths_cache ← for_each
            (λ up_op, match d !! up_op with
                      | Some z => Return z
                      | None => Raise AssertionError
                      end) (get_upstream_operations operation) ;
          match depths_cache with
          | [] => Raise ValueError
          | z :: zs =>
              initialize_depth_from rest (<[operation := max_of z zs + 1]> d)
          end
    end.

Definition initialize_depth (orders : list Op) : outcome (gmap Op Z) :=
    initialize_depth_from orders ∅.

  (** [__init__] *)
Definition BlockBuilder_init (topo_order : list Op) : outcome BlockBuilder :=
    d ← initialize_depth topo_order ;
    Return {| op_orders := topo_order; depth := d |}.

  (** [self.op_orders.index(op)] *)
Fixpoint index (op : Op) (l : list Op) : outcome Z :=
    match l with
    | [] => Raise ValueError
    | x :: l' => if decide (x = op) then Return 0
                 else i ← index op l' ; Return (i + 1)
    end.

Definition create_block (self : BlockBuilder) (sp ep : Op) : outcome TrainableBlock :=
    if decide (sp = ep) then Return {| sp := sp; ep := ep; rps := [sp] |}
    else
      rps ← for_each (λ op, i ← index op (op_orders self) ; Return (i, op))
                     (opset_matching sp ep) ;
      Return {| sp := sp; ep := ep; rps := (sorted rps).*2 |}.

  (** [for down_op in ...: least_first_queue.push(self.depth[down_op], down_op)] *)
Fixpoint push_all (d : gmap Op Z) (l : list Op) (q : PriorityQueue)
    : outcome PriorityQueue :=
    match l with
    | [] => Return q
    | down_op :: l' => z ← depth_of d down_op ; push_all d l' (push z down_op q)
    end.

  (** The [while not least_first_queue.empty()] loop of
      [_find_multi_input_ep].  Beside the answer it hands back the queue it
      ended with and the operations it popped, oldest first; neither is
      seen by the caller. *)
Fixpoint find_multi_input_ep_loop (fuel : nat) (d : gmap Op Z)
      (q : PriorityQueue) (popped : list Op)
    : outcome (option Op) * PriorityQueue * list Op :=
    match fuel with
    | O => (OutOfFuel, q, popped)
    | S fuel' =>
        if empty q then (Return None, q, popped)
        else
          match pop q with
          | Return (ele, q1) =>
              let iter_operation := ele.2 in
              let popped1 := popped ++ [iter_operation] in
              let upstream_ops := get_upstream_operations iter_operation in
              if empty q1
                 && forallb (λ op, bool_decide (op ∈ _ops q1)) upstream_ops
                 && bool_decide (1 < length upstream_ops)%nat
              then (Return (Some iter_operation), q1, popped1)
              else
                match push_all d (get_downstream_operations iter_operation) q1 with
                | Return q2 => find_multi_input_ep_loop fuel' d q2 popped1
                | Raise e => (Raise e, q1, popped1)
                | OutOfFuel => (OutOfFuel, q1, popped1)
                end
          | Raise e => (Raise e, q, popped)
          | OutOfFuel => (OutOfFuel, q, popped)
          end
    end.

Definition find_multi_input_ep_run (fuel : nat) (self : BlockBuilder) (op : Op)
    : outcome (option Op) * PriorityQueue * list Op :=
    match depth_of (depth self) op with
    | Return z =>
        let q := push z op PriorityQueue_init in
        match pop q with
        | Return (ele, q1) =>
            match push_all (depth self) (get_downstream_operations op) q1 with
            | Return q2 => find_multi_input_ep_loop fuel (depth self) q2 [ele.2]
            | Raise e => (Raise e, q1, [ele.2])
            | OutOfFuel => (OutOfFuel, q1, [ele.2])
            end
        | Raise e => (Raise e, q, [])
        | OutOfFuel => (OutOfFuel, q, [])
        end
    | Raise e => (Raise e, PriorityQueue_init, [])
    | OutOfFuel => (OutOfFuel, PriorityQueue_init, [])
    end.

  (** The queue never holds more entries than the depth dictionary has
      keys, which bounds the loop. *)
Definition _find_multi_input_ep (self : BlockBuilder) (op : Op)
    : outcome (option Op) :=
    (find_multi_input_ep_run (S (size (depth self))) self op).1.1.

Definition _find_coherent_ep (op : Op) : option Op :=
    match get_downstream_operations op with
    | [following_op] =>
        let non_parameter_input :=
          num_of_input following_op - num_of_parameter following_op in
        let upstream_ops := length (get_upstream_operations following_op) in
        if bool_decide (non_parameter_input = 1) && bool_decide (upstream_ops = 1%nat)
        then Some following_op
        else None
    | _ => None
    end.

  (** The candidate the [while future_ep is not None] loop computes from
      the current end point. *)
Definition next_ep (self : BlockBuilder) (ep : Op) : outcome (option Op) :=
    if bool_decide (length (get_downstream_operations ep) ≤ 1)%nat
    then Return (_find_coherent_ep ep)
    else _find_multi_input_ep self ep.

Fixpoint build_loop (fuel : nat) (self : BlockBuilder) (sp ep : Op) (limit : Z)
    : outcome TrainableBlock :=
    match fuel with
    | O => OutOfFuel
    | S fuel' =>
        future_ep ← next_ep self ep ;
        match future_ep with
        | None => create_block self sp ep
        | Some f =>
            df ← depth_of (depth self) f ;
            ds ← depth_of (depth self) sp ;
            if bool_decide (df - ds > limit) then create_block self sp ep
            else build_loop fuel' self sp f limit
        end
    end.

Definition build (fuel : nat) (self : BlockBuilder) (op : Op) (limit : Z)
    : outcome TrainableBlock :=
    build_loop fuel self op op limit.

End Builder.

Arguments PriorityQueue Op {_ _}.
Arguments BlockBuilder Op {_ _}.

End Training.

(** *** class FinetuneCheckPoint

    Tensors and [batch_random_fetch] of [mppq/utils/fetch.py] are not
    among the sources at hand; the class is modelled over them. *)

Module CheckPoint.

Section CheckPoint.
Context {Tensor PyFloat : Type}.
(** [batch_random_fetch(tensor, seed, fetches_per_batch)] *)
Variable batch_random_fetch : Tensor → Z → Z → Tensor.
(** [float(1e9)] *)
Variable float_1e9 : PyFloat.

Record FinetuneCheckPoint : Type := {
  monitor_var : string;
  best_loss : PyFloat;
  seed : Z;
  references : list Tensor;
  outputs : list Tensor;
  fetches : Z;
  random_fetch : bool
}.

(** [__init__]; [drawn] is what [randint(0, 0xFFFFFFFF)] answers when no
    seed is given. *)
Definition init (variable : string) (random_fetch : bool) (seed : option Z)
    (fetches : Z) (drawn : Z) : FinetuneCheckPoint :=
  {| monitor_var := variable;
     best_loss := float_1e9;
     seed := default drawn seed;
     references := [];
     outputs := [];
     fetches := fetches;
     random_fetch := random_fetch |}.

Definition push (tensor : Tensor) (is_reference : bool)
    (self : FinetuneCheckPoint) : FinetuneCheckPoint :=
  let tensor :=
    if random_fetch self
    then batch_random_fetch tensor (seed self) (fetches self)
    else tensor in
  if is_reference
  then {| monitor_var := monitor_var self; best_loss := best_loss self;
          seed := seed self; references := references self ++ [tensor];
          outputs := outputs self; fetches := fetches self;
          random_fetch := random_fetch self |}
  else {| monitor_var := monitor_var self; best_loss := best_loss self;
          seed := seed self; references := references self;
          outputs := outputs self ++ [tensor]; fetches := fetches self;
          random_fetch := random_fetch self |}.

Definition pop (self : FinetuneCheckPoint)
    : outcome (list Tensor * list Tensor) :=
  if bool_decide (length (outputs self) = length (references self))
  then Return (outputs self, references self)
  else Raise AssertionError.

Definition clear (self : FinetuneCheckPoint) : FinetuneCheckPoint :=
  {| monitor_var := monitor_var self; best_loss := best_loss self;
     seed := seed self; references := references self;
     outputs := []; fetches := fetches self;
     random_fetch := random_fetch self |}.

End CheckPoint.

End CheckPoint.

(** ** The graph model the passes of morph.py work on

    [mppq/ir/base] ([Operation], [Variable], [BaseGraph]) and
    [mppq/ir/search] ([SearchableGraph]) are not among the sources at
    hand; what morph.py uses of them is modelled here from the
    specification's data model (its sections 3 and 4.1), each definition
    saying so. *)

Module Graph.

(** Operations and variables are Python objects: they are shared and
    mutated in place, so they live in a store and are referred to by
    address. *)
Abbreviation op_ref := nat (only parsing).
Abbreviation var_ref := nat (only parsing).

(** A Python dictionary, in insertion order. *)
Abbreviation dict A := (list (string * A)).

Section Dict.
Context {A : Type}.

  (** [k in d] *)
Definition dict_in (k : string) (d : dict A) : bool := bool_decide (k ∈ d.*1).

  (** [d.get(k)] *)
Fixpoint dict_get (k : string) (d : dict A) : option A :=
    match d with
    | [] => None
    | (k', a) :: d' => if decide (k' = k) then Some a else dict_get k d'
    end.

  (** [d[k] = a]: a key already present keeps its place. *)
Fixpoint dict_set (k : string) (a : A) (d : dict A) : dict A :=
    match d with
    | [] => [(k, a)]
    | (k', a') :: d' =>
        if decide (k' = k) then (k, a) :: d' else (k', a') :: dict_set k a d'
    end.

  (** [d.pop(k)] on a key that may be absent *)
Definition dict_pop (k : string) (d : dict A) : dict A :=
    filter (λ e, e.1 ≠ k) d.

  (** [d.values()] *)
Definition dict_values (d : dict A) : list A := d.*2.
End Dict.

(** *** Values

    Tensors and Python floats belong to torch and to the interpreter;
    their types and operations form an interface. *)

Inductive dtype : Type := int64 | int32 | float32 | other_dtype.

#[export] Instance dtype_eq_dec : EqDecision dtype.
Proof. solve_decision. Defined.

Inductive value (Tensor PyFloat : Type) : Type :=
  | VNone
  | VInt (z : Z)
  | VFloat (x : PyFloat)
  | VStr (s : string)
  | VList (l : list (value Tensor PyFloat))
  | VTensor (t : Tensor).

Arguments VNone {Tensor PyFloat}.
Arguments VInt {Tensor PyFloat} z.
Arguments VFloat {Tensor PyFloat} x.
Arguments VStr {Tensor PyFloat} s.
Arguments VList {Tensor PyFloat} l.
Arguments VTensor {Tensor PyFloat} t.

Class Torch : Type := {
  Tensor : Type;
  PyFloat : Type;
  (** the literal [1e-5] *)
  float_1e_5 : PyFloat;
  (** [t.dtype], [t.tolist()], [t.int()], [t.shape], [t.ndim] *)
  tensor_dtype : Tensor → dtype;
  tolist : Tensor → value Tensor PyFloat;
  tensor_int : Tensor → Tensor;
  shape : value Tensor PyFloat → list Z;
  ndim : value Tensor PyFloat → Z;
  (** [x + y], [x - y], [x * y], [x / y] on tensors and numbers *)
  add : value Tensor PyFloat → value Tensor PyFloat → value Tensor PyFloat;
  sub : value Tensor PyFloat → value Tensor PyFloat → value Tensor PyFloat;
  mul : value Tensor PyFloat → value Tensor PyFloat → value Tensor PyFloat;
  truediv : value Tensor PyFloat → value Tensor PyFloat → value Tensor PyFloat;
  (** [torch.sqrt(x)], [torch.zeros(n)], [x.reshape(dims)] *)
  torch_sqrt : value Tensor PyFloat → value Tensor PyFloat;
  torch_zeros : value Tensor PyFloat → value Tensor PyFloat;
  reshape : value Tensor PyFloat → list Z → value Tensor PyFloat;
  (** [bool(x)] for a float and for a tensor; [x < z], [x >= z] and
      [x == z] between a float and an integer *)
  float_truth : PyFloat → bool;
  tensor_truth : Tensor → bool;
  float_lt_int : PyFloat → Z → bool;
  float_ge_int : PyFloat → Z → bool;
  float_eq_int : PyFloat → Z → bool
}.

Section Model.
Context {torch : Torch}.

Abbreviation val := (value Tensor PyFloat).

  (** [bool(v)], as an [if] tests it *)
Definition truth (v : val) : bool :=
    match v with
    | VNone => false
    | VInt z => bool_decide (z ≠ 0)
    | VFloat x => float_truth x
    | VStr s => bool_decide (s ≠ "")
    | VList l => bool_decide (l ≠ [])
    | VTensor t => tensor_truth t
    end.

  (** Modelled from the spec: class [Operation] of [mppq/ir/base/opdef.py]
      (data model, section 3): a name, an operator kind, a dictionary of
      attributes and the ordered input and output variables.  Its
      [parameters] are the inputs marked as parameters, computed on
      demand. *)
Record Operation : Type := {
    op_name : string;
    op_type : string;
    attributes : dict val;
    op_inputs : list var_ref;
    op_outputs : list var_ref
  }.

  (** Modelled from the spec: class [Variable] of [mppq/ir/base/opdef.py]
      (data model, section 3): a name, an optional value, the parameter
      flag, at most one producer and the ordered consumers. *)
Record Variable' : Type := {
    var_name : string;
    var_value : val;
    is_parameter : bool;
    source_op : option op_ref;
    dest_ops : list op_ref
  }.

  (** Where a pass writes its diagnostics ([mppq.logger]). *)
Inductive diagnostic : Type :=
    | error (msg : string)
    | warning (msg : string).

  (** The store of objects together with the graph that owns them
      (Modelled from the spec: class [BaseGraph], section 3: name-keyed
      mappings of operations and variables and the two distinguished
      subsets [inputs] and [outputs]). *)
Record State : Type := {
    op_heap : op_ref → Operation;
    var_heap : var_ref → Variable';
    next_op : op_ref;
    next_var : var_ref;
    operations : dict op_ref;
    variables : dict var_ref;
    inputs : dict var_ref;
    outputs : dict var_ref;
    log : list diagnostic
  }.

Definition with_op_heap (h : op_ref → Operation) (st : State) : State :=
    {| op_heap := h; var_heap := var_heap st; next_op := next_op st;
       next_var := next_var st; operations := operations st;
       variables := variables st; inputs := inputs st; outputs := outputs st;
       log := log st |}.

Definition with_var_heap (h : var_ref → Variable') (st : State) : State :=
    {| op_heap := op_heap st; var_heap := h; next_op := next_op st;
       next_var := next_var st; operations := operations st;
       variables := variables st; inputs := inputs st; outputs := outputs st;
       log := log st |}.

Definition with_operations (d : dict op_ref) (st : State) : State :=
    {| op_heap := op_heap st; var_heap := var_heap st; next_op := next_op st;
       next_var := next_var st; operations := d;
       variables := variables st; inputs := inputs st; outputs := outputs st;
       log := log st |}.

Definition with_variables (d : dict var_ref) (st : State) : State :=
    {| op_heap := op_heap st; var_heap := var_heap st; next_op := next_op st;
       next_var := next_var st; operations := operations st;
       variables := d; inputs := inputs st; outputs := outputs st;
       log := log st |}.

Definition with_inputs (d : dict var_ref) (st : State) : State :=
    {| op_heap := op_heap st; var_heap := var_heap st; next_op := next_op st;
       next_var := next_var st; operations := operations st;
       variables := variables st; inputs := d; outputs := outputs st;
       log := log st |}.

Definition with_outputs (d : dict var_ref) (st : State) : State :=
    {| op_heap := op_heap st; var_heap := var_heap st; next_op := next_op st;
       next_var := next_var st; operations := operations st;
       variables := variables st; inputs := inputs st; outputs := d;
       log := log st |}.

Definition with_next_op (r : op_ref) (st : State) : State :=
  {| op_heap := op_heap st; var_heap := var_heap st; next_op := r;
     next_var := next_var st; operations := operations st;
     variables := variables st; inputs := inputs st; outputs := outputs st;
     log := log st |}.

Definition with_next_var (r : var_ref) (st : State) : State :=
  {| op_heap := op_heap st; var_heap := var_heap st; next_op := next_op st;
     next_var := r; operations := operations st;
     variables := variables st; inputs := inputs st; outputs := outputs st;
     log := log st |}.

Definition with_log (l : list diagnostic) (st : State) : State :=
  {| op_heap := op_heap st; var_heap := var_heap st; next_op := next_op st;
     next_var := next_var st; operations := operations st;
     variables := variables st; inputs := inputs st; outputs := outputs st;
     log := l |}.

Definition emit (m : diagnostic) (st : State) : State :=
  with_log (log st ++ [m]) st.

(** Field assignments on an object of the store. *)
Definition set_op_inputs (l : list var_ref) (o : Operation) : Operation :=
    {| op_name := op_name o; op_type := op_type o; attributes := attributes o;
       op_inputs := l; op_outputs := op_outputs o |}.

Definition set_op_outputs (l : list var_ref) (o : Operation) : Operation :=
    {| op_name := op_name o; op_type := op_type o; attributes := attributes o;
       op_inputs := op_inputs o; op_outputs := l |}.

Definition set_attributes (d : dict val) (o : Operation) : Operation :=
    {| op_name := op_name o; op_type := op_type o; attributes := d;
       op_inputs := op_inputs o; op_outputs := op_outputs o |}.

Definition set_source_op (s : option op_ref) (v : Variable') : Variable' :=
    {| var_name := var_name v; var_value := var_value v;
       is_parameter := is_parameter v; source_op := s; dest_ops := dest_ops v |}.

Definition set_dest_ops (l : list op_ref) (v : Variable') : Variable' :=
    {| var_name := var_name v; var_value := var_value v;
       is_parameter := is_parameter v; source_op := source_op v; dest_ops := l |}.

Definition update_op (r : op_ref) (f : Operation → Operation) (st : State) : State :=
    with_op_heap (alter f r (op_heap st)) st.

Definition update_var (r : var_ref) (f : Variable' → Variable') (st : State) : State :=
    with_var_heap (alter f r (var_heap st)) st.

  (** A pass runs on the state and may raise; what it did before raising
      stays done. *)
Definition M (A : Type) : Type := State → outcome A * State.

Definition ret {A : Type} (a : A) : M A := λ st, (Return a, st).

Definition raise {A : Type} (e : exception) : M A := λ st, (Raise e, st).

Definition seq {A B : Type} (m : M A) (k : A → M B) : M B := λ st,
    match m st with
    | (Return a, st') => k a st'
    | (Raise e, st') => (Raise e, st')
    | (OutOfFuel, st') => (OutOfFuel, st')
    end.

#[export] Instance M_bind : MBind M := λ A B k m, seq m k.

Definition get : M State := λ st, (Return st, st).

Definition modify (f : State → State) : M unit := λ st, (Return (), f st).

Definition out_of_fuel {A : Type} : M A := λ st, (OutOfFuel, st).

  (** [assert b] *)
Definition assert (b : bool) : M unit :=
    if b then ret () else raise AssertionError.

  (** [for x in l: body(x)] over a list the body leaves alone *)
Fixpoint for_in {A : Type} (l : list A) (body : A → M unit) : M unit :=
    match l with
    | [] => ret ()
    | x :: l' => body x ≫= λ _, for_in l' body
    end.

  (** *** Queries and primitives of [BaseGraph] *)

  (** [op.parameters], [op.num_of_input], [op.num_of_parameter] *)
Definition parameters (st : State) (o : op_ref) : list var_ref :=
    filter (λ v, is_parameter (var_heap st v) = true) (op_inputs (op_heap st o)).

Definition num_of_input (st : State) (o : op_ref) : Z :=
    Z.of_nat (length (op_inputs (op_heap st o))).

Definition num_of_parameter (st : State) (o : op_ref) : Z :=
    Z.of_nat (length (parameters st o)).

  (** Modelled from the spec: [BaseGraph.get_downstream_operations]
      (section 6, the "downstream operations of X" query): the consumers
      of the operation's outputs, output by output. *)
Definition get_downstream_operations (st : State) (o : op_ref) : list op_ref :=
    mjoin ((λ v, dest_ops (var_heap st v)) <$> op_outputs (op_heap st o)).

  (** Modelled from the spec: [BaseGraph.get_upstream_operations]
      (section 6, the "upstream operations of X" query): the producers of
      the operation's inputs, for the inputs that have one. *)
Definition get_upstream_operations (st : State) (o : op_ref) : list op_ref :=
    omap (λ v, source_op (var_heap st v)) (op_inputs (op_heap st o)).

  (** [l.remove(x)]: the first [x] leaves the list. *)
Fixpoint remove_first (x : nat) (l : list nat) : option (list nat) :=
    match l with
    | [] => None
    | y :: l' => if decide (y = x) then Some l' else (y ::.) <$> remove_first x l'
    end.

  (** Modelled from the spec: the rounds of the three loops of
      [BaseGraph.remove_operation], which follows. *)
Definition drop_parameter (removing_op : op_ref) (parameter : var_ref) : M unit :=
    st ← get;
    if is_parameter (var_heap st parameter) then
      modify (update_var parameter (set_dest_ops [])) ;;
      st ← get;
      match remove_first parameter (op_inputs (op_heap st removing_op)) with
      | None => raise ValueError
      | Some l =>
          modify (update_op removing_op (set_op_inputs l)) ;;
          st ← get;
          let name := var_name (var_heap st parameter) in
          if dict_in name (variables st)
          then modify (with_variables (dict_pop name (variables st)))
          else raise KeyError
      end
    else ret ().

Definition clear_source (var : var_ref) : M unit :=
    modify (update_var var (set_source_op None)).

Definition forget_consumer (removing_op : op_ref) (var : var_ref) : M unit :=
    st ← get;
    match remove_first removing_op (dest_ops (var_heap st var)) with
    | Some l => modify (update_var var (set_dest_ops l))
    | None => ret ()
    end.

  (** Modelled from the spec: [BaseGraph.remove_operation] with
      [keep_coherence=False] (sections 3, 4.1 and 7): a name absent from
      the graph is a lookup error.  The spec wants the operation free of
      edges; morph.py calls the primitive on operations that still have
      them and goes on ([truncate_on_var], [delete_isolated], [fuse_bn]),
      and where it wants to keep a parameter of the operation it detaches
      it before the call ([fuse_gemm]: [bias_var.dest_ops.clear()],
      [add.inputs.remove(bias_var)]).  So the primitive does the
      unlinking itself, in this order: the parameters the operation
      still reads are detached from it and leave [variables], a name
      that is no longer a key there being a lookup error as for any
      [dict.pop]; the outputs lose their producer; the other inputs lose
      the operation as consumer, once for each time it reads them; its
      own lists are emptied and it leaves [operations].  What becomes of
      the value a parameter holds once it has left the graph is not
      visible from morph.py, which takes the values it needs before it
      removes the operation ([fuse_bn]); the value is left as it is. *)
Definition remove_operation (removing_op : op_ref) : M unit :=
    st ← get;
    if negb (dict_in (op_name (op_heap st removing_op)) (operations st))
    then raise KeyError
    else
      for_in (op_inputs (op_heap st removing_op)) (drop_parameter removing_op) ;;
      st ← get;
      for_in (op_outputs (op_heap st removing_op)) clear_source ;;
      modify (update_op removing_op (set_op_outputs [])) ;;
      st ← get;
      for_in (op_inputs (op_heap st removing_op)) (forget_consumer removing_op) ;;
      modify (update_op removing_op (set_op_inputs [])) ;;
      st ← get;
      modify (with_operations
                (dict_pop (op_name (op_heap st removing_op)) (operations st))).

  (** Modelled from the spec: [BaseGraph.remove_variable] (sections 4.1 and
      7): a name absent from the graph is a lookup error; otherwise the
      variable leaves the mappings [variables], [inputs] and [outputs] and
      is unlinked: no operation lists it as input or output any more and
      it keeps neither producer nor consumers.  morph.py calls it on
      variables an operation still holds ([replace_batchnorm_to_conv]
      drops inputs this way), so the link is cut here rather than
      refused. *)
Definition unlink_var (v : var_ref) (o : Operation) : Operation :=
    {| op_name := op_name o; op_type := op_type o; attributes := attributes o;
       op_inputs := filter (λ x, x ≠ v) (op_inputs o);
       op_outputs := filter (λ x, x ≠ v) (op_outputs o) |}.

Definition without_variable (removing_var : var_ref) (st : State) : State :=
  let name := var_name (var_heap st removing_var) in
  with_variables (dict_pop name (variables st))
    (with_inputs (dict_pop name (inputs st))
       (with_outputs (dict_pop name (outputs st))
          (with_var_heap
             (alter (λ x, set_source_op None (set_dest_ops [] x)) removing_var
                    (var_heap st))
             (with_op_heap (λ r, unlink_var removing_var (op_heap st r)) st)))).

Definition remove_variable (removing_var : var_ref) : M unit := λ st,
    let name := var_name (var_heap st removing_var) in
    if negb (dict_in name (variables st)) then (Raise KeyError, st)
    else (Return (), without_variable removing_var st).

  (** Modelled from the spec: [BaseGraph.append_variable] and
      [BaseGraph.append_operation] (section 4.1): the object is entered
      under its name; names are unique keys, so a name already taken is
      refused. *)
Definition append_variable (var : var_ref) : M unit := λ st,
    let name := var_name (var_heap st var) in
    if dict_in name (variables st) then (Raise KeyError, st)
    else (Return (), with_variables (variables st ++ [(name, var)]) st).

Definition append_operation (op : op_ref) : M unit := λ st,
    let name := op_name (op_heap st op) in
    if dict_in name (operations st) then (Raise KeyError, st)
    else (Return (), with_operations (operations st ++ [(name, op)]) st).

  (** Modelled from the spec: [BaseGraph.mark_variable_as_graph_output]
      (section 4.3, "re-declare the truncation variable as a graph
      output"): the variable is entered in [outputs] under its name; a
      variable the graph does not own is a lookup error. *)
Definition mark_variable_as_graph_output (var : var_ref) : M unit := λ st,
    let name := var_name (var_heap st var) in
    if negb (dict_in name (variables st)) then (Raise KeyError, st)
    else (Return (), with_outputs (dict_set name var (outputs st)) st).

  (** [Variable(name, value, is_parameter, dest_ops)] and
      [Operation(name, op_type, attributes)]: a new object at a new
      address. *)
Definition new_variable (v : Variable') : M var_ref := λ st,
  (Return (next_var st),
   with_next_var (S (next_var st))
     (with_var_heap (<[next_var st := v]> (var_heap st)) st)).

Definition new_operation (o : Operation) : M op_ref := λ st,
  (Return (next_op st),
   with_next_op (S (next_op st))
     (with_op_heap (<[next_op st := o]> (op_heap st)) st)).

End Model.

End Graph.

(** ** morph.py *)

Module Morph.
Import Graph.

Section Passes.
Context {torch : Torch}.

Abbreviation val := (value Tensor PyFloat).

  (** [l.index(x)] *)
Fixpoint index_of (x : nat) (l : list nat) : option nat :=
    match l with
    | [] => None
    | y :: l' => if decide (y = x) then Some 0%nat else S <$> index_of x l'
    end.

  (** *** class GraphReplacer *)

  (** One round of [for input_var in operation.inputs] in [replace_op]. *)
Definition repoint_dest (operation replace_to : op_ref) (input_var : var_ref)
    : M unit :=
    st ← get;
    match index_of operation (dest_ops (var_heap st input_var)) with
    | None => raise ValueError
    | Some dest_idx =>
        modify (update_var input_var
                  (λ v, set_dest_ops (<[dest_idx := replace_to]> (dest_ops v)) v))
    end.

Definition replace_op (name : string) (replace_to : op_ref) : M unit :=
    st ← get;
    match dict_get name (operations st) with
    | None =>
        modify (emit (error ("Operation " +:+ name +:+ " is not in current graph"))) ;;
        raise KeyError
    | Some operation =>
        modify (update_op replace_to (set_op_inputs [])) ;;
        st ← get;
        modify (update_op replace_to
                  (λ o, set_op_inputs (op_inputs o ++ op_inputs (op_heap st operation)) o)) ;;
        st ← get;
        for_in (op_inputs (op_heap st operation))
               (repoint_dest operation replace_to) ;;
        modify (update_op replace_to (set_op_outputs [])) ;;
        st ← get;
        modify (update_op replace_to
                  (λ o, set_op_outputs (op_outputs o ++ op_outputs (op_heap st operation)) o)) ;;
        st ← get;
        for_in (op_outputs (op_heap st operation))
               (λ output_var,
                  modify (update_var output_var (set_source_op (Some replace_to)))) ;;
        (* [replace_to.parameters.clear()] and [.extend(...)] work on the
           list the property has just built: nothing is stored *)
        modify (λ st, with_operations (dict_set name replace_to (operations st)) st)
    end.

  (** *** class GraphFormatter *)

  (** [-2 << 30] and [+2 << 30] *)
Definition clip_min_default : Z := Z.shiftl (-2) 30.
Definition clip_max_default : Z := Z.shiftl 2 30.

(** The body of [for op in interested_ops] in [format_clip]. *)
Definition format_clip_body (op : op_ref) : M unit :=
  st ← get;
  let o := op_heap st op in
  let min_value := default (VInt clip_min_default) (dict_get "min" (attributes o)) in
  let max_value := default (VInt clip_max_default) (dict_get "max" (attributes o)) in
  min_var ← new_variable
    {| var_name := op_name o +:+ "_min"; var_value := min_value;
       is_parameter := true; source_op := None; dest_ops := [op] |};
  max_var ← new_variable
    {| var_name := op_name o +:+ "_max"; var_value := max_value;
       is_parameter := true; source_op := None; dest_ops := [op] |};
  append_variable min_var ;;
  append_variable max_var ;;
  modify (update_op op (λ o, set_op_inputs (op_inputs o ++ [min_var]) o)) ;;
  modify (update_op op (λ o, set_op_inputs (op_inputs o ++ [max_var]) o)) ;;
  modify (update_op op (λ o,
            if dict_in "min" (attributes o)
            then set_attributes (dict_pop "min" (attributes o)) o else o)) ;;
  modify (update_op op (λ o,
            if dict_in "max" (attributes o)
            then set_attributes (dict_pop "max" (attributes o)) o else o)).

(** The test that makes a Clip operation interesting. *)
Definition clip_with_bounds (st : State) (operation : op_ref) : Prop :=
  op_type (op_heap st operation) = "Clip"
  ∧ (dict_in "min" (attributes (op_heap st operation)) = true
     ∨ dict_in "max" (attributes (op_heap st operation)) = true).

#[export] Instance clip_with_bounds_dec st operation :
  Decision (clip_with_bounds st operation).
Proof. unfold clip_with_bounds. apply _. Defined.

Definition format_clip : M unit :=
  st ← get;
  let interested_ops := filter (clip_with_bounds st) (dict_values (operations st)) in
  for_in interested_ops format_clip_body.

(** [0xFFFFFFFF > v >= -0xFFFFFFFF] for one element of [value.tolist()] *)
Definition int32_check (v : val) : outcome bool :=
    match v with
    | VInt z => Return (bool_decide (4294967295 > z) && bool_decide (z >= -4294967295))
    | VFloat x => Return (float_lt_int x 4294967295 && float_ge_int x (-4294967295))
    | _ => Raise TypeError
    end.

  (** The body of the loop of [format_int64_constant] for one operation.
      [value] is a local name: the converted tensor is bound to it and
      then dropped. *)
Definition format_int64_constant_body (operation : op_ref) : M unit :=
    st ← get;
    let o := op_heap st operation in
    if decide (op_type o = "Constant") then
      assert (dict_in "value" (attributes o)) ;;
      match dict_get "value" (attributes o) with
      | Some (VTensor t) =>
          if decide (tensor_dtype t ≠ int64) then ret ()
          else
            match tolist t with
            | VList pvalue =>
                match for_each int32_check pvalue with
                | Return check =>
                    let value : val :=
                      if forallb id check then VTensor (tensor_int t) else VTensor t in
                    ret ()
                | Raise e => raise e
                | OutOfFuel => out_of_fuel
                end
            | _ => raise TypeError
            end
      | _ => raise AssertionError
      end
    else ret ().

Definition format_int64_constant : M unit :=
    st ← get;
    for_in (dict_values (operations st)) format_int64_constant_body.

  (** [for var in op.outputs: self.graph.remove_variable(var)].  The list
      is the one [remove_variable] shrinks, and Python's list iterator is
      an index into it, so it is read again at every round. *)
Fixpoint remove_output_variables (fuel : nat) (op : op_ref) (i : nat) : M unit :=
    match fuel with
    | O => out_of_fuel
    | S fuel' =>
        st ← get;
        match op_outputs (op_heap st op) !! i with
        | None => ret ()
        | Some var => remove_variable var ;; remove_output_variables fuel' op (S i)
        end
    end.

  (** The test that puts an operation on the blacklist. *)
Definition op_isolated (st : State) (op : op_ref) : Prop :=
    length (get_downstream_operations st op) = 0%nat
    ∧ Forall (λ var, dict_in (var_name (var_heap st var)) (outputs st) = false)
             (op_outputs (op_heap st op)).

#[export] Instance op_isolated_dec st op : Decision (op_isolated st op).
Proof. unfold op_isolated. apply _. Defined.

  (** What [delete_isolated] does with an operation of its blacklist.
      Every round of the walk over [op.outputs] takes a variable out of
      that list, which bounds the rounds. *)
Definition remove_blacklisted (op : op_ref) : M unit :=
    st ← get;
    remove_output_variables (S (length (op_outputs (op_heap st op)))) op 0 ;;
    remove_operation op.

  (** First loop of [delete_isolated]. *)
Fixpoint delete_isolated_operations (fuel : nat) : M unit :=
    match fuel with
    | O => out_of_fuel
    | S fuel' =>
        st ← get;
        let blacklist := filter (op_isolated st) (dict_values (operations st)) in
        for_in blacklist remove_blacklisted ;;
        if decide (length blacklist = 0%nat) then ret ()
        else delete_isolated_operations fuel'
    end.

  (** The tests that put a variable on the blacklist. *)
Definition var_isolated (st : State) (var : var_ref) : Prop :=
    let v := var_heap st var in
    (source_op v = None ∧ length (dest_ops v) = 0%nat)
    ∨ (∃ s, source_op v = Some s
            ∧ dict_in (op_name (op_heap st s)) (operations st) = false)
    ∨ Exists (λ op, dict_in (op_name (op_heap st op)) (operations st) = false)
             (dest_ops v)
    ∨ (source_op v = None ∧ dict_in (var_name v) (inputs st) = false
       ∧ length (dest_ops v) = 0%nat).

#[export] Instance var_isolated_dec st var : Decision (var_isolated st var).
Proof.
    unfold var_isolated.
    destruct (source_op (var_heap st var)) as [s|] eqn:Hs.
    - refine (cast_if (decide (
        dict_in (op_name (op_heap st s)) (operations st) = false
        ∨ Exists (λ op, dict_in (op_name (op_heap st op)) (operations st) = false)
                 (dest_ops (var_heap st var)))));
        [abstract naive_solver | abstract naive_solver].
    - refine (cast_if (decide (
        length (dest_ops (var_heap st var)) = 0%nat
        ∨ Exists (λ op, dict_in (op_name (op_heap st op)) (operations st) = false)
                 (dest_ops (var_heap st var)))));
        [abstract naive_solver | abstract naive_solver].
Defined.

  (** Second loop of [delete_isolated].  [var_blacklist] is a Python set;
      it is walked here in the order its members were added. *)
Fixpoint delete_isolated_variables (fuel : nat) : M unit :=
    match fuel with
    | O => out_of_fuel
    | S fuel' =>
        st ← get;
        let var_blacklist :=
          remove_dups (filter (var_isolated st) (dict_values (variables st))) in
        for_in var_blacklist remove_variable ;;
        if decide (length var_blacklist = 0%nat) then ret ()
        else delete_isolated_variables fuel'
    end.

  (** Every round but the last takes an entry out of the dictionary the
      loop walks, which bounds the rounds. *)
Definition delete_isolated : M unit :=
    st ← get;
    delete_isolated_operations (S (length (operations st))) ;;
    st ← get;
    delete_isolated_variables (S (length (variables st))).

  (** The worklist of [truncate_on_var]: [mark_to_delete] is a Python
      set, kept here in the order its members were added. *)
Fixpoint collect_downstream (fuel : nat) (st : State)
      (mark_to_delete delete_queue : list op_ref) (didx : nat)
    : outcome (list op_ref) :=
    match fuel with
    | O => OutOfFuel
    | S fuel' =>
        match delete_queue !! didx with
        | None => Return mark_to_delete
        | Some first_op =>
            if decide (first_op ∈ mark_to_delete)
            then collect_downstream fuel' st mark_to_delete delete_queue (S didx)
            else collect_downstream fuel' st
                   (mark_to_delete ++ [first_op])
                   (delete_queue ++ get_downstream_operations st first_op)
                   (S didx)
        end
    end.

Definition truncate_on_var (fuel : nat) (var : var_ref) (mark_as_output : bool)
    : M unit :=
    st ← get;
    if negb (dict_in (var_name (var_heap st var)) (variables st)) then
      modify (emit (error ("Can not find vairiable "
                           +:+ var_name (var_heap st var) +:+ " in current graph"))) ;;
      raise KeyError
    else
      match collect_downstream fuel st [] (dest_ops (var_heap st var)) 0 with
      | Return mark_to_delete =>
          for_in mark_to_delete remove_operation ;;
          (if mark_as_output then mark_variable_as_graph_output var else ret ()) ;;
          delete_isolated
      | Raise e => raise e
      | OutOfFuel => out_of_fuel
      end.

(** *** class GraphMerger *)

(** Modelled from the spec: [SearchableGraph.path_matching] (section 4.2)
    as [fuse_bn] calls it: start at every Conv, Gemm or ConvTranspose,
    never continue through a node ([rp_expr] is constantly false), end at
    a BatchNormalization.  What is left are the pairs of a start and one
    of its immediate consumers, in graph order. *)
Definition is_computing_type (t : string) : bool :=
  bool_decide (t = "Conv" ∨ t = "Gemm" ∨ t = "ConvTranspose").

Definition path_matching (st : State) : list (list op_ref) :=
  sp ← filter (λ op, is_computing_type (op_type (op_heap st op)) = true)
              (dict_values (operations st));
  ep ← filter (λ op, op_type (op_heap st op) = "BatchNormalization")
              (get_downstream_operations st sp);
  [[sp; ep]].

(** [d.get(k, default)] *)
Definition dict_get_default (k : string) (dflt : val) (d : dict val) : val :=
  default dflt (dict_get k d).

(** [v == z] for an integer literal [z] *)
Definition eq_int (v : val) (z : Z) : bool :=
  match v with
  | VInt z' => bool_decide (z' = z)
  | VFloat x => float_eq_int x z
  | _ => false
  end.

(** [l[i]] *)
Definition item {A : Type} (l : list A) (i : nat) : outcome A :=
  match l !! i with
  | Some a => Return a
  | None => Raise IndexError
  end.

Definition lift {A : Type} (r : outcome A) : M A := λ st, (r, st).

(** [[1] * n] *)
Definition ones (n : Z) : list Z := replicate (Z.to_nat n) 1.

(** [alpha / torch.sqrt(var + epsilon)] *)
Definition bn_scale (alpha var epsilon : val) : val :=
  truediv alpha (torch_sqrt (add var epsilon)).

(** [alpha * (b - mean) / torch.sqrt(var + epsilon) + beta] *)
Definition bn_bias (alpha beta mean var epsilon b : val) : val :=
  add (truediv (mul alpha (sub b mean)) (torch_sqrt (add var epsilon))) beta.

(** The bias of a computing operation that has none. *)
Definition zero_bias (o : Operation) (w : val) : outcome val :=
  if decide (op_type o = "ConvTranspose") then
    n ← item (shape w) 1;
    Return (torch_zeros (mul (VInt n) (dict_get_default "group" (VInt 1) (attributes o))))
  else if bool_decide (op_type o = "Gemm")
          && eq_int (dict_get_default "transB" (VInt 0) (attributes o)) 0 then
    n ← item (shape w) 1; Return (torch_zeros (VInt n))
  else
    n ← item (shape w) 0; Return (torch_zeros (VInt n)).

(** The new weight, operator kind by operator kind. *)
Definition fused_weight (o : Operation) (w scale : val) : outcome val :=
  if decide (op_type o = "Conv") then
    Return (mul w (reshape scale ([-1] ++ ones (ndim w - 1))))
  else if decide (op_type o = "Gemm") then
    if truth (dict_get_default "transB" (VInt 0) (attributes o))
    then Return (mul w (reshape scale [-1; 1]))
    else Return (mul w (reshape scale [1; -1]))
  else if decide (op_type o = "ConvTranspose") then
    match dict_get_default "group" (VInt 1) (attributes o) with
    | VInt group =>
        let scale := reshape scale ([group; 1; -1] ++ ones (ndim w - 2)) in
        let w := mul (reshape w ([group; -1] ++ drop 1 (shape w))) scale in
        s0 ← item (shape w) 0;
        s1 ← item (shape w) 1;
        Return (reshape w ([s0 * s1] ++ drop 2 (shape w)))
    | _ => Raise TypeError
    end
  else Raise TypeError.

(** The arithmetic of one round of [fuse_bn]: from the parameters of the
    two operations to the weight and the bias of the merged one.  It
    reads the graph and writes nothing. *)
Definition folded_parameters (st : State) (computing_op bn_op : op_ref)
  : outcome (val * val) :=
  let c := op_heap st computing_op in
  let bn := op_heap st bn_op in
  (if bool_decide (length (parameters st bn_op) = 4%nat)
   then Return () else Raise AssertionError) ;;
  p0 ← item (parameters st bn_op) 0;
  p1 ← item (parameters st bn_op) 1;
  p2 ← item (parameters st bn_op) 2;
  p3 ← item (parameters st bn_op) 3;
  let alpha := var_value (var_heap st p0) in
  let beta := var_value (var_heap st p1) in
  let mean := var_value (var_heap st p2) in
  let var := var_value (var_heap st p3) in
  let epsilon := dict_get_default "epsilon" (VFloat float_1e_5) (attributes bn) in
  wb ← (if decide (num_of_parameter st computing_op = 1) then
          q0 ← item (parameters st computing_op) 0;
          let w := var_value (var_heap st q0) in
          match w with
          | VTensor _ => b ← zero_bias c w; Return (w, b)
          | _ => Raise AssertionError
          end
        else
          match take 2 (parameters st computing_op) with
          | [q0; q1] => Return (var_value (var_heap st q0), var_value (var_heap st q1))
          | _ => Raise ValueError
          end);
  let scale := bn_scale alpha var epsilon in
  w ← fused_weight c wb.1 scale;
  Return (w, bn_bias alpha beta mean var epsilon wb.2).

(** The surgery of one round of [fuse_bn]: the merged operation and its
    two parameters are created, take the place of the pair between the
    input of the first and the output of the second, and enter the
    graph. *)
Definition merge_operations (computing_op bn_op : op_ref) (w b : val) : M unit :=
  st ← get;
  let c := op_heap st computing_op in
  let bn := op_heap st bn_op in
  merged_op ← new_operation
    {| op_name := op_name c; op_type := op_type c;
       attributes := attributes c; op_inputs := []; op_outputs := [] |};
  weight_var ← new_variable
    {| var_name := op_name c +:+ "_weight"; var_value := w;
       is_parameter := true; source_op := None; dest_ops := [merged_op] |};
  bias_var ← new_variable
    {| var_name := op_name c +:+ "_bias"; var_value := b;
       is_parameter := true; source_op := None; dest_ops := [merged_op] |};
  input_var ← lift (item (op_inputs c) 0);
  output_var ← lift (item (op_outputs bn) 0);
  st ← get;
  match index_of computing_op (dest_ops (var_heap st input_var)) with
  | None => raise ValueError
  | Some i =>
      modify (update_var input_var (λ v, set_dest_ops (delete i (dest_ops v)) v))
  end ;;
  modify (update_var input_var (λ v, set_dest_ops (dest_ops v ++ [merged_op]) v)) ;;
  modify (update_var output_var (set_source_op (Some merged_op))) ;;
  modify (update_op computing_op (λ o, set_op_inputs (drop 1 (op_inputs o)) o)) ;;
  modify (update_op bn_op (set_op_outputs [])) ;;
  remove_operation computing_op ;;
  remove_operation bn_op ;;
  append_operation merged_op ;;
  modify (update_op merged_op
            (λ o, set_op_inputs (op_inputs o ++ [input_var; weight_var; bias_var]) o)) ;;
  modify (update_op merged_op
            (λ o, set_op_outputs (op_outputs o ++ [output_var]) o)) ;;
  append_variable weight_var ;;
  append_variable bias_var.

(** The diagnostic of a pair that is not merged. *)
Definition can_not_merge (st : State) (computing_op bn_op : op_ref) : diagnostic :=
  warning
    ("PPQ can not merge operation " +:+ op_name (op_heap st computing_op)
     +:+ " and " +:+ op_name (op_heap st bn_op)
     +:+ ", this is not suppose to happen with your network, network with "
     +:+ "batchnorm inside might not be able to quantize and deploy.").

(** One round of [for path in paths] in [fuse_bn]. *)
Definition fuse_bn_path (path : list op_ref) : M unit :=
  match path with
  | [computing_op; bn_op] =>
      st ← get;
      if bool_decide (length (get_downstream_operations st computing_op) ≠ 1%nat)
         || bool_decide (length (get_upstream_operations st bn_op) ≠ 1%nat)
      then modify (emit (can_not_merge st computing_op bn_op))
      else
        wb ← lift (folded_parameters st computing_op bn_op);
        merge_operations computing_op bn_op wb.1 wb.2
  | _ => raise AssertionError
  end.

Definition fuse_bn : M unit :=
  st ← get;
  for_in (path_matching st) fuse_bn_path.

End Passes.

End Morph.

(** ** morph.py, further passes *)

Module MorphMore.
Import Graph Morph.

Section Passes.
Context {torch : Torch}.

Abbreviation val := (value Tensor PyFloat).

Definition set_var_value (x : val) (v : Variable') : Variable' :=
  {| var_name := var_name v; var_value := x;
     is_parameter := is_parameter v; source_op := source_op v;
     dest_ops := dest_ops v |}.

Definition set_is_parameter (b : bool) (v : Variable') : Variable' :=
  {| var_name := var_name v; var_value := var_value v;
     is_parameter := b; source_op := source_op v;
     dest_ops := dest_ops v |}.

(** One round of [for dest_op in replace_to.dest_ops] in [replace_var]. *)
Definition repoint_input (variable replace_to : var_ref) (dest_op : op_ref)
  : M unit :=
  st ← get;
  match index_of variable (op_inputs (op_heap st dest_op)) with
  | None => raise ValueError
  | Some dest_idx =>
      modify (update_op dest_op
                (λ o, set_op_inputs (<[dest_idx := replace_to]> (op_inputs o)) o))
  end.

Definition replace_var (name : string) (replace_to : var_ref) : M unit :=
  st ← get;
  match dict_get name (variables st) with
  | None =>
      modify (emit (error ("Variable " +:+ name +:+ " is not in current graph"))) ;;
      raise KeyError
  | Some variable =>
      modify (update_var replace_to (set_dest_ops [])) ;;
      st ← get;
      modify (update_var replace_to
                (λ v, set_dest_ops (dest_ops v ++ dest_ops (var_heap st variable)) v)) ;;
      st ← get;
      for_in (dest_ops (var_heap st replace_to))
             (repoint_input variable replace_to) ;;
      st ← get;
      modify (update_var replace_to
                (set_source_op (source_op (var_heap st variable)))) ;;
      st ← get;
      match source_op (var_heap st variable) with
      | None => ret ()
      | Some source =>
          match index_of variable (op_outputs (op_heap st source)) with
          | None => raise ValueError
          | Some source_idx =>
              modify (update_op source
                        (λ o, set_op_outputs
                                (<[source_idx := replace_to]> (op_outputs o)) o))
          end
      end ;;
      modify (λ st, with_variables (dict_set name replace_to (variables st)) st) ;;
      st ← get;
      (if dict_in name (inputs st)
       then modify (λ st, with_inputs (dict_set name replace_to (inputs st)) st)
       else ret ()) ;;
      st ← get;
      if dict_in name (outputs st)
      then modify (λ st, with_outputs (dict_set name replace_to (outputs st)) st)
      else ret ()
  end.

(** [op.num_of_output] *)
Definition num_of_output (st : State) (o : op_ref) : Z :=
  Z.of_nat (length (op_outputs (op_heap st o))).

(** The first loop of [remove_constant_input], over
    [self.graph.operations.values()]. *)
Fixpoint constant_operations (ops removing_ops : list op_ref)
  : M (list op_ref) :=
  match ops with
  | [] => ret removing_ops
  | op :: ops' =>
      st ← get;
      if decide (op_type (op_heap st op) = "Constant") then
        if decide (num_of_output st op ≠ 1) then
          modify (emit (error ("Constant " +:+ op_name (op_heap st op) +:+ " has "
                               +:+ pretty (num_of_output st op) +:+ " outputs"))) ;;
          raise ValueError
        else constant_operations ops' (removing_ops ++ [op])
      else constant_operations ops' removing_ops
  end.

(** [var.value = x] goes through the setter of the [value] property of
    [Variable], in [mppq/ir/base], which is not among the sources at
    hand: what the setter stores for [x], or the exception it raises. *)
Variable assign_value : val → outcome val.

(** The body of its second loop. *)
Definition remove_constant (const_op : op_ref) : M unit :=
  st ← get;
  match dict_get "value" (attributes (op_heap st const_op)) with
  | None => raise KeyError
  | Some constant_value =>
      match op_outputs (op_heap st const_op) !! 0%nat with
      | None => raise IndexError
      | Some output_var =>
          modify (update_var output_var (set_is_parameter true)) ;;
          stored ← lift (assign_value constant_value);
          modify (update_var output_var (set_var_value stored)) ;;
          remove_operation const_op
      end
  end.

Definition remove_constant_input : M unit :=
  st ← get;
  removing_ops ← constant_operations (dict_values (operations st)) [];
  for_in removing_ops remove_constant.

(** [DataType.from_numpy] and [convert_any_to_python_primary_type] of
    [mppq/data.py], which is not among the sources at hand. *)
Variable from_numpy : val → outcome val.
Variable convert_any_to_python_primary_type : val → outcome val.

(** The body of the second loop of [format_cast]. *)
Definition format_cast_body (operation : op_ref) : M unit :=
  st ← get;
  assert (dict_in "to" (attributes (op_heap st operation))) ;;
  match dict_get "to" (attributes (op_heap st operation)) with
  | None => raise KeyError
  | Some to =>
      wrapped ← lift (from_numpy to);
      modify (update_op operation
                (λ o, set_attributes (dict_set "to" wrapped (attributes o)) o))
  end.

Definition format_cast : M unit :=
  st ← get;
  let interested_ops :=
    filter (λ operation, op_type (op_heap st operation) = "Cast")
           (dict_values (operations st)) in
  for_in interested_ops format_cast_body.

(** [l[i]] for a Python integer [i]: a negative index counts from the
    end. *)
Definition py_index (len : nat) (i : Z) : option nat :=
  if bool_decide (0 ≤ i)
  then if bool_decide (i < Z.of_nat len) then Some (Z.to_nat i) else None
  else if bool_decide (- Z.of_nat len ≤ i)
       then Some (Z.to_nat (Z.of_nat len + i)) else None.

(** [__delete_constant_input] *)
Definition delete_constant_input (op : op_ref) (input_idx : Z) : M unit :=
  st ← get;
  let op_name := op_name (op_heap st op) in
  match dict_get op_name (operations st) with
  | None =>
      modify (emit (error ("Operation " +:+ op_name +:+ " not in current graph."))) ;;
      raise KeyError
  | Some operation =>
      let inputs := op_inputs (op_heap st operation) in
      if bool_decide (Z.of_nat (length inputs) ≤ input_idx) then
        modify (emit (error
          ("Trying to delete an out-of-range input variable, "
           +:+ "has graph been manually changed? Error at Operation "
           +:+ op_name +:+ ", " +:+ "input_idx: " +:+ pretty input_idx))) ;;
        raise ValueError
      else
        match py_index (length inputs) input_idx ≫= (inputs !!.) with
        | None => raise IndexError
        | Some input_var =>
            let not_const :=
              modify (emit (error
                ("Trying to delete an non-const input, "
                 +:+ "Error at Operation " +:+ op_name +:+ ", inputs["
                 +:+ pretty input_idx +:+ "]"))) ;;
              raise ValueError in
            match source_op (var_heap st input_var) with
            | None => not_const
            | Some source_op =>
                if decide (op_type (op_heap st source_op) ≠ "Constant")
                then not_const
                else
                  match index_of operation (dest_ops (var_heap st input_var)) with
                  | None => raise ValueError
                  | Some dest_idx =>
                      modify (update_var input_var
                                (λ v, set_dest_ops (delete dest_idx (dest_ops v)) v)) ;;
                      st ← get;
                      match py_index (length (op_inputs (op_heap st operation)))
                                     input_idx with
                      | None => raise IndexError
                      | Some i =>
                          modify (update_op operation
                                    (λ o, set_op_inputs (delete i (op_inputs o)) o)) ;;
                          st ← get;
                          if decide (length (dest_ops (var_heap st input_var)) = 0%nat)
                          then remove_operation source_op ;;
                               remove_variable input_var
                          else ret ()
                      end
                  end
            end
        end
  end.

(** The body of the second loop of [format_gather]. *)
Definition format_gather_body (operation : op_ref) : M unit :=
  st ← get;
  (if decide (length (op_inputs (op_heap st operation)) = 2%nat) then
     match op_inputs (op_heap st operation) !! 1%nat with
     | None => raise IndexError
     | Some index_var =>
         match source_op (var_heap st index_var) with
         | None => ret ()
         | Some index_op =>
             if decide (op_type (op_heap st index_op) = "Constant") then
               match dict_get "value" (attributes (op_heap st index_op)) with
               | None => raise KeyError
               | Some index =>
                   index_value ← lift (convert_any_to_python_primary_type index);
                   delete_constant_input operation 1 ;;
                   modify (update_op operation
                             (λ o, set_attributes
                                     (dict_set "gather_index" index_value (attributes o)) o))
               end
             else ret ()
         end
     end
   else ret ()) ;;
  st ← get;
  (if negb (dict_in "axis" (attributes (op_heap st operation)))
   then modify (update_op operation
                  (λ o, set_attributes (dict_set "axis" (VInt 0) (attributes o)) o))
   else ret ()) ;;
  st ← get;
  if dict_in "indices" (attributes (op_heap st operation)) then
    match dict_get "indices" (attributes (op_heap st operation)) with
    | None => raise KeyError
    | Some indices =>
        modify (update_op operation
                  (λ o, set_attributes (dict_set "gather_index" indices (attributes o)) o)) ;;
        modify (update_op operation
                  (λ o, set_attributes (dict_pop "indices" (attributes o)) o))
    end
  else ret ().

Definition format_gather : M unit :=
  st ← get;
  let interested_ops :=
    filter (λ operation, op_type (op_heap st operation) = "Gather")
           (dict_values (operations st)) in
  for_in interested_ops format_gather_body.

(** [convert_any_to_tensor] of [mppq/data.py], and the integer a tensor
    stands for where the interpreter asks for one ([Tensor.__index__]). *)
Variable convert_any_to_tensor : val → outcome val.
Variable tensor_index : Tensor → outcome Z.

(** [[_ for _ in range(x)]]: [range] takes an integer, and nothing else
    that an attribute may hold. *)
Definition range_list (x : val) : outcome val :=
  match x with
  | VInt n => Return (VList (VInt <$> seqZ 0 n))
  | VTensor t =>
      match tensor_index t with
      | Return n => Return (VList (VInt <$> seqZ 0 n))
      | Raise e => Raise e
      | OutOfFuel => OutOfFuel
      end
  | _ => Raise TypeError
  end.

(** [__add_constant_input] *)
Definition add_constant_input (op : op_ref) (value : val) : M unit :=
  st ← get;
  let op_name := op_name (op_heap st op) in
  match dict_get op_name (operations st) with
  | None =>
      modify (emit (error ("Operation " +:+ op_name +:+ " not in current graph."))) ;;
      raise KeyError
  | Some operation =>
      var ← new_variable
        {| var_name := op_name +:+ "_"
                       +:+ pretty (length (op_inputs (op_heap st op)) + 1)%nat;
           var_value := value; is_parameter := true;
           source_op := None; dest_ops := [] |};
      append_variable var ;;
      modify (update_var var (λ v, set_dest_ops (dest_ops v ++ [operation]) v)) ;;
      modify (update_op operation (λ o, set_op_inputs (op_inputs o ++ [var]) o))
  end.

(** The first loop of [format_slice], over
    [self.graph.operations.values()]. *)
Fixpoint opset1_slices (ops interested_ops : list op_ref) : M (list op_ref) :=
  match ops with
  | [] => ret interested_ops
  | operation :: ops' =>
      st ← get;
      let attrs := attributes (op_heap st operation) in
      if decide (op_type (op_heap st operation) = "Slice") then
        if dict_in "starts" attrs then
          assert (dict_in "starts" attrs && dict_in "ends" attrs) ;;
          opset1_slices ops' (interested_ops ++ [operation])
        else opset1_slices ops' interested_ops
      else opset1_slices ops' interested_ops
  end.

(** The body of its second loop. *)
Definition format_slice_body (slice_op : op_ref) : M unit :=
  st ← get;
  let attrs := attributes (op_heap st slice_op) in
  let axes := default VNone (dict_get "axes" attrs) in
  match dict_get "starts" attrs, dict_get "ends" attrs with
  | Some starts, Some ends =>
      axes ← (match axes with
              | VNone => lift (range_list starts)
              | _ => ret axes
              end);
      modify (update_op slice_op
                (λ o, set_attributes (dict_pop "starts" (attributes o)) o)) ;;
      modify (update_op slice_op
                (λ o, set_attributes (dict_pop "ends" (attributes o)) o)) ;;
      st ← get;
      (if dict_in "axes" (attributes (op_heap st slice_op))
       then modify (update_op slice_op
                      (λ o, set_attributes (dict_pop "axes" (attributes o)) o))
       else ret ()) ;;
      tensor ← lift (convert_any_to_tensor starts);
      add_constant_input slice_op tensor ;;
      tensor ← lift (convert_any_to_tensor ends);
      add_constant_input slice_op tensor ;;
      tensor ← lift (convert_any_to_tensor axes);
      add_constant_input slice_op tensor
  | _, _ => raise KeyError
  end.

Definition format_slice : M unit :=
  st ← get;
  interested_ops ← opset1_slices (dict_values (operations st)) [];
  for_in interested_ops format_slice_body.

(** *** [GraphReplacer.replace_batchnorm_to_conv] *)

Definition set_op_type (t : string) (o : Operation) : Operation :=
  {| op_name := op_name o; op_type := t; attributes := attributes o;
     op_inputs := op_inputs o; op_outputs := op_outputs o |}.

(** [-x] and [x.numel()] of torch. *)
Variable neg : val → val.
Variable numel : val → Z.

(** [self.graph.remove_variable(op.inputs[-1])] *)
Definition remove_last_input (op : op_ref) : M unit :=
  st ← get;
  match last (op_inputs (op_heap st op)) with
  | None => raise IndexError
  | Some var => remove_variable var
  end.

(** [op.inputs[i].value = x] *)
Definition set_input_value (op : op_ref) (i : nat) (x : val) : M unit :=
  st ← get;
  var ← lift (item (op_inputs (op_heap st op)) i);
  modify (update_var var (set_var_value x)).

(** [op.attributes[k] = x] *)
Definition set_attribute (op : op_ref) (k : string) (x : val) : M unit :=
  modify (update_op op (λ o, set_attributes (dict_set k x (attributes o)) o)).

(** The body of the loop of [replace_batchnorm_to_conv]. *)
Definition replace_batchnorm_to_conv_body (dimension : Z) (op : op_ref) : M unit :=
  st ← get;
  if decide (op_type (op_heap st op) = "BatchNormalization") then
    modify (emit (warning ("Isolated BatchNormalization(" +:+ op_name (op_heap st op)
                           +:+ ") was detected, "
                           +:+ "PPQ will replace it to 1*1 Convolution("
                           +:+ pretty dimension +:+ "D)."))) ;;
    assert (bool_decide (length (parameters st op) = 4%nat)) ;;
    p0 ← lift (item (parameters st op) 0);
    p1 ← lift (item (parameters st op) 1);
    p2 ← lift (item (parameters st op) 2);
    p3 ← lift (item (parameters st op) 3);
    let alpha := var_value (var_heap st p0) in
    let beta := var_value (var_heap st p1) in
    let mean := var_value (var_heap st p2) in
    let var := var_value (var_heap st p3) in
    let epsilon := dict_get_default "epsilon" (VFloat float_1e_5)
                                    (attributes (op_heap st op)) in
    let w := truediv alpha (torch_sqrt (add var epsilon)) in
    let w := reshape w ([-1; 1] ++ replicate (Z.to_nat dimension) 1)%Z in
    let b := add (truediv (mul alpha (neg mean)) (torch_sqrt (add var epsilon))) beta in
    modify (update_op op (set_op_type "Conv")) ;;
    modify (update_op op (set_attributes [])) ;;
    set_attribute op "kernel_shape" (VList (replicate (Z.to_nat dimension) (VInt 1))) ;;
    set_attribute op "strides" (VList (replicate (Z.to_nat dimension) (VInt 1))) ;;
    set_attribute op "dilations" (VList (replicate (Z.to_nat dimension) (VInt 1))) ;;
    set_attribute op "pads"
      (VList (mjoin (replicate (Z.to_nat dimension) [VInt 0; VInt 0]))) ;;
    set_attribute op "group" (VInt (numel w)) ;;
    remove_last_input op ;;
    remove_last_input op ;;
    set_input_value op 1 w ;;
    set_input_value op 2 b
  else ret ().

Definition replace_batchnorm_to_conv (dimension : Z) : M unit :=
  st ← get;
  for_in (dict_values (operations st)) (replace_batchnorm_to_conv_body dimension).

End Passes.
End MorphMore.

(** ** The builder on a graph of the store *)

Module Search.
Import Graph.

Section Search.
Context {torch : Torch}.

(** Operations one step further down from a set of operations, and the
    operations reached from one in any number of steps.  A path that
    matters visits no operation twice, so as many rounds as the graph has
    operations reach them all. *)
Definition step_down (st : State) (seen : list op_ref) : list op_ref :=
  remove_dups (seen ++ mjoin (get_downstream_operations st <$> seen)).

Definition downstream_closure (st : State) (op : op_ref) : list op_ref :=
  Nat.iter (length (operations st)) (step_down st) [op].

(** Modelled from the spec: [SearchableGraph.opset_matching] (section
    4.2) as [create_block] calls it, with direction down, any relay
    allowed, one start and one end: all operations of the graph lying on
    a path from the start to the end. *)
Definition opset_matching (st : State) (sp ep : op_ref) : list op_ref :=
  filter (λ op, op ∈ downstream_closure st sp ∧ ep ∈ downstream_closure st op)
         (dict_values (operations st)).

(** The queries of [Training.GraphQueries], answered by the graph. *)
Definition queries (st : State) : Training.GraphQueries op_ref :=
  {| Training.get_downstream_operations := get_downstream_operations st;
     Training.get_upstream_operations := get_upstream_operations st;
     Training.num_of_input := num_of_input st;
     Training.num_of_parameter := num_of_parameter st;
     Training.opset_matching := opset_matching st |}.

End Search.

End Search.

(** ** Sample data

    An instance of the torch interface with exact arithmetic (rational
    scalars standing for tensors), and the graphs the facts below are
    tried on. *)

Module Samples.
Import Graph.

Definition number (v : value Qc Qc) : option Qc :=
  match v with
  | VInt z => Some (Q2Qc (inject_Z z))
  | VFloat x => Some x
  | VTensor t => Some t
  | _ => None
  end.

Definition binop (f : Qc → Qc → Qc) (a b : value Qc Qc) : value Qc Qc :=
  match number a, number b with
  | Some x, Some y => VTensor (f x y)
  | _, _ => VNone
  end.

(** Exact on the squares of rationals. *)
Definition qc_sqrt (q : Qc) : Qc :=
  Q2Qc (Qmake (Z.sqrt (Qnum q)) (Pos.sqrt (Qden q))).

#[export] Instance exact_torch : Torch := {|
  Tensor := Qc;
  PyFloat := Qc;
  float_1e_5 := Q2Qc (Qmake 1 100000);
  tensor_dtype := λ _, float32;
  tolist := λ t, VFloat t;
  tensor_int := λ t, Q2Qc (inject_Z (Qfloor t));
  shape := λ _, [];
  ndim := λ _, 0;
  add := binop Qcplus;
  sub := binop Qcminus;
  mul := binop Qcmult;
  truediv := binop Qcdiv;
  torch_sqrt := λ a, match number a with
                     | Some x => VTensor (qc_sqrt x)
                     | None => VNone
                     end;
  torch_zeros := λ _, VTensor (Q2Qc 0);
  reshape := λ a _, a;
  float_truth := λ x, negb (Qeq_bool x 0);
  tensor_truth := λ x, negb (Qeq_bool x 0);
  float_lt_int := λ x z, negb (Qle_bool (inject_Z z) x);
  float_ge_int := λ x z, Qle_bool (inject_Z z) x;
  float_eq_int := λ x z, Qeq_bool x (inject_Z z)
|}.

Definition blank_operation : Operation :=
  {| op_name := ""; op_type := ""; attributes := [];
     op_inputs := []; op_outputs := [] |}.

Definition blank_variable : Variable' :=
  {| var_name := ""; var_value := VNone; is_parameter := false;
     source_op := None; dest_ops := [] |}.

(** A store from the lists of its objects, addresses counting from 0. *)
Definition store (ops : list Operation) (vars : list Variable')
    (ins outs : list var_ref) : State :=
  {| op_heap := λ r, default blank_operation (ops !! r);
     var_heap := λ r, default blank_variable (vars !! r);
     next_op := length ops;
     next_var := length vars;
     operations := imap (λ r o, (op_name o, r)) ops;
     variables := imap (λ r v, (var_name v, r)) vars;
     inputs := (λ r, (var_name (default blank_variable (vars !! r)), r)) <$> ins;
     outputs := (λ r, (var_name (default blank_variable (vars !! r)), r)) <$> outs;
     log := [] |}.

Definition operation (name type : string) (ins outs : list var_ref) : Operation :=
  {| op_name := name; op_type := type; attributes := [];
     op_inputs := ins; op_outputs := outs |}.

Definition variable (name : string) (src : option op_ref) (dst : list op_ref)
  : Variable' :=
  {| var_name := name; var_value := VNone; is_parameter := false;
     source_op := src; dest_ops := dst |}.

(** The diamond [A → B, A → C, B → D, C → D]; [A] has one output read by
    both [B] and [C]. *)
Definition A : op_ref := 0%nat.
Definition B : op_ref := 1%nat.
Definition C : op_ref := 2%nat.
Definition D : op_ref := 3%nat.

Definition diamond : State :=
  store
    [ operation "A" "Relu" [0%nat] [1%nat];
      operation "B" "Relu" [1%nat] [2%nat];
      operation "C" "Relu" [1%nat] [3%nat];
      operation "D" "Add" [2%nat; 3%nat] [4%nat] ]
    [ variable "x" None [0%nat];
      variable "a" (Some 0%nat) [1%nat; 2%nat];
      variable "b" (Some 1%nat) [3%nat];
      variable "c" (Some 2%nat) [3%nat];
      variable "d" (Some 3%nat) [] ]
    [0%nat] [4%nat].

(** The same with two outputs of [A], one for each branch. *)
Definition diamond2 : State :=
  store
    [ operation "A" "Split" [0%nat] [1%nat; 5%nat];
      operation "B" "Relu" [1%nat] [2%nat];
      operation "C" "Relu" [5%nat] [3%nat];
      operation "D" "Add" [2%nat; 3%nat] [4%nat] ]
    [ variable "x" None [0%nat];
      variable "a" (Some 0%nat) [1%nat];
      variable "b" (Some 1%nat) [3%nat];
      variable "c" (Some 2%nat) [3%nat];
      variable "d" (Some 3%nat) [];
      variable "a2" (Some 0%nat) [2%nat] ]
    [0%nat] [4%nat].

(** [x → Relu → r → Clip(min=0) → y]: the Clip has its lower bound as
    attribute and no upper bound. *)
Definition clip_graph : State :=
  store
    [ operation "relu1" "Relu" [0%nat] [1%nat];
      {| op_name := "clip1"; op_type := "Clip"; attributes := [("min", VInt 0)];
         op_inputs := [1%nat]; op_outputs := [2%nat] |} ]
    [ variable "x" None [0%nat];
      variable "r" (Some 0%nat) [1%nat];
      variable "y" (Some 1%nat) [] ]
    [0%nat] [2%nat].

Definition parameter (name : string) (q : Q) (dst : list op_ref) : Variable' :=
  {| var_name := name; var_value := VTensor (Q2Qc q); is_parameter := true;
     source_op := None; dest_ops := dst |}.

(** [x → Conv(W, B) → y → BatchNormalization(gain, shift, mean, variance) → z]
    with [W = 3], [B = 2], [gain = 6], [shift = 5], [mean = 1] and
    [variance = 4 - 1e-5], and no [epsilon] attribute. *)
Definition conv_bn : State :=
  store
    [ operation "conv1" "Conv" [0; 1; 2]%nat [3%nat];
      operation "bn1" "BatchNormalization" [3; 4; 5; 6; 7]%nat [8%nat] ]
    [ variable "x" None [0%nat];
      parameter "W" 3 [0%nat];
      parameter "B" 2 [0%nat];
      variable "y" (Some 0%nat) [1%nat];
      parameter "gain" 6 [1%nat];
      parameter "shift" 5 [1%nat];
      parameter "mean" 1 [1%nat];
      parameter "variance" (Qmake 399999 100000) [1%nat];
      variable "z" (Some 1%nat) [] ]
    [0%nat] [8%nat].

(** The same where [y] is also read by a Relu. *)
Definition conv_bn_shared : State :=
  store
    [ operation "conv1" "Conv" [0; 1; 2]%nat [3%nat];
      operation "bn1" "BatchNormalization" [3; 4; 5; 6; 7]%nat [8%nat];
      operation "relu1" "Relu" [3%nat] [9%nat] ]
    [ variable "x" None [0%nat];
      parameter "W" 3 [0%nat];
      parameter "B" 2 [0%nat];
      variable "y" (Some 0%nat) [1; 2]%nat;
      parameter "gain" 6 [1%nat];
      parameter "shift" 5 [1%nat];
      parameter "mean" 1 [1%nat];
      parameter "variance" (Qmake 399999 100000) [1%nat];
      variable "z" (Some 1%nat) [];
      variable "r" (Some 2%nat) [] ]
    [0%nat] [8; 9]%nat.

(** [x → P → a → Q → b → R → c] with [c] the output, and a second input
    [x2 → S → w] that only [Q] reads. *)
Definition side_branch : State :=
  store
    [ operation "P" "Relu" [0%nat] [1%nat];
      operation "Q" "Add" [1; 5]%nat [2%nat];
      operation "R" "Relu" [2%nat] [3%nat];
      operation "S" "Relu" [4%nat] [5%nat] ]
    [ variable "x" None [0%nat];
      variable "a" (Some 0%nat) [1%nat];
      variable "b" (Some 1%nat) [2%nat];
      variable "c" (Some 2%nat) [];
      variable "x2" None [3%nat];
      variable "w" (Some 3%nat) [1%nat] ]
    [0; 4]%nat [3%nat].

(** The same graph with [a] as its only declared output: [Q], [R] and [S]
    lead to no output. *)
Definition dead_tail : State :=
  store
    [ operation "P" "Relu" [0%nat] [1%nat];
      operation "Q" "Add" [1; 5]%nat [2%nat];
      operation "R" "Relu" [2%nat] [3%nat];
      operation "S" "Relu" [4%nat] [5%nat] ]
    [ variable "x" None [0%nat];
      variable "a" (Some 0%nat) [1%nat];
      variable "b" (Some 1%nat) [2%nat];
      variable "c" (Some 2%nat) [];
      variable "x2" None [3%nat];
      variable "w" (Some 3%nat) [1%nat] ]
    [0; 4]%nat [1%nat].

(** [x → P → a] with [a] the output, and a tail that leads to no output:
    [a → Conv(K, bias) → b → R → c], where the weight [K] and the bias are
    parameters of the Conv alone, and [x2 → S → w] that nothing reads. *)
Definition dead_conv : State :=
  store
    [ operation "P" "Relu" [0%nat] [1%nat];
      operation "Q" "Conv" [1; 6; 7]%nat [2%nat];
      operation "R" "Relu" [2%nat] [3%nat];
      operation "S" "Relu" [4%nat] [5%nat] ]
    [ variable "x" None [0%nat];
      variable "a" (Some 0%nat) [1%nat];
      variable "b" (Some 1%nat) [2%nat];
      variable "c" (Some 2%nat) [];
      variable "x2" None [3%nat];
      variable "w" (Some 3%nat) [];
      parameter "K" 3 [1%nat];
      parameter "bias" 2 [1%nat] ]
    [0; 4]%nat [1%nat].

(** [x → P → a → Conv(w, K) → b → R → c] with [c] the output, where the
    Conv reads [a], the result [w] of [x2 → S → w] and its own parameter
    [K]. *)
Definition weighted_branch : State :=
  store
    [ operation "P" "Relu" [0%nat] [1%nat];
      operation "Q" "Conv" [1; 5; 6]%nat [2%nat];
      operation "R" "Relu" [2%nat] [3%nat];
      operation "S" "Relu" [4%nat] [5%nat] ]
    [ variable "x" None [0%nat];
      variable "a" (Some 0%nat) [1%nat];
      variable "b" (Some 1%nat) [2%nat];
      variable "c" (Some 2%nat) [];
      variable "x2" None [3%nat];
      variable "w" (Some 3%nat) [1%nat];
      parameter "K" 3 [1%nat] ]
    [0; 4]%nat [3%nat].

(** [x → P → (a, a2)] and [Q] reads both results of [P]:
    [(a, a2) → Q → b], with [b] the output. *)
Definition two_results : State :=
  store
    [ operation "P" "Split" [0%nat] [1; 2]%nat;
      operation "Q" "Add" [1; 2]%nat [3%nat] ]
    [ variable "x" None [0%nat];
      variable "a" (Some 0%nat) [1%nat];
      variable "a2" (Some 0%nat) [1%nat];
      variable "b" (Some 1%nat) [] ]
    [0%nat] [3%nat].

(** [x → P → a] with [a] the output, read by two operations that lead to
    no output and share the parameter [K]: [(a, K) → Q → b] and
    [(a, K) → R → c]. *)
Definition shared_weight : State :=
  store
    [ operation "P" "Relu" [0%nat] [1%nat];
      operation "Q" "Conv" [1; 4]%nat [2%nat];
      operation "R" "Conv" [1; 4]%nat [3%nat] ]
    [ variable "x" None [0%nat];
      variable "a" (Some 0%nat) [1; 2]%nat;
      variable "b" (Some 1%nat) [];
      variable "c" (Some 2%nat) [];
      parameter "K" 3 [1; 2]%nat ]
    [0%nat] [1%nat].

(** The builder [BlockBuilder(graph, topo_order)] makes, when it makes
    one. *)
Definition builder_of (st : State) (topo_order : list op_ref)
  : Training.BlockBuilder op_ref :=
  match Training.BlockBuilder_init (G := Search.queries st) topo_order with
  | Return self => self
  | _ => {| Training.op_orders := []; Training.depth := ∅ |}
  end.

End Samples.

(** Further sample graphs. *)

Module SamplesMore.
Import Graph Samples.

(** [Constant(value = 7) → w → Relu → y] *)
Definition constant_graph : State :=
  store
    [ {| op_name := "c1"; op_type := "Constant";
         attributes := [("value", VTensor (Q2Qc 7))];
         op_inputs := []; op_outputs := [0%nat] |};
      operation "relu1" "Relu" [0%nat] [1%nat] ]
    [ variable "w" (Some 0%nat) [1%nat];
      variable "y" (Some 1%nat) [] ]
    [] [1%nat].

(** The setter of [Variable.value] for these graphs: it stores a tensor
    as it is, and a value that is no tensor has no [shape] for it to
    read. *)
Definition store_tensor (x : value Qc Qc) : outcome (value Qc Qc) :=
  match x with
  | VTensor t => Return (VTensor t)
  | _ => Raise AttributeError
  end.

(** A [Constant] with two outputs. *)
Definition constant_two_outputs : State :=
  store
    [ operation "relu1" "Relu" [0%nat] [1%nat];
      {| op_name := "c1"; op_type := "Constant";
         attributes := [("value", VTensor (Q2Qc 7))];
         op_inputs := []; op_outputs := [2; 3]%nat |} ]
    [ variable "x" None [0%nat];
      variable "y" (Some 0%nat) [];
      variable "w" (Some 1%nat) [];
      variable "w2" (Some 1%nat) [] ]
    [0%nat] [1%nat].

(** [x → Cast(to = 7) → y → Cast → z]; the second [Cast] has no [to]. *)
Definition cast_graph : State :=
  store
    [ {| op_name := "cast1"; op_type := "Cast"; attributes := [("to", VInt 7)];
         op_inputs := [0%nat]; op_outputs := [1%nat] |} ]
    [ variable "x" None [0%nat];
      variable "y" (Some 0%nat) [] ]
    [0%nat] [1%nat].

Definition cast_without_to : State :=
  store
    [ {| op_name := "cast1"; op_type := "Cast"; attributes := [("to", VInt 7)];
         op_inputs := [0%nat]; op_outputs := [1%nat] |};
      {| op_name := "cast2"; op_type := "Cast"; attributes := [];
         op_inputs := [1%nat]; op_outputs := [2%nat] |} ]
    [ variable "x" None [0%nat];
      variable "y" (Some 0%nat) [1%nat];
      variable "z" (Some 1%nat) [] ]
    [0%nat] [2%nat].

(** [Gather(x, i)] with the index [i] produced by a [Constant], and an
    opset-1 style [indices] attribute on a second [Gather]. *)
Definition gather_graph : State :=
  store
    [ {| op_name := "idx"; op_type := "Constant";
         attributes := [("value", VList [VInt 1; VInt 2])];
         op_inputs := []; op_outputs := [1%nat] |};
      operation "gather1" "Gather" [0; 1]%nat [2%nat];
      {| op_name := "gather2"; op_type := "Gather";
         attributes := [("axis", VInt 1); ("indices", VInt 3)];
         op_inputs := [2%nat]; op_outputs := [3%nat] |} ]
    [ variable "x" None [1%nat];
      variable "i" (Some 0%nat) [1%nat];
      variable "g" (Some 1%nat) [2%nat];
      variable "y" (Some 2%nat) [] ]
    [0%nat] [3%nat].

(** [x → Slice → a → Slice → y], both in the opset 1 format; the second
    has no [axes] and an integer for [starts]. *)
Definition slice_graph : State :=
  store
    [ {| op_name := "slice1"; op_type := "Slice";
         attributes := [("starts", VList [VInt 0]); ("ends", VList [VInt 2]);
                        ("axes", VList [VInt 0])];
         op_inputs := [0%nat]; op_outputs := [1%nat] |};
      {| op_name := "slice2"; op_type := "Slice";
         attributes := [("starts", VInt 2); ("ends", VInt 3)];
         op_inputs := [1%nat]; op_outputs := [2%nat] |} ]
    [ variable "x" None [0%nat];
      variable "a" (Some 0%nat) [1%nat];
      variable "y" (Some 1%nat) [] ]
    [0%nat] [2%nat].

(** The same with lists for the [starts] and [ends] of the second. *)
Definition slice_without_axes : State :=
  store
    [ {| op_name := "slice1"; op_type := "Slice";
         attributes := [("starts", VList [VInt 0]); ("ends", VList [VInt 2]);
                        ("axes", VList [VInt 0])];
         op_inputs := [0%nat]; op_outputs := [1%nat] |};
      {| op_name := "slice2"; op_type := "Slice";
         attributes := [("starts", VList [VInt 1]); ("ends", VList [VInt 3])];
         op_inputs := [1%nat]; op_outputs := [2%nat] |} ]
    [ variable "x" None [0%nat];
      variable "a" (Some 0%nat) [1%nat];
      variable "y" (Some 1%nat) [] ]
    [0%nat] [2%nat].

(** The same with no [ends] on the second. *)
Definition slice_without_ends : State :=
  store
    [ {| op_name := "slice1"; op_type := "Slice";
         attributes := [("starts", VList [VInt 0]); ("ends", VList [VInt 2]);
                        ("axes", VList [VInt 0])];
         op_inputs := [0%nat]; op_outputs := [1%nat] |};
      {| op_name := "slice2"; op_type := "Slice";
         attributes := [("starts", VList [VInt 1])];
         op_inputs := [1%nat]; op_outputs := [2%nat] |} ]
    [ variable "x" None [0%nat];
      variable "a" (Some 0%nat) [1%nat];
      variable "y" (Some 1%nat) [] ]
    [0%nat] [2%nat].

(** [x → Relu → y → BatchNormalization(gain, shift, mean) → z]: the
    variance is missing. *)
Definition bn_without_variance : State :=
  store
    [ operation "relu1" "Relu" [0%nat] [1%nat];
      operation "bn1" "BatchNormalization" [1; 2; 3; 4]%nat [5%nat] ]
    [ variable "x" None [0%nat];
      variable "y" (Some 0%nat) [1%nat];
      parameter "gain" 6 [1%nat];
      parameter "shift" 5 [1%nat];
      parameter "mean" 1 [1%nat];
      variable "z" (Some 1%nat) [] ]
    [0%nat] [5%nat].

End SamplesMore.

(** An instance of the torch interface with the arithmetic of the
    machine, and a graph on it. *)

Module FloatSamples.
Import Graph.

(** Binary64 scalars standing for tensors, with the arithmetic of the
    machine. *)
Definition float_of (v : value float float) : option float :=
  match v with
  | VInt z => Some (if decide (0 ≤ z) then PrimFloat.of_uint63 (Uint63.of_Z z)
                    else PrimFloat.opp (PrimFloat.of_uint63 (Uint63.of_Z (- z))))
  | VFloat x => Some x
  | VTensor t => Some t
  | _ => None
  end.

Definition float_binop (f : float → float → float) (a b : value float float)
  : value float float :=
  match float_of a, float_of b with
  | Some x, Some y => VTensor (f x y)
  | _, _ => VNone
  end.

Definition float_torch : Torch := {|
  Tensor := float;
  PyFloat := float;
  float_1e_5 := 0x1.4f8b588e368f1p-17%float;
  tensor_dtype := λ _, float32;
  tolist := λ t, VFloat t;
  tensor_int := λ t, t;
  shape := λ _, [];
  ndim := λ _, 0;
  add := float_binop PrimFloat.add;
  sub := float_binop PrimFloat.sub;
  mul := float_binop PrimFloat.mul;
  truediv := float_binop PrimFloat.div;
  torch_sqrt := λ a, match float_of a with
                     | Some x => VTensor (PrimFloat.sqrt x)
                     | None => VNone
                     end;
  torch_zeros := λ _, VTensor 0%float;
  reshape := λ a _, a;
  float_truth := λ x, negb (PrimFloat.eqb x 0%float);
  tensor_truth := λ x, negb (PrimFloat.eqb x 0%float);
  float_lt_int := λ x z, false;
  float_ge_int := λ x z, false;
  float_eq_int := λ x z, false
|}.

Definition float_parameter (name : string) (x : float) (dst : list op_ref)
  : @Variable' float_torch :=
  {| var_name := name;
     var_value := @VTensor (@Tensor float_torch) (@PyFloat float_torch) x;
     is_parameter := true; source_op := None; dest_ops := dst |}.

Definition float_variable (name : string) (src : option op_ref) (dst : list op_ref)
  : @Variable' float_torch :=
  {| var_name := name; var_value := VNone; is_parameter := false;
     source_op := src; dest_ops := dst |}.

(** [x → Conv(W, B) → y → BatchNormalization(gain, shift, mean, variance) → z]
    with [W = 1], [B = 3], [gain = 1], [shift = 0], [mean = 0],
    [variance = 100] and [epsilon = 0]. *)
Definition float_conv_bn : @State float_torch :=
  let ops : list (@Operation float_torch) :=
    [ {| op_name := "conv1"; op_type := "Conv"; attributes := [];
         op_inputs := [0; 1; 2]%nat; op_outputs := [3%nat] |};
      {| op_name := "bn1"; op_type := "BatchNormalization";
         attributes := [("epsilon", @VFloat (@Tensor float_torch) (@PyFloat float_torch) 0%float)];
         op_inputs := [3; 4; 5; 6; 7]%nat; op_outputs := [8%nat] |} ] in
  let vars : list (@Variable' float_torch) :=
    [ float_variable "x" None [0%nat];
      float_parameter "W" 1 [0%nat];
      float_parameter "B" 3 [0%nat];
      float_variable "y" (Some 0%nat) [1%nat];
      float_parameter "gain" 1 [1%nat];
      float_parameter "shift" 0 [1%nat];
      float_parameter "mean" 0 [1%nat];
      float_parameter "variance" 100 [1%nat];
      float_variable "z" (Some 1%nat) [] ] in
  let blank_op : @Operation float_torch :=
    {| op_name := ""; op_type := ""; attributes := [];
       op_inputs := []; op_outputs := [] |} in
  {| op_heap := λ r, default blank_op (ops !! r);
     var_heap := λ r, default (float_variable "" None []) (vars !! r);
     next_op := length ops;
     next_var := length vars;
     operations := imap (λ r o, (op_name o, r)) ops;
     variables := imap (λ r v, (var_name v, r)) vars;
     inputs := [("x", 0%nat)];
     outputs := [("z", 8%nat)];
     log := [] |}.

End FloatSamples.

(** * Facts *)

(** ** The result monad *)

Lemma bind_Return {A B : Type} (m : outcome A) (k : A → outcome B) (b : B) :
  m ≫= k = Return b → ∃ a, m = Return a ∧ k a = Return b.
Proof. destruct m as [a| |]; simpl; intros Hk; try discriminate. by exists a. Qed.

Lemma bind_not_OutOfFuel {A B : Type} (m : outcome A) (k : A → outcome B) :
  m ≠ OutOfFuel → (∀ a, m = Return a → k a ≠ OutOfFuel) → m ≫= k ≠ OutOfFuel.
Proof. destruct m as [a| |]; simpl; intros Hm Hk; [by apply Hk | done | done]. Qed.

Lemma for_each_Return {A B : Type} (f : A → outcome B) (l : list A) (ys : list B) :
  for_each f l = Return ys → Forall2 (λ x y, f x = Return y) l ys.
Proof.
  revert ys. induction l as [|x l IH]; simpl; intros ys Hys.
  - injection Hys as <-. constructor.
  - apply bind_Return in Hys as (y & Hy & Hys).
    apply bind_Return in Hys as (ys' & Hys' & Hret).
    injection Hret as <-. constructor; [done | by apply IH].
Qed.

Lemma for_each_total {A B : Type} (f : A → outcome B) (l : list A) :
  Forall (λ x, ∃ y, f x = Return y) l → ∃ ys, for_each f l = Return ys.
Proof.
  induction 1 as [|x l [y Hy] _ [ys Hys]]; simpl; [by eexists |].
  rewrite Hy; simpl. rewrite Hys; simpl. by eexists.
Qed.

Lemma for_each_not_OutOfFuel {A B : Type} (f : A → outcome B) (l : list A) :
  (∀ x, f x ≠ OutOfFuel) → for_each f l ≠ OutOfFuel.
Proof.
  intros Hf. induction l as [|x l IH]; simpl; [done |].
  apply bind_not_OutOfFuel; [done |]. intros y _.
  apply bind_not_OutOfFuel; done.
Qed.

(** ** training.py *)

Module TrainingFacts.
Import Training.

Section Sorting.
Context {Op : Type} `{Countable Op}.

Definition key_le (a b : Z * Op) : Prop := a.1 ≤ b.1.

Lemma insert_by_key_perm (x : Z * Op) l : insert_by_key x l ≡ₚ x :: l.
Proof.
    induction l as [|y l IH]; simpl; [done |].
    destruct (y.1 <? x.1); [| done].
    rewrite IH. apply Permutation_swap.
Qed.

Lemma sorted_perm (l : list (Z * Op)) : sorted l ≡ₚ l.
Proof.
    induction l as [|x l IH]; simpl; [done |].
    by rewrite insert_by_key_perm, IH.
Qed.

Lemma insert_by_key_sorted (x : Z * Op) l :
    StronglySorted key_le l → StronglySorted key_le (insert_by_key x l).
Proof.
    induction 1 as [|y l Hl IH Hy]; simpl.
    - repeat constructor.
    - destruct (Z.ltb_spec y.1 x.1) as [Hlt|Hge].
      + constructor; [done |].
        rewrite insert_by_key_perm. constructor; [unfold key_le; lia | done].
      + constructor; [by constructor |].
        constructor; [done |].
        eapply Forall_impl; [exact Hy |]. unfold key_le. intros; simpl in *; lia.
Qed.

Lemma sorted_sorted (l : list (Z * Op)) : StronglySorted key_le (sorted l).
Proof.
    induction l as [|x l IH]; simpl; [constructor | by apply insert_by_key_sorted].
Qed.

Lemma insert_by_key_least (x : Z * Op) l :
    Forall (key_le x) l → insert_by_key x l = x :: l.
Proof.
    destruct 1 as [|y l Hy _]; simpl; [done |].
    unfold key_le in Hy. destruct (Z.ltb_spec y.1 x.1); [lia | done].
Qed.

  (** Sorting leaves a sorted prefix in place when nothing behind it is
      smaller: the entries already popped keep their positions. *)
Lemma sorted_prefix (P R : list (Z * Op)) :
    StronglySorted key_le P →
    Forall (λ p, Forall (key_le p) R) P →
    sorted (P ++ R) = P ++ sorted R.
Proof.
    induction 1 as [|p P HP IH Hp]; simpl; intros HR; [done |].
    apply Forall_cons in HR as [HpR HR].
    rewrite IH by done.
    apply insert_by_key_least, Forall_app. split; [done |].
    by rewrite sorted_perm.
Qed.

End Sorting.

Section Queue.
Context {Op : Type} `{Countable Op} {G : GraphQueries Op}.
Implicit Types (q : PriorityQueue Op) (d : gmap Op Z).

  (** What every queue built by [push] and [pop] satisfies: no operation
      is stored twice, every stored operation is remembered in [_ops] and
      carries its depth as key, and the read index stays within bounds. *)
Record queue_ok d q : Prop := {
    qo_nodup : NoDup (_data q).*2;
    qo_known : ∀ z o, (z, o) ∈ _data q → o ∈ _ops q ∧ d !! o = Some z;
    qo_index : (_idx q ≤ length (_data q))%nat
  }.

Lemma queue_ok_init d : queue_ok d PriorityQueue_init.
Proof.
    split; simpl; [constructor | | lia].
    intros z o Hin. by apply elem_of_nil in Hin.
Qed.

Lemma push_seen z o q : o ∈ _ops q → push z o q = q.
Proof. intros Hin. unfold push. by rewrite decide_True. Qed.

Lemma push_ops z o q : _ops (push z o q) = {[o]} ∪ _ops q.
Proof. unfold push. case_decide; simpl; set_solver. Qed.

Lemma push_idx z o q : _idx (push z o q) = _idx q.
Proof. unfold push. by case_decide. Qed.

Lemma push_ok d z o q : d !! o = Some z → queue_ok d q → queue_ok d (push z o q).
Proof.
    intros Hd [Hnd Hkn Hix]. unfold push. case_decide as Hin; [done |].
    split; simpl.
    - rewrite fmap_app. apply NoDup_app. split; [done |]. split.
      + intros x Hx Hx'. apply list_elem_of_singleton in Hx'. simpl in Hx'. subst x.
        apply list_elem_of_fmap in Hx as ([z' o'] & -> & Hx).
        apply Hin. by eapply Hkn.
      + apply NoDup_singleton.
    - intros z' o' Hin'. apply elem_of_app in Hin' as [Hin'|Hin'].
      + destruct (Hkn _ _ Hin'). split; [set_solver | done].
      + apply list_elem_of_singleton in Hin'. injection Hin' as -> ->.
        split; [set_solver | done].
    - rewrite length_app. simpl. lia.
Qed.

Lemma pop_ops q ele q1 : pop q = Return (ele, q1) → _ops q1 = _ops q.
Proof.
    unfold pop. destruct (_lazy_tag q); simpl;
      intros Hpop; destruct (_ !! _); simplify_eq; done.
Qed.

Lemma pop_ok d q ele q1 :
    queue_ok d q → pop q = Return (ele, q1) →
    queue_ok d q1 ∧ _idx q1 = S (_idx q) ∧ ele ∈ _data q.
Proof.
    intros [Hnd Hkn Hix]. unfold pop.
    destruct (_lazy_tag q); simpl; intros Hpop;
      destruct (_ !! _) as [e|] eqn:He; simplify_eq; simpl.
    - split; [| split; [done | by eapply list_elem_of_lookup_2]].
      split; simpl; [done | done |].
      apply lookup_lt_Some in He. lia.
    - assert (Hp := sorted_perm (_data q)).
      split; [| split; [done |]].
      + split; simpl.
        * by rewrite Hp.
        * intros z o Hin. apply Hkn. by rewrite <- Hp.
        * apply lookup_lt_Some in He. lia.
      + rewrite <- Hp. by eapply list_elem_of_lookup_2.
Qed.

Lemma pop_nonempty q : empty q = false → ∃ ele q1, pop q = Return (ele, q1).
Proof.
    unfold empty, pop. intros Hne. apply bool_decide_eq_false in Hne.
    destruct (_lazy_tag q); simpl.
    - destruct (lookup_lt_is_Some_2 (_data q) (_idx q)) as [e ->]; [lia |]. eauto.
    - destruct (lookup_lt_is_Some_2 (sorted (_data q)) (_idx q)) as [e ->]; [| eauto].
      rewrite (Permutation_length (sorted_perm _)). lia.
Qed.

Lemma push_all_ok d l q q2 :
    queue_ok d q → push_all d l q = Return q2 →
    queue_ok d q2 ∧ _idx q2 = _idx q ∧ _ops q ⊆ _ops q2.
Proof.
    revert q. induction l as [|o l IH]; simpl; intros q Hq Hpush.
    - by simplify_eq.
    - apply bind_Return in Hpush as (z & Hz & Hpush).
      unfold depth_of in Hz. destruct (d !! o) eqn:Hd; simplify_eq.
      destruct (IH _ (push_ok _ _ _ _ Hd Hq) Hpush) as (? & -> & Hsub).
      rewrite push_idx. rewrite push_ops in Hsub. split; [done |]. split; [done | set_solver].
Qed.

Lemma push_all_not_OutOfFuel d l q : push_all d l q ≠ OutOfFuel.
Proof.
    revert q. induction l as [|o l IH]; simpl; intros q; [done |].
    unfold depth_of. destruct (d !! o); simpl; [apply IH | done].
Qed.

  (** A queue never holds more entries than the depth dictionary has keys. *)
Lemma queue_ok_length d q : queue_ok d q → (length (_data q) ≤ size d)%nat.
Proof.
    intros [Hnd Hkn _].
    rewrite <- (length_fmap snd), <- size_dom.
    unfold size, set_size; simpl.
    apply submseteq_length, NoDup_submseteq; [done |].
    intros o Ho. apply list_elem_of_fmap in Ho as ([z o'] & -> & Hin).
    apply elem_of_elements, elem_of_dom. destruct (Hkn _ _ Hin) as [_ Hd]. simpl. eauto.
Qed.

  (** The loop of [_find_multi_input_ep] stops: each round moves the
      read index one step towards the bound above. *)
Lemma find_multi_input_ep_loop_stops fuel d q popped :
    queue_ok d q → (size d - _idx q < fuel)%nat →
    let r := find_multi_input_ep_loop fuel d q popped in
    r.1.1 ≠ OutOfFuel ∧ queue_ok d r.1.2.
Proof.
    revert q popped. induction fuel as [|fuel IH]; intros q popped Hq Hfuel; [lia |].
    simpl. destruct (empty q) eqn:Hemp; [done |].
    destruct (pop_nonempty _ Hemp) as (ele & q1 & Hpop). rewrite Hpop.
    destruct (pop_ok _ _ _ _ Hq Hpop) as (Hq1 & Hidx & _).
    destruct (_ && _); [done |].
    destruct (push_all d _ q1) as [q2| |] eqn:Hpush; [| done |].
    - destruct (push_all_ok _ _ _ _ Hq1 Hpush) as (Hq2 & Hidx2 & _).
      assert (Hlen := queue_ok_length _ _ Hq).
      unfold empty in Hemp. apply bool_decide_eq_false in Hemp.
      apply IH; [done | lia].
    - by apply push_all_not_OutOfFuel in Hpush.
Qed.

Lemma find_multi_input_ep_run_stops self op :
    let r := find_multi_input_ep_run (S (size (depth self))) self op in
    r.1.1 ≠ OutOfFuel ∧ queue_ok (depth self) r.1.2.
Proof.
    unfold find_multi_input_ep_run, depth_of.
    destruct (depth self !! op) as [z|] eqn:Hz; [| split; [done | apply queue_ok_init]].
    assert (Hq : queue_ok (depth self) (push z op PriorityQueue_init))
      by (apply push_ok; [done | apply queue_ok_init]).
    destruct (pop _) as [[ele q1]| |] eqn:Hpop; [| done | done].
    destruct (pop_ok _ _ _ _ Hq Hpop) as (Hq1 & Hidx & _).
    destruct (push_all _ _ q1) as [q2| |] eqn:Hpush; [| done |].
    - destruct (push_all_ok _ _ _ _ Hq1 Hpush) as (Hq2 & Hidx2 & _).
      apply find_multi_input_ep_loop_stops; [done |]. lia.
    - by apply push_all_not_OutOfFuel in Hpush.
Qed.

End Queue.

Section Depth.
Context {Op : Type} `{Countable Op} {G : GraphQueries Op}.
Implicit Types (d : gmap Op Z).

  (** The equation the dynamic programme solves. *)
Definition depth_of_cache (zs : list Z) : Z :=
    match zs with
    | [] => 0
    | z :: zs' => max_of z zs' + 1
    end.

Definition depth_sound d : Prop :=
    ∀ o z, d !! o = Some z →
      ∃ zs, Forall2 (λ u zu, d !! u = Some zu) (get_upstream_operations o) zs
            ∧ z = depth_of_cache zs.

Lemma lookups_agree d (l : list Op) zs zs' :
    Forall2 (λ u zu, d !! u = Some zu) l zs →
    Forall2 (λ u zu, d !! u = Some zu) l zs' → zs = zs'.
Proof.
    intros Hzs. revert zs'. induction Hzs as [|u z l zs Hu _ IH]; intros zs' Hzs'.
    - by inversion Hzs'.
    - inversion Hzs' as [|? z' ? zs'' Hu' Hl]; subst. f_equal; [congruence | by apply IH].
Qed.

Lemma max_of_bounds zs z :
    z ≤ max_of z zs ∧ ∀ x, x ∈ zs → x ≤ max_of z zs.
Proof.
    unfold max_of. revert z. induction zs as [|y zs IH]; simpl; intros z.
    - split; [lia |]. intros x Hx. by apply elem_of_nil in Hx.
    - destruct (IH (z `max` y)) as [Hz Hzs]. split; [lia |].
      intros x Hx. apply elem_of_cons in Hx as [->|Hx]; [lia | by apply Hzs].
Qed.

Lemma max_of_ge z zs x : x ∈ z :: zs → x ≤ max_of z zs.
Proof.
    destruct (max_of_bounds zs z) as [Hz Hzs].
    intros Hx. apply elem_of_cons in Hx as [->|Hx]; [done | by apply Hzs].
Qed.

Lemma depth_of_cache_gt zs x : x ∈ zs → x < depth_of_cache zs.
Proof.
    destruct zs as [|z zs]; simpl; intros Hx; [by apply elem_of_nil in Hx |].
    apply max_of_ge in Hx. lia.
Qed.

Lemma depth_sound_insert d operation zs :
    depth_sound d →
    Forall2 (λ u zu, d !! u = Some zu) (get_upstream_operations operation) zs →
    depth_sound (<[operation := depth_of_cache zs]> d).
Proof.
    intros Hd Hzs.
    destruct (d !! operation) as [z|] eqn:Hop.
    - destruct (Hd _ _ Hop) as (zs' & Hzs' & ->).
      by rewrite (lookups_agree _ _ _ _ Hzs Hzs'), insert_id.
    - assert (Hfresh : ∀ (l : list Op) ws,
                 Forall2 (λ u zu, d !! u = Some zu) l ws →
                 Forall2 (λ u zu, <[operation := depth_of_cache zs]> d !! u = Some zu) l ws).
      { intros l ws Hws. eapply Forall2_impl; [exact Hws |]. intros u zu Hu.
        simpl. rewrite lookup_insert_ne; [done |]. congruence. }
      intros o z Ho. destruct (decide (operation = o)) as [<-|Hne].
      + rewrite lookup_insert_eq in Ho. injection Ho as <-. eauto.
      + rewrite lookup_insert_ne in Ho by done.
        destruct (Hd _ _ Ho) as (ws & Hws & ->). eauto.
Qed.

Lemma initialize_depth_from_sound orders d d' :
    depth_sound d → initialize_depth_from orders d = Return d' →
    depth_sound d' ∧ dom d' = dom d ∪ list_to_set orders.
Proof.
    revert d. induction orders as [|operation rest IH]; simpl; intros d Hd Hinit.
    - simplify_eq. split; [done | set_solver].
    - case_bool_decide as Hups.
      + destruct (IH (<[operation := 0]> d)) as [Hs Hdom]; [| done |].
        * apply (depth_sound_insert d operation []); [done |].
          apply nil_length_inv in Hups. rewrite Hups. constructor.
        * split; [done |]. rewrite Hdom, dom_insert_L. set_solver.
      + apply bind_Return in Hinit as (cache & Hcache & Hinit).
        apply for_each_Return in Hcache.
        assert (Hzs : Forall2 (λ u zu, d !! u = Some zu)
                        (get_upstream_operations operation) cache).
        { eapply Forall2_impl; [exact Hcache |].
          intros u zu. simpl. by destruct (d !! u); intros; simplify_eq. }
        destruct cache as [|z zs]; [done |].
        destruct (IH (<[operation := max_of z zs + 1]> d)) as [Hs Hdom]; [| done |].
        * by apply (depth_sound_insert d operation (z :: zs)).
        * split; [done |]. rewrite Hdom, dom_insert_L. set_solver.
Qed.

Lemma initialize_depth_sound orders d :
    initialize_depth orders = Return d →
    depth_sound d ∧ dom d = list_to_set orders.
Proof.
    intros Hinit. apply initialize_depth_from_sound in Hinit as [Hs Hdom].
    - split; [done |]. rewrite Hdom. set_solver.
    - intros o z Ho. by rewrite lookup_empty in Ho.
Qed.

  (** Depth grows strictly from a producer to its consumer. *)
Lemma depth_sound_upstream d o z u :
    depth_sound d → d !! o = Some z → u ∈ get_upstream_operations o →
    ∃ zu, d !! u = Some zu ∧ zu < z.
Proof.
    intros Hd Ho Hu. destruct (Hd _ _ Ho) as (zs & Hzs & ->).
    apply list_elem_of_lookup in Hu as [i Hi].
    destruct (Forall2_lookup_l _ _ _ _ _ Hzs Hi) as (zu & Hzu & Hlook).
    exists zu. split; [done |]. apply depth_of_cache_gt. by eapply list_elem_of_lookup_2.
Qed.

End Depth.

Section Trace.
Context {Op : Type} `{Countable Op} {G : GraphQueries Op}.
Implicit Types (q : PriorityQueue Op) (d : gmap Op Z) (P R : list (Z * Op)).

  (** The entries before the read index ([P], already popped) and behind
      it ([R], still waiting), while every pushed key exceeds the key of
      the operation whose successors are being pushed: the popped prefix
      is sorted and below everything that waits, so a later sort cannot
      move it. [z0] is the depth of the operation the search started at. *)
Record split_ok (z0 : Z) q P R : Prop := {
    so_data : _data q = P ++ R;
    so_index : length P = _idx q;
    so_sorted : StronglySorted key_le P;
    so_below : Forall (λ p, Forall (key_le p) R) P;
    so_lazy : _lazy_tag q = true → StronglySorted key_le R;
    so_deeper : Forall (λ e, z0 < e.1) R
  }.

Lemma pop_split z0 q P R :
    split_ok z0 q P R → empty q = false →
    ∃ ele R' q1, pop q = Return (ele, q1) ∧ split_ok z0 q1 (P ++ [ele]) R'
                 ∧ z0 < ele.1 ∧ Forall (λ p, p.1 ≤ ele.1) (P ++ [ele]).
Proof.
    intros [Hdata Hidx HP Hbelow Hlazy Hdeep] Hne.
    unfold empty in Hne. apply bool_decide_eq_false in Hne.
    set (R1 := if _lazy_tag q then R else sorted R).
    assert (HR1 : R1 ≡ₚ R) by (unfold R1; destruct (_lazy_tag q); [done | apply sorted_perm]).
    assert (HsR1 : StronglySorted key_le R1).
    { unfold R1. destruct (_lazy_tag q); [by apply Hlazy | apply sorted_sorted]. }
    assert (Hd1 : (if negb (_lazy_tag q) then sorted (_data q) else _data q) = P ++ R1).
    { unfold R1. destruct (_lazy_tag q); simpl; [done |].
      rewrite Hdata. by apply sorted_prefix. }
    destruct R1 as [|ele R2] eqn:HeqR1.
    { apply Permutation_nil_l in HR1. subst R. rewrite Hdata, length_app in Hne.
      simpl in Hne. lia. }
    assert (Hele : ele ∈ R) by (rewrite <- HR1; left).
    apply StronglySorted_inv in HsR1 as [HsR2 Hle].
    assert (HPele : Forall (λ p, p.1 ≤ ele.1) (P ++ [ele])).
    { apply Forall_app. split.
      - eapply Forall_impl; [exact Hbelow |]. intros p Hp.
        rewrite Forall_forall in Hp. by apply Hp.
      - apply Forall_singleton. lia. }
    exists ele, R2,
      {| _data := P ++ ele :: R2; _ops := _ops q;
         _idx := S (length P); _lazy_tag := true |}.
    split; [| split; [| split; [| done]]].
    - unfold pop. destruct (_lazy_tag q) eqn:Htag; simpl in *.
      + rewrite Hd1, <- Hidx, lookup_app_r, Nat.sub_diag by lia. simpl.
        by rewrite Htag.
      + rewrite Hd1, <- Hidx, lookup_app_r, Nat.sub_diag by lia. simpl. reflexivity.
    - split; simpl.
      + by rewrite <- app_assoc.
      + rewrite length_app. simpl. lia.
      + apply StronglySorted_app_2; [| done | by repeat constructor].
        intros p e Hp He. apply list_elem_of_singleton in He. subst e.
        rewrite Forall_forall in Hbelow. specialize (Hbelow _ Hp).
        rewrite Forall_forall in Hbelow. by apply Hbelow.
      + apply Forall_app. split; [| by apply Forall_singleton].
        eapply Forall_impl; [exact Hbelow |]. intros p Hp.
        rewrite Forall_forall in Hp |- *. intros e He. apply Hp.
        rewrite <- HR1. by right.
      + by intros _.
      + rewrite Forall_forall in Hdeep |- *. intros e He. apply Hdeep.
        rewrite <- HR1. by right.
    - rewrite Forall_forall in Hdeep. by apply Hdeep.
Qed.

Lemma push_split z0 q P R z o zx :
    split_ok z0 q P R → Forall (λ p, p.1 ≤ zx) P → z0 ≤ zx → zx < z →
    ∃ R', split_ok z0 (push z o q) P R'.
Proof.
    intros [Hdata Hidx HP Hbelow Hlazy Hdeep] HPx Hz0 Hzx.
    unfold push. case_decide; [by exists R |].
    exists (R ++ [(z, o)]). split; simpl.
    - by rewrite Hdata, <- app_assoc.
    - done.
    - done.
    - rewrite Forall_forall in Hbelow, HPx |- *. intros p Hp.
      apply Forall_app. split; [by apply Hbelow |].
      apply Forall_singleton. specialize (HPx _ Hp). unfold key_le. simpl. lia.
    - done.
    - apply Forall_app. split; [done |]. apply Forall_singleton. simpl. lia.
Qed.

Lemma push_all_split d z0 q P R zx l q2 :
    split_ok z0 q P R → Forall (λ p, p.1 ≤ zx) P → z0 ≤ zx →
    (∀ o z, o ∈ l → d !! o = Some z → zx < z) →
    push_all d l q = Return q2 →
    ∃ R', split_ok z0 q2 P R'.
Proof.
    intros Hsplit HPx Hz0. revert q R Hsplit.
    induction l as [|o l IH]; simpl; intros q R Hsplit Hl Hpush.
    - simplify_eq. by exists R.
    - apply bind_Return in Hpush as (z & Hz & Hpush).
      unfold depth_of in Hz. destruct (d !! o) eqn:Hd; simplify_eq.
      destruct (push_split z0 q P R z o zx) as [R' HR']; [done | done | done | |].
      { eapply Hl; [left | done]. }
      eapply IH; [exact HR' | | exact Hpush].
      intros o' z' Ho'. apply Hl. by right.
Qed.

Lemma first_pop z0 (op : Op) :
    pop (push z0 op PriorityQueue_init)
    = Return ((z0, op), {| _data := [(z0, op)]; _ops := {[op]} ∪ ∅;
                           _idx := 1; _lazy_tag := true |}).
Proof. unfold push. rewrite decide_False by set_solver. reflexivity. Qed.

Section Monotone.
Variable d : gmap Op Z.
Hypothesis depth_grows : ∀ a b za zb,
      b ∈ get_downstream_operations a → d !! a = Some za → d !! b = Some zb → za < zb.

Lemma find_multi_input_ep_loop_trace fuel z0 q P R :
      queue_ok d q → split_ok z0 q P R →
      let r := find_multi_input_ep_loop fuel d q P.*2 in
      (∃ P' R', split_ok z0 r.1.2 P' R' ∧ r.2 = P'.*2)
      ∧ queue_ok d r.1.2
      ∧ ∀ o, r.1.1 = Return (Some o) → ∃ z, d !! o = Some z ∧ z0 < z.
Proof.
      revert q P R. induction fuel as [|fuel IH]; intros q P R Hq Hsplit; simpl.
      { split; [by exists P, R | done]. }
      destruct (empty q) eqn:Hemp; [split; [by exists P, R | done] |].
      destruct (pop_split _ _ _ _ Hsplit Hemp) as (ele & R1 & q1 & Hpop & Hs1 & Hz0 & HP1).
      rewrite Hpop.
      destruct (pop_ok _ _ _ _ Hq Hpop) as (Hq1 & _ & Hin).
      destruct ele as [zx x]. destruct (qo_known _ _ Hq _ _ Hin) as [_ Hdx].
      simpl in *.
      assert (Hpopped : P.*2 ++ [x] = (P ++ [(zx, x)]).*2) by by rewrite fmap_app.
      destruct (_ && _).
      { simpl. split; [exists (P ++ [(zx, x)]), R1; by split |].
        split; [done |]. intros o Ho. simplify_eq. eauto. }
      destruct (push_all d _ q1) as [q2| |] eqn:Hpush; simpl.
      - destruct (push_all_ok _ _ _ _ Hq1 Hpush) as (Hq2 & _ & _).
        destruct (push_all_split d z0 q1 _ R1 zx
                    (get_downstream_operations x) q2 Hs1 HP1) as [R2 Hs2];
          [lia | | done |].
        { intros o z Ho Hz. by eapply depth_grows. }
        rewrite Hpopped. by eapply IH.
      - split; [exists (P ++ [(zx, x)]), R1; by split | done].
      - split; [exists (P ++ [(zx, x)]), R1; by split | done].
Qed.

Lemma find_multi_input_ep_run_trace fuel self op :
      depth self = d →
      let r := find_multi_input_ep_run fuel self op in
      NoDup r.2
      ∧ ∀ o, r.1.1 = Return (Some o) →
             ∃ z0 z, d !! op = Some z0 ∧ d !! o = Some z ∧ z0 < z.
Proof.
      intros Hd. unfold find_multi_input_ep_run, depth_of. rewrite !Hd.
      destruct (d !! op) as [z0|] eqn:Hz0; simpl; [| split; [constructor | done]].
      rewrite first_pop. simpl.
      set (q1 := {| _data := [(z0, op)]; _ops := {[op]} ∪ ∅;
                    _idx := 1; _lazy_tag := true |}).
      assert (Hq1 : queue_ok d q1).
      { split; simpl; [apply NoDup_singleton | | lia].
        intros z o Hin. apply list_elem_of_singleton in Hin. simplify_eq.
        split; [set_solver | done]. }
      assert (Hs1 : split_ok z0 q1 [(z0, op)] []).
      { split; simpl; try done; repeat constructor. }
      destruct (push_all _ _ q1) as [q2| |] eqn:Hpush; simpl;
        [| split; [apply NoDup_singleton | done] ..].
      destruct (push_all_ok _ _ _ _ Hq1 Hpush) as (Hq2 & _ & _).
      destruct (push_all_split d z0 q1 _ [] z0
                  (get_downstream_operations op) q2 Hs1) as [R2 Hs2];
        [repeat constructor; simpl; lia | lia | | done |].
      { intros o z Ho Hz. by eapply depth_grows. }
      destruct (find_multi_input_ep_loop_trace fuel z0 q2 _ R2 Hq2 Hs2)
        as ((P' & R' & Hs' & Htr) & Hq' & Hfound).
      simpl in *. split.
      - rewrite Htr. destruct Hq' as [Hnd _ _], Hs' as [Hdata _ _ _ _ _].
        rewrite Hdata, fmap_app in Hnd. by apply NoDup_app in Hnd as [? _].
      - intros o Ho. destruct (Hfound _ Ho) as (z & Hz & Hlt). eauto.
Qed.

End Monotone.

End Trace.

Section Build.
Context {Op : Type} `{Countable Op} {G : GraphQueries Op}.
Implicit Types (self : BlockBuilder Op).

Lemma next_ep_stops self ep : next_ep self ep ≠ OutOfFuel.
Proof.
    unfold next_ep. case_bool_decide; [done |].
    apply find_multi_input_ep_run_stops.
Qed.

Lemma index_total (op : Op) l : op ∈ l → ∃ i, index op l = Return i.
Proof.
    induction l as [|x l IH]; simpl; intros Hin; [by apply elem_of_nil in Hin |].
    case_decide; [by eexists |].
    apply elem_of_cons in Hin as [->|Hin]; [done |].
    destruct (IH Hin) as [i ->]. simpl. by eexists.
Qed.

Lemma index_stops (op : Op) l : index op l ≠ OutOfFuel.
Proof.
    induction l as [|x l IH]; simpl; [done |]. case_decide; [done |].
    by apply bind_not_OutOfFuel.
Qed.

Lemma create_block_stops self s e : create_block self s e ≠ OutOfFuel.
Proof.
    unfold create_block. case_decide; [done |].
    apply bind_not_OutOfFuel; [| done].
    apply for_each_not_OutOfFuel. intros x.
    apply bind_not_OutOfFuel; [apply index_stops | done].
Qed.

Lemma create_block_ends self s e b :
    create_block self s e = Return b → sp b = s ∧ ep b = e.
Proof.
    unfold create_block. case_decide; intros Hb; [by simplify_eq |].
    apply bind_Return in Hb as (rps & _ & Hb). by simplify_eq.
Qed.

Lemma create_block_total self s e :
    (∀ x, x ∈ opset_matching s e → x ∈ op_orders self) →
    ∃ b, create_block self s e = Return b.
Proof.
    intros Hin. unfold create_block. case_decide; [by eexists |].
    destruct (for_each_total
                (λ op, i ← index op (op_orders self); Return (i, op))
                (opset_matching s e)) as [rps ->]; [| simpl; by eexists].
    apply Forall_forall. intros x Hx.
    destruct (index_total x (op_orders self) (Hin _ Hx)) as [i ->]. simpl. by eexists.
Qed.

  (** The builder as its constructor leaves it, on a graph whose
      producer and consumer queries agree. *)
Section Built.
Variables (topo_order : list Op) (self : BlockBuilder Op).
Hypothesis built : BlockBuilder_init topo_order = Return self.
Hypothesis coherent : ∀ a b : Op,
      b ∈ get_downstream_operations a → a ∈ get_upstream_operations b.

Lemma built_orders : op_orders self = topo_order.
Proof.
      unfold BlockBuilder_init in built.
      apply bind_Return in built as (d & _ & Hret). by simplify_eq.
Qed.

Lemma built_depth :
      depth_sound (depth self) ∧ dom (depth self) = list_to_set topo_order.
Proof.
      unfold BlockBuilder_init in built.
      apply bind_Return in built as (d & Hd & Hret). simplify_eq. simpl.
      by apply initialize_depth_sound.
Qed.

Lemma built_known (o : Op) : o ∈ topo_order ↔ is_Some (depth self !! o).
Proof.
      destruct built_depth as [_ Hdom].
      rewrite <- elem_of_dom, Hdom. set_solver.
Qed.

Lemma built_depth_grows a b za zb :
      b ∈ get_downstream_operations a →
      depth self !! a = Some za → depth self !! b = Some zb → za < zb.
Proof.
      intros Hab Ha Hb. destruct built_depth as [Hsound _].
      destruct (depth_sound_upstream _ _ _ a Hsound Hb) as (za' & Ha' & Hlt);
        [by apply coherent |].
      congruence.
Qed.

Lemma find_coherent_ep_downstream e f :
      _find_coherent_ep e = Some f → f ∈ get_downstream_operations e.
Proof.
      unfold _find_coherent_ep.
      destruct (get_downstream_operations e) as [|x [|y l]]; try done.
      destruct (_ && _); intros Hf; simplify_eq. left.
Qed.

Lemma next_ep_deeper e f ze :
      next_ep self e = Return (Some f) → depth self !! e = Some ze →
      ∀ zf, depth self !! f = Some zf → ze < zf.
Proof.
      unfold next_ep. case_bool_decide.
      - intros Hf He zf Hzf. simplify_eq.
        eapply built_depth_grows; [by apply find_coherent_ep_downstream | done | done].
      - intros Hf He zf Hzf. unfold _find_multi_input_ep in Hf.
        destruct (find_multi_input_ep_run_trace (depth self) built_depth_grows
                    (S (size (depth self))) self e eq_refl) as [_ Hfound].
        destruct (Hfound _ Hf) as (z0 & z & Hz0 & Hz & Hlt). congruence.
Qed.

    (** What the loop of [build] keeps and what it returns. *)
Lemma build_loop_bounded fuel s e limit ds de b :
      depth self !! s = Some ds → depth self !! e = Some de → de - ds ≤ limit →
      build_loop fuel self s e limit = Return b →
      sp b = s
      ∧ ∃ de', depth self !! ep b = Some de' ∧ de' - ds ≤ limit
        ∧ (next_ep self (ep b) = Return None
           ∨ ∃ f df, next_ep self (ep b) = Return (Some f)
                     ∧ depth self !! f = Some df ∧ df - ds > limit).
Proof.
      intros Hs. revert e de. induction fuel as [|fuel IH]; simpl;
        intros e de He Hle Hb; [done |].
      apply bind_Return in Hb as (fut & Hfut & Hb).
      destruct fut as [f|].
      - apply bind_Return in Hb as (df & Hdf & Hb).
        apply bind_Return in Hb as (ds' & Hds' & Hb).
        unfold depth_of in Hdf, Hds'.
        destruct (depth self !! f) as [zf|] eqn:Hzf; [| done].
        rewrite Hs in Hds'. simplify_eq.
        case_bool_decide as Hgt.
        + apply create_block_ends in Hb as [-> ->]. split; [done |].
          exists de. split; [done |]. split; [done |]. right. exists f, df. eauto.
        + eapply IH; [exact Hzf | lia | exact Hb].
      - apply create_block_ends in Hb as [-> ->]. split; [done |].
        exists de. eauto.
Qed.

Lemma build_loop_stops fuel s e limit ds de :
      depth self !! s = Some ds → depth self !! e = Some de →
      (Z.to_nat (limit - (de - ds)) < fuel)%nat →
      build_loop fuel self s e limit ≠ OutOfFuel.
Proof.
      intros Hs. revert e de. induction fuel as [|fuel IH]; simpl;
        intros e de He Hfuel; [lia |].
      apply bind_not_OutOfFuel; [apply next_ep_stops |].
      intros [f|] Hfut.
      - unfold depth_of. destruct (depth self !! f) as [zf|] eqn:Hzf; simpl; [| done].
        rewrite Hs. simpl. case_bool_decide as Hgt.
        + apply create_block_stops.
        + assert (de < zf) by by eapply next_ep_deeper.
          eapply IH; [done | lia].
      - apply create_block_stops.
Qed.

    (** When the topological order lists every operation the queries can
        return, no lookup fails. *)
Hypothesis closed_down : ∀ a b : Op,
      a ∈ topo_order → b ∈ get_downstream_operations a → b ∈ topo_order.
Hypothesis closed_opset : ∀ a b x : Op,
      x ∈ opset_matching a b → x ∈ topo_order.

Lemma push_all_total l q :
      (∀ o, o ∈ l → o ∈ topo_order) → ∃ q2, push_all (depth self) l q = Return q2.
Proof.
      revert q. induction l as [|o l IH]; simpl; intros q Hl; [by eexists |].
      destruct (proj1 (built_known o)) as [z Hz]; [apply Hl; left |].
      unfold depth_of. rewrite Hz. simpl. apply IH. intros o' Ho'. apply Hl. by right.
Qed.

Lemma find_multi_input_ep_loop_no_raise fuel q popped e :
      queue_ok (depth self) q →
      (find_multi_input_ep_loop fuel (depth self) q popped).1.1 ≠ Raise e.
Proof.
      revert q popped. induction fuel as [|fuel IH]; simpl; intros q popped Hq; [done |].
      destruct (empty q) eqn:Hemp; [done |].
      destruct (pop_nonempty _ Hemp) as ([zx x] & q1 & Hpop). rewrite Hpop.
      destruct (pop_ok _ _ _ _ Hq Hpop) as (Hq1 & _ & Hin).
      destruct (qo_known _ _ Hq _ _ Hin) as [_ Hzx]. simpl.
      destruct (_ && _); [done |].
      destruct (push_all_total (get_downstream_operations x) q1) as [q2 Hpush].
      { intros o Ho. eapply closed_down; [| exact Ho]. apply built_known. eauto. }
      rewrite Hpush. apply IH. by eapply push_all_ok.
Qed.

Lemma next_ep_total e :
      e ∈ topo_order → ∃ fut, next_ep self e = Return fut.
Proof.
      intros He. destruct (next_ep self e) as [fut|ex|] eqn:Hnext; [by eexists | |].
      - exfalso. revert Hnext. unfold next_ep. case_bool_decide; [done |].
        unfold _find_multi_input_ep, find_multi_input_ep_run, depth_of.
        destruct (proj1 (built_known e) He) as [z0 Hz0]. rewrite Hz0, first_pop.
        match goal with |- context [push_all ?d ?l ?q] =>
          destruct (push_all_total l q) as [q2 Hpush] end.
        { intros o Ho. by eapply closed_down. }
        rewrite Hpush. apply find_multi_input_ep_loop_no_raise.
        eapply push_all_ok; [| exact Hpush].
        split; simpl; [apply NoDup_singleton | | lia].
        intros z o Hin. apply list_elem_of_singleton in Hin. simplify_eq.
        split; [set_solver | done].
      - by apply next_ep_stops in Hnext.
Qed.

Lemma next_ep_known e f :
      e ∈ topo_order → next_ep self e = Return (Some f) → f ∈ topo_order.
Proof.
      unfold next_ep. case_bool_decide; intros He Hf.
      - simplify_eq. eapply closed_down; [exact He |].
        by apply find_coherent_ep_downstream.
      - destruct (find_multi_input_ep_run_trace (depth self) built_depth_grows
                    (S (size (depth self))) self e eq_refl) as [_ Hfound].
        destruct (Hfound _ Hf) as (z0 & z & _ & Hz & _). apply built_known. eauto.
Qed.

Lemma build_loop_no_raise fuel s e limit ex :
      s ∈ topo_order → e ∈ topo_order →
      build_loop fuel self s e limit ≠ Raise ex.
Proof.
      intros Hs. revert e. induction fuel as [|fuel IH]; simpl; intros e He; [done |].
      destruct (next_ep_total e He) as [fut Hfut]. rewrite Hfut. simpl.
      assert (Hblock : create_block self s e ≠ Raise ex).
      { destruct (create_block_total self s e) as [b ->]; [| done].
        intros x Hx. rewrite built_orders. by eapply closed_opset. }
      destruct fut as [f|]; [| done].
      assert (Hf : f ∈ topo_order) by by eapply next_ep_known.
      destruct (proj1 (built_known f) Hf) as [zf Hzf].
      destruct (proj1 (built_known s) Hs) as [zs Hzs].
      unfold depth_of. rewrite Hzf, Hzs. simpl.
      case_bool_decide; [done | by apply IH].
Qed.

(** C6. For a builder made by [BlockBuilder(graph, topo_order)] on a graph
    whose producer and consumer queries agree and whose topological order
    lists every operation, a seed [s] of that order and a limit [d >= 0]:
    [build(s, d)] returns a block [(S, E, M)] within [d + 1] rounds of its
    loop, with [S = s] and [depth[E] - depth[S] <= d]; and [E] is where
    the extension had to stop: from [E] there is no next end point, or
    the next one lies deeper than the bound allows. *)
Theorem build_depth_bounded (s : Op) (limit : Z) :
  s ∈ topo_order → 0 ≤ limit →
  ∃ b ds de,
    build (S (Z.to_nat limit)) self s limit = Return b
    ∧ sp b = s
    ∧ depth self !! s = Some ds
    ∧ depth self !! ep b = Some de
    ∧ de - ds ≤ limit
    ∧ (next_ep self (ep b) = Return None
       ∨ ∃ f df, next_ep self (ep b) = Return (Some f)
                 ∧ depth self !! f = Some df ∧ df - ds > limit).
Proof.
  intros Hs Hlimit.
  destruct (proj1 (built_known s) Hs) as [ds Hds].
  unfold build.
  destruct (build_loop (S (Z.to_nat limit)) self s s limit) as [b|ex|] eqn:Hb.
  - destruct (build_loop_bounded (S (Z.to_nat limit)) s s limit ds ds b Hds Hds) as (Hsp & de & Hde & Hle & Hstop);
      [lia | done |].
    exists b, ds, de. eauto 10.
  - by apply build_loop_no_raise in Hb.
  - eapply build_loop_stops in Hb; [done | exact Hds | exact Hds | lia].
Qed.

End Built.

(** C10. The search for a blocking end point stops on every graph: with
    as many rounds as the depth dictionary has keys, plus one, the loop
    of [_find_multi_input_ep] has answered.  [push] ignores an operation
    that was pushed before, [pop] does not forget it, so the queue never
    holds an operation twice; and for a builder made by
    [BlockBuilder(graph, topo_order)] on a graph whose producer and
    consumer queries agree, no operation is popped twice. *)
Theorem find_multi_input_ep_terminates (topo_order : list Op) self (op : Op) :
  BlockBuilder_init topo_order = Return self →
  (∀ a b : Op, b ∈ get_downstream_operations a → a ∈ get_upstream_operations b) →
  let r := find_multi_input_ep_run (S (size (depth self))) self op in
  _find_multi_input_ep self op = r.1.1
  ∧ r.1.1 ≠ OutOfFuel
  ∧ (∀ z o (q : PriorityQueue Op), o ∈ _ops q → push z o q = q)
  ∧ (∀ (q q1 : PriorityQueue Op) ele, pop q = Return (ele, q1) → _ops q1 = _ops q)
  ∧ NoDup (_data r.1.2).*2
  ∧ NoDup r.2.
Proof.
  intros Hbuilt Hcoh r.
  destruct (find_multi_input_ep_run_stops self op) as [Hstop Hq].
  split; [done |]. split; [done |].
  split; [apply push_seen |].
  split; [intros q q1 ele; apply pop_ops |].
  split; [apply Hq |].
  eapply find_multi_input_ep_run_trace; [| done].
  by apply (built_depth_grows topo_order).
Qed.

End Build.

Section Diamond.
Import Graph Samples.

Lemma opset_matching_registered `{Torch} st a b x :
  x ∈ Search.opset_matching st a b → x ∈ dict_values (operations st).
Proof. unfold Search.opset_matching. by intros [_ ?]%list_elem_of_filter. Qed.

Lemma diamond_built :
  BlockBuilder_init (G := Search.queries diamond) [A; B; C; D]
  = Return (builder_of diamond [A; B; C; D]).
Proof. vm_compute. reflexivity. Qed.

Lemma diamond_coherent (a b : op_ref) :
  b ∈ get_downstream_operations diamond a → a ∈ get_upstream_operations diamond b.
Proof.
  destruct a as [|[|[|[|a]]]]; cbn; intros Hb;
    repeat (apply elem_of_cons in Hb as [->|Hb]; [cbn; set_solver |]);
    by apply elem_of_nil in Hb.
Qed.

Lemma diamond_closed_down (a b : op_ref) :
  a ∈ [A; B; C; D] → b ∈ get_downstream_operations diamond a → b ∈ [A; B; C; D].
Proof.
  intros Ha.
  repeat (apply elem_of_cons in Ha as [->|Ha]; [cbn; set_solver |]).
  by apply elem_of_nil in Ha.
Qed.

Lemma diamond_closed_opset (a b x : op_ref) :
  x ∈ Search.opset_matching diamond a b → x ∈ [A; B; C; D].
Proof. intros Hx. by apply opset_matching_registered in Hx. Qed.

(** C1. On the diamond [A → B, A → C, B → D, C → D], where [B] and [C]
    each read one variable and are read by [D] alone, [build(A, limit=3)]
    returns the block [S = A], [E = D], [M = [A, B, C, D]], [M] in the
    order of the topological index: with [A, C, B, D] as topological order
    it is [[A, C, B, D]].  The same holds when [A] has one output for each
    branch instead of one shared output. *)
Theorem build_diamond :
  build (G := Search.queries diamond) 4 (builder_of diamond [A; B; C; D]) A 3
  = Return {| sp := A; ep := D; rps := [A; B; C; D] |}
  ∧ build (G := Search.queries diamond) 4 (builder_of diamond [A; C; B; D]) A 3
    = Return {| sp := A; ep := D; rps := [A; C; B; D] |}
  ∧ build (G := Search.queries diamond2) 4 (builder_of diamond2 [A; B; C; D]) A 3
    = Return {| sp := A; ep := D; rps := [A; B; C; D] |}
  ∧ BlockBuilder_init (G := Search.queries diamond) [A; C; B; D]
    = Return (builder_of diamond [A; C; B; D])
  ∧ BlockBuilder_init (G := Search.queries diamond2) [A; B; C; D]
    = Return (builder_of diamond2 [A; B; C; D]).
Proof. repeat split; vm_compute; reflexivity. Qed.

Lemma build_depth_bounded_witness :
  ∃ b ds de,
    build (G := Search.queries diamond) 4 (builder_of diamond [A; B; C; D]) A 3
    = Return b
    ∧ sp b = A
    ∧ depth (builder_of diamond [A; B; C; D]) !! A = Some ds
    ∧ depth (builder_of diamond [A; B; C; D]) !! ep b = Some de
    ∧ de - ds ≤ 3
    ∧ (next_ep (G := Search.queries diamond)
         (builder_of diamond [A; B; C; D]) (ep b) = Return None
       ∨ ∃ f df,
           next_ep (G := Search.queries diamond)
             (builder_of diamond [A; B; C; D]) (ep b) = Return (Some f)
           ∧ depth (builder_of diamond [A; B; C; D]) !! f = Some df
           ∧ df - ds > 3).
Proof.
  apply (build_depth_bounded (G := Search.queries diamond) [A; B; C; D]
           (builder_of diamond [A; B; C; D])
           diamond_built diamond_coherent diamond_closed_down diamond_closed_opset
           A 3).
  - left.
  - lia.
Defined.

Lemma find_multi_input_ep_terminates_witness :
  let r := find_multi_input_ep_run (G := Search.queries diamond) 5
             (builder_of diamond [A; B; C; D]) A in
  _find_multi_input_ep (G := Search.queries diamond)
    (builder_of diamond [A; B; C; D]) A = r.1.1
  ∧ r.1.1 ≠ OutOfFuel
  ∧ (∀ z o (q : PriorityQueue op_ref), o ∈ _ops q → push z o q = q)
  ∧ (∀ (q q1 : PriorityQueue op_ref) ele, pop q = Return (ele, q1) → _ops q1 = _ops q)
  ∧ NoDup (_data r.1.2).*2
  ∧ NoDup r.2.
Proof.
  exact (find_multi_input_ep_terminates (G := Search.queries diamond) [A; B; C; D]
           (builder_of diamond [A; B; C; D]) A diamond_built diamond_coherent).
Defined.

End Diamond.

End TrainingFacts.


(** ** morph.py *)

Module MorphFacts.
Import Graph Morph.

Create Rewrite HintDb state.

(** Reading a field after an assignment. *)
Lemma op_heap_with_op_heap `{Torch} x st : op_heap (with_op_heap x st) = x.
Proof. reflexivity. Qed.

Lemma var_heap_with_op_heap `{Torch} x st : var_heap (with_op_heap x st) = var_heap st.
Proof. reflexivity. Qed.

Lemma next_op_with_op_heap `{Torch} x st : next_op (with_op_heap x st) = next_op st.
Proof. reflexivity. Qed.

Lemma next_var_with_op_heap `{Torch} x st : next_var (with_op_heap x st) = next_var st.
Proof. reflexivity. Qed.

Lemma operations_with_op_heap `{Torch} x st : operations (with_op_heap x st) = operations st.
Proof. reflexivity. Qed.

Lemma variables_with_op_heap `{Torch} x st : variables (with_op_heap x st) = variables st.
Proof. reflexivity. Qed.

Lemma inputs_with_op_heap `{Torch} x st : inputs (with_op_heap x st) = inputs st.
Proof. reflexivity. Qed.

Lemma outputs_with_op_heap `{Torch} x st : outputs (with_op_heap x st) = outputs st.
Proof. reflexivity. Qed.

Lemma log_with_op_heap `{Torch} x st : log (with_op_heap x st) = log st.
Proof. reflexivity. Qed.

Lemma op_heap_with_var_heap `{Torch} x st : op_heap (with_var_heap x st) = op_heap st.
Proof. reflexivity. Qed.

Lemma var_heap_with_var_heap `{Torch} x st : var_heap (with_var_heap x st) = x.
Proof. reflexivity. Qed.

Lemma next_op_with_var_heap `{Torch} x st : next_op (with_var_heap x st) = next_op st.
Proof. reflexivity. Qed.

Lemma next_var_with_var_heap `{Torch} x st : next_var (with_var_heap x st) = next_var st.
Proof. reflexivity. Qed.

Lemma operations_with_var_heap `{Torch} x st : operations (with_var_heap x st) = operations st.
Proof. reflexivity. Qed.

Lemma variables_with_var_heap `{Torch} x st : variables (with_var_heap x st) = variables st.
Proof. reflexivity. Qed.

Lemma inputs_with_var_heap `{Torch} x st : inputs (with_var_heap x st) = inputs st.
Proof. reflexivity. Qed.

Lemma outputs_with_var_heap `{Torch} x st : outputs (with_var_heap x st) = outputs st.
Proof. reflexivity. Qed.

Lemma log_with_var_heap `{Torch} x st : log (with_var_heap x st) = log st.
Proof. reflexivity. Qed.

Lemma op_heap_with_next_op `{Torch} x st : op_heap (with_next_op x st) = op_heap st.
Proof. reflexivity. Qed.

Lemma var_heap_with_next_op `{Torch} x st : var_heap (with_next_op x st) = var_heap st.
Proof. reflexivity. Qed.

Lemma next_op_with_next_op `{Torch} x st : next_op (with_next_op x st) = x.
Proof. reflexivity. Qed.

Lemma next_var_with_next_op `{Torch} x st : next_var (with_next_op x st) = next_var st.
Proof. reflexivity. Qed.

Lemma operations_with_next_op `{Torch} x st : operations (with_next_op x st) = operations st.
Proof. reflexivity. Qed.

Lemma variables_with_next_op `{Torch} x st : variables (with_next_op x st) = variables st.
Proof. reflexivity. Qed.

Lemma inputs_with_next_op `{Torch} x st : inputs (with_next_op x st) = inputs st.
Proof. reflexivity. Qed.

Lemma outputs_with_next_op `{Torch} x st : outputs (with_next_op x st) = outputs st.
Proof. reflexivity. Qed.

Lemma log_with_next_op `{Torch} x st : log (with_next_op x st) = log st.
Proof. reflexivity. Qed.

Lemma op_heap_with_next_var `{Torch} x st : op_heap (with_next_var x st) = op_heap st.
Proof. reflexivity. Qed.

Lemma var_heap_with_next_var `{Torch} x st : var_heap (with_next_var x st) = var_heap st.
Proof. reflexivity. Qed.

Lemma next_op_with_next_var `{Torch} x st : next_op (with_next_var x st) = next_op st.
Proof. reflexivity. Qed.

Lemma next_var_with_next_var `{Torch} x st : next_var (with_next_var x st) = x.
Proof. reflexivity. Qed.

Lemma operations_with_next_var `{Torch} x st : operations (with_next_var x st) = operations st.
Proof. reflexivity. Qed.

Lemma variables_with_next_var `{Torch} x st : variables (with_next_var x st) = variables st.
Proof. reflexivity. Qed.

Lemma inputs_with_next_var `{Torch} x st : inputs (with_next_var x st) = inputs st.
Proof. reflexivity. Qed.

Lemma outputs_with_next_var `{Torch} x st : outputs (with_next_var x st) = outputs st.
Proof. reflexivity. Qed.

Lemma log_with_next_var `{Torch} x st : log (with_next_var x st) = log st.
Proof. reflexivity. Qed.

Lemma op_heap_with_operations `{Torch} x st : op_heap (with_operations x st) = op_heap st.
Proof. reflexivity. Qed.

Lemma var_heap_with_operations `{Torch} x st : var_heap (with_operations x st) = var_heap st.
Proof. reflexivity. Qed.

Lemma next_op_with_operations `{Torch} x st : next_op (with_operations x st) = next_op st.
Proof. reflexivity. Qed.

Lemma next_var_with_operations `{Torch} x st : next_var (with_operations x st) = next_var st.
Proof. reflexivity. Qed.

Lemma operations_with_operations `{Torch} x st : operations (with_operations x st) = x.
Proof. reflexivity. Qed.

Lemma variables_with_operations `{Torch} x st : variables (with_operations x st) = variables st.
Proof. reflexivity. Qed.

Lemma inputs_with_operations `{Torch} x st : inputs (with_operations x st) = inputs st.
Proof. reflexivity. Qed.

Lemma outputs_with_operations `{Torch} x st : outputs (with_operations x st) = outputs st.
Proof. reflexivity. Qed.

Lemma log_with_operations `{Torch} x st : log (with_operations x st) = log st.
Proof. reflexivity. Qed.

Lemma op_heap_with_variables `{Torch} x st : op_heap (with_variables x st) = op_heap st.
Proof. reflexivity. Qed.

Lemma var_heap_with_variables `{Torch} x st : var_heap (with_variables x st) = var_heap st.
Proof. reflexivity. Qed.

Lemma next_op_with_variables `{Torch} x st : next_op (with_variables x st) = next_op st.
Proof. reflexivity. Qed.

Lemma next_var_with_variables `{Torch} x st : next_var (with_variables x st) = next_var st.
Proof. reflexivity. Qed.

Lemma operations_with_variables `{Torch} x st : operations (with_variables x st) = operations st.
Proof. reflexivity. Qed.

Lemma variables_with_variables `{Torch} x st : variables (with_variables x st) = x.
Proof. reflexivity. Qed.

Lemma inputs_with_variables `{Torch} x st : inputs (with_variables x st) = inputs st.
Proof. reflexivity. Qed.

Lemma outputs_with_variables `{Torch} x st : outputs (with_variables x st) = outputs st.
Proof. reflexivity. Qed.

Lemma log_with_variables `{Torch} x st : log (with_variables x st) = log st.
Proof. reflexivity. Qed.

Lemma op_heap_with_inputs `{Torch} x st : op_heap (with_inputs x st) = op_heap st.
Proof. reflexivity. Qed.

Lemma var_heap_with_inputs `{Torch} x st : var_heap (with_inputs x st) = var_heap st.
Proof. reflexivity. Qed.

Lemma next_op_with_inputs `{Torch} x st : next_op (with_inputs x st) = next_op st.
Proof. reflexivity. Qed.

Lemma next_var_with_inputs `{Torch} x st : next_var (with_inputs x st) = next_var st.
Proof. reflexivity. Qed.

Lemma operations_with_inputs `{Torch} x st : operations (with_inputs x st) = operations st.
Proof. reflexivity. Qed.

Lemma variables_with_inputs `{Torch} x st : variables (with_inputs x st) = variables st.
Proof. reflexivity. Qed.

Lemma inputs_with_inputs `{Torch} x st : inputs (with_inputs x st) = x.
Proof. reflexivity. Qed.

Lemma outputs_with_inputs `{Torch} x st : outputs (with_inputs x st) = outputs st.
Proof. reflexivity. Qed.

Lemma log_with_inputs `{Torch} x st : log (with_inputs x st) = log st.
Proof. reflexivity. Qed.

Lemma op_heap_with_outputs `{Torch} x st : op_heap (with_outputs x st) = op_heap st.
Proof. reflexivity. Qed.

Lemma var_heap_with_outputs `{Torch} x st : var_heap (with_outputs x st) = var_heap st.
Proof. reflexivity. Qed.

Lemma next_op_with_outputs `{Torch} x st : next_op (with_outputs x st) = next_op st.
Proof. reflexivity. Qed.

Lemma next_var_with_outputs `{Torch} x st : next_var (with_outputs x st) = next_var st.
Proof. reflexivity. Qed.

Lemma operations_with_outputs `{Torch} x st : operations (with_outputs x st) = operations st.
Proof. reflexivity. Qed.

Lemma variables_with_outputs `{Torch} x st : variables (with_outputs x st) = variables st.
Proof. reflexivity. Qed.

Lemma inputs_with_outputs `{Torch} x st : inputs (with_outputs x st) = inputs st.
Proof. reflexivity. Qed.

Lemma outputs_with_outputs `{Torch} x st : outputs (with_outputs x st) = x.
Proof. reflexivity. Qed.

Lemma log_with_outputs `{Torch} x st : log (with_outputs x st) = log st.
Proof. reflexivity. Qed.

Lemma op_heap_with_log `{Torch} x st : op_heap (with_log x st) = op_heap st.
Proof. reflexivity. Qed.

Lemma var_heap_with_log `{Torch} x st : var_heap (with_log x st) = var_heap st.
Proof. reflexivity. Qed.

Lemma next_op_with_log `{Torch} x st : next_op (with_log x st) = next_op st.
Proof. reflexivity. Qed.

Lemma next_var_with_log `{Torch} x st : next_var (with_log x st) = next_var st.
Proof. reflexivity. Qed.

Lemma operations_with_log `{Torch} x st : operations (with_log x st) = operations st.
Proof. reflexivity. Qed.

Lemma variables_with_log `{Torch} x st : variables (with_log x st) = variables st.
Proof. reflexivity. Qed.

Lemma inputs_with_log `{Torch} x st : inputs (with_log x st) = inputs st.
Proof. reflexivity. Qed.

Lemma outputs_with_log `{Torch} x st : outputs (with_log x st) = outputs st.
Proof. reflexivity. Qed.

Lemma log_with_log `{Torch} x st : log (with_log x st) = x.
Proof. reflexivity. Qed.

#[export] Hint Rewrite
  @op_heap_with_op_heap @var_heap_with_op_heap @next_op_with_op_heap @next_var_with_op_heap
  @operations_with_op_heap @variables_with_op_heap @inputs_with_op_heap @outputs_with_op_heap
  @log_with_op_heap @op_heap_with_var_heap @var_heap_with_var_heap @next_op_with_var_heap
  @next_var_with_var_heap @operations_with_var_heap @variables_with_var_heap @inputs_with_var_heap
  @outputs_with_var_heap @log_with_var_heap @op_heap_with_next_op @var_heap_with_next_op
  @next_op_with_next_op @next_var_with_next_op @operations_with_next_op @variables_with_next_op
  @inputs_with_next_op @outputs_with_next_op @log_with_next_op @op_heap_with_next_var
  @var_heap_with_next_var @next_op_with_next_var @next_var_with_next_var @operations_with_next_var
  @variables_with_next_var @inputs_with_next_var @outputs_with_next_var @log_with_next_var
  @op_heap_with_operations @var_heap_with_operations @next_op_with_operations @next_var_with_operations
  @operations_with_operations @variables_with_operations @inputs_with_operations @outputs_with_operations
  @log_with_operations @op_heap_with_variables @var_heap_with_variables @next_op_with_variables
  @next_var_with_variables @operations_with_variables @variables_with_variables @inputs_with_variables
  @outputs_with_variables @log_with_variables @op_heap_with_inputs @var_heap_with_inputs
  @next_op_with_inputs @next_var_with_inputs @operations_with_inputs @variables_with_inputs
  @inputs_with_inputs @outputs_with_inputs @log_with_inputs @op_heap_with_outputs
  @var_heap_with_outputs @next_op_with_outputs @next_var_with_outputs @operations_with_outputs
  @variables_with_outputs @inputs_with_outputs @outputs_with_outputs @log_with_outputs
  @op_heap_with_log @var_heap_with_log @next_op_with_log @next_var_with_log
  @operations_with_log @variables_with_log @inputs_with_log @outputs_with_log
  @log_with_log
  : state.

Lemma op_heap_update_op `{Torch} r f st : op_heap (update_op r f st) = alter f r (op_heap st).
Proof. reflexivity. Qed.

Lemma op_heap_update_var `{Torch} r f st : op_heap (update_var r f st) = op_heap st.
Proof. reflexivity. Qed.

Lemma op_heap_emit `{Torch} m st : op_heap (emit m st) = op_heap st.
Proof. reflexivity. Qed.

Lemma var_heap_update_op `{Torch} r f st : var_heap (update_op r f st) = var_heap st.
Proof. reflexivity. Qed.

Lemma var_heap_update_var `{Torch} r f st : var_heap (update_var r f st) = alter f r (var_heap st).
Proof. reflexivity. Qed.

Lemma var_heap_emit `{Torch} m st : var_heap (emit m st) = var_heap st.
Proof. reflexivity. Qed.

Lemma next_op_update_op `{Torch} r f st : next_op (update_op r f st) = next_op st.
Proof. reflexivity. Qed.

Lemma next_op_update_var `{Torch} r f st : next_op (update_var r f st) = next_op st.
Proof. reflexivity. Qed.

Lemma next_op_emit `{Torch} m st : next_op (emit m st) = next_op st.
Proof. reflexivity. Qed.

Lemma next_var_update_op `{Torch} r f st : next_var (update_op r f st) = next_var st.
Proof. reflexivity. Qed.

Lemma next_var_update_var `{Torch} r f st : next_var (update_var r f st) = next_var st.
Proof. reflexivity. Qed.

Lemma next_var_emit `{Torch} m st : next_var (emit m st) = next_var st.
Proof. reflexivity. Qed.

Lemma operations_update_op `{Torch} r f st : operations (update_op r f st) = operations st.
Proof. reflexivity. Qed.

Lemma operations_update_var `{Torch} r f st : operations (update_var r f st) = operations st.
Proof. reflexivity. Qed.

Lemma operations_emit `{Torch} m st : operations (emit m st) = operations st.
Proof. reflexivity. Qed.

Lemma variables_update_op `{Torch} r f st : variables (update_op r f st) = variables st.
Proof. reflexivity. Qed.

Lemma variables_update_var `{Torch} r f st : variables (update_var r f st) = variables st.
Proof. reflexivity. Qed.

Lemma variables_emit `{Torch} m st : variables (emit m st) = variables st.
Proof. reflexivity. Qed.

Lemma inputs_update_op `{Torch} r f st : inputs (update_op r f st) = inputs st.
Proof. reflexivity. Qed.

Lemma inputs_update_var `{Torch} r f st : inputs (update_var r f st) = inputs st.
Proof. reflexivity. Qed.

Lemma inputs_emit `{Torch} m st : inputs (emit m st) = inputs st.
Proof. reflexivity. Qed.

Lemma outputs_update_op `{Torch} r f st : outputs (update_op r f st) = outputs st.
Proof. reflexivity. Qed.

Lemma outputs_update_var `{Torch} r f st : outputs (update_var r f st) = outputs st.
Proof. reflexivity. Qed.

Lemma outputs_emit `{Torch} m st : outputs (emit m st) = outputs st.
Proof. reflexivity. Qed.

Lemma log_update_op `{Torch} r f st : log (update_op r f st) = log st.
Proof. reflexivity. Qed.

Lemma log_update_var `{Torch} r f st : log (update_var r f st) = log st.
Proof. reflexivity. Qed.

Lemma log_emit `{Torch} m st : log (emit m st) = log st ++ [m].
Proof. reflexivity. Qed.

#[export] Hint Rewrite
  @op_heap_update_op @op_heap_update_var @op_heap_emit @var_heap_update_op
  @var_heap_update_var @var_heap_emit @next_op_update_op @next_op_update_var
  @next_op_emit @next_var_update_op @next_var_update_var @next_var_emit
  @operations_update_op @operations_update_var @operations_emit @variables_update_op
  @variables_update_var @variables_emit @inputs_update_op @inputs_update_var
  @inputs_emit @outputs_update_op @outputs_update_var @outputs_emit
  @log_update_op @log_update_var @log_emit
  : state.

Section Frame.
Context {torch : Torch}.

(** A computation that only reads. *)
Definition reads_only {A : Type} (m : M A) : Prop :=
  ∀ st, (m st).2 = st ∧ (m st).1 ≠ OutOfFuel.

Lemma reads_only_ret {A : Type} (a : A) : reads_only (ret a).
Proof. by intros st. Qed.

Lemma reads_only_raise {A : Type} (e : exception) : reads_only (raise (A := A) e).
Proof. by intros st. Qed.

Lemma reads_only_get : reads_only get.
Proof. by intros st. Qed.

Lemma reads_only_bind {A B : Type} (m : M A) (k : A → M B) :
  reads_only m → (∀ a, reads_only (k a)) → reads_only (m ≫= k).
Proof.
  intros Hm Hk st. unfold mbind, M_bind, seq.
  destruct (Hm st) as [Hst Hfuel]. destruct (m st) as [[a|e|] st1]; simpl in *; subst.
  - apply Hk.
  - done.
  - done.
Qed.

Lemma reads_only_for_in {A : Type} (l : list A) (body : A → M unit) :
  (∀ x, reads_only (body x)) → reads_only (for_in l body).
Proof.
  intros Hbody. induction l as [|x l IH]; simpl; [apply reads_only_ret |].
  apply reads_only_bind; [apply Hbody | done].
Qed.

Lemma int32_check_stops l : for_each int32_check l ≠ OutOfFuel.
Proof. apply for_each_not_OutOfFuel. by intros [| | | | |]. Qed.

Lemma format_int64_constant_body_reads operation :
  reads_only (format_int64_constant_body operation).
Proof.
  unfold format_int64_constant_body.
  apply reads_only_bind; [apply reads_only_get |]. intros st.
  case_decide; [| apply reads_only_ret].
  apply reads_only_bind.
  { unfold assert. destruct (dict_in _ _); [apply reads_only_ret | apply reads_only_raise]. }
  intros _.
  destruct (dict_get _ _) as [[| | | | |t]|]; try apply reads_only_raise.
  case_decide; [apply reads_only_ret |].
  destruct (tolist t) as [| | | |pvalue|]; try apply reads_only_raise.
  destruct (for_each int32_check pvalue) as [check|e|] eqn:Hcheck.
  - apply reads_only_ret.
  - apply reads_only_raise.
  - by apply int32_check_stops in Hcheck.
Qed.

(** C9. [format_int64_constant] leaves the whole state as it found it,
    whatever the graph and whether it returns or raises: the tensor
    converted to int32 is bound to a local name and never stored. *)
Theorem format_int64_constant_changes_nothing (st : State) :
  (format_int64_constant st).2 = st
  ∧ (format_int64_constant st).1 ≠ OutOfFuel.
Proof.
  apply (reads_only_bind get); [apply reads_only_get |].
  intros st'. apply reads_only_for_in, format_int64_constant_body_reads.
Qed.

End Frame.

Section Replace.
Context {torch : Torch}.

(** What [l[l.index(x)] = y] does to [l], when it does not raise. *)
Fixpoint replace_first (x y : nat) (l : list nat) : list nat :=
  match l with
  | [] => []
  | a :: l' => if decide (a = x) then y :: l' else a :: replace_first x y l'
  end.

Fixpoint count (x : nat) (l : list nat) : nat :=
  match l with
  | [] => 0
  | a :: l' => if decide (a = x) then S (count x l') else count x l'
  end.

Lemma count_cons_eq x l : count x (x :: l) = S (count x l).
Proof. simpl. by rewrite decide_True. Qed.

Lemma count_cons_ne x a l : a ≠ x → count x (a :: l) = count x l.
Proof. intros. simpl. by rewrite decide_False. Qed.

Lemma index_of_insert x y l i :
  index_of x l = Some i → <[i := y]> l = replace_first x y l.
Proof.
  revert i. induction l as [|a l IH]; simpl; intros i Hi; [done |].
  case_decide; [by simplify_eq |].
  destruct (index_of x l) as [j|]; simpl in Hi; simplify_eq. simpl. f_equal. by apply IH.
Qed.

Lemma index_of_count x l : (0 < count x l)%nat → is_Some (index_of x l).
Proof.
  induction l as [|a l IH]; simpl; [lia |]. case_decide; [by eexists |].
  intros Hc. destruct (IH Hc) as [i ->]. by eexists.
Qed.

Lemma count_replace_first x y l :
  x ≠ y → count x (replace_first x y l) = pred (count x l).
Proof.
  intros Hxy. induction l as [|a l IH]; simpl; [done |].
  case_decide; simpl.
  - by rewrite decide_False.
  - by rewrite decide_False.
Qed.

Lemma iter_replace_first_cons x y a l n :
  a ≠ x → Nat.iter n (replace_first x y) (a :: l) = a :: Nat.iter n (replace_first x y) l.
Proof.
  intros Hax. induction n as [|n IH]; simpl; [done |].
  rewrite IH. simpl. by rewrite decide_False.
Qed.

(** Replacing the first [x] as often as [x] occurs replaces them all. *)
Lemma iter_replace_first x y l :
  x ≠ y →
  Nat.iter (count x l) (replace_first x y) l = (λ o, if decide (o = x) then y else o) <$> l.
Proof.
  intros Hxy. induction l as [|a l IH]; simpl; [done |].
  case_decide as Hax.
  - subst a. rewrite Nat.iter_succ_r. simpl. rewrite decide_True by done.
    rewrite iter_replace_first_cons by done. by rewrite IH.
  - rewrite iter_replace_first_cons by done. by rewrite IH.
Qed.

Lemma set_dest_ops_id (v : Variable') : set_dest_ops (dest_ops v) v = v.
Proof. by destruct v. Qed.

(** The loop over the inputs of the replaced operation. *)
Lemma for_in_repoint_dest (X Y : op_ref) (l : list var_ref) (st : State) :
  X ≠ Y →
  (∀ v, count v l ≤ count X (dest_ops (var_heap st v)))%nat →
  ∃ h, for_in l (repoint_dest X Y) st = (Return (), with_var_heap h st)
       ∧ ∀ v, h v = set_dest_ops
                      (Nat.iter (count v l) (replace_first X Y)
                                (dest_ops (var_heap st v)))
                      (var_heap st v).
Proof.
  intros HXY. revert st. induction l as [|u l IH]; intros st Hcount.
  - exists (var_heap st). split; [by destruct st |].
    intros v. simpl. by rewrite set_dest_ops_id.
  - simpl. unfold mbind, M_bind, seq at 1, repoint_dest at 1.
    unfold mbind, M_bind, seq at 1, get at 1.
    destruct (index_of_count X (dest_ops (var_heap st u))) as [i Hi].
    { specialize (Hcount u). rewrite count_cons_eq in Hcount. lia. }
    rewrite Hi. unfold modify at 1.
    set (st1 := update_var u _ st).
    destruct (IH st1) as (h & Hh & Hhv).
    { intros v. specialize (Hcount v). unfold st1, update_var, with_var_heap.
      cbn [var_heap].
      destruct (decide (u = v)) as [->|Hne].
      - rewrite fn_lookup_alter. cbn [dest_ops set_dest_ops].
        rewrite (index_of_insert _ _ _ _ Hi), count_replace_first by done.
        rewrite count_cons_eq in Hcount. lia.
      - rewrite fn_lookup_alter_ne by done.
        rewrite count_cons_ne in Hcount by done. lia. }
    exists h. split; [by rewrite Hh |].
    intros v. rewrite Hhv. unfold st1, update_var, with_var_heap. cbn [var_heap].
    destruct (decide (u = v)) as [->|Hne].
    + rewrite fn_lookup_alter. cbn [dest_ops set_dest_ops].
      by rewrite (index_of_insert _ _ _ _ Hi), Nat.iter_succ_r.
    + by rewrite fn_lookup_alter_ne.
Qed.

(** The loop over the outputs of the replaced operation. *)
Lemma for_in_set_source (Y : op_ref) (l : list var_ref) (st : State) :
  ∃ h, for_in l (λ output_var,
                   modify (update_var output_var (set_source_op (Some Y)))) st
       = (Return (), with_var_heap h st)
       ∧ ∀ v, h v = if decide (v ∈ l) then set_source_op (Some Y) (var_heap st v)
                    else var_heap st v.
Proof.
  revert st. induction l as [|u l IH]; intros st.
  - exists (var_heap st). split; [by destruct st |].
    intros v. rewrite decide_False; [done |]. apply not_elem_of_nil.
  - simpl. unfold mbind, M_bind, seq at 1, modify at 1.
    set (st1 := update_var u _ st).
    destruct (IH st1) as (h & Hh & Hhv).
    exists h. split; [by rewrite Hh |].
    intros v. rewrite Hhv. unfold st1. simpl.
    destruct (decide (u = v)) as [->|Hne].
    + rewrite fn_lookup_alter. rewrite (decide_True (P := v ∈ v :: l)) by left.
      by case_decide.
    + rewrite fn_lookup_alter_ne by done.
      destruct (decide (v ∈ l)) as [Hin|Hin].
      * rewrite decide_True; [done | by right].
      * rewrite decide_False; [done |]. rewrite elem_of_cons. naive_solver.
Qed.

Lemma bind_get {A : Type} (k : State → M A) st : (get ≫= k) st = k st st.
Proof. reflexivity. Qed.

Lemma bind_modify {A : Type} (f : State → State) (k : unit → M A) st :
  (modify f ≫= k) st = k () (f st).
Proof. reflexivity. Qed.

Lemma bind_Return_state {A B : Type} (m : M A) (k : A → M B) st a st1 :
  m st = (Return a, st1) → (m ≫= k) st = k a st1.
Proof. intros Hm. unfold mbind, M_bind, seq. by rewrite Hm. Qed.

Lemma bind_lift_Return {A B : Type} (r : outcome A) (k : A → M B) st a :
  r = Return a → (lift r ≫= k) st = k a st.
Proof. by intros ->. Qed.

Lemma bind_assert_true {B : Type} (c : bool) (k : unit → M B) st :
  c = true → (assert c ≫= k) st = k () st.
Proof. by intros ->. Qed.

Lemma dict_get_elem_of {A : Type} (k : string) (d : dict A) a :
  dict_get k d = Some a → (k, a) ∈ d.
Proof.
  induction d as [|[k' a'] d IH]; simpl; [done |].
  case_decide; intros; simplify_eq; [left | right; by apply IH].
Qed.

Lemma dict_get_dict_set {A : Type} (k : string) (a : A) (d : dict A) :
  dict_get k (dict_set k a d) = Some a.
Proof.
  induction d as [|[k' a'] d IH]; simpl; [by rewrite decide_True |].
  case_decide; simpl; [by rewrite decide_True | by rewrite decide_False].
Qed.

Lemma elem_of_dict_set {A : Type} (k : string) (a : A) (d : dict A) k' a' :
  NoDup d.*1 → (k', a') ∈ dict_set k a d →
  (k' = k ∧ a' = a) ∨ (k' ≠ k ∧ (k', a') ∈ d).
Proof.
  induction d as [|[k0 a0] d IH]; simpl; intros Hnd Hin.
  - apply list_elem_of_singleton in Hin. simplify_eq. by left.
  - apply NoDup_cons in Hnd as [Hk0 Hnd]. case_decide as Hk.
    + subst k0. apply elem_of_cons in Hin as [Hin|Hin]; [simplify_eq; by left |].
      right. split; [| by right].
      intros ->. apply Hk0. by apply (list_elem_of_fmap_2 fst) in Hin.
    + apply elem_of_cons in Hin as [Hin|Hin].
      * simplify_eq. right. split; [done | left].
      * destruct (IH Hnd Hin) as [?|[? ?]]; [by left | right; split; [done | by right]].
Qed.

(** C5. [replace_op(X, Y)] on a name [X] the graph does not have raises
    the lookup error and leaves everything but the log as it was.  On a
    name the graph has, for a replacement [Y] that is another object than
    the operation [x] stored under [X], when [x] is stored under no other
    name and its input variables list it as consumer once for each time
    it reads them: [Y] ends with the inputs, outputs and parameters [x]
    had, in their order; in the consumer lists of these inputs every [x]
    has become [Y]; the outputs have [Y] as producer; the mapping holds
    [Y] under [X] and holds [x] nowhere. *)
Theorem replace_op_rewires (st : State) (name : string) (Y : op_ref) :
  (dict_get name (operations st) = None →
   replace_op name Y st
   = (Raise KeyError,
      emit (error ("Operation " +:+ name +:+ " is not in current graph")) st))
  ∧ (∀ X : op_ref,
       dict_get name (operations st) = Some X →
       X ≠ Y →
       NoDup (operations st).*1 →
       (∀ k, (k, X) ∈ operations st → k = name) →
       (∀ v, v ∈ op_inputs (op_heap st X) →
             count v (op_inputs (op_heap st X)) = count X (dest_ops (var_heap st v))) →
       ∃ st',
         replace_op name Y st = (Return (), st')
         ∧ op_inputs (op_heap st' Y) = op_inputs (op_heap st X)
         ∧ op_outputs (op_heap st' Y) = op_outputs (op_heap st X)
         ∧ parameters st' Y = parameters st X
         ∧ (∀ v, v ∈ op_inputs (op_heap st X) →
                 dest_ops (var_heap st' v)
                 = (λ o, if decide (o = X) then Y else o) <$> dest_ops (var_heap st v))
         ∧ (∀ v, v ∈ op_outputs (op_heap st X) → source_op (var_heap st' v) = Some Y)
         ∧ dict_get name (operations st') = Some Y
         ∧ X ∉ dict_values (operations st')).
Proof.
  split.
  - intros Hget. unfold replace_op. rewrite bind_get, Hget. reflexivity.
  - intros X Hget HXY Hnodup Honce Hcount.
    unfold replace_op. rewrite bind_get, Hget.
    rewrite bind_modify, bind_get, bind_modify, bind_get.
    set (st2 := update_op Y _ (update_op Y _ st)).
    assert (HX2 : op_heap st2 X = op_heap st X).
    { unfold st2, update_op, with_op_heap. cbn [op_heap].
      by rewrite !fn_lookup_alter_ne. }
    assert (HY2 : op_inputs (op_heap st2 Y) = op_inputs (op_heap st X)).
    { unfold st2, update_op, with_op_heap. cbn [op_heap].
      rewrite !fn_lookup_alter. cbn [op_inputs set_op_inputs app].
      by rewrite fn_lookup_alter_ne. }
    destruct (for_in_repoint_dest X Y (op_inputs (op_heap st2 X)) st2 HXY)
      as (h & Hloop & Hh).
    { intros v. rewrite HX2. destruct (decide (v ∈ op_inputs (op_heap st X))) as [Hin|Hin].
      - by rewrite (Hcount v Hin).
      - assert (count v (op_inputs (op_heap st X)) = 0%nat) as ->; [| lia].
        clear -Hin. induction (op_inputs (op_heap st X)) as [|a l IH]; [done |].
        rewrite not_elem_of_cons in Hin. destruct Hin.
        rewrite count_cons_ne by done. by apply IH. }
    rewrite (bind_Return_state _ _ _ _ _ Hloop).
    rewrite bind_modify, bind_get, bind_modify, bind_get.
    set (st5 := update_op Y _ (update_op Y _ (with_var_heap h st2))).
    assert (HX5 : op_heap st5 X = op_heap st X).
    { unfold st5, update_op, with_op_heap, with_var_heap. cbn [op_heap].
      by rewrite !fn_lookup_alter_ne. }
    destruct (for_in_set_source Y (op_outputs (op_heap st5 X)) st5) as (h' & Hloop' & Hh').
    rewrite (bind_Return_state _ _ _ _ _ Hloop'). rewrite HX5 in Hh'.
    eexists. split; [reflexivity |].
    unfold modify, with_operations, with_var_heap. cbn [op_heap var_heap operations fst snd].
    assert (Hvar : ∀ v, is_parameter (h' v) = is_parameter (var_heap st v)
                        ∧ source_op (h' v)
                          = (if decide (v ∈ op_outputs (op_heap st X)) then Some Y
                             else source_op (var_heap st v))
                        ∧ dest_ops (h' v)
                          = Nat.iter (count v (op_inputs (op_heap st X)))
                                     (replace_first X Y) (dest_ops (var_heap st v))).
    { intros v. rewrite Hh'. unfold st5, update_op, with_op_heap, with_var_heap.
      cbn [var_heap]. rewrite Hh, HX2.
      assert (var_heap st2 v = var_heap st v) as -> by done.
      by case_decide. }
    assert (HY5 : op_inputs (op_heap st5 Y) = op_inputs (op_heap st X)
                  ∧ op_outputs (op_heap st5 Y) = op_outputs (op_heap st X)).
    { unfold st5, update_op, with_op_heap, with_var_heap. cbn [op_heap].
      rewrite !fn_lookup_alter. rewrite fn_lookup_alter_ne by done.
      unfold st2, update_op, with_op_heap. cbn [op_heap].
      rewrite !fn_lookup_alter. rewrite !fn_lookup_alter_ne by done.
      done. }
    destruct HY5 as [HY5i HY5o].
    split; [done |]. split; [done |].
    split; [| split; [| split; [| split]]].
    + unfold parameters. cbn [op_heap var_heap]. rewrite HY5i.
      apply list_filter_iff. intros v. by destruct (Hvar v) as [-> _].
    + intros v Hv. destruct (Hvar v) as (_ & _ & ->).
      rewrite (Hcount v Hv). by apply iter_replace_first.
    + intros v Hv. destruct (Hvar v) as (_ & -> & _). by rewrite decide_True.
    + apply dict_get_dict_set.
    + unfold dict_values. intros Hin.
      apply list_elem_of_fmap in Hin as ([k r] & Hr & Hin). simpl in Hr. subst r.
      apply elem_of_dict_set in Hin as [[_ ?]|[Hk Hin]]; [done | | done].
      by apply Hk, Honce.
Qed.

End Replace.

Section Clip.
Context {torch : Torch}.

Lemma clip_defaults : clip_min_default = - (2 ^ 31) ∧ clip_max_default = 2 ^ 31.
Proof. split; reflexivity. Qed.

Lemma dict_in_false {A : Type} (k : string) (d : dict A) :
  dict_in k d = false ↔ k ∉ d.*1.
Proof. unfold dict_in. by rewrite bool_decide_eq_false. Qed.

Lemma dict_in_true {A : Type} (k : string) (d : dict A) :
  dict_in k d = true ↔ k ∈ d.*1.
Proof. unfold dict_in. by rewrite bool_decide_eq_true. Qed.

Lemma dict_in_pop {A : Type} (k : string) (d : dict A) : dict_in k (dict_pop k d) = false.
Proof.
  apply dict_in_false. unfold dict_pop. intros Hin.
  apply list_elem_of_fmap in Hin as ([k' a] & -> & Hin).
  by apply list_elem_of_filter in Hin as [Hk _].
Qed.

Lemma dict_in_pop_ne {A : Type} (k k' : string) (d : dict A) :
  k ≠ k' → dict_in k (dict_pop k' d) = dict_in k d.
Proof.
  intros Hne. unfold dict_in, dict_pop. apply bool_decide_ext.
  rewrite !list_elem_of_fmap. split.
  - intros ([k0 a] & -> & Hin). apply list_elem_of_filter in Hin as [_ Hin].
    by exists (k0, a).
  - intros ([k0 a] & -> & Hin). exists (k0, a). split; [done |].
    apply list_elem_of_filter. split; [| done]. simpl in *. congruence.
Qed.

Lemma dict_pop_absent {A : Type} (k : string) (d : dict A) :
  dict_in k d = false → dict_pop k d = d.
Proof.
  rewrite dict_in_false. unfold dict_pop. intros Hk.
  induction d as [|[k' a] d IH]; [done |].
  rewrite fmap_cons, not_elem_of_cons in Hk. destruct Hk as [Hne Hk].
  rewrite filter_cons_True by (simpl in *; congruence). by rewrite IH.
Qed.

(** The two names [format_clip] gives to the bounds of an operation. *)
Definition clip_names (st : State) (op : op_ref) : list string :=
  [op_name (op_heap st op) +:+ "_min"; op_name (op_heap st op) +:+ "_max"].

(** What an interesting operation looks like afterwards. *)
Definition clip_formatted (st st' : State) (op : op_ref) : Prop :=
  ∃ min_var max_var : var_ref,
    op_inputs (op_heap st' op) = op_inputs (op_heap st op) ++ [min_var; max_var]
    ∧ var_heap st' min_var
      = {| var_name := op_name (op_heap st op) +:+ "_min";
           var_value := default (VInt (- (2 ^ 31)))
                                (dict_get "min" (attributes (op_heap st op)));
           is_parameter := true; source_op := None; dest_ops := [op] |}
    ∧ var_heap st' max_var
      = {| var_name := op_name (op_heap st op) +:+ "_max";
           var_value := default (VInt (2 ^ 31))
                                (dict_get "max" (attributes (op_heap st op)));
           is_parameter := true; source_op := None; dest_ops := [op] |}
    ∧ (op_name (op_heap st op) +:+ "_min", min_var) ∈ variables st'
    ∧ (op_name (op_heap st op) +:+ "_max", max_var) ∈ variables st'
    ∧ ((op_name (op_heap st op) +:+ "_min") ∉ (variables st).*1)
    ∧ ((op_name (op_heap st op) +:+ "_max") ∉ (variables st).*1)
    ∧ attributes (op_heap st' op)
      = dict_pop "max" (dict_pop "min" (attributes (op_heap st op)))
    ∧ dict_in "min" (attributes (op_heap st' op)) = false
    ∧ dict_in "max" (attributes (op_heap st' op)) = false.

Lemma append_variable_fresh (var : var_ref) (st : State) :
  var_name (var_heap st var) ∉ (variables st).*1 →
  append_variable var st
  = (Return (), with_variables (variables st ++ [(var_name (var_heap st var), var)]) st).
Proof.
  intros Hfresh. unfold append_variable.
  by rewrite (proj2 (dict_in_false _ _) Hfresh).
Qed.

Lemma bind_append_variable_fresh {A : Type} (var : var_ref) (k : unit → M A) st :
  var_name (var_heap st var) ∉ (variables st).*1 →
  (append_variable var ≫= k) st
  = k () (with_variables (variables st ++ [(var_name (var_heap st var), var)]) st).
Proof.
  intros Hfresh. apply bind_Return_state. by apply append_variable_fresh.
Qed.

Lemma bind_new_variable {A : Type} (v : Variable') (k : var_ref → M A) st :
  (new_variable v ≫= k) st
  = k (next_var st)
      (with_next_var (S (next_var st))
         (with_var_heap (<[next_var st := v]> (var_heap st)) st)).
Proof. reflexivity. Qed.

Lemma format_clip_body_spec (op : op_ref) (st : State) :
  NoDup ((variables st).*1 ++ clip_names st op) →
  ∃ st',
    format_clip_body op st = (Return (), st')
    ∧ (∀ r, r ≠ op → op_heap st' r = op_heap st r)
    ∧ (∀ r, (r < next_var st)%nat → var_heap st' r = var_heap st r)
    ∧ next_var st' = S (S (next_var st))
    ∧ variables st'
      = variables st ++ [(op_name (op_heap st op) +:+ "_min", next_var st);
                         (op_name (op_heap st op) +:+ "_max", S (next_var st))]
    ∧ operations st' = operations st
    ∧ op_inputs (op_heap st' op)
      = op_inputs (op_heap st op) ++ [next_var st; S (next_var st)]
    ∧ var_heap st' (next_var st)
      = {| var_name := op_name (op_heap st op) +:+ "_min";
           var_value := default (VInt (- (2 ^ 31)))
                                (dict_get "min" (attributes (op_heap st op)));
           is_parameter := true; source_op := None; dest_ops := [op] |}
    ∧ var_heap st' (S (next_var st))
      = {| var_name := op_name (op_heap st op) +:+ "_max";
           var_value := default (VInt (2 ^ 31))
                                (dict_get "max" (attributes (op_heap st op)));
           is_parameter := true; source_op := None; dest_ops := [op] |}
    ∧ attributes (op_heap st' op)
      = dict_pop "max" (dict_pop "min" (attributes (op_heap st op))).
Proof.
  intros Hnd. unfold clip_names in Hnd.
  apply NoDup_app in Hnd as (_ & Hfresh & Hnames).
  assert (Hmin : op_name (op_heap st op) +:+ "_min" ∉ (variables st).*1).
  { intros Hin. eapply Hfresh; [exact Hin | left]. }
  assert (Hmax : op_name (op_heap st op) +:+ "_max" ∉ (variables st).*1).
  { intros Hin. eapply Hfresh; [exact Hin | right; left]. }
  assert (Hne : op_name (op_heap st op) +:+ "_max" ≠ op_name (op_heap st op) +:+ "_min").
  { apply NoDup_cons in Hnames as [Hnot _]. intros Heq. apply Hnot. rewrite Heq. left. }
  unfold format_clip_body. rewrite bind_get, !bind_new_variable.
  autorewrite with state.
  rewrite bind_append_variable_fresh; cycle 1.
  { autorewrite with state. rewrite fn_lookup_insert_ne by lia.
    by rewrite fn_lookup_insert. }
  rewrite bind_append_variable_fresh; cycle 1.
  { autorewrite with state. rewrite !fn_lookup_insert. cbn [var_name].
    rewrite fn_lookup_insert_ne by lia. rewrite fn_lookup_insert. cbn [var_name].
    rewrite fmap_app, not_elem_of_app. split; [done |].
    cbn. by rewrite list_elem_of_singleton. }
  rewrite !bind_modify. unfold modify.
  eexists. split; [reflexivity |].
  autorewrite with state.
  split; [| split; [| split; [| split; [| split]]]].
  - intros r Hr. by rewrite !fn_lookup_alter_ne.
  - intros r Hr. by rewrite !fn_lookup_insert_ne by lia.
  - done.
  - rewrite fn_lookup_insert_ne by lia. rewrite !fn_lookup_insert. cbn [var_name].
    by rewrite <- app_assoc.
  - done.
  - rewrite !fn_lookup_alter. rewrite fn_lookup_insert, fn_lookup_insert_ne by lia.
    rewrite fn_lookup_insert.
    destruct clip_defaults as [-> ->].
    set (o := op_heap st op).
    cbn [op_inputs attributes set_op_inputs set_attributes].
    destruct (dict_in "min" (attributes o)) eqn:Hmin';
      cbn [op_inputs attributes set_op_inputs set_attributes].
    + rewrite dict_in_pop_ne by done.
      destruct (dict_in "max" (attributes o)) eqn:Hmax';
        cbn [op_inputs attributes set_op_inputs set_attributes];
        rewrite <- app_assoc; (split; [done | split; [done | split; [done |]]]);
        [done |].
      rewrite (dict_pop_absent "max"); [done |]. by rewrite dict_in_pop_ne.
    + rewrite (dict_pop_absent "min") by done.
      destruct (dict_in "max" (attributes o)) eqn:Hmax';
        cbn [op_inputs attributes set_op_inputs set_attributes];
        rewrite <- app_assoc; (split; [done | split; [done | split; [done |]]]);
        [done |].
      by rewrite (dict_pop_absent "max").
Qed.

(** The loop of [format_clip], from any state it may have reached. *)
Lemma format_clip_loop (l : list op_ref) (st : State) :
  NoDup l →
  NoDup ((variables st).*1 ++ mjoin (clip_names st <$> l)) →
  ∃ st',
    for_in l format_clip_body st = (Return (), st')
    ∧ (∀ r, r ∉ l → op_heap st' r = op_heap st r)
    ∧ (∀ r, (r < next_var st)%nat → var_heap st' r = var_heap st r)
    ∧ (next_var st ≤ next_var st')%nat
    ∧ (∀ e, e ∈ variables st → e ∈ variables st')
    ∧ operations st' = operations st
    ∧ ∀ op, op ∈ l → clip_formatted st st' op.
Proof.
  revert st. induction l as [|op l IH]; intros st Hl Hnames.
  - exists st. split; [done |]. split; [done |]. split; [done |]. split; [done |].
    split; [done |]. split; [done |]. intros op Hop. by apply elem_of_nil in Hop.
  - apply NoDup_cons in Hl as [Hop Hl].
    rewrite fmap_cons in Hnames. cbn [mjoin list_join] in Hnames.
    rewrite app_assoc in Hnames.
    destruct (format_clip_body_spec op st) as
      (st1 & Hstep & Hops1 & Hvars1 & Hnext1 & Hvariables1 & Hoperations1
       & Hinputs1 & Hmin1 & Hmax1 & Hattrs1).
    { by apply NoDup_app in Hnames as [? _]. }
    assert (Hsame : clip_names st1 <$> l = clip_names st <$> l).
    { apply list_fmap_ext. intros i r Hr. unfold clip_names.
      rewrite Hops1; [done |]. intros ->. apply Hop. by eapply list_elem_of_lookup_2. }
    destruct (IH st1 Hl) as
      (st' & Hloop & Hops & Hvars & Hnext & Hvariables & Hoperations & Hformatted).
    { rewrite Hsame, Hvariables1, fmap_app. exact Hnames. }
    exists st'. split; [| split; [| split; [| split; [| split; [| split]]]]].
    + simpl. by rewrite (bind_Return_state _ _ _ _ _ Hstep).
    + intros r Hr. rewrite not_elem_of_cons in Hr. destruct Hr as [Hr1 Hr2].
      rewrite Hops by done. by apply Hops1.
    + intros r Hr. rewrite Hvars by lia. by apply Hvars1.
    + lia.
    + intros e He. apply Hvariables. rewrite Hvariables1. apply elem_of_app. by left.
    + congruence.
    + intros r Hr. apply elem_of_cons in Hr as [->|Hr].
      * exists (next_var st), (S (next_var st)).
        apply NoDup_app in Hnames as (Hnd1 & _ & _).
        apply NoDup_app in Hnd1 as (_ & Hfresh & _).
        rewrite Hops by done. rewrite !Hvars by lia.
        split; [done |]. split; [done |]. split; [done |].
        split; [apply Hvariables; rewrite Hvariables1; set_solver |].
        split; [apply Hvariables; rewrite Hvariables1; set_solver |].
        split; [intros Hin; eapply Hfresh; [exact Hin | left] |].
        split; [intros Hin; eapply Hfresh; [exact Hin | right; left] |].
        split; [done |].
        rewrite Hattrs1. split.
        -- rewrite dict_in_pop_ne by done. apply dict_in_pop.
        -- apply dict_in_pop.
      * destruct (Hformatted r Hr) as
          (min_var & max_var & Hi & Hvmin & Hvmax & Hrmin & Hrmax & Hfmin & Hfmax
           & Ha & Hamin & Hamax).
        assert (Hr1 : op_heap st1 r = op_heap st r).
        { apply Hops1. intros ->. done. }
        rewrite Hr1 in *.
        exists min_var, max_var.
        split; [done |]. split; [done |]. split; [done |].
        split; [done |]. split; [done |].
        rewrite Hvariables1, fmap_app, !not_elem_of_app in Hfmin, Hfmax.
        by destruct Hfmin, Hfmax.
Qed.

(** C7. On a graph where the names [format_clip] is going to give (the
    operation's name followed by [_min] and by [_max]) are not taken and
    no operation is listed twice: [format_clip] returns, and every Clip
    operation of the graph that carried a [min] or a [max] attribute has
    two more inputs at the end, both parameter variables that the graph
    now owns and that did not exist before, holding the [min] and the
    [max] attribute, or [-2^31] and [+2^31] where the attribute was
    absent; and the operation has neither attribute any more. *)
Theorem format_clip_appends_bounds (st : State) :
  let interested_ops := filter (clip_with_bounds st) (dict_values (operations st)) in
  NoDup interested_ops →
  NoDup ((variables st).*1 ++ mjoin (clip_names st <$> interested_ops)) →
  ∃ st',
    format_clip st = (Return (), st')
    ∧ ∀ op, op ∈ dict_values (operations st) →
            op_type (op_heap st op) = "Clip" →
            dict_in "min" (attributes (op_heap st op)) = true
            ∨ dict_in "max" (attributes (op_heap st op)) = true →
            clip_formatted st st' op.
Proof.
  intros interested_ops Hnd Hnames.
  destruct (format_clip_loop interested_ops st Hnd Hnames)
    as (st' & Hloop & _ & _ & _ & _ & _ & Hformatted).
  exists st'. split.
  - unfold format_clip. by rewrite bind_get.
  - intros op Hop Htype Hattr. apply Hformatted.
    apply list_elem_of_filter. by split.
Qed.

End Clip.

Section Merger.
Context {torch : Torch}.

Abbreviation val := (value Tensor PyFloat).

Lemma for_in_app {A : Type} (l1 l2 : list A) (body : A → M unit) st :
  for_in (l1 ++ l2) body st
  = match for_in l1 body st with
    | (Return _, st1) => for_in l2 body st1
    | other => other
    end.
Proof.
  revert st. induction l1 as [|x l1 IH]; intros st; simpl; [done |].
  unfold mbind, M_bind, seq. destruct (body x st) as [[[]|e|] st1]; [| done | done].
  apply IH.
Qed.

(** C8. When the candidate the pass has arrived at is a pair whose
    computing operation has more than one consumer, or whose
    normalization has more than one producer, the round does nothing but
    emit the diagnostic: every object of the store (so the two operations
    and their variables) and every mapping of the graph is what it was,
    and the pass goes on with the remaining candidates from there. *)
Theorem fuse_bn_skips_shared_pair (st0 st : State) (computing_op bn_op : op_ref)
    (done_paths rest : list (list op_ref)) :
  for_in done_paths fuse_bn_path st0 = (Return (), st) →
  (1 < length (get_downstream_operations st computing_op)
   ∨ 1 < length (get_upstream_operations st bn_op))%nat →
  let st' := emit (can_not_merge st computing_op bn_op) st in
  fuse_bn_path [computing_op; bn_op] st = (Return (), st')
  ∧ for_in (done_paths ++ [computing_op; bn_op] :: rest) fuse_bn_path st0
    = for_in rest fuse_bn_path st'
  ∧ log st' = log st ++ [can_not_merge st computing_op bn_op]
  ∧ op_heap st' = op_heap st
  ∧ var_heap st' = var_heap st
  ∧ operations st' = operations st
  ∧ variables st' = variables st
  ∧ inputs st' = inputs st
  ∧ outputs st' = outputs st.
Proof.
  intros Hdone Hshared st'.
  assert (Hskip : fuse_bn_path [computing_op; bn_op] st = (Return (), st')).
  { unfold fuse_bn_path. rewrite bind_get.
    destruct Hshared as [Hc|Hbn].
    - rewrite (bool_decide_eq_true_2 (_ ≠ 1%nat)) by lia. reflexivity.
    - rewrite (bool_decide_eq_true_2 (length (get_upstream_operations _ _) ≠ 1%nat)) by lia.
      by rewrite orb_true_r. }
  split; [done |]. split; [| done].
  rewrite for_in_app, Hdone. cbn [for_in].
  by rewrite (bind_Return_state _ _ _ _ _ Hskip).
Qed.

Lemma bind_inv {A B : Type} (m : M A) (k : A → M B) st b st' :
  (m ≫= k) st = (Return b, st') →
  ∃ a st1, m st = (Return a, st1) ∧ k a st1 = (Return b, st').
Proof.
  unfold mbind, M_bind, seq. destruct (m st) as [[a|e|] st1]; intros Hk; try done.
  by exists a, st1.
Qed.

Lemma lift_inv {A : Type} (r : outcome A) st a st1 :
  lift r st = (Return a, st1) → r = Return a ∧ st1 = st.
Proof. unfold lift. intros Hr. by simplify_eq. Qed.

Lemma item_inv {A : Type} (l : list A) i a : item l i = Return a → l !! i = Some a.
Proof. unfold item. destruct (l !! i); intros; by simplify_eq. Qed.

(** The size of the zero bias, operator kind by operator kind. *)
Definition zero_bias_of (o : Operation) (w b : val) : Prop :=
  if decide (op_type o = "ConvTranspose") then
    ∃ n, shape w !! 1%nat = Some n
         ∧ b = torch_zeros (mul (VInt n) (dict_get_default "group" (VInt 1) (attributes o)))
  else if bool_decide (op_type o = "Gemm")
          && eq_int (dict_get_default "transB" (VInt 0) (attributes o)) 0 then
    ∃ n, shape w !! 1%nat = Some n ∧ b = torch_zeros (VInt n)
  else
    ∃ n, shape w !! 0%nat = Some n ∧ b = torch_zeros (VInt n).

Lemma zero_bias_zeros (o : Operation) (w b : val) :
  zero_bias o w = Return b → zero_bias_of o w b.
Proof.
  unfold zero_bias, zero_bias_of. case_decide; [| destruct (_ && _)]; intros Hb;
    apply bind_Return in Hb as (n & Hn & Hb); apply item_inv in Hn;
    simplify_eq; by eexists.
Qed.

(** The new weight, operator kind by operator kind: the old one times the
    scale, the scale laid along the output channels. *)
Definition scaled_weight (o : Operation) (w scale w' : val) : Prop :=
  (op_type o = "Conv" ∨ op_type o = "Gemm" ∨ op_type o = "ConvTranspose")
  ∧ (op_type o = "Conv" →
     w' = mul w (reshape scale ([-1] ++ ones (ndim w - 1))))
  ∧ (op_type o = "Gemm" →
     w' = mul w (reshape scale
                   (if truth (dict_get_default "transB" (VInt 0) (attributes o))
                    then [-1; 1] else [1; -1])))
  ∧ (op_type o = "ConvTranspose" →
     ∃ group s0 s1,
       dict_get_default "group" (VInt 1) (attributes o) = VInt group
       ∧ let grouped := mul (reshape w ([group; -1] ++ drop 1 (shape w)))
                            (reshape scale ([group; 1; -1] ++ ones (ndim w - 2))) in
         shape grouped !! 0%nat = Some s0
         ∧ shape grouped !! 1%nat = Some s1
         ∧ w' = reshape grouped ([s0 * s1] ++ drop 2 (shape grouped))).

Lemma fused_weight_scaled (o : Operation) (w scale w' : val) :
  fused_weight o w scale = Return w' → scaled_weight o w scale w'.
Proof.
  unfold fused_weight, scaled_weight. intros Hw.
  case_decide as Hconv.
  { simplify_eq. split; [by left |]. split; [done |].
    split; intros Ht; congruence. }
  case_decide as Hgemm.
  { split; [by right; left |]. split; [intros Ht; congruence |]. split.
    - intros _. destruct (truth _); by simplify_eq.
    - intros Ht. congruence. }
  case_decide as Htrans; [| done].
  split; [by right; right |]. split; [intros ?; congruence |].
  split; [intros ?; congruence |]. intros _.
  destruct (dict_get_default _ _ _) as [|group| | | |]; try done.
  apply bind_Return in Hw as (s0 & Hs0%item_inv & Hw).
  apply bind_Return in Hw as (s1 & Hs1%item_inv & Hw). simplify_eq.
  by exists group, s0, s1.
Qed.

(** The arithmetic of a merger. *)
Lemma folded_parameters_spec (st : State) (computing_op bn_op : op_ref) (w' b' : val) :
  folded_parameters st computing_op bn_op = Return (w', b') →
  ∃ gain shift mean variance : var_ref,
    parameters st bn_op = [gain; shift; mean; variance]
    ∧ ∃ old_weight old_bias : val,
        let epsilon := dict_get_default "epsilon" (VFloat float_1e_5)
                                        (attributes (op_heap st bn_op)) in
        let root := torch_sqrt (add (var_value (var_heap st variance)) epsilon) in
        let scale := truediv (var_value (var_heap st gain)) root in
        match parameters st computing_op with
        | [] => False
        | [weight] =>
            old_weight = var_value (var_heap st weight)
            ∧ zero_bias_of (op_heap st computing_op) old_weight old_bias
        | weight :: bias :: _ =>
            old_weight = var_value (var_heap st weight)
            ∧ old_bias = var_value (var_heap st bias)
        end
        ∧ scaled_weight (op_heap st computing_op) old_weight scale w'
        ∧ b' = add (truediv (mul (var_value (var_heap st gain))
                                 (sub old_bias (var_value (var_heap st mean))))
                            root)
                   (var_value (var_heap st shift)).
Proof.
  intros Hfold. unfold folded_parameters in Hfold.
  apply bind_Return in Hfold as ([] & Hlen & Hfold).
  case_bool_decide as Hfour; [| done]. clear Hlen.
  destruct (parameters st bn_op) as [|gain [|shift [|mean [|variance [|]]]]] eqn:Hparams;
    try done.
  simpl in Hfold.
  apply bind_Return in Hfold as ([old_weight old_bias] & Hwb & Hfold).
  apply bind_Return in Hfold as (w & Hw & Hfold). simplify_eq.
  exists gain, shift, mean, variance. split; [done |].
  exists old_weight, old_bias. simpl in *. split; [| split; [| done]].
  - case_decide as Hone.
    + unfold num_of_parameter in Hone.
      destruct (parameters st computing_op) as [|q0 [|q1 l]]; simpl in *; try lia.
      destruct (var_value (var_heap st q0)) eqn:Hq0; try done.
      apply bind_Return in Hwb as (b & Hb & Hwb). simplify_eq.
      split; [done |]. by eapply zero_bias_zeros.
    + unfold num_of_parameter in Hone.
      destruct (parameters st computing_op) as [|q0 [|q1 l]]; simpl in *; try done.
      by simplify_eq.
  - by apply fused_weight_scaled.
Qed.

(** What the steps of the surgery leave alone: names, kinds, attributes
    and emptiness of the lists of an operation; name, value and parameter
    flag of a variable. *)
Definition keeps (st st' : State) : Prop :=
  (∀ r, op_name (op_heap st' r) = op_name (op_heap st r)
        ∧ op_type (op_heap st' r) = op_type (op_heap st r)
        ∧ attributes (op_heap st' r) = attributes (op_heap st r)
        ∧ (op_inputs (op_heap st r) = [] → op_inputs (op_heap st' r) = [])
        ∧ (op_outputs (op_heap st r) = [] → op_outputs (op_heap st' r) = []))
  ∧ (∀ r, var_name (var_heap st' r) = var_name (var_heap st r)
          ∧ var_value (var_heap st' r) = var_value (var_heap st r)
          ∧ is_parameter (var_heap st' r) = is_parameter (var_heap st r)).

Lemma keeps_refl st : keeps st st.
Proof. by split. Qed.

Lemma keeps_same_heaps st st' :
  op_heap st' = op_heap st → var_heap st' = var_heap st → keeps st st'.
Proof. intros Ho Hv. unfold keeps. by rewrite Ho, Hv. Qed.

Lemma keeps_trans st1 st2 st3 : keeps st1 st2 → keeps st2 st3 → keeps st1 st3.
Proof.
  intros [Ho12 Hv12] [Ho23 Hv23]. split.
  - intros r. destruct (Ho12 r) as (H1 & H2 & H3 & Hi & Ho).
    destruct (Ho23 r) as (H1' & H2' & H3' & Hi' & Ho').
    rewrite H1', H2', H3'. eauto 10.
  - intros r. destruct (Hv12 r) as (H1 & H2 & H3).
    destruct (Hv23 r) as (H1' & H2' & H3'). by rewrite H1', H2', H3'.
Qed.

Lemma keeps_update_var (r : var_ref) (f : Variable' → Variable') st :
  (∀ v, var_name (f v) = var_name v ∧ var_value (f v) = var_value v
        ∧ is_parameter (f v) = is_parameter v) →
  keeps st (update_var r f st).
Proof.
  intros Hf. split; [done |]. intros r'. unfold update_var, with_var_heap.
  cbn [var_heap]. destruct (decide (r = r')) as [->|Hne].
  - rewrite fn_lookup_alter. apply Hf.
  - by rewrite fn_lookup_alter_ne.
Qed.

Lemma keeps_update_op (r : op_ref) (f : Operation → Operation) st :
  (∀ o, op_name (f o) = op_name o ∧ op_type (f o) = op_type o
        ∧ attributes (f o) = attributes o
        ∧ (op_inputs o = [] → op_inputs (f o) = [])
        ∧ (op_outputs o = [] → op_outputs (f o) = [])) →
  keeps st (update_op r f st).
Proof.
  intros Hf. split; [| done]. intros r'. unfold update_op, with_op_heap.
  cbn [op_heap]. destruct (decide (r = r')) as [->|Hne].
  - rewrite fn_lookup_alter. apply Hf.
  - by rewrite fn_lookup_alter_ne.
Qed.

Lemma modify_inv (f : State → State) st a st' :
  modify f st = (Return a, st') → st' = f st.
Proof. unfold modify. intros Hst. by simplify_eq. Qed.

Lemma keeps_for_in {A : Type} (body : A → M unit) (l : list A) st a st' :
  (∀ x s b s', body x s = (Return b, s') → keeps s s') →
  for_in l body st = (Return a, st') → keeps st st'.
Proof.
  intros Hbody. revert st. induction l as [|x l IH]; intros st Hrun.
  - cbn [for_in] in Hrun. unfold ret in Hrun. simplify_eq. apply keeps_refl.
  - cbn [for_in] in Hrun. apply bind_inv in Hrun as (b & st1 & Hx & Hrun).
    eapply keeps_trans; [by eapply Hbody | by apply IH].
Qed.

Lemma keeps_drop_parameter (r : op_ref) (p : var_ref) st a st' :
  drop_parameter r p st = (Return a, st') → keeps st st'.
Proof.
  unfold drop_parameter. rewrite bind_get.
  destruct (is_parameter (var_heap st p));
    [| unfold ret; intros Hst; simplify_eq; apply keeps_refl].
  rewrite bind_modify, bind_get.
  set (st1 := update_var p (set_dest_ops []) st).
  assert (H1 : keeps st st1) by (by apply keeps_update_var).
  destruct (remove_first p (op_inputs (op_heap st1 r))) as [l|] eqn:Hl; [| done].
  rewrite bind_modify, bind_get.
  set (st2 := update_op r (set_op_inputs l) st1).
  assert (H2 : keeps st1 st2).
  { split; [| done]. intros r'. unfold st2, update_op. autorewrite with state.
    destruct (decide (r = r')) as [<-|Hne].
    - rewrite fn_lookup_alter. repeat split; try done.
      intros Ho. rewrite Ho in Hl. done.
    - by rewrite fn_lookup_alter_ne. }
  destruct (dict_in _ _); [| done].
  intros ->%modify_inv.
  eapply keeps_trans; [exact H1 |]. eapply keeps_trans; [exact H2 |].
  by apply keeps_same_heaps.
Qed.

Lemma keeps_remove_operation (r : op_ref) st a st' :
  remove_operation r st = (Return a, st') → keeps st st'.
Proof.
  unfold remove_operation. rewrite bind_get.
  destruct (negb _); [done |]. intros Hrun.
  apply bind_inv in Hrun as ([] & st1 & H1 & Hrun).
  apply keeps_for_in in H1; [| intros; by eapply keeps_drop_parameter].
  rewrite bind_get in Hrun.
  apply bind_inv in Hrun as ([] & st2 & H2 & Hrun).
  apply keeps_for_in in H2; cycle 1.
  { intros x s b s' ->%modify_inv. by apply keeps_update_var. }
  apply bind_inv in Hrun as ([] & st3 & ->%modify_inv & Hrun).
  assert (H3 : keeps st2 (update_op r (set_op_outputs []) st2)).
  { apply keeps_update_op. intros o. by repeat split. }
  rewrite bind_get in Hrun.
  apply bind_inv in Hrun as ([] & st4 & H4 & Hrun).
  apply keeps_for_in in H4; cycle 1.
  { intros x s b s'. unfold forget_consumer. rewrite bind_get.
    destruct (remove_first _ _).
    - intros ->%modify_inv. by apply keeps_update_var.
    - unfold ret. intros Hs. simplify_eq. apply keeps_refl. }
  apply bind_inv in Hrun as ([] & st5 & ->%modify_inv & Hrun).
  assert (H5 : keeps st4 (update_op r (set_op_inputs []) st4)).
  { apply keeps_update_op. intros o. by repeat split. }
  rewrite bind_get in Hrun. apply modify_inv in Hrun as ->.
  eapply keeps_trans; [exact H1 |]. eapply keeps_trans; [exact H2 |].
  eapply keeps_trans; [exact H3 |]. eapply keeps_trans; [exact H4 |].
  eapply keeps_trans; [exact H5 |]. by apply keeps_same_heaps.
Qed.

Lemma keeps_append_operation (r : op_ref) st a st' :
  append_operation r st = (Return a, st') →
  keeps st st'
  ∧ variables st' = variables st
  ∧ dict_get (op_name (op_heap st r)) (operations st') = Some r.
Proof.
  unfold append_operation. destruct (dict_in _ _) eqn:Hin; [done |].
  intros Hst. simplify_eq. split; [by apply keeps_same_heaps |]. split; [done |].
  autorewrite with state. apply dict_in_false in Hin.
  induction (operations st) as [|[k x] d IH]; simpl.
  - by rewrite decide_True.
  - rewrite fmap_cons, not_elem_of_cons in Hin. destruct Hin as [Hk Hin].
    rewrite decide_False by done. by apply IH.
Qed.

Lemma append_variable_heaps (r : var_ref) st a st' :
  append_variable r st = (Return a, st') →
  op_heap st' = op_heap st ∧ var_heap st' = var_heap st
  ∧ operations st' = operations st.
Proof.
  unfold append_variable. destruct (dict_in _ _); [done |].
  intros Hst. by simplify_eq.
Qed.

(** The surgery of a merger, when it goes through. *)
Lemma merge_operations_spec (st st' : State) (computing_op bn_op : op_ref) (w b : val) :
  merge_operations computing_op bn_op w b st = (Return (), st') →
  ∃ input_var output_var : var_ref,
    op_inputs (op_heap st computing_op) !! 0%nat = Some input_var
    ∧ op_outputs (op_heap st bn_op) !! 0%nat = Some output_var
    ∧ dict_get (op_name (op_heap st computing_op)) (operations st') = Some (next_op st)
    ∧ op_name (op_heap st' (next_op st)) = op_name (op_heap st computing_op)
    ∧ op_type (op_heap st' (next_op st)) = op_type (op_heap st computing_op)
    ∧ attributes (op_heap st' (next_op st)) = attributes (op_heap st computing_op)
    ∧ op_inputs (op_heap st' (next_op st)) = [input_var; next_var st; S (next_var st)]
    ∧ op_outputs (op_heap st' (next_op st)) = [output_var]
    ∧ var_value (var_heap st' (next_var st)) = w
    ∧ is_parameter (var_heap st' (next_var st)) = true
    ∧ var_value (var_heap st' (S (next_var st))) = b
    ∧ is_parameter (var_heap st' (S (next_var st))) = true.
Proof.
  intros Hrun. unfold merge_operations in Hrun. rewrite bind_get in Hrun.
  apply bind_inv in Hrun as (merged & st1 & Hnew & Hrun).
  unfold new_operation in Hnew. injection Hnew as <- Hst1.
  apply bind_inv in Hrun as (weight_var & st2 & Hnew & Hrun).
  unfold new_variable in Hnew. injection Hnew as <- Hst2.
  apply bind_inv in Hrun as (bias_var & st3 & Hnew & Hrun).
  unfold new_variable in Hnew. injection Hnew as <- Hst3.
  (* the three new objects, in the state the surgery starts from *)
  assert (Hmerged : op_name (op_heap st3 (next_op st)) = op_name (op_heap st computing_op)
                    ∧ op_type (op_heap st3 (next_op st)) = op_type (op_heap st computing_op)
                    ∧ attributes (op_heap st3 (next_op st))
                      = attributes (op_heap st computing_op)
                    ∧ op_inputs (op_heap st3 (next_op st)) = []
                    ∧ op_outputs (op_heap st3 (next_op st)) = []).
  { rewrite <- Hst3, <- Hst2, <- Hst1. autorewrite with state. by rewrite fn_lookup_insert. }
  assert (Hweight : var_value (var_heap st3 (next_var st)) = w
                    ∧ is_parameter (var_heap st3 (next_var st)) = true).
  { rewrite <- Hst3, <- Hst2, <- Hst1. autorewrite with state.
    rewrite fn_lookup_insert_ne by lia. by rewrite fn_lookup_insert. }
  assert (Hbias : var_value (var_heap st3 (S (next_var st))) = b
                  ∧ is_parameter (var_heap st3 (S (next_var st))) = true).
  { rewrite <- Hst3, <- Hst2, <- Hst1. autorewrite with state.
    by rewrite fn_lookup_insert. }
  assert (Hnv2 : next_var st2 = S (next_var st)) by (by rewrite <- Hst2, <- Hst1).
  assert (Hnv1 : next_var st1 = next_var st) by (by rewrite <- Hst1).
  rewrite Hnv2, Hnv1 in Hrun. clear Hst1 Hst2 Hst3 Hnv1 Hnv2 st1 st2.
  apply bind_inv in Hrun as (input_var & st4 & Hin & Hrun).
  apply lift_inv in Hin as [Hin%item_inv ->].
  apply bind_inv in Hrun as (output_var & st4 & Hout & Hrun).
  apply lift_inv in Hout as [Hout%item_inv ->].
  rewrite bind_get in Hrun.
  apply bind_inv in Hrun as ([] & st4 & Hidx & Hrun).
  assert (H34 : keeps st3 st4).
  { destruct (index_of _ _); [| done]. apply modify_inv in Hidx as ->.
    by apply keeps_update_var. }
  clear Hidx.
  apply bind_inv in Hrun as ([] & st5 & ->%modify_inv & Hrun).
  assert (H45 := keeps_update_var input_var
                   (λ v, set_dest_ops (dest_ops v ++ [next_op st]) v) st4
                   (λ v, conj eq_refl (conj eq_refl eq_refl))).
  apply bind_inv in Hrun as ([] & st6 & ->%modify_inv & Hrun).
  assert (H56 := keeps_update_var output_var (set_source_op (Some (next_op st)))
                   (update_var input_var
                      (λ v, set_dest_ops (dest_ops v ++ [next_op st]) v) st4)
                   (λ v, conj eq_refl (conj eq_refl eq_refl))).
  assert (H36 := keeps_trans _ _ _ H34 (keeps_trans _ _ _ H45 H56)).
  clear H34 H45 H56. revert Hrun H36.
  generalize (update_var output_var (set_source_op (Some (next_op st)))
                (update_var input_var
                   (λ v, set_dest_ops (dest_ops v ++ [next_op st]) v) st4)).
  clear st4. intros st6 Hrun H36.
  apply bind_inv in Hrun as ([] & st7 & ->%modify_inv & Hrun).
  assert (H67 : keeps st6 (update_op computing_op
                             (λ o, set_op_inputs (drop 1 (op_inputs o)) o) st6)).
  { apply keeps_update_op. intros o. repeat split; try done.
    cbn. by intros ->. }
  apply bind_inv in Hrun as ([] & st8 & ->%modify_inv & Hrun).
  assert (H78 := keeps_update_op bn_op (set_op_outputs [])
                   (update_op computing_op
                      (λ o, set_op_inputs (drop 1 (op_inputs o)) o) st6)
                   (λ o, conj eq_refl (conj eq_refl (conj eq_refl
                           (conj (λ H, H) (λ _, eq_refl)))))).
  assert (H38 := keeps_trans _ _ _ H36 (keeps_trans _ _ _ H67 H78)).
  clear H36 H67 H78. revert Hrun H38.
  generalize (update_op bn_op (set_op_outputs [])
                (update_op computing_op
                   (λ o, set_op_inputs (drop 1 (op_inputs o)) o) st6)).
  clear st6. intros st8 Hrun H38.
  apply bind_inv in Hrun as ([] & st9 & Hrm1%keeps_remove_operation & Hrun).
  apply bind_inv in Hrun as ([] & st10 & Hrm2%keeps_remove_operation & Hrun).
  apply bind_inv in Hrun as ([] & st11 & Hao & Hrun).
  apply keeps_append_operation in Hao as (Hao & _ & Hget).
  assert (H310 := keeps_trans _ _ _ H38 (keeps_trans _ _ _ Hrm1 Hrm2)).
  assert (H311 := keeps_trans _ _ _ H310 Hao).
  clear H38 Hrm1 Hrm2 Hao st8 st9.
  destruct H310 as [Hops10 _]. destruct (Hops10 (next_op st)) as (Hname10 & _).
  rewrite Hname10 in Hget. destruct Hmerged as (Hname & Htype & Hattrs & Hins & Houts).
  rewrite Hname in Hget. clear Hops10 Hname10 st10.
  destruct H311 as [Hops11 Hvars11].
  destruct (Hops11 (next_op st)) as (Hname11 & Htype11 & Hattrs11 & Hins11 & Houts11).
  apply bind_inv in Hrun as ([] & st12 & ->%modify_inv & Hrun).
  apply bind_inv in Hrun as ([] & st13 & ->%modify_inv & Hrun).
  apply bind_inv in Hrun as ([] & st14 & Hav1 & Hrun).
  apply append_variable_heaps in Hav1 as (Hops14 & Hvars14 & Hoperations14).
  apply append_variable_heaps in Hrun as (Hops' & Hvars' & Hoperations').
  exists input_var, output_var. split; [done |]. split; [done |].
  rewrite Hoperations', Hoperations14, Hops', Hops14, Hvars', Hvars14.
  autorewrite with state. rewrite !fn_lookup_alter.
  cbn [op_name op_type attributes op_inputs op_outputs set_op_inputs set_op_outputs].
  rewrite Hname11, Htype11, Hattrs11, Hname, Htype, Hattrs.
  rewrite (Hins11 Hins), (Houts11 Houts).
  destruct (Hvars11 (next_var st)) as (_ & -> & ->).
  destruct (Hvars11 (S (next_var st))) as (_ & -> & ->).
  destruct Hweight as [-> ->], Hbias as [-> ->].
  repeat split; done.
Qed.

(** C2. For a pair (computing operation, normalization) that [fuse_bn]
    merges (the round neither skips the pair nor raises): the
    normalization has the four parameters gain, shift, mean and variance,
    in this order; with [epsilon] its attribute, or [1e-5] when it has
    none, [root = sqrt(variance + epsilon)] and [scale = gain / root];
    with the old weight the first parameter of the computing operation
    and the old bias its second parameter, or a tensor of zeros as long
    as the output channels when it has one parameter only: the merged
    operation is a Conv, Gemm or ConvTranspose, entered in the graph
    under the name of the computing operation, whose inputs are the input
    of the computing operation and two parameters, a weight and a bias,
    with [weight = old_weight * scale] ([scale] laid along the output
    channels, and for ConvTranspose the weight reshaped by groups and
    back) and [bias = gain * (old_bias - mean) / root + shift], the
    product divided by the root; this is [scale * (old_bias - mean) +
    shift] in an arithmetic where [(a * x) / s] and [(a / s) * x] are the
    same. *)
Theorem fuse_bn_folds (st st' : State) (computing_op bn_op : op_ref) :
  length (get_downstream_operations st computing_op) = 1%nat →
  length (get_upstream_operations st bn_op) = 1%nat →
  fuse_bn_path [computing_op; bn_op] st = (Return (), st') →
  ∃ gain shift mean variance : var_ref,
    parameters st bn_op = [gain; shift; mean; variance]
    ∧ ∃ (old_weight old_bias : val) (merged_op : op_ref)
        (input_var weight_var bias_var : var_ref),
        let epsilon := dict_get_default "epsilon" (VFloat float_1e_5)
                                        (attributes (op_heap st bn_op)) in
        let root := torch_sqrt (add (var_value (var_heap st variance)) epsilon) in
        let scale := truediv (var_value (var_heap st gain)) root in
        let kind := op_type (op_heap st computing_op) in
        match parameters st computing_op with
        | [] => False
        | [weight] =>
            old_weight = var_value (var_heap st weight)
            ∧ zero_bias_of (op_heap st computing_op) old_weight old_bias
        | weight :: bias :: _ =>
            old_weight = var_value (var_heap st weight)
            ∧ old_bias = var_value (var_heap st bias)
        end
        ∧ dict_get (op_name (op_heap st computing_op)) (operations st') = Some merged_op
        ∧ op_type (op_heap st' merged_op) = kind
        ∧ op_inputs (op_heap st computing_op) !! 0%nat = Some input_var
        ∧ op_inputs (op_heap st' merged_op) = [input_var; weight_var; bias_var]
        ∧ parameters st' merged_op
          = filter (λ v, is_parameter (var_heap st' v) = true) [input_var]
            ++ [weight_var; bias_var]
        ∧ scaled_weight (op_heap st computing_op) old_weight scale
                        (var_value (var_heap st' weight_var))
        ∧ var_value (var_heap st' bias_var)
          = add (truediv (mul (var_value (var_heap st gain))
                              (sub old_bias (var_value (var_heap st mean))))
                         root)
                (var_value (var_heap st shift))
        ∧ ((∀ a x s : val, truediv (mul a x) s = mul (truediv a s) x) →
           var_value (var_heap st' bias_var)
           = add (mul scale (sub old_bias (var_value (var_heap st mean))))
                 (var_value (var_heap st shift))).
Proof.
  intros Hdown Hup Hrun.
  unfold fuse_bn_path in Hrun. rewrite bind_get in Hrun.
  rewrite !bool_decide_eq_false_2 in Hrun by (intros Hne; by apply Hne).
  cbn [orb] in Hrun.
  apply bind_inv in Hrun as ([w' b'] & st1 & Hfold & Hrun).
  apply lift_inv in Hfold as [Hfold ->]. cbn [fst snd] in Hrun.
  destruct (folded_parameters_spec _ _ _ _ _ Hfold)
    as (gain & shift & mean & variance & Hparams & old_weight & old_bias
        & Hold & Hweight & Hbias).
  destruct (merge_operations_spec _ _ _ _ _ _ Hrun)
    as (input_var & output_var & Hin & Hout & Hget & Hname & Htype & Hattrs
        & Hinputs & Houtputs & Hw & Hwp & Hb & Hbp).
  exists gain, shift, mean, variance. split; [done |].
  exists old_weight, old_bias, (next_op st), input_var, (next_var st), (S (next_var st)).
  cbn zeta. rewrite Hw, Hb.
  split; [done |]. split; [done |]. split; [done |]. split; [done |].
  split; [done |]. split; [| split; [done | split; [done |]]].
  - unfold parameters at 1. rewrite Hinputs.
    change [input_var; next_var st; S (next_var st)]
      with ([input_var] ++ [next_var st; S (next_var st)]).
    rewrite filter_app. f_equal.
    rewrite filter_cons_True by done. by rewrite filter_cons_True.
  - intros Hexact. rewrite Hbias. by rewrite Hexact.
Qed.

End Merger.

Section ReplaceSample.
Import Samples.

Lemma pair_eta_fst {A B : Type} (p : A * B) (a : A) : p.1 = a → p = (a, p.2).
Proof. destruct p. simpl. by intros ->. Qed.

(** Exact arithmetic divides a product as it multiplies a quotient. *)
Lemma exact_truediv_mul (a x s : value Qc Qc) :
  truediv (mul a x) s = mul (truediv a s) x.
Proof.
  cbn. unfold binop.
  destruct (number a) as [qa|], (number x) as [qx|], (number s) as [qs|]; cbn;
    try reflexivity.
  f_equal. unfold Qcdiv. ring.
Qed.

Lemma fuse_bn_folds_witness :
  let st := conv_bn in
  let st' := (fuse_bn_path [0; 1]%nat conv_bn).2 in
  ∃ gain shift mean variance : var_ref,
    parameters st 1%nat = [gain; shift; mean; variance]
    ∧ ∃ (old_weight old_bias : value Qc Qc) (merged_op : op_ref)
        (input_var weight_var bias_var : var_ref),
        let epsilon := dict_get_default "epsilon" (VFloat float_1e_5)
                                        (attributes (op_heap st 1%nat)) in
        let root := torch_sqrt (add (var_value (var_heap st variance)) epsilon) in
        let scale := truediv (var_value (var_heap st gain)) root in
        let kind := op_type (op_heap st 0%nat) in
        match parameters st 0%nat with
        | [] => False
        | [weight] =>
            old_weight = var_value (var_heap st weight)
            ∧ zero_bias_of (op_heap st 0%nat) old_weight old_bias
        | weight :: bias :: _ =>
            old_weight = var_value (var_heap st weight)
            ∧ old_bias = var_value (var_heap st bias)
        end
        ∧ dict_get (op_name (op_heap st 0%nat)) (operations st') = Some merged_op
        ∧ op_type (op_heap st' merged_op) = kind
        ∧ op_inputs (op_heap st 0%nat) !! 0%nat = Some input_var
        ∧ op_inputs (op_heap st' merged_op) = [input_var; weight_var; bias_var]
        ∧ parameters st' merged_op
          = filter (λ v, is_parameter (var_heap st' v) = true) [input_var]
            ++ [weight_var; bias_var]
        ∧ scaled_weight (op_heap st 0%nat) old_weight scale
                        (var_value (var_heap st' weight_var))
        ∧ var_value (var_heap st' bias_var)
          = add (truediv (mul (var_value (var_heap st gain))
                              (sub old_bias (var_value (var_heap st mean))))
                         root)
                (var_value (var_heap st shift))
        ∧ ((∀ a x s : value Qc Qc, truediv (mul a x) s = mul (truediv a s) x) →
           var_value (var_heap st' bias_var)
           = add (mul scale (sub old_bias (var_value (var_heap st mean))))
                 (var_value (var_heap st shift))).
Proof.
  apply (fuse_bn_folds conv_bn (fuse_bn_path [0; 1]%nat conv_bn).2 0%nat 1%nat).
  - reflexivity.
  - reflexivity.
  - apply pair_eta_fst. vm_compute. reflexivity.
Defined.

(** In the arithmetic of the machine the bias is not
    [scale * (old_bias - mean) + shift]: with gain 1, bias 3, mean 0,
    shift 0 and root 10 the pass stores [(1 * 3) / 10], and
    [(1 / 10) * 3] is another number. *)
Lemma fuse_bn_counterexample :
  let st := FloatSamples.float_conv_bn in
  let st' := (fuse_bn st).2 in
  let value v := var_value (var_heap st v) in
  let epsilon := dict_get_default "epsilon" (VFloat float_1e_5)
                                  (attributes (op_heap st 1%nat)) in
  let scale := truediv (value 4%nat) (torch_sqrt (add (value 7%nat) epsilon)) in
  (fuse_bn st).1 = Return ()
  ∧ path_matching st = [[0; 1]%nat]
  ∧ parameters st 0%nat = [1; 2]%nat
  ∧ parameters st 1%nat = [4; 5; 6; 7]%nat
  ∧ dict_get "conv1" (operations st') = Some 2%nat
  ∧ op_inputs (op_heap st' 2%nat) = [0; 9; 10]%nat
  ∧ var_value (var_heap st' 10%nat)
    ≠ add (mul scale (sub (value 2%nat) (value 6%nat))) (value 5%nat).
Proof.
  repeat split; try (vm_compute; reflexivity).
  intros H.
  apply (f_equal (λ v : value float float,
                    match v with
                    | VTensor t => PrimFloat.eqb t (3 / 10)%float
                    | _ => false
                    end)) in H.
  vm_compute in H. discriminate H.
Qed.

Lemma fuse_bn_skips_shared_pair_witness :
  let st := conv_bn_shared in
  let st' := emit (can_not_merge st 0%nat 1%nat) st in
  fuse_bn_path [0; 1]%nat st = (Return (), st')
  ∧ for_in ([] ++ [[0; 1]%nat]) fuse_bn_path st = for_in [] fuse_bn_path st'
  ∧ log st' = log st ++ [can_not_merge st 0%nat 1%nat]
  ∧ op_heap st' = op_heap st
  ∧ var_heap st' = var_heap st
  ∧ operations st' = operations st
  ∧ variables st' = variables st
  ∧ inputs st' = inputs st
  ∧ outputs st' = outputs st.
Proof.
  apply (fuse_bn_skips_shared_pair conv_bn_shared conv_bn_shared 0%nat 1%nat [] []).
  - reflexivity.
  - left. vm_compute. lia.
Defined.

(** The merged sample: the weight [3] becomes [3 * (6 / 2) = 9], the bias
    [2] becomes [3 * (2 - 1) + 5 = 8]. *)
Example fuse_bn_sample :
  let st' := (fuse_bn conv_bn).2 in
  (fuse_bn conv_bn).1 = Return ()
  ∧ (operations st').*1 = ["conv1"]
  ∧ op_inputs (op_heap st' 2%nat) = [0; 9; 10]%nat
  ∧ op_outputs (op_heap st' 2%nat) = [8%nat]
  ∧ number (var_value (var_heap st' 9%nat)) = Some (Q2Qc 9)
  ∧ number (var_value (var_heap st' 10%nat)) = Some (Q2Qc 8).
Proof. repeat split; vm_compute; reflexivity. Qed.

Lemma format_clip_appends_bounds_witness :
  ∃ st',
    format_clip clip_graph = (Return (), st')
    ∧ ∀ op, op ∈ dict_values (operations clip_graph) →
            op_type (op_heap clip_graph op) = "Clip" →
            dict_in "min" (attributes (op_heap clip_graph op)) = true
            ∨ dict_in "max" (attributes (op_heap clip_graph op)) = true →
            clip_formatted clip_graph st' op.
Proof.
  apply (format_clip_appends_bounds clip_graph).
  - apply (bool_decide_unpack _). vm_compute. exact I.
  - apply (bool_decide_unpack _). vm_compute. exact I.
Defined.

Example format_clip_sample :
  let st' := (format_clip clip_graph).2 in
  (format_clip clip_graph).1 = Return ()
  ∧ op_inputs (op_heap st' 1%nat) = [1; 3; 4]%nat
  ∧ var_value (var_heap st' 3%nat) = VInt 0
  ∧ var_value (var_heap st' 4%nat) = VInt 2147483648
  ∧ attributes (op_heap st' 1%nat) = []
  ∧ (variables st').*1 = ["x"; "r"; "y"; "clip1_min"; "clip1_max"].
Proof. repeat split; vm_compute; reflexivity. Qed.

Lemma replace_op_rewires_witness :
  replace_op "E" 4%nat diamond
  = (Raise KeyError,
     emit (error ("Operation " +:+ "E" +:+ " is not in current graph")) diamond)
  ∧ ∃ st',
      replace_op "B" 4%nat diamond = (Return (), st')
      ∧ op_inputs (op_heap st' 4%nat) = op_inputs (op_heap diamond B)
      ∧ op_outputs (op_heap st' 4%nat) = op_outputs (op_heap diamond B)
      ∧ parameters st' 4%nat = parameters diamond B
      ∧ (∀ v, v ∈ op_inputs (op_heap diamond B) →
              dest_ops (var_heap st' v)
              = (λ o, if decide (o = B) then 4%nat else o) <$> dest_ops (var_heap diamond v))
      ∧ (∀ v, v ∈ op_outputs (op_heap diamond B) → source_op (var_heap st' v) = Some 4%nat)
      ∧ dict_get "B" (operations st') = Some 4%nat
      ∧ B ∉ dict_values (operations st').
Proof.
  split.
  - apply (proj1 (replace_op_rewires diamond "E" 4%nat)). reflexivity.
  - apply (proj2 (replace_op_rewires diamond "B" 4%nat) B).
    + reflexivity.
    + discriminate.
    + apply (bool_decide_unpack _). vm_compute. exact I.
    + intros k Hk. cbn in Hk.
      repeat (apply elem_of_cons in Hk as [Hk|Hk]; [by simplify_eq |]).
      by apply elem_of_nil in Hk.
    + intros v Hv. cbn in Hv. apply list_elem_of_singleton in Hv. subst v. reflexivity.
Defined.

End ReplaceSample.

End MorphFacts.

(** ** Removal of isolated nodes and truncation *)

Module IsolationFacts.
Import Graph Morph MorphFacts.

Section Removal.
Context {torch : Torch}.
#[local] Open Scope nat_scope.

(** *** Dictionaries *)

Lemma elem_of_dict_pop {A : Type} (k : string) (d : dict A) k' a :
  (k', a) ∈ dict_pop k d ↔ k' ≠ k ∧ (k', a) ∈ d.
Proof. unfold dict_pop. by rewrite list_elem_of_filter. Qed.

Lemma NoDup_dict_pop {A : Type} (k : string) (d : dict A) :
  NoDup d.*1 → NoDup (dict_pop k d).*1.
Proof.
  unfold dict_pop. induction d as [|[k' a] d IH]; [done |].
  rewrite fmap_cons, NoDup_cons. intros [Hk' Hnd].
  destruct (decide (k' = k)) as [->|Hne].
  - rewrite filter_cons_False by (simpl; tauto). by apply IH.
  - rewrite filter_cons_True by done. rewrite fmap_cons. apply NoDup_cons.
    split; [| by apply IH]. simpl. intros Hin. apply Hk'.
    apply list_elem_of_fmap in Hin as ([k0 a0] & -> & Hin).
    apply list_elem_of_filter in Hin as [_ Hin].
    by apply (list_elem_of_fmap_2 fst) in Hin.
Qed.

Lemma dict_functional {A : Type} (d : dict A) k a b :
  NoDup d.*1 → (k, a) ∈ d → (k, b) ∈ d → a = b.
Proof.
  induction d as [|[k' c] d IH]; [by intros _ ?%elem_of_nil |].
  rewrite fmap_cons, NoDup_cons, !elem_of_cons. intros [Hk Hnd] [Ha|Ha] [Hb|Hb].
  - congruence.
  - simplify_eq. destruct Hk. by apply (list_elem_of_fmap_2 fst) in Hb.
  - simplify_eq. destruct Hk. by apply (list_elem_of_fmap_2 fst) in Ha.
  - by apply IH.
Qed.

Lemma length_dict_pop {A : Type} (k : string) (d : dict A) a :
  (k, a) ∈ d → length (dict_pop k d) < length d.
Proof.
  intros Hin. unfold dict_pop.
  apply (length_filter_lt _ _ (k, a)); [done |]. simpl. tauto.
Qed.

Lemma length_dict_pop_le {A : Type} (k : string) (d : dict A) :
  length (dict_pop k d) ≤ length d.
Proof. apply length_filter. Qed.

Lemma elem_of_dict_set_same {A : Type} (k : string) (a : A) (d : dict A) :
  (k, a) ∈ dict_set k a d.
Proof.
  induction d as [|[k' a'] d IH]; simpl; [left |].
  case_decide; [left | by right].
Qed.

Lemma elem_of_dict_values {A : Type} (d : dict A) a :
  a ∈ dict_values d ↔ ∃ k, (k, a) ∈ d.
Proof.
  unfold dict_values. rewrite list_elem_of_fmap. split.
  - intros ([k a'] & -> & Hin). by exists k.
  - intros [k Hin]. by exists (k, a).
Qed.

(** *** The state after a removal *)

Lemma remove_variable_registered x st :
  dict_in (var_name (var_heap st x)) (variables st) = true →
  remove_variable x st = (Return (), without_variable x st).
Proof. unfold remove_variable. by intros ->. Qed.

Lemma op_heap_without_variable x st r :
  op_heap (without_variable x st) r = unlink_var x (op_heap st r).
Proof. reflexivity. Qed.

Lemma var_heap_without_variable x st :
  var_heap (without_variable x st)
  = alter (λ y, set_source_op None (set_dest_ops [] y)) x (var_heap st).
Proof. reflexivity. Qed.

Lemma operations_without_variable x st :
  operations (without_variable x st) = operations st.
Proof. reflexivity. Qed.

Lemma variables_without_variable x st :
  variables (without_variable x st)
  = dict_pop (var_name (var_heap st x)) (variables st).
Proof. reflexivity. Qed.

Lemma inputs_without_variable x st :
  inputs (without_variable x st) = dict_pop (var_name (var_heap st x)) (inputs st).
Proof. reflexivity. Qed.

Lemma outputs_without_variable x st :
  outputs (without_variable x st) = dict_pop (var_name (var_heap st x)) (outputs st).
Proof. reflexivity. Qed.

(** *** Well-formed graphs

    The invariants of the data model that the removal passes rely on:
    names are unique keys and every object is stored under its own name;
    the outputs of an operation of the graph are variables of the graph
    and name it as their producer; the producer of a variable of the
    graph is an operation of the graph that lists it among its outputs;
    the consumers of a variable of the graph are operations of the
    graph. *)

Definition op_in (st : State) (o : op_ref) : Prop :=
  (op_name (op_heap st o), o) ∈ operations st.

Definition var_in (st : State) (x : var_ref) : Prop :=
  (var_name (var_heap st x), x) ∈ variables st.

Record well_formed (st : State) : Prop := {
  wf_operations_nodup : NoDup (operations st).*1;
  wf_operations_named :
    ∀ k o, (k, o) ∈ operations st → op_name (op_heap st o) = k;
  wf_variables_nodup : NoDup (variables st).*1;
  wf_variables_named :
    ∀ k x, (k, x) ∈ variables st → var_name (var_heap st x) = k;
  wf_outputs :
    ∀ o x, op_in st o → x ∈ op_outputs (op_heap st o) →
           var_in st x ∧ source_op (var_heap st x) = Some o;
  wf_source :
    ∀ x s, var_in st x → source_op (var_heap st x) = Some s →
           op_in st s ∧ x ∈ op_outputs (op_heap st s);
  wf_dest :
    ∀ x d, var_in st x → d ∈ dest_ops (var_heap st x) → op_in st d
}.

Lemma op_in_dict_in st o :
  op_in st o → dict_in (op_name (op_heap st o)) (operations st) = true.
Proof. intros Hin. apply dict_in_true. by apply (list_elem_of_fmap_2 fst) in Hin. Qed.

Lemma var_in_dict_in st x :
  var_in st x → dict_in (var_name (var_heap st x)) (variables st) = true.
Proof. intros Hin. apply dict_in_true. by apply (list_elem_of_fmap_2 fst) in Hin. Qed.

Lemma op_in_values st o : well_formed st → o ∈ dict_values (operations st) ↔ op_in st o.
Proof.
  intros Hwf. rewrite elem_of_dict_values. unfold op_in. split.
  - intros [k Hin]. by rewrite (wf_operations_named _ Hwf _ _ Hin).
  - intros Hin. by eexists.
Qed.

Lemma var_in_values st x : well_formed st → x ∈ dict_values (variables st) ↔ var_in st x.
Proof.
  intros Hwf. rewrite elem_of_dict_values. unfold var_in. split.
  - intros [k Hin]. by rewrite (wf_variables_named _ Hwf _ _ Hin).
  - intros Hin. by eexists.
Qed.

Lemma op_in_inj st o o' :
  well_formed st → op_in st o → op_in st o' →
  op_name (op_heap st o) = op_name (op_heap st o') → o = o'.
Proof.
  intros Hwf Ho Ho' Hname. unfold op_in in *. rewrite Hname in Ho.
  eapply dict_functional; [apply (wf_operations_nodup _ Hwf) | done | done].
Qed.

Lemma var_in_inj st x x' :
  well_formed st → var_in st x → var_in st x' →
  var_name (var_heap st x) = var_name (var_heap st x') → x = x'.
Proof.
  intros Hwf Hx Hx' Hname. unfold var_in in *. rewrite Hname in Hx.
  eapply dict_functional; [apply (wf_variables_nodup _ Hwf) | done | done].
Qed.

Lemma NoDup_dict_values {A : Type} (d : dict A) (name : A → string) :
  NoDup d.*1 → (∀ k a, (k, a) ∈ d → name a = k) → NoDup (dict_values d).
Proof.
  unfold dict_values. induction d as [|[k a] d IH]; [constructor |].
  rewrite !fmap_cons, !NoDup_cons. intros [Hk Hnd] Hname. split.
  - simpl. intros Hin. apply Hk. simpl.
    apply list_elem_of_fmap in Hin as ([k' a'] & Ha & Hin). simpl in Ha. subst a'.
    assert (name a = k') as <- by (apply Hname; by right).
    assert (name a = k) as <- by (apply Hname; left).
    by apply (list_elem_of_fmap_2 fst) in Hin.
  - apply IH; [done |]. intros k' a' Hin. apply Hname. by right.
Qed.

(** *** What a removal leaves of the graph *)

Lemma op_name_without_variable x st o :
  op_name (op_heap (without_variable x st) o) = op_name (op_heap st o).
Proof. reflexivity. Qed.

Lemma var_heap_without_variable_ne x st y :
  y ≠ x → var_heap (without_variable x st) y = var_heap st y.
Proof. intros Hne. rewrite var_heap_without_variable. by rewrite fn_lookup_alter_ne. Qed.

Lemma var_name_without_variable x st y :
  var_name (var_heap (without_variable x st) y) = var_name (var_heap st y).
Proof.
  rewrite var_heap_without_variable. destruct (decide (x = y)) as [->|Hne].
  - by rewrite fn_lookup_alter.
  - by rewrite fn_lookup_alter_ne.
Qed.

Lemma op_outputs_without_variable x st o :
  op_outputs (op_heap (without_variable x st) o)
  = filter (λ y, y ≠ x) (op_outputs (op_heap st o)).
Proof. reflexivity. Qed.

Lemma op_in_without_variable x st o :
  op_in (without_variable x st) o ↔ op_in st o.
Proof. reflexivity. Qed.

Lemma var_in_without_variable x st y :
  well_formed st → var_in st x →
  var_in (without_variable x st) y ↔ var_in st y ∧ y ≠ x.
Proof.
  intros Hwf Hx. unfold var_in.
  rewrite var_name_without_variable, variables_without_variable, elem_of_dict_pop.
  split.
  - intros [Hne Hy]. split; [done |]. by intros ->.
  - intros [Hy Hne]. split; [| done]. intros Hname. apply Hne.
    by apply (var_in_inj st).
Qed.

Lemma well_formed_without_variable x st :
  well_formed st → var_in st x → well_formed (without_variable x st).
Proof.
  intros Hwf Hx. split.
  - apply (wf_operations_nodup _ Hwf).
  - intros k o Hin. rewrite op_name_without_variable.
    by apply (wf_operations_named _ Hwf).
  - rewrite variables_without_variable. apply NoDup_dict_pop, (wf_variables_nodup _ Hwf).
  - intros k y. rewrite variables_without_variable, elem_of_dict_pop.
    intros [_ Hin]. rewrite var_name_without_variable.
    by apply (wf_variables_named _ Hwf).
  - intros o y Ho. rewrite op_outputs_without_variable, list_elem_of_filter.
    intros [Hne Hy]. apply op_in_without_variable in Ho.
    destruct (wf_outputs _ Hwf o y Ho Hy) as [Hyin Hsrc].
    rewrite var_in_without_variable by done.
    by rewrite var_heap_without_variable_ne.
  - intros y s Hy. apply var_in_without_variable in Hy as [Hy Hne]; [| done | done].
    rewrite var_heap_without_variable_ne by done. intros Hsrc.
    destruct (wf_source _ Hwf y s Hy Hsrc) as [Hs Hout].
    split; [by apply op_in_without_variable |].
    rewrite op_outputs_without_variable. by apply list_elem_of_filter.
  - intros y d Hy. apply var_in_without_variable in Hy as [Hy Hne]; [| done | done].
    rewrite var_heap_without_variable_ne by done. intros Hd.
    apply op_in_without_variable. by apply (wf_dest _ Hwf y).
Qed.

(** *** Removing an operation *)

Lemma elem_of_count (x : nat) (l : list nat) : x ∈ l ↔ 0 < count x l.
Proof.
  induction l as [|a l IH]; simpl.
  - rewrite elem_of_nil. lia.
  - rewrite elem_of_cons, IH. case_decide; [subst; split; [lia | by left] |].
    split; [intros [?|?]; [congruence | done] | by right].
Qed.

Lemma remove_first_None (x : nat) (l : list nat) : remove_first x l = None ↔ x ∉ l.
Proof.
  induction l as [|a l IH]; simpl; [split; [intros _; apply not_elem_of_nil | done] |].
  rewrite not_elem_of_cons. case_decide as Ha.
  - split; [done | intros [? _]; congruence].
  - destruct (remove_first x l); simpl.
    + split; [done |]. intros [_ H]. by apply IH in H.
    + split; [| done]. intros _. split; [congruence | by apply IH].
Qed.

Lemma remove_first_count (x : nat) (l l' : list nat) (d : nat) :
  remove_first x l = Some l' →
  count d l' = if decide (d = x) then count x l - 1 else count d l.
Proof.
  revert l'. induction l as [|a l IH]; intros l' Hl; [done |].
  cbn [remove_first] in Hl. destruct (decide (a = x)) as [->|Ha].
  - simplify_eq. case_decide as Hd.
    + subst. rewrite count_cons_eq. lia.
    + by rewrite count_cons_ne by congruence.
  - destruct (remove_first x l) as [l0|] eqn:Hl0; simpl in Hl; [| done].
    simplify_eq. specialize (IH l0 eq_refl).
    rewrite (count_cons_ne x a) by done.
    destruct (decide (a = d)) as [->|Had].
    + rewrite !count_cons_eq. rewrite decide_False in IH by done.
      rewrite decide_False by done. by rewrite IH.
    + rewrite !(count_cons_ne d a) by done. done.
Qed.

Lemma remove_first_app (x : nat) (pre l : list nat) :
  x ∉ pre → remove_first x (pre ++ x :: l) = Some (pre ++ l).
Proof.
  induction pre as [|a pre IH]; simpl; intros Hx.
  - by rewrite decide_True.
  - apply not_elem_of_cons in Hx as [Hne Hx].
    rewrite decide_False by done. by rewrite IH.
Qed.

(** The first loop: the parameters among the inputs leave the operation
    and the graph. *)
Lemma drop_parameters_spec (o : op_ref) (par : var_ref → bool)
    (pre l : list var_ref) (st : State) :
  (∀ y, is_parameter (var_heap st y) = par y) →
  op_inputs (op_heap st o) = pre ++ l →
  Forall (λ x, par x = false) pre →
  NoDup (filter (λ x, par x = true) l) →
  NoDup (variables st).*1 →
  (∀ p, p ∈ l → par p = true → (var_name (var_heap st p), p) ∈ variables st) →
  ∃ st',
    for_in l (drop_parameter o) st = (Return (), st')
    ∧ op_heap st' o
      = set_op_inputs (pre ++ filter (λ x, par x = false) l) (op_heap st o)
    ∧ (∀ r, r ≠ o → op_heap st' r = op_heap st r)
    ∧ (∀ x, var_heap st' x
            = if decide (x ∈ l ∧ par x = true)
              then set_dest_ops [] (var_heap st x) else var_heap st x)
    ∧ (∀ k x, (k, x) ∈ variables st'
              ↔ (k, x) ∈ variables st
                ∧ ¬ ∃ p, p ∈ l ∧ par p = true ∧ var_name (var_heap st p) = k)
    ∧ NoDup (variables st').*1
    ∧ operations st' = operations st
    ∧ inputs st' = inputs st
    ∧ outputs st' = outputs st.
Proof.
  revert pre st. induction l as [|x l IH]; intros pre st Hpar Hin Hpre Hnd Hkeys Hreg.
  - exists st. split; [done |]. split.
    { replace (pre ++ filter (λ x, par x = false) [])
        with (op_inputs (op_heap st o)) by (by rewrite Hin).
      by destruct (op_heap st o). }
    split; [done |]. split.
    { intros x. rewrite decide_False; [done |]. intros [H _]. by apply elem_of_nil in H. }
    split; [| done].
    intros k x. split; [| by intros [? _]]. intros Hk. split; [done |].
    intros (p & Hp & _). by apply elem_of_nil in Hp.
  - cbn [for_in]. destruct (par x) eqn:Hx.
    + (* a parameter *)
      rewrite filter_cons_True in Hnd by done. apply NoDup_cons in Hnd as [Hxl Hnd].
      assert (Hxl' : x ∉ l).
      { intros Hxin. apply Hxl. by apply list_elem_of_filter. }
      assert (Hxpre : x ∉ pre).
      { intros Hxin. rewrite Forall_forall in Hpre. specialize (Hpre x Hxin). congruence. }
      pose proof (Hreg x ltac:(left) Hx) as Hxreg.
      set (st1 := with_variables (dict_pop (var_name (var_heap st x)) (variables st))
                    (update_op o (set_op_inputs (pre ++ l))
                       (update_var x (set_dest_ops []) st))).
      assert (Hstep : drop_parameter o x st = (Return (), st1)).
      { unfold drop_parameter. rewrite bind_get, Hpar, Hx, bind_modify, bind_get.
        autorewrite with state. rewrite Hin, remove_first_app by done.
        rewrite bind_modify, bind_get. autorewrite with state.
        rewrite fn_lookup_alter. cbn [var_name set_dest_ops].
        rewrite (proj2 (dict_in_true _ _));
          [done | by apply (list_elem_of_fmap_2 fst) in Hxreg]. }
      rewrite (bind_Return_state _ _ _ _ _ Hstep).
      assert (Hvars1 : var_heap st1 = alter (set_dest_ops []) x (var_heap st)).
      { unfold st1. by autorewrite with state. }
      assert (Hops1 : op_heap st1 = alter (set_op_inputs (pre ++ l)) o (op_heap st)).
      { unfold st1. by autorewrite with state. }
      assert (Hvariables1 : variables st1
                            = dict_pop (var_name (var_heap st x)) (variables st)).
      { unfold st1. by autorewrite with state. }
      assert (Hrest1 : operations st1 = operations st ∧ inputs st1 = inputs st
                       ∧ outputs st1 = outputs st).
      { unfold st1. by autorewrite with state. }
      clearbody st1.
      assert (Hname1 : ∀ y, var_name (var_heap st1 y) = var_name (var_heap st y)).
      { intros y. rewrite Hvars1. destruct (decide (x = y)) as [->|Hne].
        - by rewrite fn_lookup_alter.
        - by rewrite fn_lookup_alter_ne. }
      destruct (IH pre st1) as
        (st' & Hrun & Hop & Hops & Hvars & Hvariables & Hkeys' & Hoperations
         & Hinputs & Houtputs).
      { intros y. rewrite Hvars1, <- Hpar. destruct (decide (x = y)) as [->|Hne].
        - by rewrite fn_lookup_alter.
        - by rewrite fn_lookup_alter_ne. }
      { rewrite Hops1. by rewrite fn_lookup_alter. }
      { done. }
      { done. }
      { rewrite Hvariables1. by apply NoDup_dict_pop. }
      { intros p Hp Hpp. rewrite Hname1, Hvariables1. apply elem_of_dict_pop.
        split; [| apply Hreg; [by right | done]].
        intros Hsame. apply Hxl'.
        assert (p = x) as ->; [| done].
        eapply dict_functional; [exact Hkeys | |].
        - apply Hreg; [by right | done].
        - by rewrite Hsame. }
      exists st'. split; [done |]. split.
      { rewrite Hop, Hops1, fn_lookup_alter. rewrite filter_cons_False by congruence.
        done. }
      split.
      { intros r Hr. rewrite Hops by done. rewrite Hops1.
        by rewrite fn_lookup_alter_ne. }
      split.
      { intros y. rewrite Hvars, Hvars1. destruct (decide (y = x)) as [->|Hne].
        - rewrite decide_False by tauto. rewrite fn_lookup_alter.
          rewrite decide_True; [done |]. split; [left | done].
        - rewrite fn_lookup_alter_ne by done.
          apply decide_ext. rewrite elem_of_cons. naive_solver. }
      split; [| destruct Hrest1 as (? & ? & ?); repeat split; congruence].
      intros k y. rewrite Hvariables, Hvariables1, elem_of_dict_pop. split.
      * intros [[Hk Hy] Hno]. split; [done |]. intros (p & Hp & Hpp & Hpk).
        apply elem_of_cons in Hp as [->|Hp]; [done |].
        apply Hno. exists p. by rewrite Hname1.
      * intros [Hy Hno]. split; [split; [| done] |].
        -- intros ->. apply Hno. exists x. split; [left | done].
        -- intros (p & Hp & Hpp & Hpk). apply Hno. exists p.
           rewrite Hname1 in Hpk. split; [by right | done].
    + (* not a parameter *)
      assert (Hstep : drop_parameter o x st = (Return (), st)).
      { unfold drop_parameter. by rewrite bind_get, Hpar, Hx. }
      rewrite (bind_Return_state _ _ _ _ _ Hstep).
      rewrite filter_cons_False in Hnd by congruence.
      destruct (IH (pre ++ [x]) st) as
        (st' & Hrun & Hop & Hops & Hvars & Hvariables & Hkeys' & Hrest).
      { done. }
      { by rewrite <- app_assoc. }
      { apply Forall_app. split; [done |]. by apply Forall_singleton. }
      { done. }
      { done. }
      { intros p Hp. apply Hreg. by right. }
      exists st'. split; [done |]. split.
      { rewrite Hop. rewrite filter_cons_True by done. by rewrite <- app_assoc. }
      split; [done |]. split.
      { intros y. rewrite Hvars. apply decide_ext. rewrite elem_of_cons.
        split; [naive_solver |]. intros [[->|?] ?]; [congruence | done]. }
      split; [| done].
      intros k y. rewrite Hvariables. split.
      * intros [Hy Hno]. split; [done |]. intros (p & Hp & Hpp & Hpk).
        apply elem_of_cons in Hp as [->|Hp]; [congruence |].
        apply Hno. by exists p.
      * intros [Hy Hno]. split; [done |]. intros (p & Hp & Hpp & Hpk).
        apply Hno. exists p. split; [by right | done].
Qed.

(** The second loop: the outputs lose their producer. *)
Lemma clear_sources_spec (l : list var_ref) (st : State) :
  ∃ st',
    for_in l clear_source st = (Return (), st')
    ∧ op_heap st' = op_heap st
    ∧ (∀ x, var_heap st' x
            = if decide (x ∈ l) then set_source_op None (var_heap st x)
              else var_heap st x)
    ∧ variables st' = variables st
    ∧ operations st' = operations st
    ∧ inputs st' = inputs st
    ∧ outputs st' = outputs st.
Proof.
  revert st. induction l as [|x l IH]; intros st.
  - exists st. split; [done |]. split; [done |]. split; [| done].
    intros x. rewrite decide_False; [done | apply not_elem_of_nil].
  - destruct (IH (update_var x (set_source_op None) st))
      as (st' & Hrun & Hops & Hvars & Hrest).
    exists st'. split; [done |]. autorewrite with state in *.
    split; [done |]. split; [| done].
    intros y. rewrite Hvars. destruct (decide (y = x)) as [->|Hne].
    + rewrite fn_lookup_alter. rewrite (decide_True (P := x ∈ x :: l)) by left.
      by destruct (decide (x ∈ l)).
    + rewrite fn_lookup_alter_ne by done.
      apply decide_ext. rewrite elem_of_cons. naive_solver.
Qed.

(** The third loop: the inputs lose the operation as a consumer, once
    for each time it reads them. *)
Lemma forget_consumers_spec (o : op_ref) (l : list var_ref) (st : State) :
  ∃ st',
    for_in l (forget_consumer o) st = (Return (), st')
    ∧ op_heap st' = op_heap st
    ∧ (∀ x, var_name (var_heap st' x) = var_name (var_heap st x)
            ∧ var_value (var_heap st' x) = var_value (var_heap st x)
            ∧ is_parameter (var_heap st' x) = is_parameter (var_heap st x)
            ∧ source_op (var_heap st' x) = source_op (var_heap st x))
    ∧ (∀ x d, count d (dest_ops (var_heap st' x))
              = if decide (d = o)
                then count o (dest_ops (var_heap st x)) - count x l
                else count d (dest_ops (var_heap st x)))
    ∧ variables st' = variables st
    ∧ operations st' = operations st
    ∧ inputs st' = inputs st
    ∧ outputs st' = outputs st.
Proof.
  revert st. induction l as [|x l IH]; intros st.
  - exists st. split; [done |]. split; [done |]. split; [done |]. split; [| done].
    intros x d. case_decide; [subst; simpl; lia | done].
  - cbn [for_in].
    assert (Hstep : ∃ st1,
               forget_consumer o x st = (Return (), st1)
               ∧ op_heap st1 = op_heap st
               ∧ (∀ y, var_name (var_heap st1 y) = var_name (var_heap st y)
                       ∧ var_value (var_heap st1 y) = var_value (var_heap st y)
                       ∧ is_parameter (var_heap st1 y) = is_parameter (var_heap st y)
                       ∧ source_op (var_heap st1 y) = source_op (var_heap st y))
               ∧ (∀ y d, count d (dest_ops (var_heap st1 y))
                         = if decide (d = o ∧ y = x)
                           then count o (dest_ops (var_heap st y)) - 1
                           else count d (dest_ops (var_heap st y)))
               ∧ variables st1 = variables st ∧ operations st1 = operations st
               ∧ inputs st1 = inputs st ∧ outputs st1 = outputs st).
    { unfold forget_consumer. rewrite bind_get.
      destruct (remove_first o (dest_ops (var_heap st x))) as [l'|] eqn:Hl'.
      - eexists. split; [reflexivity |]. autorewrite with state.
        split; [done |]. split.
        { intros y. destruct (decide (x = y)) as [->|Hne].
          - by rewrite fn_lookup_alter.
          - by rewrite fn_lookup_alter_ne. }
        split; [| done].
        intros y d. destruct (decide (x = y)) as [->|Hne].
        + rewrite fn_lookup_alter. cbn [dest_ops set_dest_ops].
          rewrite (remove_first_count _ _ _ d Hl').
          apply decide_ext. naive_solver.
        + rewrite fn_lookup_alter_ne by done.
          rewrite decide_False; [done |]. intros [_ ?]. congruence.
      - exists st. split; [done |]. split; [done |]. split; [done |]. split; [| done].
        intros y d. case_decide as Hd; [| done]. destruct Hd as [-> ->].
        apply remove_first_None in Hl'.
        assert (count o (dest_ops (var_heap st x)) = 0) as ->; [| done].
        destruct (count o (dest_ops (var_heap st x))) eqn:Hc; [done |].
        exfalso. apply Hl', elem_of_count. lia. }
    destruct Hstep as (st1 & Hrun1 & Hops1 & Hvars1 & Hcount1 & Hv1 & Ho1 & Hi1 & Hu1).
    rewrite (bind_Return_state _ _ _ _ _ Hrun1).
    destruct (IH st1) as (st' & Hrun & Hops & Hvars & Hcount & Hv & Ho & Hi & Hu).
    exists st'. split; [done |]. split; [congruence |]. split.
    { intros y. destruct (Hvars y) as (-> & -> & -> & ->). apply Hvars1. }
    split; [| repeat split; congruence].
    intros y d. rewrite Hcount. destruct (decide (d = o)) as [->|Hd].
    + rewrite Hcount1. destruct (decide (y = x)) as [->|Hy].
      * rewrite decide_True by done. rewrite count_cons_eq. lia.
      * rewrite decide_False by tauto. by rewrite count_cons_ne by done.
    + rewrite Hcount1. rewrite decide_False; [done | tauto].
Qed.

Lemma filter_parameters_count (par : var_ref → bool) (l : list var_ref) (x : var_ref) :
  par x = false → count x (filter (λ y, par y = false) l) = count x l.
Proof.
  intros Hx. induction l as [|a l IH]; [done |].
  destruct (decide (par a = false)) as [Ha|Ha].
  - rewrite filter_cons_True by done. destruct (decide (a = x)) as [->|Hne].
    + by rewrite !count_cons_eq, IH.
    + by rewrite !count_cons_ne.
  - rewrite filter_cons_False by done. rewrite count_cons_ne; [done |].
    intros ->. congruence.
Qed.

(** [remove_operation] on an operation of the graph whose parameters are
    variables of the graph and occur once among its inputs. *)
Lemma remove_operation_run (o : op_ref) (st : State) :
  dict_in (op_name (op_heap st o)) (operations st) = true →
  NoDup (parameters st o) →
  NoDup (variables st).*1 →
  (∀ p, p ∈ parameters st o → (var_name (var_heap st p), p) ∈ variables st) →
  ∃ st',
    remove_operation o st = (Return (), st')
    ∧ (∀ r, op_name (op_heap st' r) = op_name (op_heap st r))
    ∧ (∀ r, r ≠ o → op_heap st' r = op_heap st r)
    ∧ op_inputs (op_heap st' o) = []
    ∧ op_outputs (op_heap st' o) = []
    ∧ (∀ x, var_name (var_heap st' x) = var_name (var_heap st x)
            ∧ var_value (var_heap st' x) = var_value (var_heap st x)
            ∧ is_parameter (var_heap st' x) = is_parameter (var_heap st x))
    ∧ (∀ x, source_op (var_heap st' x)
            = if decide (x ∈ op_outputs (op_heap st o)) then None
              else source_op (var_heap st x))
    ∧ (∀ x d, x ∉ parameters st o →
              count d (dest_ops (var_heap st' x))
              = if decide (d = o)
                then count o (dest_ops (var_heap st x))
                     - count x (op_inputs (op_heap st o))
                else count d (dest_ops (var_heap st x)))
    ∧ (∀ x, x ∈ parameters st o → dest_ops (var_heap st' x) = [])
    ∧ (∀ k x, (k, x) ∈ variables st' ↔
              (k, x) ∈ variables st
              ∧ ¬ ∃ p, p ∈ parameters st o ∧ var_name (var_heap st p) = k)
    ∧ NoDup (variables st').*1
    ∧ operations st' = dict_pop (op_name (op_heap st o)) (operations st)
    ∧ inputs st' = inputs st
    ∧ outputs st' = outputs st.
Proof.
  intros Ho Hnd Hkeys Hreg. unfold remove_operation. rewrite bind_get, Ho. cbn [negb].
  set (par := λ y, is_parameter (var_heap st y)).
  set (ins := op_inputs (op_heap st o)).
  assert (Hpar : ∀ x, x ∈ parameters st o ↔ x ∈ ins ∧ par x = true).
  { intros x. unfold parameters. rewrite list_elem_of_filter. tauto. }
  destruct (drop_parameters_spec o par [] ins st)
    as (st1 & Hrun1 & Hop1 & Hops1 & Hvar1 & Hvars1 & Hkeys1 & Ho1 & Hi1 & Hu1);
    [done | done | constructor | done | done | |].
  { intros p Hp Hpp. apply Hreg, Hpar. done. }
  rewrite (bind_Return_state _ _ _ _ _ Hrun1), bind_get.
  rewrite Hop1. cbn [op_outputs set_op_inputs].
  destruct (clear_sources_spec (op_outputs (op_heap st o)) st1)
    as (st2 & Hrun2 & Hops2 & Hvar2 & Hvars2 & Ho2 & Hi2 & Hu2).
  rewrite (bind_Return_state _ _ _ _ _ Hrun2), bind_modify, bind_get.
  autorewrite with state. rewrite fn_lookup_alter, Hops2, Hop1.
  cbn [op_inputs set_op_inputs set_op_outputs app].
  set (rest := filter (λ x, par x = false) ins).
  destruct (forget_consumers_spec o rest (update_op o (set_op_outputs []) st2))
    as (st4 & Hrun4 & Hops4 & Hvar4 & Hcount4 & Hvars4 & Ho4 & Hi4 & Hu4).
  rewrite (bind_Return_state _ _ _ _ _ Hrun4), bind_modify, bind_get.
  autorewrite with state in *.
  eexists. split; [reflexivity |]. autorewrite with state.
  rewrite Hops4, Hops2, Hvars4, Hvars2, Ho4, Ho2, Ho1, Hi4, Hi2, Hi1, Hu4, Hu2, Hu1.
  split.
  { intros r. destruct (decide (r = o)) as [->|Hne].
    - rewrite !fn_lookup_alter, Hop1. done.
    - rewrite !fn_lookup_alter_ne by done. by rewrite Hops1. }
  split.
  { intros r Hne. rewrite !fn_lookup_alter_ne by done. by apply Hops1. }
  split; [by rewrite !fn_lookup_alter |].
  split; [by rewrite !fn_lookup_alter |].
  split.
  { intros x. destruct (Hvar4 x) as (-> & -> & -> & _).
    rewrite Hvar2, Hvar1. by repeat case_decide. }
  split.
  { intros x. destruct (Hvar4 x) as (_ & _ & _ & ->).
    rewrite Hvar2, Hvar1. by repeat case_decide. }
  split.
  { intros x d Hx. rewrite Hcount4, Hvar2, Hvar1.
    rewrite Hpar in Hx. rewrite (decide_False (P := x ∈ ins ∧ par x = true)) by done.
    assert (Hc : count x rest = count x ins ∨ (par x = true ∧ x ∉ ins)).
    { destruct (par x) eqn:Hpx.
      - right. split; [done |]. tauto.
      - left. by apply filter_parameters_count. }
    assert (Hrest : x ∉ ins → count x rest = 0 ∧ count x ins = 0).
    { intros Hni. split.
      - destruct (count x rest) eqn:Hcr; [done |]. exfalso.
        assert (x ∈ rest) as Hin by (apply elem_of_count; lia).
        apply list_elem_of_filter in Hin. tauto.
      - destruct (count x ins) eqn:Hcr; [done |]. exfalso.
        apply Hni, elem_of_count. lia. }
    assert (Hcx : count x rest = count x ins).
    { destruct Hc as [?|[_ Hni]]; [done |]. destruct (Hrest Hni). lia. }
    rewrite Hcx. by repeat case_decide. }
  split.
  { intros x Hx. apply Hpar in Hx.
    assert (Hz : ∀ d, count d (dest_ops (var_heap st4 x)) = 0).
    { intros d. rewrite Hcount4, Hvar2, Hvar1.
      rewrite (decide_True (P := x ∈ ins ∧ par x = true)) by done.
      by repeat case_decide. }
    destruct (dest_ops (var_heap st4 x)) as [|d l]; [done |].
    specialize (Hz d). rewrite count_cons_eq in Hz. lia. }
  split.
  { intros k x. rewrite Hvars1. split.
    - intros [Hin Hno]. split; [done |]. intros (p & Hp & Hname). apply Hno.
      exists p. apply Hpar in Hp. tauto.
    - intros [Hin Hno]. split; [done |]. intros (p & Hp & Hpp & Hname). apply Hno.
      exists p. split; [| done]. by apply Hpar. }
  split; [done |]. split; [| done].
  by rewrite !fn_lookup_alter, Hop1.
Qed.

(** *** Graphs the removal passes return on

    [remove_operation] takes the parameters of the operation out of
    [variables] and takes the operation out of the consumers of its other
    inputs, once for each time it reads them.  For the graph it leaves to
    be well formed again, and for the next removal not to look up a name
    that is gone, the graph is to keep its parameters apart (section 4.3:
    parameters must not be shared; [format_graph] of api/interface.py
    splits them before it removes isolated nodes): a parameter an
    operation of the graph reads is a variable of the graph, it is read
    once, by that operation only, and no operation produces it; and a
    variable names an operation as its consumer no more often than the
    operation reads it. *)
Record sound (st : State) : Prop := {
  sound_well_formed : well_formed st;
  sound_parameters_in :
    ∀ o p, op_in st o → p ∈ parameters st o → var_in st p;
  sound_parameters_once :
    ∀ o, op_in st o → NoDup (parameters st o);
  sound_parameters_private :
    ∀ o o' p, op_in st o → op_in st o' →
              p ∈ parameters st o → p ∈ op_inputs (op_heap st o') → o = o';
  sound_parameters_source :
    ∀ p, var_in st p → is_parameter (var_heap st p) = true →
         source_op (var_heap st p) = None;
  sound_consumers :
    ∀ x o, var_in st x → op_in st o →
           count o (dest_ops (var_heap st x)) ≤ count x (op_inputs (op_heap st o))
}.

Lemma count_filter_ne (x y : nat) (l : list nat) :
  y ≠ x → count y (filter (λ z, z ≠ x) l) = count y l.
Proof.
  intros Hne. induction l as [|a l IH]; [done |].
  destruct (decide (a = x)) as [->|Ha].
  - rewrite filter_cons_False by tauto. rewrite count_cons_ne; [done | congruence].
  - rewrite filter_cons_True by done. destruct (decide (a = y)) as [->|Hay].
    + by rewrite !count_cons_eq, IH.
    + by rewrite !count_cons_ne.
Qed.

Lemma is_parameter_without_variable x st y :
  is_parameter (var_heap (without_variable x st) y) = is_parameter (var_heap st y).
Proof.
  rewrite var_heap_without_variable. destruct (decide (x = y)) as [->|Hne].
  - by rewrite fn_lookup_alter.
  - by rewrite fn_lookup_alter_ne.
Qed.

Lemma op_inputs_without_variable x st o :
  op_inputs (op_heap (without_variable x st) o)
  = filter (λ y, y ≠ x) (op_inputs (op_heap st o)).
Proof. reflexivity. Qed.

Lemma parameters_without_variable x st o :
  parameters (without_variable x st) o = filter (λ y, y ≠ x) (parameters st o).
Proof.
  unfold parameters. rewrite op_inputs_without_variable.
  rewrite !list_filter_filter. apply list_filter_iff.
  intros y. rewrite is_parameter_without_variable. tauto.
Qed.

Lemma sound_without_variable x st :
  sound st → var_in st x → sound (without_variable x st).
Proof.
  intros Hs Hx. pose proof (sound_well_formed _ Hs) as Hwf. split.
  - by apply well_formed_without_variable.
  - intros o p Ho. rewrite parameters_without_variable, list_elem_of_filter.
    intros [Hne Hp]. apply var_in_without_variable; [done | done |].
    split; [| done]. by apply (sound_parameters_in _ Hs o).
  - intros o Ho. rewrite parameters_without_variable.
    by apply NoDup_filter, (sound_parameters_once _ Hs).
  - intros o o' p Ho Ho'. rewrite parameters_without_variable, op_inputs_without_variable.
    rewrite !list_elem_of_filter. intros [_ Hp] [_ Hp'].
    by apply (sound_parameters_private _ Hs o o' p).
  - intros p Hp. apply var_in_without_variable in Hp as [Hp Hne]; [| done | done].
    rewrite is_parameter_without_variable, var_heap_without_variable_ne by done.
    by apply (sound_parameters_source _ Hs).
  - intros y o Hy Ho. apply var_in_without_variable in Hy as [Hy Hne]; [| done | done].
    rewrite var_heap_without_variable_ne, op_inputs_without_variable by done.
    rewrite count_filter_ne by done. by apply (sound_consumers _ Hs).
Qed.

Lemma well_formed_with_outputs d st :
  well_formed st → well_formed (with_outputs d st).
Proof. intros [H1 H2 H3 H4 H5 H6 H7]. by split. Qed.

Lemma sound_with_outputs d st : sound st → sound (with_outputs d st).
Proof.
  intros [H1 H2 H3 H4 H5 H6]. split; [by apply well_formed_with_outputs | done ..].
Qed.

(** What [remove_operation] does to a graph of this kind. *)
Lemma remove_operation_spec (o : op_ref) (st : State) :
  sound st → op_in st o →
  ∃ st',
    remove_operation o st = (Return (), st')
    ∧ sound st'
    ∧ (∀ o', op_in st' o' ↔ op_in st o' ∧ o' ≠ o)
    ∧ length (operations st') < length (operations st)
    ∧ (∀ x, var_in st' x ↔ var_in st x ∧ x ∉ parameters st o)
    ∧ (∀ r, r ≠ o → op_heap st' r = op_heap st r)
    ∧ (∀ x, var_name (var_heap st' x) = var_name (var_heap st x)
            ∧ var_value (var_heap st' x) = var_value (var_heap st x)
            ∧ is_parameter (var_heap st' x) = is_parameter (var_heap st x))
    ∧ (∀ x, source_op (var_heap st' x)
            = if decide (x ∈ op_outputs (op_heap st o)) then None
              else source_op (var_heap st x))
    ∧ (∀ x d, var_in st' x →
              d ∈ dest_ops (var_heap st' x) ↔ d ∈ dest_ops (var_heap st x) ∧ d ≠ o)
    ∧ inputs st' = inputs st
    ∧ outputs st' = outputs st.
Proof.
  intros Hs Ho. pose proof (sound_well_formed _ Hs) as Hwf.
  destruct (remove_operation_run o st)
    as (st' & Hrun & Hnames & Hops & _ & _ & Hvar & Hsrc & Hcount & _ & Hvars
        & Hkeys & Hoper & Hi & Hu).
  { by apply op_in_dict_in. }
  { by apply (sound_parameters_once _ Hs). }
  { apply (wf_variables_nodup _ Hwf). }
  { intros p Hp. by apply (sound_parameters_in _ Hs o). }
  assert (Hop_in : ∀ o', op_in st' o' ↔ op_in st o' ∧ o' ≠ o).
  { intros o'. unfold op_in. rewrite Hoper, Hnames, elem_of_dict_pop. split.
    - intros [Hne Hin]. split; [done |]. by intros ->.
    - intros [Hin Hne]. split; [| done]. intros Hname. apply Hne.
      by apply (op_in_inj st). }
  assert (Hvar_in : ∀ x, var_in st' x ↔ var_in st x ∧ x ∉ parameters st o).
  { intros x. unfold var_in. destruct (Hvar x) as (-> & _ & _). rewrite Hvars. split.
    - intros [Hin Hno]. split; [done |]. intros Hp. apply Hno. by exists x.
    - intros [Hin Hno]. split; [done |]. intros (p & Hp & Hname). apply Hno.
      assert (p = x) as <-; [| done].
      apply (var_in_inj st); [done | | done | done].
      by apply (sound_parameters_in _ Hs o). }
  assert (Hpars : ∀ r, r ≠ o → parameters st' r = parameters st r).
  { intros r Hne. unfold parameters. rewrite (Hops r Hne). apply list_filter_iff.
    intros y. by destruct (Hvar y) as (_ & _ & ->). }
  assert (Hdest : ∀ x d, var_in st' x →
            d ∈ dest_ops (var_heap st' x) ↔ d ∈ dest_ops (var_heap st x) ∧ d ≠ o).
  { intros x d Hx. apply Hvar_in in Hx as [Hx Hnp].
    rewrite !elem_of_count, (Hcount x d Hnp).
    pose proof (sound_consumers _ Hs x o Hx Ho).
    case_decide; [subst; lia | tauto]. }
  exists st'. split; [done |]. split; [| split; [done |]].
  - split.
    + split.
      * rewrite Hoper. apply NoDup_dict_pop, (wf_operations_nodup _ Hwf).
      * intros k r. rewrite Hoper, elem_of_dict_pop. intros [_ Hin].
        rewrite Hnames. by apply (wf_operations_named _ Hwf).
      * done.
      * intros k x Hin. apply Hvars in Hin as [Hin _].
        destruct (Hvar x) as (-> & _ & _). by apply (wf_variables_named _ Hwf).
      * intros r x Hr. apply Hop_in in Hr as [Hr Hne]. rewrite (Hops r Hne).
        intros Hx. destruct (wf_outputs _ Hwf r x Hr Hx) as [Hxin Hxs]. split.
        -- apply Hvar_in. split; [done |]. intros Hp.
           assert (Hpx : is_parameter (var_heap st x) = true).
           { unfold parameters in Hp. by apply list_elem_of_filter in Hp as [? _]. }
           pose proof (sound_parameters_source _ Hs x Hxin Hpx). congruence.
        -- rewrite Hsrc. rewrite decide_False; [done |]. intros Hxo.
           destruct (wf_outputs _ Hwf o x Ho Hxo) as [_ Hxs']. congruence.
      * intros x r Hx. apply Hvar_in in Hx as [Hx _]. rewrite Hsrc.
        case_decide as Hxo; [done |]. intros Hxs.
        destruct (wf_source _ Hwf x r Hx Hxs) as [Hr Hxr].
        assert (r ≠ o) by (by intros ->).
        split; [by apply Hop_in |]. by rewrite (Hops r).
      * intros x d Hx Hd. apply Hdest in Hd as [Hd Hne]; [| done].
        apply Hvar_in in Hx as [Hx _]. apply Hop_in. split; [| done].
        by apply (wf_dest _ Hwf x).
    + intros r p Hr. apply Hop_in in Hr as [Hr Hne]. rewrite (Hpars r Hne).
      intros Hp. apply Hvar_in. split; [by apply (sound_parameters_in _ Hs r) |].
      intros Hpo. apply Hne. symmetry.
      apply (sound_parameters_private _ Hs o r p); [done | done | done |].
      unfold parameters in Hp. by apply list_elem_of_filter in Hp as [_ ?].
    + intros r Hr. apply Hop_in in Hr as [Hr Hne]. rewrite (Hpars r Hne).
      by apply (sound_parameters_once _ Hs).
    + intros r r' p Hr Hr'. apply Hop_in in Hr as [Hr Hne], Hr' as [Hr' Hne'].
      rewrite (Hpars r Hne), (Hops r' Hne').
      by apply (sound_parameters_private _ Hs).
    + intros p Hp. apply Hvar_in in Hp as [Hp _].
      destruct (Hvar p) as (_ & _ & ->). intros Hpp. rewrite Hsrc.
      case_decide; [done |]. by apply (sound_parameters_source _ Hs).
    + intros x r Hx Hr. apply Hvar_in in Hx as [Hx Hnp]. apply Hop_in in Hr as [Hr Hne].
      rewrite (Hcount x r Hnp), decide_False, (Hops r Hne) by done.
      by apply (sound_consumers _ Hs).
  - split.
    { rewrite Hoper. by apply (length_dict_pop _ _ o). }
    split; [done |]. split; [done |]. split.
    { intros x. by destruct (Hvar x) as (? & ? & ?). }
    split; [done |]. split; [done |]. split; done.
Qed.
(** *** A declared output that has its producer in the graph *)

Section Kept.
Variables (v : var_ref) (s : op_ref).

Definition kept (st : State) : Prop :=
  var_in st v ∧ source_op (var_heap st v) = Some s
  ∧ (var_name (var_heap st v), v) ∈ outputs st.

Lemma kept_without_variable x st :
  well_formed st → var_in st x → x ≠ v → kept st → kept (without_variable x st).
Proof.
  intros Hwf Hx Hne (Hv & Hsrc & Hout). split; [| split].
  - by apply var_in_without_variable.
  - by rewrite var_heap_without_variable_ne.
  - rewrite var_name_without_variable, outputs_without_variable, elem_of_dict_pop.
    split; [| done]. intros Hname. apply Hne. symmetry. by apply (var_in_inj st).
Qed.

Lemma kept_remove_operation o st st' :
  sound st → op_in st o → remove_operation o st = (Return (), st') →
  o ≠ s → kept st → kept st'.
Proof.
  intros Hs Ho Hrun Hne (Hv & Hsrc & Hout).
  destruct (remove_operation_spec o st Hs Ho)
    as (st1 & Hrun1 & _ & _ & _ & Hvars & _ & Hvar & Hsrc1 & _ & _ & Hu).
  rewrite Hrun in Hrun1. injection Hrun1 as <-.
  pose proof (sound_well_formed _ Hs) as Hwf.
  split; [| split].
  - apply Hvars. split; [done |]. intros Hp.
    assert (Hpv : is_parameter (var_heap st v) = true).
    { unfold parameters in Hp. by apply list_elem_of_filter in Hp as [? _]. }
    pose proof (sound_parameters_source _ Hs v Hv Hpv). congruence.
  - rewrite Hsrc1. rewrite decide_False; [done |]. intros Hvo.
    destruct (wf_outputs _ Hwf o v Ho Hvo) as [_ Hsrc']. congruence.
  - destruct (Hvar v) as (-> & _ & _). by rewrite Hu.
Qed.

Lemma kept_not_isolated st :
  well_formed st → kept st → ¬ op_isolated st s.
Proof.
  intros Hwf (Hv & Hsrc & Hout) [_ Hall].
  destruct (wf_source _ Hwf v s Hv Hsrc) as [_ Hin].
  rewrite Forall_forall in Hall. specialize (Hall v Hin).
  apply dict_in_false in Hall. apply Hall.
  by apply (list_elem_of_fmap_2 fst) in Hout.
Qed.

(** *** The first loop of [delete_isolated] *)

Lemma remove_output_variables_spec fuel o i st :
  sound st → op_in st o →
  length (op_outputs (op_heap st o)) - i < fuel →
  ∃ st',
    remove_output_variables fuel o i st = (Return (), st')
    ∧ sound st'
    ∧ operations st' = operations st
    ∧ (∀ o', op_name (op_heap st' o') = op_name (op_heap st o'))
    ∧ (∀ x, var_in st' x → var_in st x)
    ∧ (o ≠ s → kept st → kept st').
Proof.
  revert i st. induction fuel as [|fuel IH]; intros i st Hs Ho Hfuel; [lia |].
  pose proof (sound_well_formed _ Hs) as Hwf.
  cbn [remove_output_variables]. rewrite bind_get.
  destruct (op_outputs (op_heap st o) !! i) as [x|] eqn:Hi.
  - assert (Hxo : x ∈ op_outputs (op_heap st o)) by by eapply list_elem_of_lookup_2.
    destruct (wf_outputs _ Hwf o x Ho Hxo) as [Hx Hsrc].
    rewrite (bind_Return_state _ _ _ _ _
               (remove_variable_registered x st (var_in_dict_in _ _ Hx))).
    destruct (IH (S i) (without_variable x st))
      as (st' & Hrun & Hwf' & Hops & Hnames & Hvars & Hkept).
    + by apply sound_without_variable.
    + by apply op_in_without_variable.
    + rewrite op_outputs_without_variable.
      apply lookup_lt_Some in Hi.
      pose proof (length_filter_lt (λ y, y ≠ x) (op_outputs (op_heap st o)) x Hxo) as Hlt.
      assert (¬ x ≠ x) as Hxx by tauto. specialize (Hlt Hxx). lia.
    + exists st'. split; [done |]. split; [done |]. split; [| split; [| split]].
      * by rewrite Hops.
      * intros o'. by rewrite Hnames.
      * intros y Hy. apply Hvars in Hy.
        by apply var_in_without_variable in Hy as [Hy _].
      * intros Hne Hk. apply Hkept; [done |].
        apply kept_without_variable; [done | done | | done].
        intros ->. destruct Hk as (_ & Hsrc' & _). congruence.
  - exists st. split; [done |]. split; [done |]. split; [done |].
    split; [done |]. split; done.
Qed.

Lemma remove_blacklisted_spec o st :
  sound st → op_in st o →
  ∃ st',
    remove_blacklisted o st = (Return (), st')
    ∧ sound st'
    ∧ (∀ o', op_in st' o' ↔ op_in st o' ∧ o' ≠ o)
    ∧ length (operations st') < length (operations st)
    ∧ (∀ x, var_in st' x → var_in st x)
    ∧ (o ≠ s → kept st → kept st').
Proof.
  intros Hs Ho. unfold remove_blacklisted. rewrite bind_get.
  destruct (remove_output_variables_spec
              (S (length (op_outputs (op_heap st o)))) o 0 st Hs Ho)
    as (st1 & Hrun & Hs1 & Hops & Hnames & Hvars & Hkept); [lia |].
  rewrite (bind_Return_state _ _ _ _ _ Hrun).
  assert (Hin1 : ∀ o', op_in st1 o' ↔ op_in st o').
  { intros o'. unfold op_in. by rewrite Hops, Hnames. }
  assert (Ho1 : op_in st1 o) by by apply Hin1.
  destruct (remove_operation_spec o st1 Hs1 Ho1)
    as (st' & Hrun' & Hs' & Hops' & Hlen & Hvars' & _).
  exists st'. split; [done |]. split; [done |]. split; [| split; [| split]].
  - intros o'. by rewrite Hops', Hin1.
  - by rewrite <- Hops.
  - intros y Hy. apply Hvars' in Hy as [Hy _]. by apply Hvars.
  - intros Hne Hk. apply (kept_remove_operation o st1); [done | done | done | done |].
    by apply Hkept.
Qed.


Lemma remove_all_blacklisted l st :
  sound st → NoDup l → (∀ o, o ∈ l → op_in st o) →
  ∃ st',
    for_in l remove_blacklisted st = (Return (), st')
    ∧ sound st'
    ∧ (∀ o', op_in st' o' ↔ op_in st o' ∧ o' ∉ l)
    ∧ length (operations st') + length l ≤ length (operations st)
    ∧ (∀ x, var_in st' x → var_in st x)
    ∧ (s ∉ l → kept st → kept st').
Proof.
  revert st. induction l as [|o l IH]; intros st Hwf Hnd Hin.
  - exists st. split; [done |]. split; [done |]. split; [| split; [| split]].
    + intros o'. rewrite elem_of_nil. tauto.
    + simpl. lia.
    + done.
    + done.
  - apply NoDup_cons in Hnd as [Hol Hnd].
    destruct (remove_blacklisted_spec o st Hwf) as (st1 & Hrun & Hwf1 & Hops & Hlen & Hvars & Hkept).
    { apply Hin. left. }
    destruct (IH st1 Hwf1 Hnd) as (st' & Hrun' & Hwf' & Hops' & Hlen' & Hvars' & Hkept').
    { intros o' Ho'. apply Hops. split; [apply Hin; by right |]. by intros ->. }
    exists st'. split.
    { cbn [for_in]. by rewrite (bind_Return_state _ _ _ _ _ Hrun). }
    split; [done |]. split; [| split; [| split]].
    + intros o'. rewrite Hops', Hops, elem_of_cons. tauto.
    + simpl. lia.
    + intros x Hx. by apply Hvars, Hvars'.
    + rewrite not_elem_of_cons. intros [Hne Hsl] Hk.
      apply Hkept'; [done |]. apply Hkept; [done | done].
Qed.

Definition no_isolated_operation (st : State) : Prop :=
  ∀ o, op_in st o → ¬ op_isolated st o.

Lemma delete_isolated_operations_spec fuel st :
  sound st → length (operations st) < fuel →
  ∃ st',
    delete_isolated_operations fuel st = (Return (), st')
    ∧ sound st'
    ∧ no_isolated_operation st'
    ∧ (∀ o, op_in st' o → op_in st o)
    ∧ (∀ x, var_in st' x → var_in st x)
    ∧ (kept st → kept st').
Proof.
  revert st. induction fuel as [|fuel IH]; intros st Hs Hfuel; [lia |].
  pose proof (sound_well_formed _ Hs) as Hwf.
  cbn [delete_isolated_operations]. rewrite bind_get. cbv zeta.
  remember (filter (op_isolated st) (dict_values (operations st))) as bl eqn:Hbl.
  destruct bl as [|o bl].
  - exists st. split; [done |]. split; [done |]. split; [| split; [| split]]; try done.
    intros o Ho Hiso.
    assert (o ∈ filter (op_isolated st) (dict_values (operations st))) as Hin.
    { apply list_elem_of_filter. split; [done |]. by apply op_in_values. }
    rewrite <- Hbl in Hin. by apply elem_of_nil in Hin.
  - destruct (remove_all_blacklisted (o :: bl) st Hs)
      as (st1 & Hrun & Hwf1 & Hops & Hlen & Hvars & Hkept).
    { rewrite Hbl. apply NoDup_filter, (NoDup_dict_values _ (λ r, op_name (op_heap st r))).
      - apply (wf_operations_nodup _ Hwf).
      - apply (wf_operations_named _ Hwf). }
    { intros o'. rewrite Hbl, list_elem_of_filter. intros [_ Ho'].
      by apply op_in_values. }
    rewrite (bind_Return_state _ _ _ _ _ Hrun).
    rewrite decide_False by done.
    destruct (IH st1 Hwf1) as (st' & Hrun' & Hwf' & Hfix & Hops' & Hvars' & Hkept').
    { simpl in Hlen. lia. }
    exists st'. split; [done |]. split; [done |]. split; [done |].
    split; [| split].
    + intros o' Ho'. apply Hops' in Ho'. by apply Hops in Ho' as [Ho' _].
    + intros x Hx. by apply Hvars, Hvars'.
    + intros Hk. apply Hkept', Hkept; [| done].
      rewrite Hbl, list_elem_of_filter. intros [Hiso _].
      by apply (kept_not_isolated st).
Qed.

(** *** The second loop of [delete_isolated] *)

(** In a well-formed graph the only variables the second loop finds are
    those without producer and without consumer. *)
Definition orphan (st : State) (x : var_ref) : Prop :=
  source_op (var_heap st x) = None ∧ dest_ops (var_heap st x) = [].

Lemma var_isolated_orphan st x :
  well_formed st → var_in st x → var_isolated st x → orphan st x.
Proof.
  intros Hwf Hx. unfold var_isolated. cbv zeta.
  intros [[Hsrc Hlen]|[(o & Hsrc & Hout)|[Hex|(Hsrc & _ & Hlen)]]].
  - split; [done | by apply nil_length_inv].
  - destruct (wf_source _ Hwf x o Hx Hsrc) as [Ho _].
    apply op_in_dict_in in Ho. congruence.
  - apply Exists_exists in Hex as (d & Hd & Hout).
    pose proof (wf_dest _ Hwf x d Hx Hd) as Ho.
    apply op_in_dict_in in Ho. congruence.
  - split; [done | by apply nil_length_inv].
Qed.

Lemma filter_all {A : Type} (P : A → Prop) `{∀ a, Decision (P a)} (l : list A) :
  (∀ a, a ∈ l → P a) → filter P l = l.
Proof.
  induction l as [|a l IH]; intros Hall; [done |].
  rewrite filter_cons_True by (apply Hall; left).
  f_equal. apply IH. intros b Hb. apply Hall. by right.
Qed.

Lemma filter_none {A : Type} (P : A → Prop) `{∀ a, Decision (P a)} (l : list A) :
  (∀ a, a ∈ l → ¬ P a) → filter P l = [].
Proof.
  induction l as [|a l IH]; intros Hall; [done |].
  rewrite filter_cons_False by (apply Hall; left).
  apply IH. intros b Hb. apply Hall. by right.
Qed.

Lemma op_isolated_without_orphan x st o :
  well_formed st → var_in st x → orphan st x → op_in st o →
  op_isolated (without_variable x st) o → op_isolated st o.
Proof.
  intros Hwf Hx [Hsrc _] Ho.
  assert (Hnot : ∀ y, y ∈ op_outputs (op_heap st o) → y ≠ x).
  { intros y Hy ->. destruct (wf_outputs _ Hwf o x Ho Hy) as [_ Hsrc']. congruence. }
  unfold op_isolated, get_downstream_operations.
  rewrite op_outputs_without_variable, (filter_all _ _ Hnot).
  intros [Hlen Hall]. split.
  - rewrite <- Hlen. do 2 f_equal. apply Forall_fmap_ext, Forall_forall.
    intros y Hy. by rewrite var_heap_without_variable_ne by by apply Hnot.
  - rewrite Forall_forall in Hall. apply Forall_forall. intros y Hy.
    specialize (Hall y Hy).
    rewrite var_name_without_variable, outputs_without_variable in Hall.
    rewrite dict_in_pop_ne in Hall; [done |].
    intros Hname. apply (Hnot y Hy).
    destruct (wf_outputs _ Hwf o y Ho Hy) as [Hyin _].
    by apply (var_in_inj st).
Qed.

Lemma remove_orphans l st :
  sound st → NoDup l → (∀ x, x ∈ l → var_in st x ∧ orphan st x) →
  no_isolated_operation st →
  ∃ st',
    for_in l remove_variable st = (Return (), st')
    ∧ sound st'
    ∧ no_isolated_operation st'
    ∧ (∀ o, op_in st' o ↔ op_in st o)
    ∧ (∀ x, var_in st' x ↔ var_in st x ∧ x ∉ l)
    ∧ length (variables st') + length l ≤ length (variables st)
    ∧ (kept st → kept st').
Proof.
  revert st. induction l as [|x l IH]; intros st Hs Hnd Hin Hfix.
  - exists st. split; [done |]. split; [done |]. split; [done |].
    split; [done |]. split; [| split].
    + intros y. rewrite elem_of_nil. tauto.
    + simpl. lia.
    + done.
  - apply NoDup_cons in Hnd as [Hxl Hnd].
    pose proof (sound_well_formed _ Hs) as Hwf.
    destruct (Hin x) as [Hx Horph]; [left |].
    pose proof (sound_without_variable x st Hs Hx) as Hwf1.
    destruct (IH (without_variable x st) Hwf1 Hnd)
      as (st' & Hrun & Hwf' & Hfix' & Hops & Hvars & Hlen & Hkept).
    { intros y Hy. destruct (Hin y) as [Hyin [Hsrc Hdst]]; [by right |].
      assert (y ≠ x) by (by intros ->). split.
      - by apply var_in_without_variable.
      - unfold orphan. by rewrite var_heap_without_variable_ne. }
    { intros o Ho Hiso. apply (Hfix o); [done |].
      by apply (op_isolated_without_orphan x). }
    exists st'. split.
    { cbn [for_in].
      by rewrite (bind_Return_state _ _ _ _ _
                    (remove_variable_registered x st (var_in_dict_in _ _ Hx))). }
    split; [done |]. split; [done |]. split; [| split; [| split]].
    + intros o. by rewrite Hops.
    + intros y. rewrite Hvars, var_in_without_variable, elem_of_cons by done. tauto.
    + rewrite variables_without_variable in Hlen.
      pose proof (length_dict_pop _ _ _ Hx). simpl. lia.
    + intros Hk. apply Hkept. apply kept_without_variable; [done | done | | done].
      intros ->. destruct Horph as [Hsrc _], Hk as (_ & Hsrc' & _). congruence.
Qed.

Definition no_isolated_variable (st : State) : Prop :=
  ∀ x, var_in st x → ¬ var_isolated st x.

Lemma delete_isolated_variables_spec fuel st :
  sound st → no_isolated_operation st → length (variables st) < fuel →
  ∃ st',
    delete_isolated_variables fuel st = (Return (), st')
    ∧ sound st'
    ∧ no_isolated_operation st'
    ∧ no_isolated_variable st'
    ∧ (∀ o, op_in st' o ↔ op_in st o)
    ∧ (∀ x, var_in st' x → var_in st x)
    ∧ (kept st → kept st').
Proof.
  revert st. induction fuel as [|fuel IH]; intros st Hs Hfix Hfuel; [lia |].
  pose proof (sound_well_formed _ Hs) as Hwf.
  cbn [delete_isolated_variables]. rewrite bind_get. cbv zeta.
  remember (remove_dups (filter (var_isolated st) (dict_values (variables st))))
    as bl eqn:Hbl.
  assert (Hmem : ∀ x, x ∈ bl ↔ var_isolated st x ∧ var_in st x).
  { intros x. by rewrite Hbl, elem_of_remove_dups, list_elem_of_filter, var_in_values. }
  assert (Hnd : NoDup bl) by (rewrite Hbl; apply NoDup_remove_dups).
  clear Hbl. destruct bl as [|x bl].
  - exists st. split; [done |]. split; [done |]. split; [done |].
    split; [| split; [| split]]; try done.
    intros x Hx Hiso. by apply (elem_of_nil x), Hmem.
  - destruct (remove_orphans (x :: bl) st Hs Hnd)
      as (st1 & Hrun & Hwf1 & Hfix1 & Hops & Hvars & Hlen & Hkept); [| done |].
    { intros y Hy. apply Hmem in Hy as [Hiso Hy].
      split; [done |]. by apply var_isolated_orphan. }
    rewrite (bind_Return_state _ _ _ _ _ Hrun).
    rewrite decide_False by done.
    destruct (IH st1 Hwf1 Hfix1)
      as (st' & Hrun' & Hwf' & Hfix' & Hfixv & Hops' & Hvars' & Hkept').
    { simpl in Hlen. lia. }
    exists st'. split; [done |]. split; [done |]. split; [done |].
    split; [done |]. split; [| split].
    + intros o. by rewrite Hops', Hops.
    + intros y Hy. apply Hvars' in Hy. by apply Hvars in Hy as [Hy _].
    + intros Hk. by apply Hkept', Hkept.
Qed.

(** *** [delete_isolated] *)

Lemma delete_isolated_spec st :
  sound st →
  ∃ st',
    delete_isolated st = (Return (), st')
    ∧ sound st'
    ∧ no_isolated_operation st'
    ∧ no_isolated_variable st'
    ∧ (∀ o, op_in st' o → op_in st o)
    ∧ (∀ x, var_in st' x → var_in st x)
    ∧ (kept st → kept st').
Proof.
  intros Hwf. unfold delete_isolated. rewrite bind_get.
  destruct (delete_isolated_operations_spec (S (length (operations st))) st Hwf)
    as (st1 & Hrun & Hwf1 & Hfix1 & Hops & Hvars & Hkept); [lia |].
  rewrite (bind_Return_state _ _ _ _ _ Hrun), bind_get.
  destruct (delete_isolated_variables_spec (S (length (variables st1))) st1 Hwf1 Hfix1)
    as (st' & Hrun' & Hwf' & Hfix' & Hfixv & Hops' & Hvars' & Hkept'); [lia |].
  exists st'. split; [done |]. split; [done |]. split; [done |].
  split; [done |]. split; [| split].
  - intros o Ho. by apply Hops, Hops'.
  - intros x Hx. by apply Hvars, Hvars'.
  - intros Hk. by apply Hkept', Hkept.
Qed.

End Kept.

(** [delete_isolated] on a graph that has nothing isolated. *)
Lemma delete_isolated_nothing st :
  well_formed st → no_isolated_operation st → no_isolated_variable st →
  delete_isolated st = (Return (), st).
Proof.
  intros Hwf Hops Hvars. unfold delete_isolated. rewrite bind_get.
  assert (Hrun : delete_isolated_operations (S (length (operations st))) st
                 = (Return (), st)).
  { cbn [delete_isolated_operations]. rewrite bind_get. cbv zeta.
    rewrite filter_none; [done |].
    intros o Ho. apply Hops. by apply op_in_values. }
  rewrite (bind_Return_state _ _ _ _ _ Hrun), bind_get.
  cbn [delete_isolated_variables]. rewrite bind_get. cbv zeta.
  rewrite filter_none; [done |].
  intros x Hx. apply Hvars. by apply var_in_values.
Qed.

(** An operation that is not isolated has a declared output or a consumer
    in the graph. *)
Lemma not_isolated_live st o :
  well_formed st → op_in st o → ¬ op_isolated st o →
  (∃ var, var ∈ op_outputs (op_heap st o)
          ∧ dict_in (var_name (var_heap st var)) (outputs st) = true)
  ∨ (∃ d, d ∈ get_downstream_operations st o ∧ op_in st d).
Proof.
  intros Hwf Ho Hiso.
  destruct (get_downstream_operations st o) as [|d l] eqn:Hdown.
  - left. unfold op_isolated in Hiso. rewrite Hdown in Hiso.
    apply not_and_l in Hiso as [Hlen|Hall]; [done |].
    apply not_Forall_Exists in Hall; [| apply _].
    apply Exists_exists in Hall as (var & Hvar & Hout).
    exists var. split; [done |]. by apply not_false_iff_true in Hout.
  - right. exists d. split; [left |].
    assert (Hd : d ∈ get_downstream_operations st o) by (rewrite Hdown; left).
    unfold get_downstream_operations in Hd.
    apply list_elem_of_join in Hd as (ds & Hd & Hds).
    apply list_elem_of_fmap in Hds as (y & -> & Hy).
    destruct (wf_outputs _ Hwf o y Ho Hy) as [Hyin _].
    by apply (wf_dest _ Hwf y).
Qed.

(** *** Checking that a graph is well formed *)

#[export] Instance op_in_dec st o : Decision (op_in st o).
Proof. unfold op_in. apply _. Defined.

#[export] Instance var_in_dec st x : Decision (var_in st x).
Proof. unfold var_in. apply _. Defined.

Definition source_in (st : State) (x : var_ref) : Prop :=
  match source_op (var_heap st x) with
  | Some s => op_in st s ∧ x ∈ op_outputs (op_heap st s)
  | None => True
  end.

#[export] Instance source_in_dec st x : Decision (source_in st x).
Proof. unfold source_in. destruct (source_op (var_heap st x)); apply _. Defined.

Definition check_well_formed (st : State) : bool :=
  bool_decide (NoDup (operations st).*1)
  && bool_decide (Forall (λ e, op_name (op_heap st e.2) = e.1) (operations st))
  && bool_decide (NoDup (variables st).*1)
  && bool_decide (Forall (λ e, var_name (var_heap st e.2) = e.1) (variables st))
  && bool_decide (Forall (λ o,
       Forall (λ x, var_in st x ∧ source_op (var_heap st x) = Some o)
              (op_outputs (op_heap st o))) (dict_values (operations st)))
  && bool_decide (Forall (λ x,
       source_in st x ∧ Forall (op_in st) (dest_ops (var_heap st x))) (dict_values (variables st))).

Lemma check_well_formed_sound st : check_well_formed st = true → well_formed st.
Proof.
  unfold check_well_formed. rewrite !andb_true_iff, !bool_decide_eq_true.
  intros (((((H1 & H2) & H3) & H4) & H5) & H6).
  split.
  - done.
  - intros k o Hin. apply (proj1 (Forall_forall _ _) H2 (k, o) Hin).
  - done.
  - intros k x Hin. apply (proj1 (Forall_forall _ _) H4 (k, x) Hin).
  - intros o x Ho Hx.
    assert (o ∈ dict_values (operations st)) as Hv
      by (apply elem_of_dict_values; by eexists).
    apply (proj1 (Forall_forall _ _) (proj1 (Forall_forall _ _) H5 o Hv) x Hx).
  - intros x s Hx Hsrc.
    assert (x ∈ dict_values (variables st)) as Hv
      by (apply elem_of_dict_values; by eexists).
    destruct (proj1 (Forall_forall _ _) H6 x Hv) as [Hs _].
    unfold source_in in Hs. by rewrite Hsrc in Hs.
  - intros x d Hx Hd.
    assert (x ∈ dict_values (variables st)) as Hv
      by (apply elem_of_dict_values; by eexists).
    destruct (proj1 (Forall_forall _ _) H6 x Hv) as [_ Hds].
    apply (proj1 (Forall_forall _ _) Hds d Hd).
Qed.

Definition check_sound (st : State) : bool :=
  check_well_formed st
  && bool_decide (Forall (λ o,
       Forall (var_in st) (parameters st o)
       ∧ NoDup (parameters st o)
       ∧ Forall (λ p,
           Forall (λ o', p ∈ op_inputs (op_heap st o') → o = o')
                  (dict_values (operations st))) (parameters st o))
       (dict_values (operations st)))
  && bool_decide (Forall (λ x,
       (is_parameter (var_heap st x) = true → source_op (var_heap st x) = None)
       ∧ Forall (λ o, count o (dest_ops (var_heap st x))
                      ≤ count x (op_inputs (op_heap st o)))
                (dict_values (operations st)))
       (dict_values (variables st))).

Lemma check_sound_sound st : check_sound st = true → sound st.
Proof.
  unfold check_sound. rewrite !andb_true_iff, !bool_decide_eq_true.
  intros ((Hwf & Hops) & Hvars). apply check_well_formed_sound in Hwf.
  assert (Hop : ∀ o, op_in st o → o ∈ dict_values (operations st)).
  { intros o Ho. apply elem_of_dict_values. by eexists. }
  assert (Hvar : ∀ x, var_in st x → x ∈ dict_values (variables st)).
  { intros x Hx. apply elem_of_dict_values. by eexists. }
  rewrite Forall_forall in Hops. rewrite Forall_forall in Hvars.
  split.
  - done.
  - intros o p Ho Hp. destruct (Hops o (Hop o Ho)) as (Hin & _ & _).
    by apply (proj1 (Forall_forall _ _) Hin).
  - intros o Ho. by destruct (Hops o (Hop o Ho)) as (_ & Hnd & _).
  - intros o o' p Ho Ho' Hp Hp'. destruct (Hops o (Hop o Ho)) as (_ & _ & Hpriv).
    apply (proj1 (Forall_forall _ _) (proj1 (Forall_forall _ _) Hpriv p Hp) o'); [| done].
    by apply Hop.
  - intros p Hp. by destruct (Hvars p (Hvar p Hp)) as [Hsrc _].
  - intros x o Hx Ho. destruct (Hvars x (Hvar x Hx)) as [_ Hc].
    by apply (proj1 (Forall_forall _ _) Hc o), Hop.
Qed.


(** *** The worklist of [truncate_on_var] *)

(** The operations strictly downstream of a variable: its consumers and
    what is downstream of them. *)
Inductive downstream_of (st : State) (v : var_ref) : op_ref → Prop :=
  | downstream_consumer o :
      o ∈ dest_ops (var_heap st v) → downstream_of st v o
  | downstream_further o o' :
      downstream_of st v o → o' ∈ get_downstream_operations st o →
      downstream_of st v o'.

Lemma downstream_of_op_in st v o :
  well_formed st → var_in st v → downstream_of st v o → op_in st o.
Proof.
  intros Hwf Hv. induction 1 as [o Ho|o o' _ IH Ho'].
  - by apply (wf_dest _ Hwf v).
  - unfold get_downstream_operations in Ho'.
    apply list_elem_of_join in Ho' as (ds & Ho' & Hds).
    apply list_elem_of_fmap in Hds as (y & -> & Hy).
    destruct (wf_outputs _ Hwf o y IH Hy) as [Hyin _].
    by apply (wf_dest _ Hwf y).
Qed.

Lemma length_join_submseteq {A B : Type} (f : A → list B) (l k : list A) :
  l ⊆+ k → length (mjoin (f <$> l)) ≤ length (mjoin (f <$> k)).
Proof.
  induction 1 as [|x l k _ IH|x y l|x l k _ IH|l1 l2 l3 _ IH1 _ IH2]; csimpl.
  - done.
  - rewrite !length_app. lia.
  - rewrite !length_app. lia.
  - rewrite length_app. lia.
  - lia.
Qed.

(** The number of rounds of the worklist is bounded by the number of
    consumer entries it can ever hold. *)
Definition worklist_bound (st : State) (v : var_ref) : nat :=
  length (dest_ops (var_heap st v))
  + length (mjoin (get_downstream_operations st <$> dict_values (operations st))).

Section Worklist.
Variables (st : State) (v : var_ref).
Hypothesis Hwf : well_formed st.
Hypothesis Hv : var_in st v.

Record worklist (mark queue : list op_ref) (didx : nat) : Prop := {
  worklist_nodup : NoDup mark;
  worklist_queue :
    queue = dest_ops (var_heap st v)
            ++ mjoin (get_downstream_operations st <$> mark);
  worklist_mark : ∀ o, o ∈ mark ↔ o ∈ take didx queue;
  worklist_sound : ∀ o, o ∈ queue → downstream_of st v o
}.

Lemma worklist_length mark queue didx :
  worklist mark queue didx → length queue ≤ worklist_bound st v.
Proof.
  intros [Hnd Hq Hmark Hsound]. rewrite Hq at 1. rewrite length_app.
  unfold worklist_bound. apply Nat.add_le_mono_l, length_join_submseteq.
  apply NoDup_submseteq; [done |]. intros o Ho.
  apply op_in_values; [done |]. apply (downstream_of_op_in st v); [done | done |].
  apply Hsound. apply Hmark in Ho. by apply (subseteq_take didx).
Qed.

Lemma collect_downstream_worklist fuel mark queue didx :
  worklist mark queue didx →
  worklist_bound st v - didx < fuel →
  ∃ mark',
    collect_downstream fuel st mark queue didx = Return mark'
    ∧ NoDup mark'
    ∧ (∀ o, o ∈ mark' ↔ downstream_of st v o).
Proof.
  revert mark queue didx.
  induction fuel as [|fuel IH]; intros mark queue didx Hw Hfuel; [lia |].
  cbn [collect_downstream].
  pose proof (worklist_length _ _ _ Hw) as Hlen.
  destruct Hw as [Hnd Hq Hmark Hsound].
  destruct (queue !! didx) as [first_op|] eqn:Hfirst.
  - pose proof (lookup_lt_Some _ _ _ Hfirst) as Hlt.
    pose proof (take_S_r _ _ _ Hfirst) as Htake.
    case_decide as Hin.
    + apply IH; [| lia]. split; [done | done | | done].
      intros o. rewrite Htake, elem_of_app, list_elem_of_singleton, <- Hmark.
      split; [tauto |]. intros [?| ->]; done.
    + apply IH; [| lia]. split.
      * apply NoDup_app. split; [done |]. split; [| apply NoDup_singleton].
        intros o Ho ->%list_elem_of_singleton. done.
      * rewrite fmap_app, join_app. csimpl. rewrite app_nil_r, app_assoc.
        by rewrite <- Hq.
      * intros o. rewrite take_app_le by lia.
        rewrite Htake, !elem_of_app, !list_elem_of_singleton, <- Hmark. done.
      * intros o. rewrite elem_of_app. intros [Ho|Ho]; [by apply Hsound |].
        apply (downstream_further _ _ first_op); [| done].
        apply Hsound. by eapply list_elem_of_lookup_2.
  - exists mark. split; [done |]. split; [done |].
    apply lookup_ge_None in Hfirst. rewrite take_ge in Hmark by done.
    intros o. split.
    + intros Ho. by apply Hsound, Hmark.
    + induction 1 as [o Ho|o o' _ IHo Ho'].
      * apply Hmark. rewrite Hq. apply elem_of_app. by left.
      * apply Hmark. rewrite Hq. apply elem_of_app. right.
        apply list_elem_of_join. exists (get_downstream_operations st o).
        split; [done |]. by apply list_elem_of_fmap_2.
Qed.

Lemma collect_downstream_spec fuel :
  worklist_bound st v < fuel →
  ∃ mark,
    collect_downstream fuel st [] (dest_ops (var_heap st v)) 0 = Return mark
    ∧ NoDup mark
    ∧ (∀ o, o ∈ mark ↔ downstream_of st v o).
Proof.
  intros Hfuel. apply collect_downstream_worklist; [| lia]. split.
  - constructor.
  - csimpl. by rewrite app_nil_r.
  - intros o. by rewrite take_0.
  - intros o Ho. by apply downstream_consumer.
Qed.

End Worklist.

(** *** [truncate_on_var] *)

Lemma remove_operations_spec l st :
  sound st → NoDup l → (∀ o, o ∈ l → op_in st o) →
  ∃ st',
    for_in l remove_operation st = (Return (), st')
    ∧ sound st'
    ∧ (∀ o, op_in st' o ↔ op_in st o ∧ o ∉ l)
    ∧ (∀ x, var_in st' x → var_in st x)
    ∧ (∀ x p, p ∉ l → var_in st x → source_op (var_heap st x) = Some p →
              var_in st' x ∧ source_op (var_heap st' x) = Some p)
    ∧ (∀ x, var_in st x → is_parameter (var_heap st x) = false → var_in st' x).
Proof.
  revert st. induction l as [|o l IH]; intros st Hs Hnd Hin.
  - exists st. split; [done |]. split; [done |].
    split; [| split; [done | split; done]].
    intros o. rewrite elem_of_nil. tauto.
  - apply NoDup_cons in Hnd as [Hol Hnd].
    assert (Ho : op_in st o) by (apply Hin; left).
    pose proof (sound_well_formed _ Hs) as Hwf.
    destruct (remove_operation_spec o st Hs Ho)
      as (st1 & Hrun1 & Hs1 & Hops1 & _ & Hvars1 & _ & Hvar1 & Hsrc1 & _).
    destruct (IH st1 Hs1 Hnd) as (st' & Hrun & Hs' & Hops & Hvars & Hsrc & Hplain).
    { intros o' Ho'. apply Hops1. split; [apply Hin; by right | by intros ->]. }
    exists st'. split.
    { cbn [for_in]. by rewrite (bind_Return_state _ _ _ _ _ Hrun1). }
    split; [done |]. split; [| split; [| split]].
    + intros o'. rewrite Hops, Hops1, elem_of_cons. tauto.
    + intros x Hx. apply Hvars in Hx. by apply Hvars1 in Hx as [Hx _].
    + intros x p. rewrite not_elem_of_cons. intros [Hne Hp] Hx Hxs.
      apply Hsrc; [done | |].
      * apply Hvars1. split; [done |]. intros Hpar.
        assert (Hpx : is_parameter (var_heap st x) = true).
        { unfold parameters in Hpar. by apply list_elem_of_filter in Hpar as [? _]. }
        pose proof (sound_parameters_source _ Hs x Hx Hpx). congruence.
      * rewrite Hsrc1. rewrite decide_False; [done |]. intros Hxo.
        destruct (wf_outputs _ Hwf o x Ho Hxo) as [_ Hxs']. congruence.
    + intros x Hx Hpx. apply Hplain.
      * apply Hvars1. split; [done |]. unfold parameters.
        rewrite list_elem_of_filter. intros [Hp _]. congruence.
      * destruct (Hvar1 x) as (_ & _ & ->). done.
Qed.

Lemma mark_variable_as_graph_output_spec v st :
  var_in st v →
  mark_variable_as_graph_output v st
  = (Return (),
     with_outputs (dict_set (var_name (var_heap st v)) v (outputs st)) st).
Proof.
  intros Hv. unfold mark_variable_as_graph_output.
  by rewrite (var_in_dict_in _ _ Hv).
Qed.

Lemma truncate_on_var_spec st v s fuel :
  sound st →
  var_in st v →
  source_op (var_heap st v) = Some s →
  ¬ downstream_of st v s →
  worklist_bound st v < fuel →
  ∃ mark st',
    collect_downstream fuel st [] (dest_ops (var_heap st v)) 0 = Return mark
    ∧ NoDup mark
    ∧ (∀ o, o ∈ mark ↔ downstream_of st v o)
    ∧ truncate_on_var fuel v true st = (Return (), st')
    ∧ sound st'
    ∧ (∀ o, op_in st' o → op_in st o ∧ o ∉ mark)
    ∧ (∀ x, var_in st' x → var_in st x)
    ∧ kept v s st'
    ∧ no_isolated_operation st'
    ∧ no_isolated_variable st'.
Proof.
  intros Hs Hv Hsrc Hacyclic Hfuel. pose proof (sound_well_formed _ Hs) as Hwf.
  destruct (collect_downstream_spec st v Hwf Hv fuel Hfuel) as (mark & Hmark & Hnd & Hclos).
  exists mark.
  destruct (remove_operations_spec mark st Hs Hnd)
    as (st1 & Hrun1 & Hs1 & Hops1 & Hvars1 & Hsrc1 & _).
  { intros o Ho. apply (downstream_of_op_in st v); [done | done |]. by apply Hclos. }
  destruct (Hsrc1 v s) as [Hv1 Hsrc1v]; [| done | done |].
  { intros Hin. by apply Hacyclic, Hclos. }
  set (st2 := with_outputs (dict_set (var_name (var_heap st1 v)) v (outputs st1)) st1).
  assert (Hs2 : sound st2) by by apply sound_with_outputs.
  assert (Hkept2 : kept v s st2).
  { split; [done |]. split; [done |]. apply elem_of_dict_set_same. }
  destruct (delete_isolated_spec v s st2 Hs2)
    as (st' & Hrun & Hs' & Hfix & Hfixv & Hops & Hvars & Hkept).
  exists st'. split; [done |]. split; [done |]. split; [done |]. split.
  { unfold truncate_on_var. rewrite bind_get.
    rewrite (var_in_dict_in _ _ Hv). cbn [negb]. rewrite Hmark.
    rewrite (bind_Return_state _ _ _ _ _ Hrun1).
    by rewrite (bind_Return_state _ _ _ _ _ (mark_variable_as_graph_output_spec v st1 Hv1)). }
  split; [done |]. split; [| split; [| split; [by apply Hkept | done]]].
  - intros o Ho. apply Hops in Ho. by apply Hops1 in Ho.
  - intros x Hx. apply Hvars in Hx. by apply Hvars1.
Qed.

(** A variable of the graph that an operation produces, that no operation
    reads and that is not a declared output of the graph: the dangling
    variable of section 3. *)
Definition dangling (st : State) (x : var_ref) : Prop :=
  var_in st x
  ∧ is_Some (source_op (var_heap st x))
  ∧ dest_ops (var_heap st x) = []
  ∧ dict_in (var_name (var_heap st x)) (outputs st) = false.

#[export] Instance dangling_dec st x : Decision (dangling st x).
Proof. unfold dangling. apply _. Defined.


(** The worklist decides what is downstream of a variable. *)
Lemma downstream_of_collect st v fuel mark o :
  well_formed st → var_in st v → worklist_bound st v < fuel →
  collect_downstream fuel st [] (dest_ops (var_heap st v)) 0 = Return mark →
  downstream_of st v o ↔ o ∈ mark.
Proof.
  intros Hwf Hv Hfuel Hrun.
  destruct (collect_downstream_spec st v Hwf Hv fuel Hfuel) as (mark' & Hrun' & _ & Hclos).
  rewrite Hrun in Hrun'. injection Hrun' as <-. by rewrite Hclos.
Qed.

End Removal.

Section Examples.
Import Samples.
#[local] Open Scope nat_scope.


(** The dead tail goes with the parameters of its Conv. *)
Example delete_isolated_dead_conv :
  let st' := (delete_isolated dead_conv).2 in
  (delete_isolated dead_conv).1 = Return ()
  ∧ operations st' = [("P", 0%nat)]
  ∧ variables st' = [("x", 0%nat); ("a", 1%nat)]
  ∧ inputs st' = [("x", 0%nat)]
  ∧ outputs st' = [("a", 1%nat)].
Proof. vm_compute. repeat split. Qed.

Example delete_isolated_dead_tail :
  let st' := (delete_isolated dead_tail).2 in
  (delete_isolated dead_tail).1 = Return ()
  ∧ operations st' = [("P", 0%nat)]
  ∧ variables st' = [("x", 0%nat); ("a", 1%nat)]
  ∧ inputs st' = [("x", 0%nat)]
  ∧ outputs st' = [("a", 1%nat)].
Proof. vm_compute. repeat split. Qed.

(** A parameter that two operations share is outside these invariants:
    the graph is well formed, and the removal of the second of the two
    operations looks up the name of the parameter that went with the
    first. *)
Example delete_isolated_shared_parameter :
  well_formed shared_weight
  ∧ ¬ sound shared_weight
  ∧ (delete_isolated shared_weight).1 = Raise KeyError.
Proof.
  split; [apply check_well_formed_sound; vm_compute; reflexivity |].
  split; [| vm_compute; reflexivity].
  intros Hs.
  assert (1 = 2) as Heq; [| done].
  apply (sound_parameters_private _ Hs 1 2 4).
  - apply (bool_decide_unpack _). vm_compute. exact I.
  - apply (bool_decide_unpack _). vm_compute. exact I.
  - apply (bool_decide_unpack _). vm_compute. exact I.
  - apply (bool_decide_unpack _). vm_compute. exact I.
Qed.

Lemma well_formed_side_branch : well_formed side_branch.
Proof. apply check_well_formed_sound. vm_compute. reflexivity. Qed.

Lemma side_branch_downstream_of_a o :
  downstream_of side_branch 1 o ↔ o ∈ [1; 2].
Proof.
  apply (downstream_of_collect side_branch 1 20).
  - apply well_formed_side_branch.
  - apply (bool_decide_unpack _). vm_compute. exact I.
  - vm_compute. lia.
  - vm_compute. reflexivity.
Qed.

Lemma weighted_branch_downstream_of_a o :
  downstream_of weighted_branch 1 o ↔ o ∈ [1; 2].
Proof.
  apply (downstream_of_collect weighted_branch 1 20).
  - apply check_well_formed_sound. vm_compute. reflexivity.
  - apply (bool_decide_unpack _). vm_compute. exact I.
  - vm_compute. lia.
  - vm_compute. reflexivity.
Qed.



Example truncate_on_var_side_branch :
  let st' := (truncate_on_var 20 1 true side_branch).2 in
  operations st' = [("P", 0%nat)]
  ∧ variables st' = [("x", 0%nat); ("a", 1%nat)]
  ∧ inputs st' = [("x", 0%nat)]
  ∧ outputs st' = [("a", 1%nat)].
Proof. vm_compute. repeat split. Qed.

Example truncate_on_var_weighted_branch :
  let st' := (truncate_on_var 20 1 true weighted_branch).2 in
  operations st' = [("P", 0%nat)]
  ∧ variables st' = [("x", 0%nat); ("a", 1%nat)]
  ∧ inputs st' = [("x", 0%nat)]
  ∧ outputs st' = [("a", 1%nat)].
Proof. vm_compute. repeat split. Qed.

Example truncate_on_var_two_results :
  let st' := (truncate_on_var 20 1 true two_results).2 in
  operations st' = [("P", 0%nat)]
  ∧ variables st' = [("x", 0%nat); ("a", 1%nat); ("a2", 2%nat)]
  ∧ op_outputs (op_heap st' 0) = [1; 2]
  ∧ inputs st' = [("x", 0%nat)]
  ∧ outputs st' = [("a", 1%nat)].
Proof. vm_compute. repeat split. Qed.

End Examples.

End IsolationFacts.

(** * Further facts *)

Module BuilderFacts.
Import Training TrainingFacts.

(** ** class PriorityQueue *)

Section QueueOrder.
Context {Op : Type} `{Countable Op}.
Implicit Types (q : PriorityQueue Op).

(** The queues a program can make. *)
Inductive made : PriorityQueue Op → Prop :=
  | made_init : made PriorityQueue_init
  | made_push z o q : made q → made (push z o q)
  | made_pop q ele q1 : made q → pop q = Return (ele, q1) → made q1.

Lemma pop_data q ele q1 :
  pop q = Return (ele, q1) →
  _lazy_tag q1 = true
  ∧ _data q1 = (if _lazy_tag q then _data q else sorted (_data q))
  ∧ _idx q1 = S (_idx q)
  ∧ _data q1 !! _idx q = Some ele.
Proof.
  unfold pop. destruct (_lazy_tag q) eqn:Hlazy; simpl.
  - destruct (_data q !! _idx q) as [e|] eqn:He; [| done].
    intros Hq. by simplify_eq.
  - destruct (sorted (_data q) !! _idx q) as [e|] eqn:He; [| done].
    intros Hq. by simplify_eq.
Qed.

Lemma made_sorted q :
  made q → _lazy_tag q = true → StronglySorted key_le (_data q).
Proof.
  induction 1 as [|z o q _ IH|q ele q1 _ IH Hpop].
  - intros _. constructor.
  - unfold push. case_decide; [done | simpl; done].
  - intros _. apply pop_data in Hpop as (_ & -> & _).
    destruct (_lazy_tag q); [by apply IH | apply sorted_sorted].
Qed.

Lemma StronglySorted_lookup_le (l : list (Z * Op)) i j x y :
  StronglySorted key_le l → (i < j)%nat →
  l !! i = Some x → l !! j = Some y → x.1 ≤ y.1.
Proof.
  intros Hl. revert i j. induction Hl as [|a l _ IH Ha]; intros i j Hij Hi Hj; [done |].
  destruct j as [|j]; [lia |]. simpl in Hj. destruct i as [|i]; simpl in Hi.
  - simplify_eq. rewrite Forall_forall in Ha.
    apply (Ha y). by eapply list_elem_of_lookup_2.
  - apply (IH i j); [lia | done | done].
Qed.

(** X1.  Two [pop]s in a row hand out their elements in the order of their
    depths. *)
Theorem pop_in_depth_order q e1 q1 e2 q2 :
  made q → pop q = Return (e1, q1) → pop q1 = Return (e2, q2) → e1.1 ≤ e2.1.
Proof.
  intros Hq Hpop1 Hpop2.
  pose proof (made_sorted q1 (made_pop _ _ _ Hq Hpop1)) as Hsorted.
  apply pop_data in Hpop1 as (Hlazy1 & _ & Hidx1 & He1).
  apply pop_data in Hpop2 as (_ & Hdata2 & _ & He2).
  rewrite Hlazy1 in Hdata2. rewrite Hdata2, Hidx1 in He2.
  apply (StronglySorted_lookup_le (_data q1) (_idx q) (S (_idx q))); auto with lia.
Qed.

(** X2.  [pop] raises [IndexError] exactly on the queues [empty] answers [True]
    for. *)
Theorem pop_raises_iff_empty q :
  pop q = Raise IndexError ↔ empty q = true.
Proof.
  unfold pop, empty. rewrite bool_decide_eq_true.
  assert (Hlen : length (if negb (_lazy_tag q) then sorted (_data q) else _data q)
                 = length (_data q)).
  { destruct (_lazy_tag q); simpl; [done |]. by rewrite sorted_perm. }
  destruct (_lazy_tag q); simpl in *.
  - destruct (_data q !! _idx q) as [e|] eqn:He.
    + apply lookup_lt_Some in He. split; [done | lia].
    + apply lookup_ge_None in He. done.
  - destruct (sorted (_data q) !! _idx q) as [e|] eqn:He.
    + apply lookup_lt_Some in He. split; [done | lia].
    + apply lookup_ge_None in He. split; [lia | done].
Qed.

End QueueOrder.

(** ** class BlockBuilder *)

Section DepthInit.
Context {Op : Type} `{Countable Op} {G : GraphQueries Op}.

Lemma for_each_raises {A B : Type} (f : A → outcome B) (l : list A) e :
  (∀ x, x ∈ l → (∃ y, f x = Return y) ∨ f x = Raise e) →
  (∃ x, x ∈ l ∧ f x = Raise e) →
  for_each f l = Raise e.
Proof.
  induction l as [|x l IH]; intros Hall (x0 & Hx0 & Hraise).
  - by apply elem_of_nil in Hx0.
  - simpl. destruct (Hall x) as [[y Hy]|Hx]; [left | | by rewrite Hx].
    rewrite Hy. simpl.
    apply elem_of_cons in Hx0 as [->|Hx0]; [congruence |].
    rewrite IH; [done | | by exists x0].
    intros x' Hx'. apply Hall. by right.
Qed.

(** The order is topological from the dictionary [d] on: what an
    operation reads is produced by an operation that has its depth
    already. *)
Definition producers_first (orders : list Op) (d : gmap Op Z) : Prop :=
  ∀ i o u, orders !! i = Some o → u ∈ get_upstream_operations o →
           u ∈ dom d ∨ u ∈ take i orders.

Lemma producers_first_tail o rest d z :
  producers_first (o :: rest) d → producers_first rest (<[o := z]> d).
Proof.
  intros Hfirst i o' u Ho' Hu.
  destruct (Hfirst (S i) o' u Ho' Hu) as [Hd|Ht].
  - left. rewrite dom_insert. set_solver.
  - simpl in Ht. apply elem_of_cons in Ht as [->|Ht]; [| by right].
    left. rewrite dom_insert. set_solver.
Qed.

Lemma producers_first_head o rest d u :
  producers_first (o :: rest) d → u ∈ get_upstream_operations o → is_Some (d !! u).
Proof.
  intros Hfirst Hu. destruct (Hfirst 0%nat o u eq_refl Hu) as [Hd|Ht].
  - by apply elem_of_dom.
  - by apply elem_of_nil in Ht.
Qed.

Lemma initialize_depth_from_total orders d :
  producers_first orders d → ∃ d', initialize_depth_from orders d = Return d'.
Proof.
  revert d. induction orders as [|o rest IH]; intros d Hfirst; simpl; [by eexists |].
  case_bool_decide as Hups.
  - apply IH. by apply producers_first_tail.
  - destruct (for_each_total
                (λ up_op, match d !! up_op with
                          | Some z => Return z
                          | None => Raise AssertionError
                          end) (get_upstream_operations o)) as [cache Hcache].
    { apply Forall_forall. intros u Hu.
      destruct (producers_first_head o rest d u Hfirst Hu) as [z ->]. by eexists. }
    rewrite Hcache. simpl.
    destruct cache as [|z zs].
    + apply for_each_Return, Forall2_length in Hcache. done.
    + apply IH. by apply producers_first_tail.
Qed.

Lemma initialize_depth_from_raises l1 o l2 u d :
  producers_first l1 d →
  u ∈ get_upstream_operations o → u ∉ dom d → u ∉ l1 →
  initialize_depth_from (l1 ++ o :: l2) d = Raise AssertionError.
Proof.
  revert d. induction l1 as [|o' l1 IH]; intros d Hfirst Hu Hd Hl1; simpl.
  - rewrite bool_decide_eq_false_2.
    2:{ intros Hlen. apply nil_length_inv in Hlen. rewrite Hlen in Hu.
        by apply elem_of_nil in Hu. }
    rewrite (for_each_raises _ _ AssertionError); [done | |].
    + intros x _. destruct (d !! x); [left; by eexists | by right].
    + exists u. split; [done |]. apply not_elem_of_dom in Hd. by rewrite Hd.
  - apply not_elem_of_cons in Hl1 as [Hne Hl1].
    assert (Hd' : ∀ z, u ∉ dom (<[o' := z]> d)).
    { intros z. rewrite dom_insert. set_solver. }
    case_bool_decide as Hups.
    + apply IH; [by apply producers_first_tail | done | done | done].
    + destruct (for_each_total
                  (λ up_op, match d !! up_op with
                            | Some z => Return z
                            | None => Raise AssertionError
                            end) (get_upstream_operations o')) as [cache Hcache].
      { apply Forall_forall. intros u' Hu'.
        destruct (producers_first_head o' l1 d u' Hfirst Hu') as [z ->]. by eexists. }
      rewrite Hcache. simpl. destruct cache as [|z zs].
      * apply for_each_Return, Forall2_length in Hcache. done.
      * apply IH; [by apply producers_first_tail | done | done | done].
Qed.

(** X3.  On a topological order the constructor returns.  The builder keeps
    the order; its depths are defined on the operations of the order and
    solve the recurrence: 0 for an operation without upstream operation,
    one more than the deepest upstream operation otherwise. *)
Theorem BlockBuilder_init_topological (topo_order : list Op) :
  (∀ i o u, topo_order !! i = Some o → u ∈ get_upstream_operations o →
            u ∈ take i topo_order) →
  ∃ self,
    BlockBuilder_init topo_order = Return self
    ∧ op_orders self = topo_order
    ∧ dom (depth self) = list_to_set topo_order
    ∧ ∀ o, o ∈ topo_order →
        ∃ zs, Forall2 (λ u zu, depth self !! u = Some zu)
                      (get_upstream_operations o) zs
              ∧ depth self !! o
                = Some (match zs with [] => 0 | z :: zs' => max_of z zs' + 1 end).
Proof.
  intros Htopo.
  destruct (initialize_depth_from_total topo_order ∅) as [d Hd].
  { intros i o u Ho Hu. right. by eapply Htopo. }
  exists {| op_orders := topo_order; depth := d |}.
  unfold BlockBuilder_init, initialize_depth. rewrite Hd. simpl.
  split; [done |]. split; [done |].
  destruct (initialize_depth_sound topo_order d Hd) as [Hsound Hdom].
  split; [done |]. intros o Ho.
  assert (is_Some (d !! o)) as [z Hz].
  { apply elem_of_dom. rewrite Hdom. by apply elem_of_list_to_set. }
  destruct (Hsound o z Hz) as (zs & Hzs & ->). exists zs. split; [done |].
  rewrite Hz. by destruct zs.
Qed.

(** X4.  When an operation of the order reads what an operation that comes
    later, or not at all, produces, the constructor stops at the first
    such operation with the failure of its assertion. *)
Theorem BlockBuilder_init_not_topological (l1 l2 : list Op) (o u : Op) :
  (∀ i o' u', l1 !! i = Some o' → u' ∈ get_upstream_operations o' →
              u' ∈ take i l1) →
  u ∈ get_upstream_operations o → u ∉ l1 →
  BlockBuilder_init (l1 ++ o :: l2) = Raise AssertionError.
Proof.
  intros Hl1 Hu Hnot. unfold BlockBuilder_init, initialize_depth.
  rewrite (initialize_depth_from_raises l1 o l2 u ∅); [done | | done | | done].
  - intros i o' u' Ho' Hu'. right. by eapply Hl1.
  - rewrite dom_empty. set_solver.
Qed.

End DepthInit.

Section Blocks.
Context {Op : Type} `{Countable Op} {G : GraphQueries Op}.
Implicit Types (self : BlockBuilder Op).

Lemma index_unknown (op : Op) l : op ∉ l → index op l = Raise ValueError.
Proof.
  induction l as [|x l IH]; simpl; [done |].
  rewrite not_elem_of_cons. intros [Hne Hl].
  rewrite decide_False by done. by rewrite IH.
Qed.

Lemma index_outcome (op : Op) l :
  (∃ i, index op l = Return i) ∨ index op l = Raise ValueError.
Proof.
  destruct (decide (op ∈ l)) as [Hin|Hin].
  - left. by apply index_total.
  - right. by apply index_unknown.
Qed.

(** X5.  With a limit of 0 or less, [build] returns the block that has the
    given operation alone. *)
Theorem build_minimal_block (topo_order : list Op) self (s : Op)
    (limit : Z) (fuel : nat) :
  BlockBuilder_init topo_order = Return self →
  (∀ a b : Op, b ∈ get_downstream_operations a → a ∈ get_upstream_operations b) →
  (∀ a b : Op, a ∈ topo_order → b ∈ get_downstream_operations a → b ∈ topo_order) →
  (∀ a b x : Op, x ∈ opset_matching a b → x ∈ topo_order) →
  s ∈ topo_order → limit ≤ 0 →
  build (S fuel) self s limit = Return {| sp := s; ep := s; rps := [s] |}.
Proof.
  intros Hbuilt Hcoh Hdown Hopset Hs Hlimit. unfold build. cbn [build_loop].
  assert (Hblock : create_block self s s
                   = Return {| sp := s; ep := s; rps := [s] |}).
  { unfold create_block. by rewrite decide_True. }
  destruct (next_ep_total topo_order self Hbuilt Hcoh Hdown Hopset s Hs) as [fut Hfut].
  rewrite Hfut. simpl. destruct fut as [f|]; [| done].
  pose proof (next_ep_known topo_order self Hbuilt Hcoh Hdown s f Hs Hfut) as Hf.
  destruct (proj1 (built_known topo_order self Hbuilt Hcoh f) Hf) as [zf Hzf].
  destruct (proj1 (built_known topo_order self Hbuilt Hcoh s) Hs) as [zs Hzs].
  pose proof (next_ep_deeper topo_order self Hbuilt Hcoh s f zs Hfut Hzs zf Hzf).
  unfold depth_of. rewrite Hzf, Hzs. simpl.
  rewrite bool_decide_eq_true_2 by lia. done.
Qed.

(** X6.  The members of a block with two distinct ends are the operations the
    search matched, each as often as it was matched, in the order of
    their positions in the topological order. *)
Theorem create_block_in_order self (s e : Op) (b : TrainableBlock) :
  s ≠ e → create_block self s e = Return b →
  sp b = s ∧ ep b = e
  ∧ rps b ≡ₚ opset_matching s e
  ∧ ∀ i j x y, (i < j)%nat → rps b !! i = Some x → rps b !! j = Some y →
      ∃ ix iy, index x (op_orders self) = Return ix
               ∧ index y (op_orders self) = Return iy ∧ ix ≤ iy.
Proof.
  intros Hne. unfold create_block. rewrite decide_False by done. intros Hb.
  apply bind_Return in Hb as (keyed & Hkeyed & Hb). simplify_eq. simpl.
  apply for_each_Return in Hkeyed.
  assert (Hkey : ∀ p, p ∈ keyed → index p.2 (op_orders self) = Return p.1).
  { intros p Hp. apply list_elem_of_lookup in Hp as [k Hk].
    destruct (Forall2_lookup_r _ _ _ _ _ Hkeyed Hk) as (x & _ & Hx).
    apply bind_Return in Hx as (ix & Hix & Hret). by simplify_eq. }
  assert (Hops : keyed.*2 = opset_matching s e).
  { clear Hkey. generalize dependent (opset_matching s e). intros l Hkeyed.
    induction Hkeyed as [|x p l k Hx _ IH]; [done |].
    apply bind_Return in Hx as (ix & _ & Hret). by simplify_eq. }
  split; [done |]. split; [done |]. split.
  - rewrite <- Hops. apply fmap_Permutation, sorted_perm.
  - intros i j x y Hij Hx Hy.
    rewrite list_lookup_fmap in Hx, Hy.
    destruct (sorted keyed !! i) as [p|] eqn:Hp; [| done].
    destruct (sorted keyed !! j) as [p'|] eqn:Hp'; [| done].
    simpl in Hx, Hy. simplify_eq.
    exists p.1, p'.1. split; [| split].
    + apply Hkey. rewrite <- (sorted_perm keyed). by eapply list_elem_of_lookup_2.
    + apply Hkey. rewrite <- (sorted_perm keyed). by eapply list_elem_of_lookup_2.
    + apply (StronglySorted_lookup_le (sorted keyed) i j); [apply sorted_sorted | done ..].
Qed.

(** X7.  A matched operation that the topological order does not have makes
    [create_block] raise the [ValueError] of [list.index]. *)
Theorem create_block_unknown_operation self (s e x : Op) :
  s ≠ e → x ∈ opset_matching s e → x ∉ op_orders self →
  create_block self s e = Raise ValueError.
Proof.
  intros Hne Hx Hnot. unfold create_block. rewrite decide_False by done.
  rewrite (for_each_raises _ _ ValueError); [done | |].
  - intros y _. destruct (index_outcome y (op_orders self)) as [[i ->]| ->].
    + left. by eexists.
    + by right.
  - exists x. split; [done |]. by rewrite index_unknown.
Qed.

End Blocks.

Section Found.
Context {Op : Type} `{Countable Op} {G : GraphQueries Op}.
Implicit Types (q : PriorityQueue Op) (d : gmap Op Z).

(** The operations a search from [op] gets to: [op] and what is
    downstream of it. *)
Inductive reached (op : Op) : Op → Prop :=
  | reached_start : reached op op
  | reached_down o o' :
      reached op o → o' ∈ get_downstream_operations o → reached op o'.

Lemma push_all_ops d l q q2 :
  push_all d l q = Return q2 → _ops q2 = list_to_set l ∪ _ops q.
Proof.
  revert q. induction l as [|o l IH]; simpl; intros q Hpush.
  - simplify_eq. set_solver.
  - apply bind_Return in Hpush as (z & _ & Hpush).
    rewrite (IH _ Hpush), push_ops. set_solver.
Qed.

Lemma find_multi_input_ep_loop_found (op : Op) fuel d q popped k :
  queue_ok d q → (∀ o, o ∈ _ops q → reached op o) →
  (find_multi_input_ep_loop fuel d q popped).1.1 = Return (Some k) →
  reached op k
  ∧ (1 < length (get_upstream_operations k))%nat
  ∧ ∀ u, u ∈ get_upstream_operations k → reached op u.
Proof.
  revert q popped. induction fuel as [|fuel IH]; intros q popped Hq Hops; simpl; [done |].
  destruct (empty q); [done |].
  destruct (pop q) as [[ele q1]| |] eqn:Hpop; [| done | done].
  destruct (pop_ok _ _ _ _ Hq Hpop) as (Hq1 & _ & Hin).
  pose proof (pop_ops _ _ _ Hpop) as Hops1.
  assert (Hele : reached op ele.2).
  { apply Hops. destruct ele as [z o]. by apply (qo_known _ _ Hq z o). }
  destruct (empty q1 && forallb _ _ && bool_decide _) eqn:Hcond.
  - simpl. intros Hk. simplify_eq.
    apply andb_true_iff in Hcond as [Hcond Hlen].
    apply andb_true_iff in Hcond as [_ Hall].
    apply bool_decide_eq_true in Hlen.
    split; [done |]. split; [done |]. intros u Hu. apply Hops.
    rewrite <- Hops1. rewrite forallb_forall in Hall.
    apply list_elem_of_In, Hall in Hu. by apply bool_decide_eq_true in Hu.
  - destruct (push_all d (get_downstream_operations ele.2) q1) as [q2| |] eqn:Hpush;
      [| done | done].
    destruct (push_all_ok _ _ _ _ Hq1 Hpush) as (Hq2 & _ & _).
    apply IH; [done |]. intros o.
    rewrite (push_all_ops _ _ _ _ Hpush), elem_of_union, elem_of_list_to_set, Hops1.
    intros [Ho|Ho]; [| by apply Hops]. by apply (reached_down op ele.2).
Qed.

(** X8.  The end point [_find_multi_input_ep] finds for [op] is downstream of
    [op], strictly deeper, and reads from more than one operation, all of
    which the search from [op] has reached. *)
Theorem find_multi_input_ep_found (topo_order : list Op)
    (self : BlockBuilder Op) (op k : Op) :
  BlockBuilder_init topo_order = Return self →
  (∀ a b : Op, b ∈ get_downstream_operations a → a ∈ get_upstream_operations b) →
  _find_multi_input_ep self op = Return (Some k) →
  reached op k
  ∧ (∃ z0 z, depth self !! op = Some z0 ∧ depth self !! k = Some z ∧ z0 < z)
  ∧ (1 < length (get_upstream_operations k))%nat
  ∧ ∀ u, u ∈ get_upstream_operations k → reached op u.
Proof.
  intros Hbuilt Hcoh Hfound.
  assert (Hdeeper : ∃ z0 z, depth self !! op = Some z0
                            ∧ depth self !! k = Some z ∧ z0 < z).
  { destruct (find_multi_input_ep_run_trace (depth self)
                (built_depth_grows topo_order self Hbuilt Hcoh)
                (S (size (depth self))) self op eq_refl) as [_ Htrace].
    by apply Htrace. }
  cut (reached op k ∧ (1 < length (get_upstream_operations k))%nat
       ∧ ∀ u, u ∈ get_upstream_operations k → reached op u); [tauto |].
  revert Hfound. unfold _find_multi_input_ep, find_multi_input_ep_run, depth_of.
  destruct (depth self !! op) as [z0|] eqn:Hz0; [| done].
  rewrite first_pop. cbv zeta.
  set (q1 := {| _data := [(z0, op)]; _ops := {[op]} ∪ ∅;
                _idx := 1; _lazy_tag := true |}).
  assert (Hq1 : queue_ok (depth self) q1).
  { split; simpl; [apply NoDup_singleton | | lia].
    intros z o Hin. apply list_elem_of_singleton in Hin. simplify_eq.
    split; [set_solver | done]. }
  destruct (push_all _ _ q1) as [q2| |] eqn:Hpush; [| done | done].
  destruct (push_all_ok _ _ _ _ Hq1 Hpush) as (Hq2 & _ & _).
  apply find_multi_input_ep_loop_found; [done |]. intros o.
  rewrite (push_all_ops _ _ _ _ Hpush), elem_of_union, elem_of_list_to_set.
  intros [Ho|Ho].
  - apply (reached_down op op); [constructor | done].
  - simpl in Ho. assert (o = op) as -> by set_solver. constructor.
Qed.

End Found.

Section Witnesses.
Import Graph Samples.

Lemma pop_in_depth_order_witness :
  (1, A).1 ≤ (2, B).1.
Proof.
  apply (pop_in_depth_order
           (push 2 B (push 1 A PriorityQueue_init)) (1, A)
           {| _data := [(1, A); (2, B)]; _ops := {[B]} ∪ ({[A]} ∪ ∅);
              _idx := 1; _lazy_tag := true |}
           (2, B)
           {| _data := [(1, A); (2, B)]; _ops := {[B]} ∪ ({[A]} ∪ ∅);
              _idx := 2; _lazy_tag := true |}).
  - apply made_push, made_push, made_init.
  - reflexivity.
  - reflexivity.
Defined.

Lemma BlockBuilder_init_topological_witness :
  ∃ self,
    BlockBuilder_init (G := Search.queries diamond) [A; B; C; D] = Return self
    ∧ op_orders self = [A; B; C; D]
    ∧ dom (depth self) = list_to_set [A; B; C; D]
    ∧ ∀ o, o ∈ [A; B; C; D] →
        ∃ zs, Forall2 (λ u zu, depth self !! u = Some zu)
                      (get_upstream_operations diamond o) zs
              ∧ depth self !! o
                = Some (match zs with [] => 0 | z :: zs' => max_of z zs' + 1 end).
Proof.
  apply (BlockBuilder_init_topological (G := Search.queries diamond) [A; B; C; D]).
  intros i o u Ho Hu.
  destruct i as [|[|[|[|i]]]]; cbn in Ho; simplify_eq; cbn in Hu;
    repeat (apply elem_of_cons in Hu as [->|Hu]; [cbn; set_solver |]);
    by apply elem_of_nil in Hu.
Defined.

Lemma BlockBuilder_init_not_topological_witness :
  BlockBuilder_init (G := Search.queries diamond) ([] ++ B :: [A; C; D])
  = Raise AssertionError.
Proof.
  apply (BlockBuilder_init_not_topological (G := Search.queries diamond)
           [] [A; C; D] B A).
  - intros i o' u' Ho'. done.
  - cbn. set_solver.
  - apply not_elem_of_nil.
Defined.

Lemma build_minimal_block_witness :
  build (G := Search.queries diamond) 1 (builder_of diamond [A; B; C; D]) A 0
  = Return {| sp := A; ep := A; rps := [A] |}.
Proof.
  apply (build_minimal_block (G := Search.queries diamond) [A; B; C; D]
           (builder_of diamond [A; B; C; D]) A 0 0
           diamond_built diamond_coherent diamond_closed_down diamond_closed_opset).
  - left.
  - lia.
Defined.

Lemma create_block_in_order_witness :
  let self := builder_of diamond [A; C; B; D] in
  let b := {| sp := A; ep := D; rps := [A; C; B; D] |} in
  sp b = A ∧ ep b = D
  ∧ rps b ≡ₚ Search.opset_matching diamond A D
  ∧ ∀ i j x y, (i < j)%nat → rps b !! i = Some x → rps b !! j = Some y →
      ∃ ix iy, index x (op_orders self) = Return ix
               ∧ index y (op_orders self) = Return iy ∧ ix ≤ iy.
Proof.
  apply (create_block_in_order (G := Search.queries diamond)
           (builder_of diamond [A; C; B; D]) A D).
  - discriminate.
  - vm_compute. reflexivity.
Defined.

Lemma create_block_unknown_operation_witness :
  create_block (G := Search.queries diamond)
    {| op_orders := [A; B; C]; depth := ∅ |} A D
  = Raise ValueError.
Proof.
  apply (create_block_unknown_operation (G := Search.queries diamond)
           {| op_orders := [A; B; C]; depth := ∅ |} A D D).
  - discriminate.
  - apply (bool_decide_unpack _). vm_compute. exact I.
  - apply (bool_decide_unpack _). vm_compute. exact I.
Defined.

Lemma find_multi_input_ep_found_witness :
  reached (G := Search.queries diamond) A D
  ∧ (∃ z0 z, depth (builder_of diamond [A; B; C; D]) !! A = Some z0
             ∧ depth (builder_of diamond [A; B; C; D]) !! D = Some z ∧ z0 < z)
  ∧ (1 < length (get_upstream_operations diamond D))%nat
  ∧ ∀ u, u ∈ get_upstream_operations diamond D →
         reached (G := Search.queries diamond) A u.
Proof.
  apply (find_multi_input_ep_found (G := Search.queries diamond) [A; B; C; D]
           (builder_of diamond [A; B; C; D]) A D diamond_built diamond_coherent).
  vm_compute. reflexivity.
Defined.

End Witnesses.

End BuilderFacts.

Module CheckPointFacts.
Import CheckPoint.

Section CheckPoint.
Context {Tensor PyFloat : Type}.
Variable batch_random_fetch : Tensor → Z → Z → Tensor.
Implicit Types (self : FinetuneCheckPoint (Tensor := Tensor) (PyFloat := PyFloat)).

(** [push] call after call *)
Definition push_each (l : list (Tensor * bool)) self :=
  foldl (λ c p, push batch_random_fetch p.1 p.2 c) self l.

(** What [push] stores of a tensor. *)
Definition fetched self (t : Tensor) : Tensor :=
  if random_fetch self then batch_random_fetch t (seed self) (fetches self) else t.

Lemma push_each_spec l self :
  let c := push_each l self in
  seed c = seed self ∧ fetches c = fetches self
  ∧ random_fetch c = random_fetch self
  ∧ outputs c
    = outputs self ++ (fetched self <$> (filter (λ p, p.2 = false) l).*1)
  ∧ references c
    = references self ++ (fetched self <$> (filter (λ p, p.2 = true) l).*1).
Proof.
  revert self. induction l as [|[t r] l IH]; intros self.
  - simpl. by rewrite !app_nil_r.
  - destruct (IH (push batch_random_fetch t r self)) as (Hs & Hf & Hr & Ho & Hrefs).
    assert (Hfetched : fetched (push batch_random_fetch t r self) = fetched self).
    { unfold fetched, push. by destruct r. }
    rewrite Hfetched in Ho, Hrefs.
    change (push_each ((t, r) :: l) self)
      with (push_each l (push batch_random_fetch t r self)).
    cbv zeta. rewrite Hs, Hf, Hr, Ho, Hrefs. clear.
    destruct r.
    + rewrite filter_cons_False by (simpl; congruence).
      rewrite filter_cons_True by done.
      cbn. by rewrite <- app_assoc.
    + rewrite filter_cons_True by done.
      rewrite filter_cons_False by (simpl; congruence).
      cbn. by rewrite <- app_assoc.
Qed.

Variable float_1e9 : PyFloat.

(** The tensors of a list of [push] calls that were pushed as outputs,
    and those pushed as references, in the order of the calls. *)
Definition pushed_outputs (l : list (Tensor * bool)) : list Tensor :=
  (filter (λ p, p.2 = false) l).*1.

Definition pushed_references (l : list (Tensor * bool)) : list Tensor :=
  (filter (λ p, p.2 = true) l).*1.

(** X9.  After any sequence of [push] calls on a new check point, [pop]
    returns when as many outputs as references were pushed, and fails its
    assertion otherwise.  It returns what was pushed, outputs and
    references apart, each in the order of the calls and each tensor
    sampled with the seed and the size the check point was made with (or
    as it was given, when [random_fetch] is off). *)
Theorem pop_after_pushes (variable : string) (rf : bool) (sd : option Z)
    (n drawn : Z) (l : list (Tensor * bool)) :
  let self := init float_1e9 variable rf sd n drawn in
  pop (push_each l self)
  = if bool_decide (length (pushed_outputs l) = length (pushed_references l))
    then Return (fetched self <$> pushed_outputs l,
                 fetched self <$> pushed_references l)
    else Raise AssertionError.
Proof.
  intros self.
  destruct (push_each_spec l self) as (_ & _ & _ & Ho & Hr).
  unfold pop. rewrite Ho, Hr. simpl. rewrite !length_fmap.
  unfold pushed_outputs, pushed_references. rewrite !length_fmap.
  by case_bool_decide.
Qed.

(** X10.  [clear] forgets the outputs and nothing else.  After pushes [l], a
    [clear] and pushes [l'], the check point holds the outputs of [l']
    alone and the references of [l] and [l'] together, so [pop] then
    returns exactly when [l'] brought as many outputs as [l] and [l']
    brought references. *)
Theorem pop_after_clear (variable : string) (rf : bool) (sd : option Z)
    (n drawn : Z) (l l' : list (Tensor * bool)) :
  let self := init float_1e9 variable rf sd n drawn in
  pop (push_each l' (clear (push_each l self)))
  = if bool_decide (length (pushed_outputs l')
                    = (length (pushed_references l)
                       + length (pushed_references l'))%nat)
    then Return (fetched self <$> pushed_outputs l',
                 fetched self <$> (pushed_references l ++ pushed_references l'))
    else Raise AssertionError.
Proof.
  intros self.
  destruct (push_each_spec l self) as (Hs & Hf & Hrf & _ & Hr).
  destruct (push_each_spec l' (clear (push_each l self))) as (_ & _ & _ & Ho' & Hr').
  assert (Hfetched : fetched (clear (push_each l self)) = fetched self).
  { unfold fetched, clear. simpl. by rewrite Hs, Hf, Hrf. }
  rewrite Hfetched in Ho', Hr'. simpl in Ho', Hr'. rewrite Hr in Hr'. simpl in Hr'.
  unfold pop. rewrite Ho', Hr'. rewrite fmap_app, !length_app, !length_fmap.
  unfold pushed_outputs, pushed_references. rewrite !length_fmap.
  by case_bool_decide.
Qed.

End CheckPoint.
End CheckPointFacts.

Module FormatterFacts.
Import Graph Morph MorphFacts IsolationFacts.

Section Formatter.
Context {torch : Torch}.
#[local] Open Scope nat_scope.

(** X12.  [delete_isolated] only removes: on a graph that keeps the
    invariants of the data model, parameters not shared, it returns a
    graph whose operations and variables were there before, and it keeps
    every declared output that has its producer in the graph, with this
    producer. *)
Theorem delete_isolated_keeps_outputs (st : State) :
  sound st →
  ∃ st',
    delete_isolated st = (Return (), st')
    ∧ (∀ o, o ∈ dict_values (operations st') → o ∈ dict_values (operations st))
    ∧ (∀ x, x ∈ dict_values (variables st') → x ∈ dict_values (variables st))
    ∧ ∀ v s, (var_name (var_heap st v), v) ∈ variables st →
             source_op (var_heap st v) = Some s →
             (var_name (var_heap st v), v) ∈ outputs st →
             (var_name (var_heap st' v), v) ∈ variables st'
             ∧ (var_name (var_heap st' v), v) ∈ outputs st'
             ∧ source_op (var_heap st' v) = Some s
             ∧ s ∈ dict_values (operations st')
             ∧ v ∈ op_outputs (op_heap st' s).
Proof.
  intros Hsound. pose proof (sound_well_formed _ Hsound) as Hwf.
  destruct (delete_isolated_spec 0 0 st Hsound)
    as (st' & Hrun & Hsound' & _ & _ & Hops & Hvars & _).
  pose proof (sound_well_formed _ Hsound') as Hwf'.
  exists st'. split; [done |]. split; [| split].
  - intros o Ho. apply op_in_values; [done |]. apply Hops. by apply op_in_values.
  - intros x Hx. apply var_in_values; [done |]. apply Hvars. by apply var_in_values.
  - intros v s Hv Hsrc Hout.
    destruct (delete_isolated_spec v s st Hsound)
      as (st'' & Hrun' & _ & _ & _ & _ & _ & Hkept).
    rewrite Hrun in Hrun'. injection Hrun' as <-.
    destruct Hkept as (Hv' & Hsrc' & Hout'); [done |].
    destruct (wf_source _ Hwf' v s Hv' Hsrc') as [Hs Hin].
    split; [done |]. split; [done |]. split; [done |]. split; [| done].
    by apply op_in_values.
Qed.

(** X13.  A second [format_clip] right after the first finds nothing to do: it
    returns and leaves the state as it found it. *)
Theorem format_clip_twice (st : State) :
  let interested_ops := filter (clip_with_bounds st) (dict_values (operations st)) in
  NoDup interested_ops →
  NoDup ((variables st).*1 ++ mjoin (clip_names st <$> interested_ops)) →
  ∃ st',
    format_clip st = (Return (), st')
    ∧ operations st' = operations st
    ∧ (∀ op, ¬ clip_with_bounds st op → op_heap st' op = op_heap st op)
    ∧ format_clip st' = (Return (), st').
Proof.
  intros interested_ops Hnd Hnames.
  destruct (format_clip_loop interested_ops st Hnd Hnames)
    as (st' & Hloop & Hother & _ & _ & _ & Hops & Hformatted).
  assert (Hnone : ∀ op, op ∈ dict_values (operations st) → ¬ clip_with_bounds st' op).
  { intros op Hop [Htype Hattrs].
    destruct (decide (clip_with_bounds st op)) as [Hint|Hnot].
    - destruct (Hformatted op) as (mn & mx & Hf).
      { apply list_elem_of_filter. by split. }
      destruct Hf as (_ & _ & _ & _ & _ & _ & _ & _ & Hmin & Hmax).
      destruct Hattrs; congruence.
    - apply Hnot. rewrite Hother in Htype, Hattrs; [by split | |].
      all: unfold interested_ops; rewrite list_elem_of_filter; tauto. }
  exists st'. split; [unfold format_clip; by rewrite bind_get |].
  split; [done |]. split.
  - intros op Hnot. apply Hother. unfold interested_ops.
    rewrite list_elem_of_filter. tauto.
  - unfold format_clip. rewrite bind_get. cbv zeta.
    rewrite filter_none; [done |]. intros op. rewrite Hops. apply Hnone.
Qed.

(** X11.  [truncate_on_var] on a variable whose name the graph does not have
    logs the error and raises [KeyError]; nothing else has changed.  On a
    graph that keeps the invariants of the data model, parameters not
    shared, for a variable of the graph that is not a parameter and with
    enough fuel for the worklist, it returns, whether it is asked to mark
    the variable as an output or not.  It then leaves a graph that keeps
    the invariants, that has none of the operations downstream of the
    variable and no operation or variable the graph did not have, and in
    which every operation has a declared output or a consumer and no
    variable meets a removal test of [delete_isolated]. *)
Theorem truncate_on_var_returns (st : State) (v : var_ref) (fuel : nat)
    (mark_as_output : bool) :
  (dict_in (var_name (var_heap st v)) (variables st) = false →
   truncate_on_var fuel v mark_as_output st
   = (Raise KeyError,
      emit (error ("Can not find vairiable " +:+ var_name (var_heap st v)
                   +:+ " in current graph")) st))
  ∧ (sound st →
     (var_name (var_heap st v), v) ∈ variables st →
     is_parameter (var_heap st v) = false →
     worklist_bound st v < fuel →
     ∃ st',
       truncate_on_var fuel v mark_as_output st = (Return (), st')
       ∧ sound st'
       ∧ (∀ o, downstream_of st v o → o ∉ dict_values (operations st'))
       ∧ (∀ o, o ∈ dict_values (operations st') → o ∈ dict_values (operations st))
       ∧ (∀ x, x ∈ dict_values (variables st') → x ∈ dict_values (variables st))
       ∧ (∀ o, o ∈ dict_values (operations st') → ¬ op_isolated st' o)
       ∧ (∀ x, x ∈ dict_values (variables st') → ¬ var_isolated st' x)).
Proof.
  split.
  { intros Hvar. unfold truncate_on_var. rewrite bind_get, Hvar. reflexivity. }
  intros Hs Hv Hplain Hfuel. pose proof (sound_well_formed _ Hs) as Hwf.
  destruct (collect_downstream_spec st v Hwf Hv fuel Hfuel) as (mark & Hmark & Hnd & Hclos).
  destruct (remove_operations_spec mark st Hs Hnd)
    as (st1 & Hrun1 & Hs1 & Hops1 & Hvars1 & _ & Hplain1).
  { intros o Ho. apply (downstream_of_op_in st v); [done | done |]. by apply Hclos. }
  assert (Hv1 : var_in st1 v) by by apply Hplain1.
  assert (Hmid : ∃ st2,
    (if mark_as_output then mark_variable_as_graph_output v else ret ()) st1
    = (Return (), st2)
    ∧ sound st2
    ∧ (∀ o, op_in st2 o ↔ op_in st1 o) ∧ (∀ x, var_in st2 x ↔ var_in st1 x)).
  { destruct mark_as_output.
    - eexists. split; [by apply mark_variable_as_graph_output_spec |].
      split; [by apply sound_with_outputs | done].
    - exists st1. done. }
  destruct Hmid as (st2 & Hrun2 & Hs2 & Hops2 & Hvars2).
  destruct (delete_isolated_spec 0 0 st2 Hs2)
    as (st' & Hrun & Hs' & Hfix & Hfixv & Hops & Hvars & _).
  pose proof (sound_well_formed _ Hs') as Hwf'.
  exists st'. split.
  { unfold truncate_on_var. rewrite bind_get.
    rewrite (var_in_dict_in _ _ Hv). cbn [negb]. rewrite Hmark.
    rewrite (bind_Return_state _ _ _ _ _ Hrun1).
    by rewrite (bind_Return_state _ _ _ _ _ Hrun2). }
  split; [done |]. split; [| split; [| split; [| split]]].
  - intros o Ho Hin. apply op_in_values in Hin; [| done].
    apply Hops, Hops2, Hops1 in Hin as [_ Hnot]. by apply Hnot, Hclos.
  - intros o Hin. apply op_in_values in Hin; [| done].
    apply op_in_values; [done |]. by apply Hops, Hops2, Hops1 in Hin as [Hin _].
  - intros x Hin. apply var_in_values in Hin; [| done].
    apply var_in_values; [done |]. by apply Hvars1, Hvars2, Hvars.
  - intros o Hin. apply Hfix. by apply op_in_values.
  - intros x Hin. apply Hfixv. by apply var_in_values.
Qed.

End Formatter.

Section Witnesses.
Import Samples.
#[local] Open Scope nat_scope.

Lemma delete_isolated_keeps_outputs_witness :
  ∃ st',
    delete_isolated dead_conv = (Return (), st')
    ∧ (∀ o, o ∈ dict_values (operations st') → o ∈ dict_values (operations dead_conv))
    ∧ (∀ x, x ∈ dict_values (variables st') → x ∈ dict_values (variables dead_conv))
    ∧ ∀ v s, (var_name (var_heap dead_conv v), v) ∈ variables dead_conv →
             source_op (var_heap dead_conv v) = Some s →
             (var_name (var_heap dead_conv v), v) ∈ outputs dead_conv →
             (var_name (var_heap st' v), v) ∈ variables st'
             ∧ (var_name (var_heap st' v), v) ∈ outputs st'
             ∧ source_op (var_heap st' v) = Some s
             ∧ s ∈ dict_values (operations st')
             ∧ v ∈ op_outputs (op_heap st' s).
Proof.
  apply (delete_isolated_keeps_outputs dead_conv).
  apply check_sound_sound. vm_compute. reflexivity.
Defined.

Lemma format_clip_twice_witness :
  ∃ st',
    format_clip clip_graph = (Return (), st')
    ∧ operations st' = operations clip_graph
    ∧ (∀ op, ¬ clip_with_bounds clip_graph op → op_heap st' op = op_heap clip_graph op)
    ∧ format_clip st' = (Return (), st').
Proof.
  apply (format_clip_twice clip_graph).
  - apply (bool_decide_unpack _). vm_compute. exact I.
  - apply (bool_decide_unpack _). vm_compute. exact I.
Defined.

Lemma truncate_on_var_returns_witness :
  truncate_on_var 20 9 true side_branch
  = (Raise KeyError,
     emit (error ("Can not find vairiable " +:+ var_name (var_heap side_branch 9)
                  +:+ " in current graph")) side_branch)
  ∧ ∃ st',
      truncate_on_var 20 1 true weighted_branch = (Return (), st')
      ∧ sound st'
      ∧ (∀ o, downstream_of weighted_branch 1 o → o ∉ dict_values (operations st'))
      ∧ (∀ o, o ∈ dict_values (operations st') →
              o ∈ dict_values (operations weighted_branch))
      ∧ (∀ x, x ∈ dict_values (variables st') →
              x ∈ dict_values (variables weighted_branch))
      ∧ (∀ o, o ∈ dict_values (operations st') → ¬ op_isolated st' o)
      ∧ (∀ x, x ∈ dict_values (variables st') → ¬ var_isolated st' x).
Proof.
  split.
  - apply (proj1 (truncate_on_var_returns side_branch 9 20 true)). reflexivity.
  - apply (proj2 (truncate_on_var_returns weighted_branch 1 20 true)).
    + apply check_sound_sound. vm_compute. reflexivity.
    + apply (bool_decide_unpack _). vm_compute. exact I.
    + reflexivity.
    + vm_compute. lia.
Defined.

(** Truncating [weighted_branch] at [b] without marking it takes [R] and
    then, as nothing of the graph leads to an output any more, all the
    rest; truncating at [a] and marking it keeps [P]. *)
Example truncate_on_var_unmarked :
  let st' := (truncate_on_var 20 2 false weighted_branch).2 in
  operations st' = [] ∧ variables st' = [] ∧ outputs st' = [].
Proof. vm_compute. repeat split. Qed.

End Witnesses.

End FormatterFacts.

Module ConstantFacts.
Import Graph Morph MorphFacts IsolationFacts MorphMore.

Section Constant.
Context {torch : Torch}.
#[local] Open Scope nat_scope.

Abbreviation val := (value Tensor PyFloat).

(** The setter of [Variable.value], as [MorphMore.remove_constant] takes
    it. *)
Variable assign_value : val → outcome val.

Definition is_constant (st : State) (o : op_ref) : Prop :=
  op_type (op_heap st o) = "Constant".

#[export] Instance is_constant_dec st o : Decision (is_constant st o).
Proof. unfold is_constant. apply _. Defined.

Lemma constant_operations_spec ops acc st :
  (∀ o, o ∈ ops → is_constant st o → length (op_outputs (op_heap st o)) = 1) →
  constant_operations ops acc st
  = (Return (acc ++ filter (is_constant st) ops), st).
Proof.
  revert acc. induction ops as [|op ops IH]; intros acc Hone.
  - simpl. by rewrite app_nil_r.
  - cbn [constant_operations]. rewrite bind_get.
    assert (Hrest : ∀ o, o ∈ ops → is_constant st o →
                         length (op_outputs (op_heap st o)) = 1).
    { intros o Ho. apply Hone. by right. }
    case_decide as Htype.
    + rewrite decide_False.
      2:{ unfold num_of_output. rewrite Hone; [lia | left | done]. }
      rewrite IH by done. rewrite filter_cons_True by done.
      by rewrite <- app_assoc.
    + rewrite IH by done. by rewrite filter_cons_False.
Qed.

Lemma constant_operations_raises l1 op l2 acc st :
  (∀ o, o ∈ l1 → is_constant st o → length (op_outputs (op_heap st o)) = 1) →
  is_constant st op → length (op_outputs (op_heap st op)) ≠ 1 →
  constant_operations (l1 ++ op :: l2) acc st
  = (Raise ValueError,
     emit (error ("Constant " +:+ op_name (op_heap st op) +:+ " has "
                  +:+ pretty (num_of_output st op) +:+ " outputs")) st).
Proof.
  revert acc. induction l1 as [|o l1 IH]; intros acc Hone Htype Hlen.
  - cbn [app constant_operations]. rewrite bind_get.
    rewrite decide_True by done. rewrite decide_True; [done |].
    unfold num_of_output. lia.
  - cbn [app constant_operations]. rewrite bind_get.
    assert (Hrest : ∀ o', o' ∈ l1 → is_constant st o' →
                          length (op_outputs (op_heap st o')) = 1).
    { intros o' Ho'. apply Hone. by right. }
    case_decide as Ho.
    + rewrite decide_False.
      2:{ unfold num_of_output. rewrite Hone; [lia | left | done]. }
      by apply IH.
    + by apply IH.
Qed.

(** X14.  A [Constant] operation that has not exactly one output makes
    [remove_constant_input] log the error and raise [ValueError] before it
    has changed anything else. *)
Theorem remove_constant_input_refuses (st : State) (l1 l2 : list op_ref)
    (op : op_ref) :
  dict_values (operations st) = l1 ++ op :: l2 →
  (∀ o, o ∈ l1 → op_type (op_heap st o) = "Constant" →
        length (op_outputs (op_heap st o)) = 1) →
  op_type (op_heap st op) = "Constant" →
  length (op_outputs (op_heap st op)) ≠ 1 →
  remove_constant_input assign_value st
  = (Raise ValueError,
     emit (error ("Constant " +:+ op_name (op_heap st op) +:+ " has "
                  +:+ pretty (num_of_output st op) +:+ " outputs")) st).
Proof.
  intros Hops Hone Htype Hlen. unfold remove_constant_input.
  rewrite bind_get, Hops.
  unfold mbind, M_bind, seq.
  by rewrite (constant_operations_raises l1 op l2 [] st Hone Htype Hlen).
Qed.

(** [remove_operation] on an operation of the graph that reads nothing:
    its outputs lose their producer and it leaves [operations]. *)
Lemma remove_operation_no_inputs (o : op_ref) (st : State) :
  dict_in (op_name (op_heap st o)) (operations st) = true →
  op_inputs (op_heap st o) = [] →
  ∃ st',
    remove_operation o st = (Return (), st')
    ∧ (∀ r, r ≠ o → op_heap st' r = op_heap st r)
    ∧ (∀ x, var_heap st' x
            = if decide (x ∈ op_outputs (op_heap st o))
              then set_source_op None (var_heap st x) else var_heap st x)
    ∧ operations st' = dict_pop (op_name (op_heap st o)) (operations st)
    ∧ variables st' = variables st
    ∧ inputs st' = inputs st
    ∧ outputs st' = outputs st.
Proof.
  intros Ho Hins. unfold remove_operation. rewrite bind_get, Ho. cbn [negb].
  rewrite Hins. cbn [for_in].
  assert (Hret : ∀ s : State, ret () s = (Return (), s)) by done.
  rewrite (bind_Return_state _ _ _ _ _ (Hret st)), bind_get.
  destruct (clear_sources_spec (op_outputs (op_heap st o)) st)
    as (st2 & Hrun2 & Hops2 & Hvar2 & Hvars2 & Ho2 & Hi2 & Hu2).
  rewrite (bind_Return_state _ _ _ _ _ Hrun2), bind_modify, bind_get.
  autorewrite with state. rewrite fn_lookup_alter, Hops2.
  cbn [op_inputs set_op_outputs]. rewrite Hins. cbn [for_in].
  rewrite (bind_Return_state _ _ _ _ _ (Hret _)), bind_modify, bind_get.
  eexists. split; [reflexivity |]. autorewrite with state.
  rewrite Hops2, Hvars2, Ho2, Hi2, Hu2.
  split.
  { intros r Hne. by rewrite !fn_lookup_alter_ne. }
  split; [done |]. split; [| done].
  by rewrite !fn_lookup_alter.
Qed.

(** What the pass has made of the output variable of a constant. *)
Definition holds_constant (st : State) (v : var_ref) (x : val) : Prop :=
  is_parameter (var_heap st v) = true
  ∧ var_value (var_heap st v) = x
  ∧ source_op (var_heap st v) = None.

(** A constant the second loop can fold: an operation of the graph that
    reads nothing, has one output and a value the setter accepts. *)
Definition foldable (st : State) (c : op_ref) : Prop :=
  op_in st c
  ∧ op_inputs (op_heap st c) = []
  ∧ ∃ v x stored, op_outputs (op_heap st c) = [v]
                  ∧ dict_get "value" (attributes (op_heap st c)) = Some x
                  ∧ assign_value x = Return stored.

Lemma remove_constants_spec l st :
  NoDup (operations st).*1 →
  (∀ k o, (k, o) ∈ operations st → op_name (op_heap st o) = k) →
  NoDup l →
  (∀ c, c ∈ l → foldable st c) →
  (∀ c c' v, c ∈ l → c' ∈ l →
             v ∈ op_outputs (op_heap st c) → v ∈ op_outputs (op_heap st c') →
             c = c') →
  ∃ st',
    for_in l (remove_constant assign_value) st = (Return (), st')
    ∧ (∀ k o, (k, o) ∈ operations st' ↔ (k, o) ∈ operations st ∧ o ∉ l)
    ∧ (∀ o, o ∉ l → op_heap st' o = op_heap st o)
    ∧ variables st' = variables st
    ∧ inputs st' = inputs st
    ∧ outputs st' = outputs st
    ∧ (∀ y, var_name (var_heap st' y) = var_name (var_heap st y)
            ∧ dest_ops (var_heap st' y) = dest_ops (var_heap st y))
    ∧ (∀ y, (∀ c, c ∈ l → y ∉ op_outputs (op_heap st c)) →
            var_heap st' y = var_heap st y)
    ∧ (∀ c v x stored, c ∈ l → op_outputs (op_heap st c) = [v] →
                dict_get "value" (attributes (op_heap st c)) = Some x →
                assign_value x = Return stored →
                holds_constant st' v stored).
Proof.
  revert st. induction l as [|c l IH]; intros st Hkeys Hnamed Hnd Hl Hdisj.
  - exists st. split; [done |]. split.
    { intros k o. rewrite elem_of_nil. tauto. }
    repeat (split; [done |]).
    intros c v x stored Hc. by apply elem_of_nil in Hc.
  - apply NoDup_cons in Hnd as [Hcl Hnd].
    destruct (Hl c) as (Hc & Hins & v & x & stored & Hout & Hval & Hset); [left |].
    set (st2 := update_var v (set_var_value stored)
                  (update_var v (set_is_parameter true) st)).
    assert (Hheap2 : op_heap st2 = op_heap st) by done.
    assert (Hv2 : var_heap st2 v
                  = set_var_value stored (set_is_parameter true (var_heap st v))).
    { unfold st2, update_var. autorewrite with state.
      rewrite fn_lookup_alter. autorewrite with state. by rewrite fn_lookup_alter. }
    assert (Hy2 : ∀ y, y ≠ v → var_heap st2 y = var_heap st y).
    { intros y Hy. unfold st2, update_var. autorewrite with state.
      rewrite fn_lookup_alter_ne by done. autorewrite with state.
      by rewrite fn_lookup_alter_ne. }
    destruct (remove_operation_no_inputs c st2)
      as (st3 & Hrun3 & Hheap3 & Hvar3 & Hoper3 & Hvars3 & Hi3 & Hu3).
    { exact (op_in_dict_in st c Hc). }
    { exact Hins. }
    assert (Hops2 : operations st2 = operations st) by done.
    assert (Hvars2 : variables st2 = variables st) by done.
    assert (Hi2 : inputs st2 = inputs st) by done.
    assert (Hu2 : outputs st2 = outputs st) by done.
    rewrite Hheap2, Hout in Hvar3. rewrite Hheap2 in Hheap3.
    rewrite Hheap2, Hops2 in Hoper3. rewrite Hvars2 in Hvars3.
    rewrite Hi2 in Hi3. rewrite Hu2 in Hu3.
    assert (Hin3 : ∀ k o, (k, o) ∈ operations st3 ↔ (k, o) ∈ operations st ∧ o ≠ c).
    { intros k o. rewrite Hoper3, elem_of_dict_pop. split.
      - intros [Hne Ho]. split; [done |]. intros ->. apply Hne. symmetry.
        by apply Hnamed.
      - intros [Ho Hne]. split; [| done]. intros Hname. apply Hne. subst k.
        by apply (dict_functional (operations st) (op_name (op_heap st c))). }
    destruct (IH st3) as (st' & Hrun & Hin' & Hheap' & Hvars & Hins' & Houts & Hnames
                          & Hkeep & Hdone).
    { rewrite Hoper3. by apply NoDup_dict_pop. }
    { intros k o. rewrite Hoper3, elem_of_dict_pop. intros [Hne Ho].
      destruct (decide (o = c)) as [->|Hoc].
      - exfalso. apply Hne. symmetry. by apply Hnamed.
      - rewrite (Hheap3 o Hoc). by apply Hnamed. }
    { done. }
    { intros c' Hc'. assert (c' ≠ c) by (by intros ->).
      destruct (Hl c') as (Hc'in & Hins'' & v' & x' & stored' & Hout' & Hval' & Hset');
        [by right |].
      split; [unfold op_in; rewrite (Hheap3 c') by done; by apply Hin3 |].
      rewrite (Hheap3 c') by done.
      split; [done |]. by exists v', x', stored'. }
    { intros c1 c2 y H1 H2. rewrite (Hheap3 c1), (Hheap3 c2) by (by intros ->).
      apply Hdisj; by right. }
    exists st'. split.
    { assert (Hbody : remove_constant assign_value c st = (Return (), st3)).
      { unfold remove_constant. rewrite bind_get, Hval, Hout.
        cbn [lookup list_lookup]. rewrite bind_modify.
        rewrite (bind_lift_Return _ _ _ stored Hset), bind_modify. by fold st2. }
      cbn [for_in]. by rewrite (bind_Return_state _ _ _ _ _ Hbody). }
    split.
    { intros k o. rewrite Hin', Hin3, elem_of_cons. tauto. }
    split.
    { intros o. rewrite not_elem_of_cons. intros [Hne Ho].
      by rewrite Hheap', Hheap3. }
    split; [by rewrite Hvars, Hvars3 |]. split; [by rewrite Hins', Hi3 |].
    split; [by rewrite Houts, Hu3 |].
    assert (Hst3 : ∀ y, y ≠ v → var_heap st3 y = var_heap st y).
    { intros y Hy. rewrite Hvar3.
      rewrite decide_False by (by rewrite list_elem_of_singleton).
      by apply Hy2. }
    assert (Hst3v : var_heap st3 v
                    = set_source_op None
                        (set_var_value stored (set_is_parameter true (var_heap st v)))).
    { rewrite Hvar3. rewrite decide_True by (by apply list_elem_of_singleton).
      by rewrite Hv2. }
    split.
    { intros y. destruct (Hnames y) as [-> ->].
      destruct (decide (y = v)) as [->|Hy]; [by rewrite Hst3v | by rewrite Hst3]. }
    split.
    { intros y Hy. rewrite Hkeep.
      - apply Hst3. intros ->. apply (Hy c); [left |]. rewrite Hout. left.
      - intros c' Hc'. rewrite Hheap3 by (by intros ->). apply Hy. by right. }
    intros c' v' x' stored' Hc' Hout' Hval' Hset'.
    apply elem_of_cons in Hc' as [->|Hc'].
    + assert (v' = v) as -> by congruence. assert (x' = x) as -> by congruence.
      assert (stored' = stored) as -> by congruence.
      unfold holds_constant. rewrite Hkeep.
      * by rewrite Hst3v.
      * intros c' Hc' Hv. rewrite Hheap3 in Hv by (by intros ->).
        assert (c' = c) as ->; [| done].
        apply (Hdisj c' c v); [by right | left | done |]. rewrite Hout. left.
    + assert (c' ≠ c) by (by intros ->).
      apply (Hdone c' v' x'); [done | by rewrite Hheap3 | by rewrite Hheap3 | done].
Qed.

(** X15.  On a well-formed graph whose [Constant] operations each read
    nothing, have one output and have a [value] attribute that the setter
    of [Variable.value] accepts, [remove_constant_input] returns.  The
    operations of the graph are then those it had that are no [Constant];
    the variables, the inputs and the outputs of the graph are the same;
    and the output variable of every former [Constant] is a parameter
    without producer that holds what the setter stores for the value of
    the constant. *)
Theorem remove_constant_input_folds (st : State) :
  well_formed st →
  (∀ c, c ∈ dict_values (operations st) → op_type (op_heap st c) = "Constant" →
        length (op_outputs (op_heap st c)) = 1
        ∧ op_inputs (op_heap st c) = []
        ∧ ∃ x stored, dict_get "value" (attributes (op_heap st c)) = Some x
                      ∧ assign_value x = Return stored) →
  ∃ st',
    remove_constant_input assign_value st = (Return (), st')
    ∧ (∀ o, o ∈ dict_values (operations st') ↔
            o ∈ dict_values (operations st) ∧ op_type (op_heap st o) ≠ "Constant")
    ∧ (∀ o, o ∈ dict_values (operations st') → op_type (op_heap st' o) ≠ "Constant")
    ∧ variables st' = variables st
    ∧ inputs st' = inputs st
    ∧ outputs st' = outputs st
    ∧ ∀ c v x stored, c ∈ dict_values (operations st) →
               op_type (op_heap st c) = "Constant" →
               v ∈ op_outputs (op_heap st c) →
               dict_get "value" (attributes (op_heap st c)) = Some x →
               assign_value x = Return stored →
               var_name (var_heap st' v) = var_name (var_heap st v)
               ∧ is_parameter (var_heap st' v) = true
               ∧ var_value (var_heap st' v) = stored
               ∧ source_op (var_heap st' v) = None.
Proof.
  intros Hwf Hconst.
  set (l := filter (is_constant st) (dict_values (operations st))).
  assert (Hl : ∀ c, c ∈ l ↔ op_in st c ∧ is_constant st c).
  { intros c. unfold l. rewrite list_elem_of_filter, op_in_values by done. tauto. }
  assert (Hcollect : constant_operations (dict_values (operations st)) [] st
                     = (Return l, st)).
  { rewrite constant_operations_spec; [done |].
    intros o Ho Htype. by apply Hconst. }
  destruct (remove_constants_spec l st)
    as (st' & Hrun & Hin' & Hheap' & Hvars & Hins & Houts & Hnames & _ & Hdone).
  { apply (wf_operations_nodup _ Hwf). }
  { apply (wf_operations_named _ Hwf). }
  { apply NoDup_filter, (NoDup_dict_values _ (λ r, op_name (op_heap st r))).
    - apply (wf_operations_nodup _ Hwf).
    - apply (wf_operations_named _ Hwf). }
  { intros c Hc. apply Hl in Hc as [Hc Htype]. split; [done |].
    destruct (Hconst c) as (Hlen & Hnone & x & stored & Hx & Hset);
      [by apply op_in_values | done |].
    split; [done |].
    destruct (op_outputs (op_heap st c)) as [|v [|v' outs]] eqn:Hout;
      simpl in Hlen; try lia.
    by exists v, x, stored. }
  { intros c c' v Hc Hc' Hv Hv'. apply Hl in Hc as [Hc _], Hc' as [Hc' _].
    destruct (wf_outputs _ Hwf c v Hc Hv) as [_ Hsrc].
    destruct (wf_outputs _ Hwf c' v Hc' Hv') as [_ Hsrc']. congruence. }
  assert (Hvalues : ∀ o, o ∈ dict_values (operations st')
                         ↔ o ∈ dict_values (operations st) ∧ o ∉ l).
  { intros o. rewrite !elem_of_dict_values. split.
    - intros [k Hk]. apply Hin' in Hk as [Hk Hol]. split; [by exists k | done].
    - intros [[k Hk] Hol]. exists k. by apply Hin'. }
  exists st'. split.
  { unfold remove_constant_input. rewrite bind_get.
    by rewrite (bind_Return_state _ _ _ _ _ Hcollect). }
  split.
  { intros o. rewrite Hvalues, Hl. rewrite op_in_values by done.
    unfold is_constant. tauto. }
  split.
  { intros o Ho. apply Hvalues in Ho as [Ho Hnot].
    rewrite Hheap' by done. intros Htype. apply Hnot, Hl.
    split; [by apply op_in_values | done]. }
  split; [done |]. split; [done |]. split; [done |].
  intros c v x stored Hc Htype Hv Hx Hset.
  destruct (Hconst c Hc Htype) as (Hlen & _).
  destruct (op_outputs (op_heap st c)) as [|v0 [|v' outs]] eqn:Hout;
    simpl in Hlen; try lia.
  apply list_elem_of_singleton in Hv as ->.
  split; [by destruct (Hnames v0) as [-> _] |].
  apply (Hdone c v0 x stored); [| done | done | done].
  apply Hl. split; [by apply op_in_values | done].
Qed.

End Constant.

Section Witnesses.
Import Samples SamplesMore.
#[local] Open Scope nat_scope.

Lemma remove_constant_input_refuses_witness :
  remove_constant_input (torch := exact_torch) store_tensor constant_two_outputs
  = (Raise ValueError,
     emit (error ("Constant " +:+ op_name (op_heap constant_two_outputs 1) +:+ " has "
                  +:+ pretty (num_of_output constant_two_outputs 1) +:+ " outputs"))
          constant_two_outputs).
Proof.
  apply (remove_constant_input_refuses (torch := exact_torch) store_tensor constant_two_outputs [0] [] 1).
  - reflexivity.
  - intros o Ho. apply list_elem_of_singleton in Ho as ->. discriminate.
  - reflexivity.
  - cbn. lia.
Defined.

Lemma remove_constant_input_folds_witness :
  ∃ st',
    remove_constant_input (torch := exact_torch) store_tensor constant_graph = (Return (), st')
    ∧ (∀ o, o ∈ dict_values (operations st') ↔
            o ∈ dict_values (operations constant_graph)
            ∧ op_type (op_heap constant_graph o) ≠ "Constant")
    ∧ (∀ o, o ∈ dict_values (operations st') → op_type (op_heap st' o) ≠ "Constant")
    ∧ variables st' = variables constant_graph
    ∧ inputs st' = inputs constant_graph
    ∧ outputs st' = outputs constant_graph
    ∧ ∀ c v x stored, c ∈ dict_values (operations constant_graph) →
               op_type (op_heap constant_graph c) = "Constant" →
               v ∈ op_outputs (op_heap constant_graph c) →
               dict_get "value" (attributes (op_heap constant_graph c)) = Some x →
               store_tensor x = Return stored →
               var_name (var_heap st' v) = var_name (var_heap constant_graph v)
               ∧ is_parameter (var_heap st' v) = true
               ∧ var_value (var_heap st' v) = stored
               ∧ source_op (var_heap st' v) = None.
Proof.
  apply (remove_constant_input_folds (torch := exact_torch) store_tensor constant_graph).
  - apply check_well_formed_sound. vm_compute. reflexivity.
  - intros c Hc Htype. cbn in Hc.
    repeat (apply elem_of_cons in Hc as [->|Hc]; [try discriminate Htype |]).
    + split; [reflexivity |]. split; [reflexivity |]. by eexists _, _.
    + by apply elem_of_nil in Hc.
Defined.

Example remove_constant_input_sample :
  let st' := (remove_constant_input (torch := exact_torch) store_tensor constant_graph).2 in
  (remove_constant_input (torch := exact_torch) store_tensor constant_graph).1 = Return ()
  ∧ operations st' = [("relu1", 1)]
  ∧ var_heap st' 0
    = {| var_name := "w"; var_value := VTensor (Q2Qc 7); is_parameter := true;
         source_op := None; dest_ops := [1] |}.
Proof. vm_compute. repeat split. Qed.

(** A value the setter refuses stops the pass: the [Constant] of
    [gather_graph] holds a list. *)
Example remove_constant_input_refused_value :
  well_formed gather_graph
  ∧ (remove_constant_input (torch := exact_torch) store_tensor gather_graph).1 = Raise AttributeError.
Proof.
  split; [apply check_well_formed_sound |]; vm_compute; reflexivity.
Qed.

End Witnesses.

End ConstantFacts.

Module AttributeFacts.
Import Graph Morph MorphFacts IsolationFacts MorphMore.

Section Attributes.
Context {torch : Torch}.
#[local] Open Scope nat_scope.

Abbreviation val := (value Tensor PyFloat).

(** *** Dictionaries *)

Lemma dict_in_get {A : Type} (k : string) (d : dict A) :
  dict_in k d = true ↔ is_Some (dict_get k d).
Proof.
  rewrite dict_in_true. induction d as [|[k' a] d IH]; simpl.
  - rewrite elem_of_nil. split; [done | by intros [? ?]].
  - rewrite elem_of_cons. case_decide as Hk.
    + split; [by eexists | by left].
    + rewrite <- IH. split; [intros [?|?]; [congruence | done] | by right].
Qed.

Lemma dict_in_get_None {A : Type} (k : string) (d : dict A) :
  dict_in k d = false ↔ dict_get k d = None.
Proof.
  rewrite <- not_true_iff_false, dict_in_get, eq_None_not_Some. done.
Qed.

Lemma dict_get_dict_set_ne {A : Type} (k k' : string) (a : A) (d : dict A) :
  k' ≠ k → dict_get k' (dict_set k a d) = dict_get k' d.
Proof.
  intros Hne. induction d as [|[k0 a0] d IH]; simpl.
  - by rewrite decide_False.
  - destruct (decide (k0 = k)) as [->|Hk0]; simpl.
    + by rewrite !decide_False.
    + case_decide; [done | by apply IH].
Qed.

Lemma dict_get_dict_pop {A : Type} (k : string) (d : dict A) :
  dict_get k (dict_pop k d) = None.
Proof. apply dict_in_get_None, dict_in_pop. Qed.

Lemma dict_get_dict_pop_ne {A : Type} (k k' : string) (d : dict A) :
  k' ≠ k → dict_get k' (dict_pop k d) = dict_get k' d.
Proof.
  intros Hne. unfold dict_pop. induction d as [|[k0 a0] d IH]; [done |].
  destruct (decide (k0 = k)) as [->|Hk0].
  - rewrite filter_cons_False by (simpl; tauto). simpl.
    by rewrite decide_False.
  - rewrite filter_cons_True by done. simpl. case_decide; [done | by apply IH].
Qed.

Lemma bind_Raise_state {A B : Type} (m : M A) (k : A → M B) st e st1 :
  m st = (Raise e, st1) → (m ≫= k) st = (Raise e, st1).
Proof. intros Hm. unfold mbind, M_bind, seq. by rewrite Hm. Qed.

(** *** [format_cast] *)

Variable from_numpy : val → outcome val.

Definition is_cast (st : State) (o : op_ref) : Prop :=
  op_type (op_heap st o) = "Cast".

#[export] Instance is_cast_dec st o : Decision (is_cast st o).
Proof. unfold is_cast. apply _. Defined.

(** The operation with its [to] attribute wrapped. *)
Definition cast_wrapped (o o' : Operation) : Prop :=
  ∃ to wrapped,
    dict_get "to" (attributes o) = Some to
    ∧ from_numpy to = Return wrapped
    ∧ o' = set_attributes (dict_set "to" wrapped (attributes o)) o.

(** What a pass that only writes fields of operations leaves as it is. *)
Definition same_but_operations (st st' : State) : Prop :=
  var_heap st' = var_heap st ∧ operations st' = operations st
  ∧ variables st' = variables st ∧ inputs st' = inputs st
  ∧ outputs st' = outputs st ∧ log st' = log st.

Lemma format_cast_body_spec op st to wrapped :
  dict_get "to" (attributes (op_heap st op)) = Some to →
  from_numpy to = Return wrapped →
  format_cast_body from_numpy op st
  = (Return (),
     update_op op (λ o, set_attributes (dict_set "to" wrapped (attributes o)) o) st).
Proof.
  intros Hto Hwrap. unfold format_cast_body. rewrite bind_get.
  assert (Hin : dict_in "to" (attributes (op_heap st op)) = true).
  { apply dict_in_get. by eexists. }
  rewrite Hin. cbn [assert].
  rewrite (bind_Return_state (ret ()) _ st () st eq_refl).
  rewrite Hto, Hwrap. reflexivity.
Qed.

Lemma format_cast_loop l st :
  NoDup l →
  (∀ op, op ∈ l → ∃ to wrapped,
      dict_get "to" (attributes (op_heap st op)) = Some to
      ∧ from_numpy to = Return wrapped) →
  ∃ st',
    for_in l (format_cast_body from_numpy) st = (Return (), st')
    ∧ same_but_operations st st'
    ∧ (∀ op, op ∉ l → op_heap st' op = op_heap st op)
    ∧ (∀ op, op ∈ l → cast_wrapped (op_heap st op) (op_heap st' op)).
Proof.
  revert st. induction l as [|op l IH]; intros st Hnd Hl.
  - exists st. split; [done |]. split; [done |]. split; [done |].
    intros op Hop. by apply elem_of_nil in Hop.
  - apply NoDup_cons in Hnd as [Hop Hnd].
    destruct (Hl op) as (to & wrapped & Hto & Hwrap); [left |].
    set (st1 := update_op op
                  (λ o, set_attributes (dict_set "to" wrapped (attributes o)) o) st).
    assert (Hne : ∀ r, r ≠ op → op_heap st1 r = op_heap st r).
    { intros r Hr. unfold st1, update_op. autorewrite with state.
      by rewrite fn_lookup_alter_ne. }
    assert (Heq : op_heap st1 op
                  = set_attributes (dict_set "to" wrapped (attributes (op_heap st op)))
                                   (op_heap st op)).
    { unfold st1, update_op. autorewrite with state. by rewrite fn_lookup_alter. }
    destruct (IH st1 Hnd) as (st' & Hrun & Hsame & Hother & Hdone).
    { intros r Hr. rewrite Hne by (by intros ->). apply Hl. by right. }
    exists st'. split.
    { cbn [for_in].
      by rewrite (bind_Return_state _ _ _ _ _
                    (format_cast_body_spec op st to wrapped Hto Hwrap)). }
    split; [exact Hsame |]. split.
    + intros r. rewrite not_elem_of_cons. intros [Hr Hrl].
      by rewrite Hother, Hne.
    + intros r Hr. apply elem_of_cons in Hr as [->|Hr].
      * rewrite Hother by done. rewrite Heq. by exists to, wrapped.
      * rewrite <- Hne by (by intros ->). by apply Hdone.
Qed.

(** X16.  When every [Cast] operation of the graph has a [to] attribute that
    [DataType.from_numpy] accepts, [format_cast] returns; it has put in
    each of them the answer of [from_numpy] in the place of [to], and has
    changed nothing else: no other attribute, no other operation, no
    variable, and none of the mappings of the graph. *)
Theorem format_cast_wraps (st : State) :
  NoDup (filter (is_cast st) (dict_values (operations st))) →
  (∀ op, op ∈ dict_values (operations st) → op_type (op_heap st op) = "Cast" →
         ∃ to wrapped, dict_get "to" (attributes (op_heap st op)) = Some to
                       ∧ from_numpy to = Return wrapped) →
  ∃ st',
    format_cast from_numpy st = (Return (), st')
    ∧ same_but_operations st st'
    ∧ (∀ op, op ∈ dict_values (operations st) → op_type (op_heap st op) = "Cast" →
             ∃ to wrapped,
               dict_get "to" (attributes (op_heap st op)) = Some to
               ∧ from_numpy to = Return wrapped
               ∧ op_heap st' op
                 = set_attributes (dict_set "to" wrapped (attributes (op_heap st op)))
                                  (op_heap st op))
    ∧ (∀ op, ¬ (op ∈ dict_values (operations st) ∧ op_type (op_heap st op) = "Cast") →
             op_heap st' op = op_heap st op).
Proof.
  intros Hnd Hto.
  destruct (format_cast_loop _ st Hnd) as (st' & Hrun & Hsame & Hother & Hdone).
  { intros op [Htype Hop]%list_elem_of_filter. by apply Hto. }
  exists st'. split; [unfold format_cast; by rewrite bind_get |].
  split; [done |]. split.
  - intros op Hop Htype. apply Hdone, list_elem_of_filter. by split.
  - intros op Hnot. apply Hother. rewrite list_elem_of_filter.
    unfold is_cast. tauto.
Qed.

(** X17.  The first [Cast] operation without a [to] attribute stops
    [format_cast] with the failure of its assertion. *)
Theorem format_cast_asserts (st : State) (l1 l2 : list op_ref) (op : op_ref) :
  filter (is_cast st) (dict_values (operations st)) = l1 ++ op :: l2 →
  NoDup l1 → op ∉ l1 →
  (∀ o, o ∈ l1 → ∃ to wrapped, dict_get "to" (attributes (op_heap st o)) = Some to
                               ∧ from_numpy to = Return wrapped) →
  dict_get "to" (attributes (op_heap st op)) = None →
  (format_cast from_numpy st).1 = Raise AssertionError.
Proof.
  intros Hcasts Hnd Hop Hl1 Hnone.
  destruct (format_cast_loop l1 st Hnd Hl1) as (st1 & Hrun & _ & Hother & _).
  unfold format_cast. rewrite bind_get. cbv zeta.
  change (filter _ (dict_values (operations st)))
    with (filter (is_cast st) (dict_values (operations st))).
  assert (Hbody : format_cast_body from_numpy op st1 = (Raise AssertionError, st1)).
  { unfold format_cast_body. rewrite bind_get, (Hother op Hop).
    by rewrite (proj2 (dict_in_get_None _ _) Hnone). }
  rewrite Hcasts, for_in_app, Hrun. cbn [for_in].
  by rewrite (bind_Raise_state _ _ _ _ _ Hbody).
Qed.


(** *** [__delete_constant_input] *)

(** X18.  [__delete_constant_input] refuses, with nothing but the log changed:
    with [KeyError] an operation whose name the graph does not have; with
    [ValueError] an index past the end of the inputs, and an input that
    no operation produces or that an operation other than a [Constant]
    produces. *)
Theorem delete_constant_input_refuses (st : State) (op : op_ref) (input_idx : Z) :
  let op_name := op_name (op_heap st op) in
  (dict_get op_name (operations st) = None →
   delete_constant_input op input_idx st
   = (Raise KeyError,
      emit (error ("Operation " +:+ op_name +:+ " not in current graph.")) st))
  ∧ (∀ operation,
       dict_get op_name (operations st) = Some operation →
       (Z.of_nat (length (op_inputs (op_heap st operation))) ≤ input_idx)%Z →
       delete_constant_input op input_idx st
       = (Raise ValueError,
          emit (error ("Trying to delete an out-of-range input variable, "
                       +:+ "has graph been manually changed? Error at Operation "
                       +:+ op_name +:+ ", " +:+ "input_idx: " +:+ pretty input_idx))
               st))
  ∧ (∀ operation input_var,
       dict_get op_name (operations st) = Some operation →
       (0 ≤ input_idx)%Z →
       op_inputs (op_heap st operation) !! Z.to_nat input_idx = Some input_var →
       (∀ s, source_op (var_heap st input_var) = Some s →
             op_type (op_heap st s) ≠ "Constant") →
       delete_constant_input op input_idx st
       = (Raise ValueError,
          emit (error ("Trying to delete an non-const input, "
                       +:+ "Error at Operation " +:+ op_name +:+ ", inputs["
                       +:+ pretty input_idx +:+ "]")) st)).
Proof.
  intros name. split; [| split].
  - intros Hget. unfold delete_constant_input. rewrite bind_get.
    fold name. by rewrite Hget.
  - intros operation Hget Hlen. unfold delete_constant_input. rewrite bind_get.
    fold name. rewrite Hget. by rewrite bool_decide_eq_true_2.
  - intros operation input_var Hget Hidx Hvar Hsrc.
    unfold delete_constant_input. rewrite bind_get. fold name. rewrite Hget.
    pose proof (lookup_lt_Some _ _ _ Hvar) as Hlt.
    rewrite bool_decide_eq_false_2 by lia.
    unfold py_index. rewrite bool_decide_eq_true_2 by done.
    rewrite bool_decide_eq_true_2 by lia. cbn [mbind option_bind].
    rewrite Hvar.
    destruct (source_op (var_heap st input_var)) as [s|] eqn:Hs; [| done].
    by rewrite decide_True by by apply Hsrc.
Qed.

Lemma raise_inv {A B : Type} (m : M A) e st (b : B) st' :
  (m ;; raise e) st = (Return b, st') → False.
Proof.
  unfold mbind, M_bind, seq. by destruct (m st) as [[a|e'|] st1].
Qed.

Lemma keeps_remove_variable (r : var_ref) st a st' :
  remove_variable r st = (Return a, st') → keeps st st'.
Proof.
  unfold remove_variable. destruct (negb _); [done |]. intros Hst. simplify_eq.
  split; intros r'.
  - rewrite op_heap_without_variable. cbn. split; [done |]. split; [done |].
    split; [done |]. split; by intros ->.
  - rewrite var_heap_without_variable. destruct (decide (r = r')) as [->|Hne].
    + by rewrite fn_lookup_alter.
    + by rewrite fn_lookup_alter_ne.
Qed.

Lemma delete_nil {A : Type} (l : list A) i : l = [] → delete i l = [].
Proof. by intros ->. Qed.

Lemma delete_constant_input_keeps op input_idx st a st' :
  delete_constant_input op input_idx st = (Return a, st') → keeps st st'.
Proof.
  unfold delete_constant_input. rewrite bind_get.
  destruct (dict_get _ (operations st)) as [operation|]; [| by intros ?%raise_inv].
  case_bool_decide; [by intros ?%raise_inv |].
  destruct (py_index _ _ ≫= _) as [input_var|]; [| done].
  destruct (source_op (var_heap st input_var)) as [s|]; [| by intros ?%raise_inv].
  case_decide; [by intros ?%raise_inv |].
  destruct (index_of _ _) as [dest_idx|]; [| done].
  rewrite bind_modify, bind_get.
  set (st1 := update_var input_var _ st).
  assert (H1 : keeps st st1) by by apply keeps_update_var.
  destruct (py_index _ _) as [i|]; [| done].
  rewrite bind_modify, bind_get.
  set (st2 := update_op operation _ st1).
  assert (H2 : keeps st1 st2).
  { apply keeps_update_op. intros o. cbn. split; [done |]. split; [done |].
    split; [done |]. split; [apply delete_nil | done]. }
  case_decide.
  - intros Hrun. apply bind_inv in Hrun as ([] & st3 & Hop & Hvar).
    apply keeps_remove_operation in Hop. apply keeps_remove_variable in Hvar.
    eauto using keeps_trans.
  - intros Hrun. unfold ret in Hrun. simplify_eq. eauto using keeps_trans.
Qed.

(** *** [format_gather] *)

Variable convert_any_to_python_primary_type : val → outcome val.

Definition is_gather (st : State) (o : op_ref) : Prop :=
  op_type (op_heap st o) = "Gather".

#[export] Instance is_gather_dec st o : Decision (is_gather st o).
Proof. unfold is_gather. apply _. Defined.

(** The attributes of a [Gather] operation before and after the pass. *)
Definition gather_formatted (a a' : dict val) : Prop :=
  dict_get "axis" a' = Some (default (VInt 0) (dict_get "axis" a))
  ∧ dict_get "indices" a' = None
  ∧ (∀ v, dict_get "indices" a = Some v → dict_get "gather_index" a' = Some v)
  ∧ (∀ k, k ∉ ["axis"; "indices"; "gather_index"] → dict_get k a' = dict_get k a).

Lemma update_op_attributes op (f : dict val → dict val) st :
  let st' := update_op op (λ o, set_attributes (f (attributes o)) o) st in
  (∀ r, op_type (op_heap st' r) = op_type (op_heap st r))
  ∧ (∀ r, r ≠ op → attributes (op_heap st' r) = attributes (op_heap st r))
  ∧ attributes (op_heap st' op) = f (attributes (op_heap st op)).
Proof.
  cbv zeta. unfold update_op. autorewrite with state. split; [| split].
  - intros r. destruct (decide (op = r)) as [->|Hne].
    + by rewrite fn_lookup_alter.
    + by rewrite fn_lookup_alter_ne.
  - intros r Hr. by rewrite fn_lookup_alter_ne.
  - by rewrite fn_lookup_alter.
Qed.

Lemma format_gather_body_spec op st st' :
  format_gather_body convert_any_to_python_primary_type op st = (Return (), st') →
  (∀ r, op_type (op_heap st' r) = op_type (op_heap st r))
  ∧ (∀ r, r ≠ op → attributes (op_heap st' r) = attributes (op_heap st r))
  ∧ gather_formatted (attributes (op_heap st op)) (attributes (op_heap st' op)).
Proof.
  unfold format_gather_body. rewrite bind_get. intros Hrun.
  apply bind_inv in Hrun as ([] & st1 & Hfirst & Hrun).
  assert (H1 : (∀ r, op_type (op_heap st1 r) = op_type (op_heap st r))
               ∧ (∀ r, r ≠ op → attributes (op_heap st1 r) = attributes (op_heap st r))
               ∧ ∀ k, k ≠ "gather_index" →
                      dict_get k (attributes (op_heap st1 op))
                      = dict_get k (attributes (op_heap st op))).
  { revert Hfirst. case_decide; [| by intros [= <-]].
    destruct (_ !! 1) as [index_var|]; [| done].
    destruct (source_op _) as [index_op|]; [| by intros [= <-]].
    case_decide; [| by intros [= <-]].
    destruct (dict_get "value" _) as [index|]; [| done].
    intros Hfirst. apply bind_inv in Hfirst as (index_value & st0 & Hconv & Hfirst).
    apply lift_inv in Hconv as [_ ->].
    apply bind_inv in Hfirst as ([] & st0 & Hdel & Hset).
    apply delete_constant_input_keeps in Hdel as [Hk _].
    apply modify_inv in Hset. subst st1.
    destruct (update_op_attributes op (dict_set "gather_index" index_value) st0)
      as (Ht & Ha & Hop).
    split; [| split].
    - intros r. rewrite Ht. by destruct (Hk r) as (_ & -> & _).
    - intros r Hr. rewrite Ha by done. by destruct (Hk r) as (_ & _ & -> & _).
    - intros k Hk'. rewrite Hop, dict_get_dict_set_ne by done.
      by destruct (Hk op) as (_ & _ & -> & _). }
  destruct H1 as (Ht1 & Ho1 & Hk1).
  rewrite bind_get in Hrun.
  apply bind_inv in Hrun as ([] & st2 & Haxis & Hrun).
  assert (H2 : (∀ r, op_type (op_heap st2 r) = op_type (op_heap st1 r))
               ∧ (∀ r, r ≠ op → attributes (op_heap st2 r) = attributes (op_heap st1 r))
               ∧ dict_get "axis" (attributes (op_heap st2 op))
                 = Some (default (VInt 0) (dict_get "axis" (attributes (op_heap st1 op))))
               ∧ ∀ k, k ≠ "axis" →
                      dict_get k (attributes (op_heap st2 op))
                      = dict_get k (attributes (op_heap st1 op))).
  { revert Haxis. destruct (dict_in "axis" _) eqn:Hin; cbn [negb].
    - intros [= <-]. split; [done |]. split; [done |]. split; [| done].
      apply dict_in_get in Hin as [a ->]. done.
    - intros ->%modify_inv.
      destruct (update_op_attributes op (dict_set "axis" (VInt 0)) st1)
        as (Ht & Ha & Hop).
      split; [done |]. split; [done |]. rewrite Hop. split.
      + apply dict_in_get_None in Hin. rewrite Hin. apply dict_get_dict_set.
      + intros k Hk. by apply dict_get_dict_set_ne. }
  destruct H2 as (Ht2 & Ho2 & Haxis2 & Hk2).
  rewrite bind_get in Hrun.
  assert (H3 : (∀ r, op_type (op_heap st' r) = op_type (op_heap st2 r))
               ∧ (∀ r, r ≠ op → attributes (op_heap st' r) = attributes (op_heap st2 r))
               ∧ dict_get "indices" (attributes (op_heap st' op)) = None
               ∧ (∀ v, dict_get "indices" (attributes (op_heap st2 op)) = Some v →
                       dict_get "gather_index" (attributes (op_heap st' op)) = Some v)
               ∧ ∀ k, k ∉ ["indices"; "gather_index"] →
                      dict_get k (attributes (op_heap st' op))
                      = dict_get k (attributes (op_heap st2 op))).
  { revert Hrun. destruct (dict_in "indices" _) eqn:Hin.
    - destruct (dict_get "indices" _) as [indices|] eqn:Hget; [| done].
      rewrite bind_modify. intros ->%modify_inv.
      destruct (update_op_attributes op (dict_set "gather_index" indices) st2)
        as (Ht & Ha & Hop).
      set (st3 := update_op op _ st2) in *.
      destruct (update_op_attributes op (dict_pop "indices") st3)
        as (Ht' & Ha' & Hop').
      split; [intros r; by rewrite Ht', Ht |].
      split; [intros r Hr; by rewrite Ha', Ha |].
      rewrite Hop', Hop. split; [apply dict_get_dict_pop |]. split.
      + intros v [= <-]. rewrite dict_get_dict_pop_ne by done.
        apply dict_get_dict_set.
      + intros k Hk. apply not_elem_of_cons in Hk as [Hk1' Hk].
        apply not_elem_of_cons in Hk as [Hk2' _].
        by rewrite dict_get_dict_pop_ne, dict_get_dict_set_ne.
    - intros [= <-]. split; [done |]. split; [done |].
      apply dict_in_get_None in Hin. rewrite Hin. split; [done |]. split; done. }
  destruct H3 as (Ht3 & Ho3 & Hind3 & Hgi3 & Hk3).
  split; [intros r; by rewrite Ht3, Ht2, Ht1 |].
  split; [intros r Hr; by rewrite Ho3, Ho2, Ho1 |].
  split; [| split; [| split]].
  - rewrite Hk3 by set_solver. rewrite Haxis2. by rewrite Hk1.
  - done.
  - intros v Hv. apply Hgi3. by rewrite Hk2, Hk1.
  - intros k Hk. rewrite Hk3, Hk2, Hk1; [done | set_solver ..].
Qed.

Lemma format_gather_loop l st st' :
  NoDup l →
  for_in l (format_gather_body convert_any_to_python_primary_type) st
  = (Return (), st') →
  (∀ r, op_type (op_heap st' r) = op_type (op_heap st r))
  ∧ (∀ r, r ∉ l → attributes (op_heap st' r) = attributes (op_heap st r))
  ∧ ∀ op, op ∈ l →
          gather_formatted (attributes (op_heap st op)) (attributes (op_heap st' op)).
Proof.
  revert st. induction l as [|op l IH]; intros st Hnd Hrun.
  - cbn in Hrun. injection Hrun as <-. split; [done |]. split; [done |].
    intros op Hop. by apply elem_of_nil in Hop.
  - apply NoDup_cons in Hnd as [Hop Hnd]. cbn [for_in] in Hrun.
    apply bind_inv in Hrun as ([] & st1 & Hbody & Hrun).
    apply format_gather_body_spec in Hbody as (Ht1 & Ho1 & Hpost).
    destruct (IH st1 Hnd Hrun) as (Ht & Ho & Hl).
    split; [intros r; by rewrite Ht, Ht1 |]. split.
    + intros r. rewrite not_elem_of_cons. intros [Hr Hrl]. by rewrite Ho, Ho1.
    + intros r Hr. apply elem_of_cons in Hr as [->|Hr].
      * by rewrite Ho.
      * rewrite <- Ho1 by (by intros ->). by apply Hl.
Qed.

(** X19.  When [format_gather] returns, every [Gather] operation of the graph
    is still a [Gather] and has an [axis] attribute, the one it had or 0;
    it has no [indices] attribute, and what [indices] held is under
    [gather_index]; its other attributes are as they were.  The
    attributes of the other operations are as they were. *)
Theorem format_gather_formats (st st' : State) :
  NoDup (filter (is_gather st) (dict_values (operations st))) →
  format_gather convert_any_to_python_primary_type st = (Return (), st') →
  (∀ op, op ∈ dict_values (operations st) → op_type (op_heap st op) = "Gather" →
         op_type (op_heap st' op) = "Gather"
         ∧ gather_formatted (attributes (op_heap st op)) (attributes (op_heap st' op)))
  ∧ (∀ op, ¬ (op ∈ dict_values (operations st) ∧ op_type (op_heap st op) = "Gather") →
           attributes (op_heap st' op) = attributes (op_heap st op)).
Proof.
  intros Hnd. unfold format_gather. rewrite bind_get. cbv zeta. intros Hrun.
  destruct (format_gather_loop _ st st' Hnd Hrun) as (Ht & Ho & Hl).
  split.
  - intros op Hop Htype. split; [by rewrite Ht |].
    apply Hl, list_elem_of_filter. by split.
  - intros op Hnot. apply Ho. rewrite list_elem_of_filter. unfold is_gather. tauto.
Qed.

End Attributes.

Section Witnesses.
Import Samples SamplesMore.
#[local] Open Scope nat_scope.

(** A stand-in for [DataType.from_numpy]. *)
Definition wrap (v : value (@Tensor exact_torch) (@PyFloat exact_torch))
  : outcome (value (@Tensor exact_torch) (@PyFloat exact_torch)) :=
  Return (VList [v]).

Lemma format_cast_wraps_witness :
  ∃ st',
    format_cast wrap cast_graph = (Return (), st')
    ∧ same_but_operations cast_graph st'
    ∧ (∀ op, op ∈ dict_values (operations cast_graph) →
             op_type (op_heap cast_graph op) = "Cast" →
             ∃ to wrapped,
               dict_get "to" (attributes (op_heap cast_graph op)) = Some to
               ∧ wrap to = Return wrapped
               ∧ op_heap st' op
                 = set_attributes
                     (dict_set "to" wrapped (attributes (op_heap cast_graph op)))
                     (op_heap cast_graph op))
    ∧ (∀ op, ¬ (op ∈ dict_values (operations cast_graph)
                ∧ op_type (op_heap cast_graph op) = "Cast") →
             op_heap st' op = op_heap cast_graph op).
Proof.
  apply (format_cast_wraps wrap cast_graph).
  - apply (bool_decide_unpack _). vm_compute. exact I.
  - intros op Hop _. cbn in Hop. apply list_elem_of_singleton in Hop as ->.
    by exists (VInt 7), (VList [VInt 7]).
Defined.

Lemma format_cast_asserts_witness :
  (format_cast wrap cast_without_to).1 = Raise AssertionError.
Proof.
  apply (format_cast_asserts wrap cast_without_to [0] [] 1).
  - reflexivity.
  - apply NoDup_singleton.
  - apply (bool_decide_unpack _). vm_compute. exact I.
  - intros o Ho. apply list_elem_of_singleton in Ho as ->.
    by exists (VInt 7), (VList [VInt 7]).
  - reflexivity.
Defined.

Lemma delete_constant_input_refuses_witness :
  delete_constant_input 9 0 diamond
  = (Raise KeyError,
     emit (error ("Operation " +:+ op_name (op_heap diamond 9)
                  +:+ " not in current graph.")) diamond)
  ∧ delete_constant_input A 5 diamond
    = (Raise ValueError,
       emit (error ("Trying to delete an out-of-range input variable, "
                    +:+ "has graph been manually changed? Error at Operation "
                    +:+ op_name (op_heap diamond A) +:+ ", " +:+ "input_idx: "
                    +:+ pretty 5%Z)) diamond)
  ∧ delete_constant_input B 0 diamond
    = (Raise ValueError,
       emit (error ("Trying to delete an non-const input, "
                    +:+ "Error at Operation " +:+ op_name (op_heap diamond B)
                    +:+ ", inputs[" +:+ pretty 0%Z +:+ "]")) diamond).
Proof.
  split; [| split].
  - apply (proj1 (delete_constant_input_refuses diamond 9 0)). reflexivity.
  - apply (proj1 (proj2 (delete_constant_input_refuses diamond A 5)) A).
    + reflexivity.
    + cbn. lia.
  - apply (proj2 (proj2 (delete_constant_input_refuses diamond B 0)) B 1).
    + reflexivity.
    + lia.
    + reflexivity.
    + intros s Hs. cbn in Hs. injection Hs as <-. discriminate.
Defined.

Lemma format_gather_formats_witness :
  let st' := (format_gather (torch := exact_torch) (λ v, Return v) gather_graph).2 in
  (∀ op, op ∈ dict_values (operations gather_graph) →
         op_type (op_heap gather_graph op) = "Gather" →
         op_type (op_heap st' op) = "Gather"
         ∧ gather_formatted (attributes (op_heap gather_graph op))
                            (attributes (op_heap st' op)))
  ∧ (∀ op, ¬ (op ∈ dict_values (operations gather_graph)
              ∧ op_type (op_heap gather_graph op) = "Gather") →
           attributes (op_heap st' op) = attributes (op_heap gather_graph op)).
Proof.
  apply (format_gather_formats (torch := exact_torch) (λ v, Return v) gather_graph).
  - apply (bool_decide_unpack _). vm_compute. exact I.
  - apply pair_eta_fst. vm_compute. reflexivity.
Defined.

Example format_gather_sample :
  let st' := (format_gather (torch := exact_torch) (λ v, Return v) gather_graph).2 in
  (operations st').*1 = ["gather1"; "gather2"]
  ∧ (variables st').*1 = ["x"; "g"; "y"]
  ∧ op_inputs (op_heap st' 1) = [0]
  ∧ attributes (op_heap st' 1)
    = [("gather_index", VList [VInt 1; VInt 2]); ("axis", VInt 0)]
  ∧ attributes (op_heap st' 2) = [("axis", VInt 1); ("gather_index", VInt 3)].
Proof. vm_compute. repeat split. Qed.

End Witnesses.

End AttributeFacts.

Module ReplaceVarFacts.
Import Graph Morph MorphFacts IsolationFacts MorphMore.

Section ReplaceVar.
Context {torch : Torch}.
#[local] Open Scope nat_scope.

Lemma set_op_inputs_id (o : Operation) : set_op_inputs (op_inputs o) o = o.
Proof. by destruct o. Qed.

Lemma count_not_elem_of (x : nat) (l : list nat) : x ∉ l → count x l = 0.
Proof.
  induction l as [|a l IH]; [done |]. rewrite not_elem_of_cons. intros [Hne Hl].
  rewrite count_cons_ne by done. by apply IH.
Qed.

(** The loop over the consumers of the replaced variable. *)
Lemma for_in_repoint_input (X Y : var_ref) (l : list op_ref) (st : State) :
  X ≠ Y →
  (∀ d, count d l ≤ count X (op_inputs (op_heap st d))) →
  ∃ h, for_in l (repoint_input X Y) st = (Return (), with_op_heap h st)
       ∧ ∀ d, h d = set_op_inputs
                      (Nat.iter (count d l) (replace_first X Y)
                                (op_inputs (op_heap st d)))
                      (op_heap st d).
Proof.
  intros HXY. revert st. induction l as [|u l IH]; intros st Hcount.
  - exists (op_heap st). split; [by destruct st |].
    intros d. simpl. by rewrite set_op_inputs_id.
  - destruct (index_of_count X (op_inputs (op_heap st u))) as [i Hi].
    { specialize (Hcount u). rewrite count_cons_eq in Hcount. lia. }
    set (st1 := update_op u
                  (λ o, set_op_inputs (<[i := Y]> (op_inputs o)) o) st).
    assert (Hbody : repoint_input X Y u st = (Return (), st1)).
    { unfold repoint_input. rewrite bind_get, Hi. reflexivity. }
    assert (Hu1 : op_heap st1 u
                  = set_op_inputs (replace_first X Y (op_inputs (op_heap st u)))
                                  (op_heap st u)).
    { unfold st1, update_op. autorewrite with state. rewrite fn_lookup_alter.
      by rewrite (index_of_insert _ _ _ _ Hi). }
    assert (Hd1 : ∀ d, d ≠ u → op_heap st1 d = op_heap st d).
    { intros d Hd. unfold st1, update_op. autorewrite with state.
      by rewrite fn_lookup_alter_ne. }
    destruct (IH st1) as (h & Hh & Hhd).
    { intros d. specialize (Hcount d). destruct (decide (d = u)) as [->|Hne].
      - rewrite Hu1. cbn. rewrite count_replace_first by done.
        rewrite count_cons_eq in Hcount. lia.
      - rewrite Hd1 by done. rewrite count_cons_ne in Hcount by done. lia. }
    exists h. split.
    { cbn [for_in]. rewrite (bind_Return_state _ _ _ _ _ Hbody). rewrite Hh.
      unfold st1, update_op. by autorewrite with state. }
    intros d. rewrite Hhd. destruct (decide (d = u)) as [->|Hne].
    + rewrite count_cons_eq, Nat.iter_succ_r, Hu1. reflexivity.
    + by rewrite Hd1, count_cons_ne.
Qed.

(** X20.  [replace_var(X, Y)] on a name [X] the graph does not have logs the
    error and raises [KeyError], with nothing else changed.  On a name the
    graph has, for a replacement [Y] that is another object than the
    variable [x] stored under [X], when the consumers of [x] read it as
    often as it lists them and its producer, if any, lists it among its
    outputs: [Y] ends with the consumers and the producer of [x]; in the
    inputs of these consumers every [x] has become [Y], and so has the
    first [x] in the outputs of the producer; the graph holds [Y] under
    [X] in its variables, and in its inputs and outputs where it held
    [X] there, these mappings being otherwise untouched; fields of
    operations other than these inputs and outputs, and all other
    variables, [x] included, are as they were. *)
Theorem replace_var_rewires (st : State) (name : string) (Y : var_ref) :
  (dict_get name (variables st) = None →
   replace_var name Y st
   = (Raise KeyError,
      emit (error ("Variable " +:+ name +:+ " is not in current graph")) st))
  ∧ (∀ X : var_ref,
       dict_get name (variables st) = Some X →
       X ≠ Y →
       (∀ d, d ∈ dest_ops (var_heap st X) →
             count d (dest_ops (var_heap st X)) = count X (op_inputs (op_heap st d))) →
       (∀ s, source_op (var_heap st X) = Some s → X ∈ op_outputs (op_heap st s)) →
       ∃ st',
         replace_var name Y st = (Return (), st')
         ∧ var_heap st' Y
           = set_source_op (source_op (var_heap st X))
               (set_dest_ops (dest_ops (var_heap st X)) (var_heap st Y))
         ∧ (∀ v, v ≠ Y → var_heap st' v = var_heap st v)
         ∧ (∀ d, d ∈ dest_ops (var_heap st X) →
                 op_inputs (op_heap st' d)
                 = (λ v, if decide (v = X) then Y else v) <$> op_inputs (op_heap st d))
         ∧ (∀ d, d ∉ dest_ops (var_heap st X) →
                 op_inputs (op_heap st' d) = op_inputs (op_heap st d))
         ∧ (∀ s, op_outputs (op_heap st' s)
                 = if decide (source_op (var_heap st X) = Some s)
                   then replace_first X Y (op_outputs (op_heap st s))
                   else op_outputs (op_heap st s))
         ∧ (∀ o, op_name (op_heap st' o) = op_name (op_heap st o)
                 ∧ op_type (op_heap st' o) = op_type (op_heap st o)
                 ∧ attributes (op_heap st' o) = attributes (op_heap st o))
         ∧ operations st' = operations st
         ∧ variables st' = dict_set name Y (variables st)
         ∧ inputs st' = (if dict_in name (inputs st)
                         then dict_set name Y (inputs st) else inputs st)
         ∧ outputs st' = (if dict_in name (outputs st)
                          then dict_set name Y (outputs st) else outputs st)).
Proof.
  split.
  - intros Hget. unfold replace_var. rewrite bind_get, Hget. reflexivity.
  - intros X Hget HXY Hcount Hsource.
    unfold replace_var. rewrite bind_get, Hget.
    rewrite bind_modify, bind_get, bind_modify, bind_get.
    set (st2 := update_var Y _ (update_var Y _ st)).
    assert (Hv2 : ∀ v, v ≠ Y → var_heap st2 v = var_heap st v).
    { intros v Hv. unfold st2, update_var. autorewrite with state.
      rewrite fn_lookup_alter_ne by done. autorewrite with state.
      by rewrite fn_lookup_alter_ne. }
    assert (HY2 : var_heap st2 Y
                  = set_dest_ops (dest_ops (var_heap st X)) (var_heap st Y)).
    { unfold st2, update_var. autorewrite with state.
      rewrite fn_lookup_alter. autorewrite with state.
      rewrite fn_lookup_alter. rewrite fn_lookup_alter_ne by done. reflexivity. }
    assert (Ho2 : op_heap st2 = op_heap st) by done.
    rewrite HY2. cbn [dest_ops set_dest_ops].
    destruct (for_in_repoint_input X Y (dest_ops (var_heap st X)) st2 HXY)
      as (h & Hloop & Hh).
    { intros d. rewrite Ho2.
      destruct (decide (d ∈ dest_ops (var_heap st X))) as [Hin|Hin].
      - by rewrite (Hcount d Hin).
      - rewrite (count_not_elem_of d) by done. lia. }
    rewrite (bind_Return_state _ _ _ _ _ Hloop).
    rewrite bind_get, bind_modify, bind_get.
    set (st4 := update_var Y _ (with_op_heap h st2)).
    assert (Hv4 : ∀ v, v ≠ Y → var_heap st4 v = var_heap st v).
    { intros v Hv. unfold st4, update_var. autorewrite with state.
      rewrite fn_lookup_alter_ne by done. by apply Hv2. }
    assert (HY4 : var_heap st4 Y
                  = set_source_op (source_op (var_heap st X))
                      (set_dest_ops (dest_ops (var_heap st X)) (var_heap st Y))).
    { unfold st4, update_var. autorewrite with state.
      rewrite fn_lookup_alter, HY2. by rewrite Hv2. }
    assert (Ho4 : op_heap st4 = h).
    { unfold st4, update_var. by autorewrite with state. }
    assert (Hdicts4 : operations st4 = operations st ∧ variables st4 = variables st
                      ∧ inputs st4 = inputs st ∧ outputs st4 = outputs st) by done.
    destruct Hdicts4 as (Hops4 & Hvars4 & Hins4 & Houts4).
    assert (Hinputs : ∀ d, op_inputs (h d)
                           = Nat.iter (count d (dest_ops (var_heap st X)))
                                      (replace_first X Y) (op_inputs (op_heap st d))).
    { intros d. by rewrite Hh, Ho2. }
    assert (Hrest : ∀ d, op_name (h d) = op_name (op_heap st d)
                         ∧ op_type (h d) = op_type (op_heap st d)
                         ∧ attributes (h d) = attributes (op_heap st d)
                         ∧ op_outputs (h d) = op_outputs (op_heap st d)).
    { intros d. by rewrite Hh, Ho2. }
    rewrite (Hv4 X HXY).
    assert (Hmid : ∃ st5,
      (match source_op (var_heap st X) with
       | Some source =>
           match index_of X (op_outputs (op_heap st4 source)) with
           | Some source_idx =>
               modify (update_op source
                         (λ o, set_op_outputs (<[source_idx:=Y]> (op_outputs o)) o))
           | None => raise ValueError
           end
       | None => ret ()
       end) st4 = (Return (), st5)
      ∧ var_heap st5 = var_heap st4
      ∧ operations st5 = operations st ∧ variables st5 = variables st
      ∧ inputs st5 = inputs st ∧ outputs st5 = outputs st
      ∧ (∀ d, op_inputs (op_heap st5 d) = op_inputs (h d))
      ∧ (∀ d, op_name (op_heap st5 d) = op_name (op_heap st d)
              ∧ op_type (op_heap st5 d) = op_type (op_heap st d)
              ∧ attributes (op_heap st5 d) = attributes (op_heap st d))
      ∧ ∀ s, op_outputs (op_heap st5 s)
             = if decide (source_op (var_heap st X) = Some s)
               then replace_first X Y (op_outputs (op_heap st s))
               else op_outputs (op_heap st s)).
    { destruct (source_op (var_heap st X)) as [source|] eqn:Hsrc.
      - rewrite Ho4. destruct (Hrest source) as (_ & _ & _ & Hout).
        destruct (index_of_count X (op_outputs (h source))) as [i Hi].
        { rewrite Hout. specialize (Hsource source eq_refl).
          clear -Hsource. induction (op_outputs (op_heap st source)) as [|a l IH].
          - by apply elem_of_nil in Hsource.
          - simpl. case_decide; [lia |].
            apply elem_of_cons in Hsource as [->|Hin]; [done | by apply IH]. }
        rewrite Hi. eexists. split; [reflexivity |].
        unfold update_op. autorewrite with state. rewrite Ho4.
        split; [done |]. split; [done |]. split; [done |]. split; [done |].
        split; [done |]. split; [| split].
        + intros d. destruct (decide (source = d)) as [->|Hne].
          * by rewrite fn_lookup_alter.
          * by rewrite fn_lookup_alter_ne.
        + intros d. destruct (Hrest d) as (Hn & Ht & Ha & _).
          destruct (decide (source = d)) as [->|Hne].
          * by rewrite fn_lookup_alter.
          * by rewrite fn_lookup_alter_ne.
        + intros s. destruct (decide (source = s)) as [->|Hne].
          * rewrite fn_lookup_alter, decide_True by done. cbn.
            by rewrite (index_of_insert _ _ _ _ Hi), Hout.
          * rewrite fn_lookup_alter_ne by done.
            rewrite decide_False by congruence. by destruct (Hrest s) as (_ & _ & _ & ->).
      - exists st4. split; [done |]. split; [done |].
        split; [done |]. split; [done |]. split; [done |]. split; [done |].
        rewrite Ho4. split; [done |]. split.
        + intros d. by destruct (Hrest d) as (? & ? & ? & _).
        + intros s. by destruct (Hrest s) as (_ & _ & _ & ->). }
    destruct Hmid as (st5 & Hmid & Hv5 & Hops5 & Hvars5 & Hins5 & Houts5
                      & Hin5 & Hrest5 & Hout5).
    rewrite (bind_Return_state _ _ _ _ _ Hmid).
    rewrite bind_modify, bind_get.
    set (st6 := with_variables _ st5).
    assert (Hins6 : inputs st6 = inputs st) by (unfold st6; by autorewrite with state).
    assert (Houts6 : outputs st6 = outputs st) by (unfold st6; by autorewrite with state).
    rewrite Hins6.
    assert (Hfinal : ∃ st',
      ((if dict_in name (inputs st)
        then modify (λ st, with_inputs (dict_set name Y (inputs st)) st)
        else ret ()) ;;
       st ← get;
       if dict_in name (outputs st)
       then modify (λ st, with_outputs (dict_set name Y (outputs st)) st)
       else ret ()) st6 = (Return (), st')
      ∧ op_heap st' = op_heap st6 ∧ var_heap st' = var_heap st6
      ∧ operations st' = operations st6 ∧ variables st' = variables st6
      ∧ inputs st' = (if dict_in name (inputs st)
                      then dict_set name Y (inputs st) else inputs st)
      ∧ outputs st' = (if dict_in name (outputs st)
                       then dict_set name Y (outputs st) else outputs st)).
    { destruct (dict_in name (inputs st)) eqn:Hi.
      - rewrite bind_modify, bind_get. autorewrite with state. rewrite Houts6.
        destruct (dict_in name (outputs st)) eqn:Ho.
        + eexists. split; [reflexivity |]. unfold modify. autorewrite with state.
          by rewrite Hins6, Houts6.
        + eexists. split; [reflexivity |]. unfold modify. autorewrite with state.
          by rewrite Hins6, Houts6.
      - rewrite (bind_Return_state (ret ()) _ st6 () st6 eq_refl), bind_get, Houts6.
        destruct (dict_in name (outputs st)) eqn:Ho.
        + eexists. split; [reflexivity |]. unfold modify. autorewrite with state.
          by rewrite Hins6, Houts6.
        + exists st6. by rewrite Hins6, Houts6. }
    destruct Hfinal as (st' & Hfinal & Ho' & Hv' & Hops' & Hvars' & Hins' & Houts').
    exists st'. split; [exact Hfinal |].
    assert (Ho6 : op_heap st6 = op_heap st5) by (unfold st6; by autorewrite with state).
    assert (Hv6 : var_heap st6 = var_heap st5) by (unfold st6; by autorewrite with state).
    rewrite Ho', Hv', Ho6, Hv6, Hv5.
    split; [done |]. split; [done |]. split.
    { intros d Hd. rewrite Hin5, Hinputs, (Hcount d Hd).
      by apply iter_replace_first. }
    split.
    { intros d Hd. by rewrite Hin5, Hinputs, (count_not_elem_of d). }
    split; [done |]. split; [done |].
    split; [rewrite Hops'; unfold st6; by autorewrite with state |].
    split; [rewrite Hvars'; unfold st6; autorewrite with state; by rewrite Hvars5 |].
    split; done.
Qed.

End ReplaceVar.

Section Witnesses.
Import Samples.
#[local] Open Scope nat_scope.

Lemma replace_var_rewires_witness :
  replace_var "q" 5 diamond
  = (Raise KeyError,
     emit (error ("Variable " +:+ "q" +:+ " is not in current graph")) diamond)
  ∧ ∃ st',
      replace_var "a" 5 diamond = (Return (), st')
      ∧ var_heap st' 5
        = set_source_op (source_op (var_heap diamond 1))
            (set_dest_ops (dest_ops (var_heap diamond 1)) (var_heap diamond 5))
      ∧ (∀ v, v ≠ 5 → var_heap st' v = var_heap diamond v)
      ∧ (∀ d, d ∈ dest_ops (var_heap diamond 1) →
              op_inputs (op_heap st' d)
              = (λ v, if decide (v = 1) then 5 else v) <$> op_inputs (op_heap diamond d))
      ∧ (∀ d, d ∉ dest_ops (var_heap diamond 1) →
              op_inputs (op_heap st' d) = op_inputs (op_heap diamond d))
      ∧ (∀ s, op_outputs (op_heap st' s)
              = if decide (source_op (var_heap diamond 1) = Some s)
                then replace_first 1 5 (op_outputs (op_heap diamond s))
                else op_outputs (op_heap diamond s))
      ∧ (∀ o, op_name (op_heap st' o) = op_name (op_heap diamond o)
              ∧ op_type (op_heap st' o) = op_type (op_heap diamond o)
              ∧ attributes (op_heap st' o) = attributes (op_heap diamond o))
      ∧ operations st' = operations diamond
      ∧ variables st' = dict_set "a" 5 (variables diamond)
      ∧ inputs st' = (if dict_in "a" (inputs diamond)
                      then dict_set "a" 5 (inputs diamond) else inputs diamond)
      ∧ outputs st' = (if dict_in "a" (outputs diamond)
                       then dict_set "a" 5 (outputs diamond) else outputs diamond).
Proof.
  split.
  - apply (proj1 (replace_var_rewires diamond "q" 5)). reflexivity.
  - apply (proj2 (replace_var_rewires diamond "a" 5) 1).
    + reflexivity.
    + discriminate.
    + intros d Hd. cbn in Hd.
      repeat (apply elem_of_cons in Hd as [->|Hd]; [reflexivity |]).
      by apply elem_of_nil in Hd.
    + intros s Hs. cbn in Hs. injection Hs as <-. cbn. left.
Defined.

Example replace_var_sample :
  let st' := (replace_var "a" 5 diamond).2 in
  op_inputs (op_heap st' B) = [5] ∧ op_inputs (op_heap st' C) = [5]
  ∧ op_outputs (op_heap st' A) = [5]
  ∧ dest_ops (var_heap st' 5) = [B; C] ∧ source_op (var_heap st' 5) = Some A
  ∧ variables st' = [("x", 0); ("a", 5); ("b", 2); ("c", 3); ("d", 4)].
Proof. vm_compute. repeat split. Qed.

End Witnesses.

End ReplaceVarFacts.

Module SliceFacts.
Import Graph Morph MorphFacts IsolationFacts MorphMore AttributeFacts.

Section Slice.
Context {torch : Torch}.
#[local] Open Scope nat_scope.

Abbreviation val := (value Tensor PyFloat).

Variable convert_any_to_tensor : val → outcome val.
Variable tensor_index : Tensor → outcome Z.

(** *** The first loop of [format_slice] *)

(** A Slice operation in the opset 1 format: it carries [starts]. *)
Definition opset1_slice (st : State) (op : op_ref) : Prop :=
  op_type (op_heap st op) = "Slice"
  ∧ dict_in "starts" (attributes (op_heap st op)) = true.

#[local] Instance opset1_slice_dec st op : Decision (opset1_slice st op).
Proof. unfold opset1_slice. apply _. Defined.

Lemma opset1_slices_returns (ops acc : list op_ref) (st : State) :
  (∀ op, op ∈ ops → opset1_slice st op →
         dict_in "ends" (attributes (op_heap st op)) = true) →
  opset1_slices ops acc st = (Return (acc ++ filter (opset1_slice st) ops), st).
Proof.
  revert acc. induction ops as [|op ops IH]; intros acc Hends.
  - simpl. by rewrite app_nil_r.
  - cbn [opset1_slices]. rewrite bind_get.
    assert (Hrest : ∀ op, op ∈ ops → opset1_slice st op →
                          dict_in "ends" (attributes (op_heap st op)) = true).
    { intros r Hr. apply Hends. by right. }
    case_decide as Htype.
    + destruct (dict_in "starts" _) eqn:Hstarts.
      * rewrite (Hends op); [| by left | done]. cbn [andb].
        unfold assert. rewrite (bind_Return_state _ _ st () st) by done.
        rewrite IH by done. rewrite filter_cons_True by done.
        by rewrite <- app_assoc.
      * rewrite IH by done. rewrite filter_cons_False; [done |].
        intros [_ H]. congruence.
    + rewrite IH by done. rewrite filter_cons_False; [done |]. by intros [? _].
Qed.

Lemma opset1_slices_raises (ops acc : list op_ref) (st : State) (op : op_ref) :
  op ∈ ops → opset1_slice st op →
  dict_in "ends" (attributes (op_heap st op)) = false →
  opset1_slices ops acc st = (Raise AssertionError, st).
Proof.
  intros Hop [Htype Hstarts] Hends. revert acc.
  induction ops as [|r ops IH]; intros acc; [by apply elem_of_nil in Hop |].
  cbn [opset1_slices]. rewrite bind_get.
  destruct (decide (r = op)) as [->|Hne].
  - rewrite decide_True by done. rewrite Hstarts, Hends. cbn [andb].
    unfold assert. by apply bind_Raise_state.
  - apply elem_of_cons in Hop as [?|Hop]; [congruence |].
    case_decide as Htype'; [| by apply IH].
    destruct (dict_in "starts" (attributes (op_heap st r))) eqn:Hs; [| by apply IH].
    destruct (dict_in "ends" (attributes (op_heap st r))) eqn:He; cbn [andb].
    + unfold assert. rewrite (bind_Return_state _ _ st () st) by done. by apply IH.
    + unfold assert. by apply bind_Raise_state.
Qed.

(** *** [__add_constant_input] *)

Lemma add_constant_input_spec (op : op_ref) (value : val) (st : State) :
  let name := op_name (op_heap st op) +:+ "_"
              +:+ pretty (length (op_inputs (op_heap st op)) + 1) in
  dict_get (op_name (op_heap st op)) (operations st) = Some op →
  name ∉ (variables st).*1 →
  ∃ st',
    add_constant_input op value st = (Return (), st')
    ∧ (∀ r, r ≠ op → op_heap st' r = op_heap st r)
    ∧ op_heap st' op
      = set_op_inputs (op_inputs (op_heap st op) ++ [next_var st]) (op_heap st op)
    ∧ (∀ r, r ≠ next_var st → var_heap st' r = var_heap st r)
    ∧ var_heap st' (next_var st)
      = {| var_name := name; var_value := value; is_parameter := true;
           source_op := None; dest_ops := [op] |}
    ∧ next_var st' = S (next_var st)
    ∧ variables st' = variables st ++ [(name, next_var st)]
    ∧ operations st' = operations st
    ∧ inputs st' = inputs st
    ∧ outputs st' = outputs st
    ∧ log st' = log st.
Proof.
  intros name Hreg Hfresh. unfold add_constant_input.
  rewrite bind_get, Hreg, bind_new_variable.
  rewrite bind_append_variable_fresh; cycle 1.
  { autorewrite with state. by rewrite fn_lookup_insert. }
  rewrite bind_modify. unfold modify.
  eexists. split; [reflexivity |].
  autorewrite with state. rewrite !fn_lookup_insert. cbn [var_name].
  split; [| split; [| split; [| split]]].
  - intros r Hr. by rewrite fn_lookup_alter_ne.
  - by rewrite fn_lookup_alter.
  - intros r Hr. rewrite fn_lookup_alter_ne by done.
    by rewrite fn_lookup_insert_ne.
  - by rewrite fn_lookup_alter, !fn_lookup_insert.
  - done.
Qed.

(** *** The second loop *)

(** The three names [format_slice] gives to the new inputs of an
    operation: its name, an underscore and the position of the input. *)
Definition slice_names (st : State) (op : op_ref) : list string :=
  (λ i, op_name (op_heap st op) +:+ "_"
        +:+ pretty (length (op_inputs (op_heap st op)) + i)) <$> [1; 2; 3].

(** The axes a Slice is given: its [axes] attribute, or what [range]
    makes of [starts] where it has none. *)
Definition slice_axes (st : State) (op : op_ref) (starts : val) : outcome val :=
  match default VNone (dict_get "axes" (attributes (op_heap st op))) with
  | VNone => range_list tensor_index starts
  | axes => Return axes
  end.

(** [starts], [ends] and the axes of the operation convert to the
    tensors [ts], [te] and [ta]. *)
Definition slice_tensors (st : State) (op : op_ref) (ts te ta : val) : Prop :=
  ∃ starts ends axes : val,
    dict_get "starts" (attributes (op_heap st op)) = Some starts
    ∧ dict_get "ends" (attributes (op_heap st op)) = Some ends
    ∧ slice_axes st op starts = Return axes
    ∧ convert_any_to_tensor starts = Return ts
    ∧ convert_any_to_tensor ends = Return te
    ∧ convert_any_to_tensor axes = Return ta.

(** [var] is a parameter of the graph that holds [value] and feeds
    [op]. *)
Definition constant_input (st : State) (op : op_ref)
    (name : string) (value : val) (var : var_ref) : Prop :=
  var_heap st var
  = {| var_name := name; var_value := value; is_parameter := true;
       source_op := None; dest_ops := [op] |}
  ∧ (name, var) ∈ variables st.

(** What an opset 1 Slice looks like afterwards. *)
Definition slice_formatted (st st' : State) (op : op_ref) : Prop :=
  ∃ (ts te ta : val) (v1 v2 v3 : var_ref),
    slice_tensors st op ts te ta
    ∧ op_inputs (op_heap st' op) = op_inputs (op_heap st op) ++ [v1; v2; v3]
    ∧ Forall (λ v, next_var st ≤ v) [v1; v2; v3]
    ∧ Forall2 (λ name tv, constant_input st' op name tv.1 tv.2)
              (slice_names st op) [(ts, v1); (te, v2); (ta, v3)]
    ∧ attributes (op_heap st' op)
      = dict_pop "axes" (dict_pop "ends" (dict_pop "starts"
                                            (attributes (op_heap st op))))
    ∧ op_name (op_heap st' op) = op_name (op_heap st op)
    ∧ op_type (op_heap st' op) = op_type (op_heap st op)
    ∧ op_outputs (op_heap st' op) = op_outputs (op_heap st op).

Lemma format_slice_body_spec (op : op_ref) (st : State) (ts te ta : val) :
  slice_tensors st op ts te ta →
  dict_get (op_name (op_heap st op)) (operations st) = Some op →
  NoDup ((variables st).*1 ++ slice_names st op) →
  let o := op_heap st op in
  let nv := next_var st in
  ∃ st',
    format_slice_body convert_any_to_tensor tensor_index op st = (Return (), st')
    ∧ (∀ r, r ≠ op → op_heap st' r = op_heap st r)
    ∧ op_heap st' op
      = set_op_inputs (op_inputs o ++ [nv; S nv; S (S nv)])
          (set_attributes
             (dict_pop "axes" (dict_pop "ends" (dict_pop "starts" (attributes o)))) o)
    ∧ (∀ r, r < nv → var_heap st' r = var_heap st r)
    ∧ Forall2 (λ name tv,
                 var_heap st' tv.2
                 = {| var_name := name; var_value := tv.1; is_parameter := true;
                      source_op := None; dest_ops := [op] |})
              (slice_names st op) [(ts, nv); (te, S nv); (ta, S (S nv))]
    ∧ next_var st' = S (S (S nv))
    ∧ variables st' = variables st ++ zip (slice_names st op) [nv; S nv; S (S nv)]
    ∧ operations st' = operations st
    ∧ inputs st' = inputs st
    ∧ outputs st' = outputs st
    ∧ log st' = log st.
Proof.
  intros (starts & ends & axes & Hstarts & Hends & Haxes & Hts & Hte & Hta) Hreg Hnd o nv.
  unfold slice_names, slice_axes in *. cbn [fmap list_fmap] in *.
  subst o. set (o := op_heap st op) in *.
  set (n := length (op_inputs o)) in *.
  set (name := op_name o) in *.
  apply NoDup_app in Hnd as (_ & Hfresh & Hnames).
  apply NoDup_cons in Hnames as [Hn12 Hnames].
  apply NoDup_cons in Hnames as [Hn23 _].
  rewrite !not_elem_of_cons in Hn12. destruct Hn12 as (Hn12 & Hn13 & _).
  rewrite !not_elem_of_cons in Hn23. destruct Hn23 as (Hn23 & _).
  assert (Hf1 : name +:+ "_" +:+ pretty (n + 1) ∉ (variables st).*1).
  { intros Hin. eapply Hfresh; [exact Hin | left]. }
  assert (Hf2 : name +:+ "_" +:+ pretty (n + 2) ∉ (variables st).*1).
  { intros Hin. eapply Hfresh; [exact Hin | right; left]. }
  assert (Hf3 : name +:+ "_" +:+ pretty (n + 3) ∉ (variables st).*1).
  { intros Hin. eapply Hfresh; [exact Hin | right; right; left]. }
  unfold format_slice_body. rewrite bind_get.
  fold o. rewrite Hstarts, Hends.
  rewrite (bind_Return_state _ _ st axes st); cycle 1.
  { revert Haxes.
    destruct (default VNone (dict_get "axes" (attributes o)));
      unfold lift, ret; by intros ->. }
  rewrite !bind_modify, bind_get.
  set (st1 := update_op op _ st).
  set (st2 := update_op op _ st1).
  destruct (update_op_attributes op (dict_pop "starts") st) as (_ & _ & Ha1).
  destruct (update_op_attributes op (dict_pop "ends") st1) as (_ & _ & Ha2).
  cbv zeta in Ha1, Ha2. fold st1 in Ha1, Ha2. fold st2 in Ha2. fold o in Ha1.
  set (st3 := if dict_in "axes" (attributes (op_heap st2 op))
              then update_op op (λ o, set_attributes (dict_pop "axes" (attributes o)) o) st2
              else st2).
  assert (Hpops : ∀ k : unit → M unit,
             ((if dict_in "axes" (attributes (op_heap st2 op))
               then modify (update_op op
                              (λ o, set_attributes (dict_pop "axes" (attributes o)) o))
               else ret ()) ≫= k) st2 = k () st3).
  { intros k. unfold st3. by destruct (dict_in "axes" _). }
  rewrite Hpops. clear Hpops.
  assert (H3 : op_heap st3 op
               = set_attributes
                   (dict_pop "axes" (dict_pop "ends" (dict_pop "starts" (attributes o)))) o
               ∧ (∀ r, r ≠ op → op_heap st3 r = op_heap st r)
               ∧ var_heap st3 = var_heap st ∧ next_var st3 = next_var st
               ∧ variables st3 = variables st ∧ operations st3 = operations st
               ∧ inputs st3 = inputs st ∧ outputs st3 = outputs st
               ∧ log st3 = log st).
  { assert (H2 : op_heap st2 op
                 = set_attributes (dict_pop "ends" (dict_pop "starts" (attributes o))) o).
    { unfold st2, st1, update_op. autorewrite with state.
      by rewrite !fn_lookup_alter. }
    assert (H2' : ∀ r, r ≠ op → op_heap st2 r = op_heap st r).
    { intros r Hr. unfold st2, st1, update_op. autorewrite with state.
      by rewrite !fn_lookup_alter_ne. }
    unfold st3. destruct (dict_in "axes" (attributes (op_heap st2 op))) eqn:Hin.
    - unfold update_op at 1 2 3 4 5 6 7 8 9. autorewrite with state.
      rewrite fn_lookup_alter, H2. split; [done |].
      split; [intros r Hr; rewrite fn_lookup_alter_ne by done; by apply H2' |].
      unfold st2, st1, update_op. by autorewrite with state.
    - rewrite H2 in Hin |- *. cbn [attributes set_attributes] in Hin.
      rewrite (dict_pop_absent "axes") by done.
      split; [done |]. split; [done |].
      unfold st2, st1, update_op. by autorewrite with state. }
  clearbody st3. clear st1 st2 Ha1 Ha2.
  destruct H3 as (Hop3 & Hops3 & Hvars3 & Hnext3 & Hvariables3 & Hoperations3
                  & Hinputs3 & Houtputs3 & Hlog3).
  assert (Hname3 : op_name (op_heap st3 op) = name) by by rewrite Hop3.
  assert (Hlen3 : length (op_inputs (op_heap st3 op)) = n) by by rewrite Hop3.
  (* starts *)
  rewrite (bind_Return_state _ _ st3 ts st3) by (unfold lift; by rewrite Hts).
  destruct (add_constant_input_spec op ts st3) as
    (st4 & Hrun4 & Hops4 & Hop4 & Hvars4 & Hnew4 & Hnext4 & Hvariables4
     & Hoperations4 & Hinputs4 & Houtputs4 & Hlog4).
  { by rewrite Hname3, Hoperations3. }
  { by rewrite Hname3, Hlen3, Hvariables3. }
  rewrite (bind_Return_state _ _ _ _ _ Hrun4).
  rewrite Hname3, Hlen3, Hnext3 in *. fold nv in Hop4, Hvars4, Hnew4, Hnext4, Hvariables4.
  assert (Hname4 : op_name (op_heap st4 op) = name) by by rewrite Hop4.
  assert (Hlen4 : length (op_inputs (op_heap st4 op)) = n + 1).
  { rewrite Hop4. cbn [op_inputs set_op_inputs]. rewrite length_app, Hlen3. done. }
  (* ends *)
  rewrite (bind_Return_state _ _ st4 te st4) by (unfold lift; by rewrite Hte).
  destruct (add_constant_input_spec op te st4) as
    (st5 & Hrun5 & Hops5 & Hop5 & Hvars5 & Hnew5 & Hnext5 & Hvariables5
     & Hoperations5 & Hinputs5 & Houtputs5 & Hlog5).
  { rewrite Hname4, Hoperations4. congruence. }
  { rewrite Hname4, Hlen4, Hvariables4, Hvariables3, fmap_app, not_elem_of_app.
    replace (n + 1 + 1) with (n + 2) by lia. split; [done |].
    cbn. rewrite list_elem_of_singleton. congruence. }
  rewrite (bind_Return_state _ _ _ _ _ Hrun5).
  rewrite Hname4, Hlen4, Hnext4 in *.
  replace (n + 1 + 1) with (n + 2) in * by lia.
  assert (Hname5 : op_name (op_heap st5 op) = name) by by rewrite Hop5.
  assert (Hlen5 : length (op_inputs (op_heap st5 op)) = n + 2).
  { rewrite Hop5. cbn [op_inputs set_op_inputs]. rewrite length_app, Hlen4.
    cbn [length]. lia. }
  (* axes *)
  rewrite (bind_Return_state _ _ st5 ta st5) by (unfold lift; by rewrite Hta).
  destruct (add_constant_input_spec op ta st5) as
    (st6 & Hrun6 & Hops6 & Hop6 & Hvars6 & Hnew6 & Hnext6 & Hvariables6
     & Hoperations6 & Hinputs6 & Houtputs6 & Hlog6).
  { rewrite Hname5, Hoperations5. congruence. }
  { rewrite Hname5, Hlen5, Hvariables5, Hvariables4, Hvariables3, !fmap_app,
      !not_elem_of_app.
    replace (n + 2 + 1) with (n + 3) by lia. split; [split; [done |] |].
    - cbn. rewrite list_elem_of_singleton. congruence.
    - cbn. rewrite list_elem_of_singleton. congruence. }
  rewrite Hname5, Hlen5, Hnext5 in *.
  replace (n + 2 + 1) with (n + 3) in * by lia.
  exists st6. split; [exact Hrun6 |].
  split; [intros r Hr; by rewrite Hops6, Hops5, Hops4, Hops3 |].
  split.
  { rewrite Hop6, Hop5, Hop4, Hop3. unfold set_op_inputs, set_attributes.
    cbn [op_name op_type attributes op_inputs op_outputs].
    by rewrite <- !app_assoc. }
  split.
  { intros r Hr. rewrite Hvars6, Hvars5, Hvars4 by lia. by rewrite Hvars3. }
  split.
  { repeat constructor; cbn [fst snd].
    - rewrite Hvars6, Hvars5 by lia. exact Hnew4.
    - rewrite Hvars6 by lia. exact Hnew5.
    - exact Hnew6. }
  split; [done |].
  split.
  { rewrite Hvariables6, Hvariables5, Hvariables4, Hvariables3.
    by rewrite <- !app_assoc. }
  repeat split; congruence.
Qed.

(** The second loop of [format_slice], from any state it may have
    reached. *)
Lemma format_slice_loop (l : list op_ref) (st : State) :
  NoDup l →
  (∀ op, op ∈ l → ∃ ts te ta, slice_tensors st op ts te ta) →
  (∀ op, op ∈ l → dict_get (op_name (op_heap st op)) (operations st) = Some op) →
  NoDup ((variables st).*1 ++ mjoin (slice_names st <$> l)) →
  ∃ st',
    for_in l (format_slice_body convert_any_to_tensor tensor_index) st = (Return (), st')
    ∧ (∀ r, r ∉ l → op_heap st' r = op_heap st r)
    ∧ (∀ r, r < next_var st → var_heap st' r = var_heap st r)
    ∧ next_var st ≤ next_var st'
    ∧ (∀ e, e ∈ variables st → e ∈ variables st')
    ∧ operations st' = operations st
    ∧ inputs st' = inputs st
    ∧ outputs st' = outputs st
    ∧ log st' = log st
    ∧ ∀ op, op ∈ l → slice_formatted st st' op.
Proof.
  revert st. induction l as [|op l IH]; intros st Hl Htensors Hreg Hnames.
  - exists st. repeat (split; [done |]). intros op Hop. by apply elem_of_nil in Hop.
  - apply NoDup_cons in Hl as [Hop Hl].
    rewrite fmap_cons in Hnames. cbn [mjoin list_join] in Hnames.
    rewrite app_assoc in Hnames.
    destruct (Htensors op) as (ts & te & ta & Hop_tensors); [by left |].
    destruct (format_slice_body_spec op st ts te ta) as
      (st1 & Hstep & Hops1 & Hop1 & Hvars1 & Hnew1 & Hnext1 & Hvariables1
       & Hoperations1 & Hinputs1 & Houtputs1 & Hlog1).
    { done. }
    { apply Hreg. by left. }
    { by apply NoDup_app in Hnames as [? _]. }
    assert (Hother : ∀ r, r ∈ l → op_heap st1 r = op_heap st r).
    { intros r Hr. apply Hops1. by intros ->. }
    assert (Hsame : slice_names st1 <$> l = slice_names st <$> l).
    { apply list_fmap_ext. intros i r Hr. unfold slice_names.
      rewrite Hother; [done |]. by eapply list_elem_of_lookup_2. }
    destruct (IH st1 Hl) as
      (st' & Hloop & Hops & Hvars & Hnext & Hvariables & Hoperations
       & Hinputs & Houtputs & Hlog & Hformatted).
    { intros r Hr. destruct (Htensors r) as (ts' & te' & ta' & Hr'); [by right |].
      exists ts', te', ta'. unfold slice_tensors, slice_axes in *.
      by rewrite Hother. }
    { intros r Hr. rewrite Hother, Hoperations1 by done. apply Hreg. by right. }
    { rewrite Hsame, Hvariables1, fmap_app.
      replace ((zip (slice_names st op) [next_var st; S (next_var st); S (S (next_var st))]).*1)
        with (slice_names st op) by done.
      exact Hnames. }
    exists st'. split; [| split; [| split; [| split; [| split; [| split;
      [| split; [| split; [| split]]]]]]]].
    + simpl. by rewrite (bind_Return_state _ _ _ _ _ Hstep).
    + intros r Hr. rewrite not_elem_of_cons in Hr. destruct Hr as [Hr1 Hr2].
      rewrite Hops by done. by apply Hops1.
    + intros r Hr. rewrite Hvars by lia. by apply Hvars1.
    + lia.
    + intros e He. apply Hvariables. rewrite Hvariables1. apply elem_of_app. by left.
    + congruence.
    + congruence.
    + congruence.
    + congruence.
    + intros r Hr. apply elem_of_cons in Hr as [->|Hr].
      * exists ts, te, ta, (next_var st), (S (next_var st)), (S (S (next_var st))).
        rewrite Hops by done. rewrite Hop1.
        split; [done |]. split; [done |].
        split; [repeat constructor; lia |].
        split; [| done].
        unfold slice_names in *. cbn [fmap list_fmap] in *.
        apply Forall2_cons_1 in Hnew1 as [Hn1 Hnew1].
        apply Forall2_cons_1 in Hnew1 as [Hn2 Hnew1].
        apply Forall2_cons_1 in Hnew1 as [Hn3 _].
        cbn [fst snd] in *.
        repeat constructor; cbn [fst snd].
        -- rewrite Hvars by lia. done.
        -- apply Hvariables. rewrite Hvariables1. cbn. set_solver.
        -- rewrite Hvars by lia. done.
        -- apply Hvariables. rewrite Hvariables1. cbn. set_solver.
        -- rewrite Hvars by lia. done.
        -- apply Hvariables. rewrite Hvariables1. cbn. set_solver.
      * destruct (Hformatted r Hr) as
          (ts' & te' & ta' & v1 & v2 & v3 & Ht & Hi & Hnew & Hc & Ha & Hn & Hty & Ho).
        assert (Hr1 : op_heap st1 r = op_heap st r) by by apply Hother.
        exists ts', te', ta', v1, v2, v3.
        unfold slice_tensors, slice_axes, slice_names in *. rewrite Hr1 in *.
        split; [done |]. split; [done |].
        split; [eapply Forall_impl; [exact Hnew |]; intros v Hv; cbn in Hv; lia |].
        done.
Qed.

(** *** [format_slice] *)

(** X21.  A Slice that carries [starts] and no [ends] stops the pass before it
    has changed anything, wherever in the graph it is. *)
Theorem format_slice_asserts (st : State) (op : op_ref) :
  op ∈ dict_values (operations st) →
  op_type (op_heap st op) = "Slice" →
  dict_in "starts" (attributes (op_heap st op)) = true →
  dict_in "ends" (attributes (op_heap st op)) = false →
  format_slice convert_any_to_tensor tensor_index st = (Raise AssertionError, st).
Proof.
  intros Hop Htype Hstarts Hends. unfold format_slice. rewrite bind_get.
  apply bind_Raise_state. by eapply opset1_slices_raises.
Qed.

(** X22.  On a graph where every Slice in the opset 1 format is entered under
    its own name, none is listed twice, their [starts], [ends] and axes
    convert to tensors, and the names the pass is going to give are not
    taken: [format_slice] returns; every such Slice has lost [starts],
    [ends] and [axes] and has three more inputs at the end, new parameter
    variables of the graph that hold the three tensors, in this order,
    and feed this operation only; nothing else of the graph has
    changed, and a second run of the pass finds nothing to do. *)
Theorem format_slice_formats (st : State) :
  let interested_ops := filter (opset1_slice st) (dict_values (operations st)) in
  NoDup interested_ops →
  (∀ op, op ∈ interested_ops → ∃ ts te ta, slice_tensors st op ts te ta) →
  (∀ op, op ∈ interested_ops →
         dict_get (op_name (op_heap st op)) (operations st) = Some op) →
  NoDup ((variables st).*1 ++ mjoin (slice_names st <$> interested_ops)) →
  ∃ st',
    format_slice convert_any_to_tensor tensor_index st = (Return (), st')
    ∧ (∀ op, op ∈ dict_values (operations st) →
             op_type (op_heap st op) = "Slice" →
             dict_in "starts" (attributes (op_heap st op)) = true →
             slice_formatted st st' op)
    ∧ (∀ op, ¬ (op ∈ dict_values (operations st) ∧ opset1_slice st op) →
             op_heap st' op = op_heap st op)
    ∧ (∀ var, var < next_var st → var_heap st' var = var_heap st var)
    ∧ operations st' = operations st
    ∧ inputs st' = inputs st
    ∧ outputs st' = outputs st
    ∧ format_slice convert_any_to_tensor tensor_index st' = (Return (), st').
Proof.
  intros interested_ops Hnd Htensors Hreg Hnames.
  destruct (format_slice_loop interested_ops st Hnd Htensors Hreg Hnames)
    as (st' & Hloop & Hops & Hvars & _ & _ & Hoperations & Hinputs & Houtputs
        & _ & Hformatted).
  assert (Hnone : ∀ op, op ∈ dict_values (operations st) → ¬ opset1_slice st' op).
  { intros op Hop [Htype Hstarts].
    destruct (decide (opset1_slice st op)) as [Hslice|Hslice].
    - destruct (Hformatted op) as (? & ? & ? & ? & ? & ? & _ & _ & _ & _ & Ha & _).
      { apply list_elem_of_filter. by split. }
      rewrite Ha, !dict_in_pop_ne, dict_in_pop in Hstarts by done. done.
    - assert (Hsame : op_heap st' op = op_heap st op).
      { apply Hops. intros Hin. apply list_elem_of_filter in Hin as [? _]. done. }
      rewrite Hsame in Htype, Hstarts. apply Hslice. by split. }
  exists st'. split; [| split; [| split; [| split]]].
  - unfold format_slice. rewrite bind_get.
    rewrite (bind_Return_state _ _ st interested_ops st); [done |].
    rewrite opset1_slices_returns; [done |].
    intros op Hop Hslice.
    destruct (Htensors op) as (ts & te & ta & starts & ends & axes & _ & Hends & _).
    { apply list_elem_of_filter. by split. }
    apply dict_in_get. by eexists.
  - intros op Hop Htype Hstarts. apply Hformatted.
    apply list_elem_of_filter. by split.
  - intros op Hop. apply Hops. intros Hin.
    apply list_elem_of_filter in Hin as [? ?]. by apply Hop.
  - done.
  - split; [done |]. split; [done |]. split; [done |].
    unfold format_slice. rewrite bind_get, Hoperations.
    rewrite (bind_Return_state _ _ st' [] st'); [done |].
    rewrite opset1_slices_returns.
    + by rewrite (filter_none _ _ Hnone).
    + intros op Hop Hslice. by destruct (Hnone op Hop).
Qed.

(** [range] refuses a list: a Slice in the opset 1 format that has no
    [axes] and whose [starts] is a list stops the loop with a
    [TypeError], before the loop has changed this operation. *)
Lemma format_slice_body_list_starts (op : op_ref) (st : State) (l : list val) :
  dict_get "starts" (attributes (op_heap st op)) = Some (VList l) →
  dict_in "ends" (attributes (op_heap st op)) = true →
  default VNone (dict_get "axes" (attributes (op_heap st op))) = VNone →
  format_slice_body convert_any_to_tensor tensor_index op st = (Raise TypeError, st).
Proof.
  intros Hstarts [ends Hends]%dict_in_get Haxes. unfold format_slice_body.
  rewrite bind_get, Hstarts, Hends, Haxes.
  by apply bind_Raise_state.
Qed.

(** X23.  The pass is not all or nothing.  When the Slices in the opset 1
    format are [l1], then [op], then [l2], all with [ends], the ones of
    [l1] fit for conversion, and [op] has a list for [starts] and no
    [axes]: the pass raises [TypeError] at [op], the Slices of [l1] are
    converted by then, and every other operation is what it was. *)
Theorem format_slice_list_starts (st : State) (l1 l2 : list op_ref) (op : op_ref)
    (l : list val) :
  filter (opset1_slice st) (dict_values (operations st)) = l1 ++ op :: l2 →
  (∀ r, r ∈ l1 ++ op :: l2 → dict_in "ends" (attributes (op_heap st r)) = true) →
  NoDup l1 → op ∉ l1 →
  (∀ r, r ∈ l1 → ∃ ts te ta, slice_tensors st r ts te ta) →
  (∀ r, r ∈ l1 → dict_get (op_name (op_heap st r)) (operations st) = Some r) →
  NoDup ((variables st).*1 ++ mjoin (slice_names st <$> l1)) →
  dict_get "starts" (attributes (op_heap st op)) = Some (VList l) →
  default VNone (dict_get "axes" (attributes (op_heap st op))) = VNone →
  ∃ st',
    format_slice convert_any_to_tensor tensor_index st = (Raise TypeError, st')
    ∧ (∀ r, r ∈ l1 → slice_formatted st st' r)
    ∧ (∀ r, r ∉ l1 → op_heap st' r = op_heap st r)
    ∧ (∀ var, var < next_var st → var_heap st' var = var_heap st var)
    ∧ operations st' = operations st
    ∧ inputs st' = inputs st
    ∧ outputs st' = outputs st.
Proof.
  intros Hfilter Hends Hnd Hop Htensors Hreg Hnames Hstarts Haxes.
  destruct (format_slice_loop l1 st Hnd Htensors Hreg Hnames)
    as (st' & Hloop & Hops & Hvars & _ & _ & Hoperations & Hinputs & Houtputs
        & _ & Hformatted).
  exists st'. split; [| done].
  unfold format_slice. rewrite bind_get.
  rewrite (bind_Return_state _ _ st (l1 ++ op :: l2) st); cycle 1.
  { rewrite opset1_slices_returns, Hfilter; [done |].
    intros r Hr Hslice. apply Hends. rewrite <- Hfilter.
    by apply list_elem_of_filter. }
  rewrite for_in_app, Hloop. cbn [for_in].
  apply bind_Raise_state. apply (format_slice_body_list_starts op st' l).
  - by rewrite Hops.
  - rewrite Hops by done. apply Hends. set_solver.
  - by rewrite Hops.
Qed.

End Slice.
Section Witnesses.
Import Samples SamplesMore.
#[local] Open Scope nat_scope.

(** Stand-ins for [convert_any_to_tensor] and for [Tensor.__index__]. *)
Definition as_tensor (v : value (@Tensor exact_torch) (@PyFloat exact_torch))
  : outcome (value (@Tensor exact_torch) (@PyFloat exact_torch)) :=
  Return (VList [v]).

Definition no_index (t : @Tensor exact_torch) : outcome Z := Raise TypeError.

Lemma format_slice_asserts_witness :
  format_slice as_tensor no_index slice_without_ends
  = (Raise AssertionError, slice_without_ends).
Proof.
  apply (format_slice_asserts as_tensor no_index slice_without_ends 1).
  - apply (bool_decide_unpack _). vm_compute. exact I.
  - reflexivity.
  - reflexivity.
  - reflexivity.
Defined.

Lemma slice_graph_tensors (op : op_ref) :
  op ∈ [0; 1] →
  ∃ ts te ta, slice_tensors as_tensor no_index slice_graph op ts te ta.
Proof.
  intros Hop. apply elem_of_cons in Hop as [->|Hop].
  - exists (VList [VList [VInt 0]]), (VList [VList [VInt 2]]), (VList [VList [VInt 0]]).
    by exists (VList [VInt 0]), (VList [VInt 2]), (VList [VInt 0]).
  - apply list_elem_of_singleton in Hop as ->.
    exists (VList [VInt 2]), (VList [VInt 3]), (VList [VList [VInt 0; VInt 1]]).
    by exists (VInt 2), (VInt 3), (VList [VInt 0; VInt 1]).
Qed.

Lemma format_slice_formats_witness :
  ∃ st',
    format_slice as_tensor no_index slice_graph = (Return (), st')
    ∧ (∀ op, op ∈ dict_values (operations slice_graph) →
             op_type (op_heap slice_graph op) = "Slice" →
             dict_in "starts" (attributes (op_heap slice_graph op)) = true →
             slice_formatted as_tensor no_index slice_graph st' op)
    ∧ (∀ op, ¬ (op ∈ dict_values (operations slice_graph)
                ∧ opset1_slice slice_graph op) →
             op_heap st' op = op_heap slice_graph op)
    ∧ (∀ var, var < next_var slice_graph →
              var_heap st' var = var_heap slice_graph var)
    ∧ operations st' = operations slice_graph
    ∧ inputs st' = inputs slice_graph
    ∧ outputs st' = outputs slice_graph
    ∧ format_slice as_tensor no_index st' = (Return (), st').
Proof.
  apply (format_slice_formats as_tensor no_index slice_graph).
  - apply (bool_decide_unpack _). vm_compute. exact I.
  - exact slice_graph_tensors.
  - intros op Hop. apply elem_of_cons in Hop as [->|Hop]; [reflexivity |].
    apply list_elem_of_singleton in Hop as ->. reflexivity.
  - apply (bool_decide_unpack _). vm_compute. exact I.
Defined.

Lemma format_slice_list_starts_witness :
  ∃ st',
    format_slice as_tensor no_index slice_without_axes = (Raise TypeError, st')
    ∧ (∀ r, r ∈ [0] → slice_formatted as_tensor no_index slice_without_axes st' r)
    ∧ (∀ r, r ∉ [0] → op_heap st' r = op_heap slice_without_axes r)
    ∧ (∀ var, var < next_var slice_without_axes →
              var_heap st' var = var_heap slice_without_axes var)
    ∧ operations st' = operations slice_without_axes
    ∧ inputs st' = inputs slice_without_axes
    ∧ outputs st' = outputs slice_without_axes.
Proof.
  apply (format_slice_list_starts as_tensor no_index slice_without_axes
           [0] [] 1 [VInt 1]).
  - reflexivity.
  - intros r Hr. apply elem_of_cons in Hr as [->|Hr]; [reflexivity |].
    apply list_elem_of_singleton in Hr as ->. reflexivity.
  - apply NoDup_singleton.
  - apply (bool_decide_unpack _). vm_compute. exact I.
  - intros r Hr. apply list_elem_of_singleton in Hr as ->.
    exists (VList [VList [VInt 0]]), (VList [VList [VInt 2]]), (VList [VList [VInt 0]]).
    by exists (VList [VInt 0]), (VList [VInt 2]), (VList [VInt 0]).
  - intros r Hr. apply list_elem_of_singleton in Hr as ->. reflexivity.
  - apply (bool_decide_unpack _). vm_compute. exact I.
  - reflexivity.
  - reflexivity.
Defined.

(** The converted graph of the sample, run. *)
Example format_slice_sample :
  let st' := (format_slice as_tensor no_index slice_graph).2 in
  op_inputs (op_heap st' 1) = [1; 6; 7; 8]
  ∧ var_name <$> (var_heap st' <$> [6; 7; 8]) = ["slice2_2"; "slice2_3"; "slice2_4"]
  ∧ var_value (var_heap st' 8) = VList [VList [VInt 0; VInt 1]]
  ∧ attributes (op_heap st' 1) = [].
Proof. vm_compute. done. Qed.

End Witnesses.

End SliceFacts.

Module BatchNormFacts.
Import Graph Morph MorphFacts IsolationFacts MorphMore AttributeFacts.

Section BatchNorm.
Context {torch : Torch}.
#[local] Open Scope nat_scope.

Abbreviation val := (value Tensor PyFloat).

Variable neg : val → val.
Variable numel : val → Z.
Variable dimension : Z.

(** The weight, the bias and the attributes of the convolution that
    takes the place of a BatchNormalization. *)
Definition conv_weight (alpha var epsilon : val) : val :=
  reshape (truediv alpha (torch_sqrt (add var epsilon)))
          ([-1; 1] ++ replicate (Z.to_nat dimension) 1)%Z.

Definition conv_bias (alpha beta mean var epsilon : val) : val :=
  add (truediv (mul alpha (neg mean)) (torch_sqrt (add var epsilon))) beta.

Definition conv_attributes (w : val) : dict val :=
  [ ("kernel_shape", VList (replicate (Z.to_nat dimension) (VInt 1)));
    ("strides", VList (replicate (Z.to_nat dimension) (VInt 1)));
    ("dilations", VList (replicate (Z.to_nat dimension) (VInt 1)));
    ("pads", VList (mjoin (replicate (Z.to_nat dimension) [VInt 0; VInt 0])));
    ("group", VInt (numel w)) ].

Lemma filter_ne_not_in (y : var_ref) (l : list var_ref) :
  y ∉ l → filter (λ x, x ≠ y) l = l.
Proof.
  induction l as [|x l IH]; [done |]. rewrite not_elem_of_cons. intros [Hne Hl].
  rewrite filter_cons_True by done. by rewrite IH.
Qed.

Lemma filter_ne_last (y : var_ref) (l : list var_ref) :
  y ∉ l → filter (λ x, x ≠ y) (l ++ [y]) = l.
Proof.
  intros Hl. rewrite filter_app, filter_ne_not_in by done.
  rewrite filter_cons_False by (intros H; by apply H). by rewrite app_nil_r.
Qed.

Lemma replace_batchnorm_to_conv_body_spec (op : op_ref) (st : State)
    (x a b m v : var_ref) :
  op_type (op_heap st op) = "BatchNormalization" →
  op_inputs (op_heap st op) = [x; a; b; m; v] →
  parameters st op = [a; b; m; v] →
  NoDup [x; a; b; m; v] →
  dict_in (var_name (var_heap st v)) (variables st) = true →
  dict_in (var_name (var_heap st m)) (variables st) = true →
  var_name (var_heap st m) ≠ var_name (var_heap st v) →
  let o := op_heap st op in
  let epsilon := dict_get_default "epsilon" (VFloat float_1e_5) (attributes o) in
  let w := conv_weight (var_value (var_heap st a)) (var_value (var_heap st v)) epsilon in
  let bias := conv_bias (var_value (var_heap st a)) (var_value (var_heap st b))
                        (var_value (var_heap st m)) (var_value (var_heap st v))
                        epsilon in
  ∃ st',
    replace_batchnorm_to_conv_body neg numel dimension op st = (Return (), st')
    ∧ (∀ r, r ≠ op → op_heap st' r = unlink_var m (unlink_var v (op_heap st r)))
    ∧ op_heap st' op
      = {| op_name := op_name o; op_type := "Conv";
           attributes := conv_attributes w; op_inputs := [x; a; b];
           op_outputs := filter (λ y, y ≠ m) (filter (λ y, y ≠ v) (op_outputs o)) |}
    ∧ (∀ y, var_name (var_heap st' y) = var_name (var_heap st y)
            ∧ is_parameter (var_heap st' y) = is_parameter (var_heap st y))
    ∧ (∀ y, y ≠ a → y ≠ b → var_value (var_heap st' y) = var_value (var_heap st y))
    ∧ var_value (var_heap st' a) = w
    ∧ var_value (var_heap st' b) = bias
    ∧ variables st'
      = dict_pop (var_name (var_heap st m))
                 (dict_pop (var_name (var_heap st v)) (variables st))
    ∧ operations st' = operations st.
Proof.
  intros Htype Hinputs Hparams Hnd Hv Hm Hnames o epsilon w bias.
  assert (Hne : x ≠ v ∧ a ≠ v ∧ b ≠ v ∧ m ≠ v ∧ x ≠ m ∧ a ≠ m ∧ b ≠ m ∧ a ≠ b).
  { apply NoDup_cons in Hnd as [Hx Hnd]. apply NoDup_cons in Hnd as [Ha Hnd].
    apply NoDup_cons in Hnd as [Hb Hnd]. apply NoDup_cons in Hnd as [Hm' _].
    set_solver. }
  destruct Hne as (Hxv & Hav & Hbv & Hmv & Hxm & Ham & Hbm & Hab).
  assert (Hf1 : filter (λ y, y ≠ v) [x; a; b; m; v] = [x; a; b; m]).
  { apply (filter_ne_last v [x; a; b; m]). set_solver. }
  assert (Hf2 : filter (λ y, y ≠ m) [x; a; b; m] = [x; a; b]).
  { apply (filter_ne_last m [x; a; b]). set_solver. }
  unfold replace_batchnorm_to_conv_body. rewrite bind_get.
  rewrite decide_True by done. rewrite bind_modify.
  rewrite Hparams.
  rewrite bind_assert_true by by apply bool_decide_eq_true_2.
  rewrite (bind_lift_Return _ _ _ a eq_refl), (bind_lift_Return _ _ _ b eq_refl).
  rewrite (bind_lift_Return _ _ _ m eq_refl), (bind_lift_Return _ _ _ v eq_refl).
  fold o. fold epsilon. fold (conv_weight (var_value (var_heap st a))
                                (var_value (var_heap st v)) epsilon).
  fold w.
  fold (conv_bias (var_value (var_heap st a)) (var_value (var_heap st b))
                  (var_value (var_heap st m)) (var_value (var_heap st v)) epsilon).
  fold bias.
  unfold set_attribute. rewrite !bind_modify.
  match goal with
  | |- context [ (remove_last_input op ≫= _) ?s ] => set (sA := s)
  end.
  assert (HopA : op_heap sA op
                 = {| op_name := op_name o; op_type := "Conv";
                      attributes := conv_attributes w; op_inputs := [x; a; b; m; v];
                      op_outputs := op_outputs o |}).
  { unfold sA. autorewrite with state. rewrite !fn_lookup_alter.
    unfold set_attributes, set_op_type. cbn -[replicate].
    by rewrite Hinputs. }
  assert (HopsA : ∀ r, r ≠ op → op_heap sA r = op_heap st r).
  { intros r Hr. unfold sA. autorewrite with state.
    by rewrite !fn_lookup_alter_ne. }
  assert (HvarsA : var_heap sA = var_heap st).
  { unfold sA. by autorewrite with state. }
  assert (HvariablesA : variables sA = variables st).
  { unfold sA. by autorewrite with state. }
  assert (HoperationsA : operations sA = operations st).
  { unfold sA. by autorewrite with state. }
  clearbody sA.
  (* the last input goes *)
  set (sB := without_variable v sA).
  assert (HstepB : remove_last_input op sA = (Return (), sB)).
  { unfold remove_last_input. rewrite bind_get, HopA. cbn [op_inputs last].
    apply remove_variable_registered. by rewrite HvarsA, HvariablesA. }
  rewrite (bind_Return_state _ _ _ _ _ HstepB).
  assert (HopB : op_inputs (op_heap sB op) = [x; a; b; m]).
  { unfold sB. rewrite op_heap_without_variable, HopA. cbn [unlink_var op_inputs].
    exact Hf1. }
  set (sC := without_variable m sB).
  assert (HstepC : remove_last_input op sB = (Return (), sC)).
  { unfold remove_last_input. rewrite bind_get, HopB. cbn [last].
    apply remove_variable_registered. unfold sB.
    rewrite var_name_without_variable, variables_without_variable, HvarsA, HvariablesA.
    by rewrite dict_in_pop_ne. }
  rewrite (bind_Return_state _ _ _ _ _ HstepC).
  assert (HopC : op_heap sC op
                 = {| op_name := op_name o; op_type := "Conv";
                      attributes := conv_attributes w; op_inputs := [x; a; b];
                      op_outputs := filter (λ y, y ≠ m)
                                      (filter (λ y, y ≠ v) (op_outputs o)) |}).
  { unfold sC, sB. rewrite !op_heap_without_variable, HopA.
    unfold unlink_var. cbn [op_name op_type attributes op_inputs op_outputs].
    by rewrite Hf1, Hf2. }
  assert (HopsC : ∀ r, r ≠ op → op_heap sC r = unlink_var m (unlink_var v (op_heap st r))).
  { intros r Hr. unfold sC, sB. rewrite !op_heap_without_variable. by rewrite HopsA. }
  assert (HvarsC : ∀ y, var_name (var_heap sC y) = var_name (var_heap st y)
                        ∧ is_parameter (var_heap sC y) = is_parameter (var_heap st y)
                        ∧ var_value (var_heap sC y) = var_value (var_heap st y)).
  { intros y. unfold sC, sB. rewrite !var_heap_without_variable, HvarsA.
    destruct (decide (y = m)) as [->|Hym].
    - rewrite fn_lookup_alter, fn_lookup_alter_ne by done. done.
    - rewrite fn_lookup_alter_ne by done.
      destruct (decide (y = v)) as [->|Hyv].
      + by rewrite fn_lookup_alter.
      + by rewrite fn_lookup_alter_ne. }
  assert (HvariablesC : variables sC
                        = dict_pop (var_name (var_heap st m))
                            (dict_pop (var_name (var_heap st v)) (variables st))).
  { unfold sC. rewrite variables_without_variable. unfold sB.
    rewrite var_name_without_variable, variables_without_variable.
    by rewrite HvarsA, HvariablesA. }
  assert (HoperationsC : operations sC = operations st).
  { unfold sC, sB. by rewrite !operations_without_variable. }
  clearbody sC. clear sB HstepB HstepC HopB.
  assert (HstepD : set_input_value op 1 w sC
                   = (Return (), update_var a (set_var_value w) sC)).
  { unfold set_input_value. rewrite bind_get, HopC. cbn [op_inputs].
    by rewrite (bind_lift_Return _ _ _ a eq_refl). }
  rewrite (bind_Return_state _ _ _ _ _ HstepD).
  unfold set_input_value. rewrite bind_get.
  autorewrite with state. rewrite HopC. cbn [op_inputs].
  rewrite (bind_lift_Return _ _ _ b eq_refl).
  unfold modify.
  eexists. split; [reflexivity |]. autorewrite with state.
  split; [done |]. split; [done |].
  split.
  { intros y. destruct (HvarsC y) as (Hn & Hp & _). rewrite <- Hn, <- Hp.
    destruct (decide (y = b)) as [->|Hyb].
    - rewrite fn_lookup_alter, fn_lookup_alter_ne by done. done.
    - rewrite fn_lookup_alter_ne by done.
      destruct (decide (y = a)) as [->|Hya].
      + by rewrite fn_lookup_alter.
      + by rewrite fn_lookup_alter_ne. }
  split.
  { intros y Hya Hyb. rewrite !fn_lookup_alter_ne by done. apply HvarsC. }
  split.
  { rewrite fn_lookup_alter_ne by done. by rewrite fn_lookup_alter. }
  split; [by rewrite fn_lookup_alter |].
  done.
Qed.

(** *** The loop *)

(** A BatchNormalization as the pass expects it: the data, then the
    four parameters [alpha], [beta], [mean] and [var], each a variable of
    its own, the last two entered in the graph under their names and
    naming the operation as a consumer. *)
Record batchnorm (st : State) (op : op_ref) (x a b m v : var_ref) : Prop := {
  bn_inputs : op_inputs (op_heap st op) = [x; a; b; m; v];
  bn_data : is_parameter (var_heap st x) = false;
  bn_parameters : ∀ p, p ∈ [a; b; m; v] → is_parameter (var_heap st p) = true;
  bn_nodup : NoDup [a; b; m; v];
  bn_registered :
    ∀ p, p ∈ [m; v] → dict_get (var_name (var_heap st p)) (variables st) = Some p;
  bn_linked : ∀ p, p ∈ [m; v] → op ∈ dest_ops (var_heap st p)
}.

(** What has become of it afterwards. *)
Record converted (st st' : State) (op : op_ref) (x a b m v : var_ref) : Prop := {
  conv_type : op_type (op_heap st' op) = "Conv";
  conv_inputs : op_inputs (op_heap st' op) = [x; a; b];
  conv_attrs :
    attributes (op_heap st' op)
    = conv_attributes
        (conv_weight (var_value (var_heap st a)) (var_value (var_heap st v))
           (dict_get_default "epsilon" (VFloat float_1e_5)
                             (attributes (op_heap st op))));
  conv_w :
    var_value (var_heap st' a)
    = conv_weight (var_value (var_heap st a)) (var_value (var_heap st v))
        (dict_get_default "epsilon" (VFloat float_1e_5) (attributes (op_heap st op)));
  conv_b :
    var_value (var_heap st' b)
    = conv_bias (var_value (var_heap st a)) (var_value (var_heap st b))
        (var_value (var_heap st m)) (var_value (var_heap st v))
        (dict_get_default "epsilon" (VFloat float_1e_5) (attributes (op_heap st op)));
  conv_removed :
    ∀ p, p ∈ [m; v] → dict_in (var_name (var_heap st p)) (variables st') = false
}.

Lemma batchnorm_parameters st op x a b m v :
  batchnorm st op x a b m v → parameters st op = [a; b; m; v].
Proof.
  intros [Hi Hx Hp _ _ _]. unfold parameters. rewrite Hi.
  rewrite filter_cons_False by (rewrite Hx; done).
  rewrite !filter_cons_True by (apply Hp; set_solver). done.
Qed.

Lemma dict_in_pop_false {A : Type} (k k' : string) (d : dict A) :
  dict_in k d = false → dict_in k (dict_pop k' d) = false.
Proof.
  intros Hk. destruct (decide (k = k')) as [->|Hne]; [apply dict_in_pop |].
  by rewrite dict_in_pop_ne.
Qed.

Section Loop.
Variable st0 : State.

Hypothesis ready :
  ∀ op, op ∈ dict_values (operations st0) →
        op_type (op_heap st0 op) = "BatchNormalization" →
        ∃ x a b m v, batchnorm st0 op x a b m v.

Hypothesis not_shared :
  ∀ op op', op ∈ dict_values (operations st0) →
            op' ∈ dict_values (operations st0) →
            op_type (op_heap st0 op) = "BatchNormalization" →
            op_type (op_heap st0 op') = "BatchNormalization" →
            op ≠ op' →
            ∀ p, p ∈ parameters st0 op → p ∉ parameters st0 op'.

(** The parameters of one BatchNormalization are no input of another. *)
Lemma apart op op' x a b m v x' a' b' m' v' p :
  op ∈ dict_values (operations st0) → op' ∈ dict_values (operations st0) →
  op_type (op_heap st0 op) = "BatchNormalization" →
  op_type (op_heap st0 op') = "BatchNormalization" →
  op ≠ op' →
  batchnorm st0 op x a b m v → batchnorm st0 op' x' a' b' m' v' →
  p ∈ [a; b; m; v] → p ∉ [x'; a'; b'; m'; v'].
Proof.
  intros Hop Hop' Ht Ht' Hne Hbn Hbn' Hp.
  rewrite not_elem_of_cons. split.
  - intros ->. destruct Hbn as [_ _ Hflag _ _ _], Hbn' as [_ Hx' _ _ _ _].
    rewrite (Hflag _ Hp) in Hx'. done.
  - rewrite <- (batchnorm_parameters _ _ _ _ _ _ _ Hbn').
    apply (not_shared op op'); try done.
    by rewrite (batchnorm_parameters _ _ _ _ _ _ _ Hbn).
Qed.

(** What holds between two rounds of the loop, [seen] being the
    BatchNormalizations it has converted. *)
Record inv (seen : list op_ref) (st : State) : Prop := {
  inv_names : ∀ r, op_name (op_heap st r) = op_name (op_heap st0 r);
  inv_vars :
    ∀ y, var_name (var_heap st y) = var_name (var_heap st0 y)
         ∧ is_parameter (var_heap st y) = is_parameter (var_heap st0 y);
  inv_operations : operations st = operations st0;
  inv_others :
    ∀ r, r ∉ seen →
         op_type (op_heap st r) = op_type (op_heap st0 r)
         ∧ attributes (op_heap st r) = attributes (op_heap st0 r);
  inv_todo :
    ∀ r x a b m v,
      r ∈ dict_values (operations st0) → r ∉ seen →
      op_type (op_heap st0 r) = "BatchNormalization" →
      batchnorm st0 r x a b m v →
      op_inputs (op_heap st r) = [x; a; b; m; v]
      ∧ (∀ p, p ∈ [a; b; m; v] → var_value (var_heap st p) = var_value (var_heap st0 p))
      ∧ (∀ p, p ∈ [m; v] →
              dict_get (var_name (var_heap st0 p)) (variables st) = Some p);
  inv_done :
    ∀ r, r ∈ seen →
         r ∈ dict_values (operations st0)
         ∧ op_type (op_heap st0 r) = "BatchNormalization"
         ∧ ∀ x a b m v, batchnorm st0 r x a b m v → converted st0 st r x a b m v
}.

Lemma inv_start : inv [] st0.
Proof.
  split; try done.
  - intros r x a b m v _ _ _ [Hi _ _ _ Hreg _]. done.
  - intros r Hr. by apply elem_of_nil in Hr.
Qed.

Lemma batchnorm_same st op x a b m v x' a' b' m' v' :
  batchnorm st op x a b m v → batchnorm st op x' a' b' m' v' →
  x' = x ∧ a' = a ∧ b' = b ∧ m' = m ∧ v' = v.
Proof. intros [Hi _ _ _ _ _] [Hi' _ _ _ _ _]. rewrite Hi in Hi'. by simplify_eq. Qed.

Lemma inv_step (seen : list op_ref) (st : State) (op : op_ref) :
  inv seen st → op ∈ dict_values (operations st0) →
  ∃ st' seen',
    replace_batchnorm_to_conv_body neg numel dimension op st = (Return (), st')
    ∧ inv seen' st'
    ∧ (∀ r, r ∈ seen → r ∈ seen')
    ∧ (op_type (op_heap st0 op) = "BatchNormalization" → op ∈ seen').
Proof.
  intros Hinv Hop.
  destruct (decide (op_type (op_heap st op) = "BatchNormalization")) as [Htype|Htype].
  - assert (Hnot : op ∉ seen).
    { intros Hin. destruct (inv_done _ _ Hinv op Hin) as (_ & Ht0 & Hconv).
      destruct (ready op Hop Ht0) as (x & a & b & m & v & Hbn).
      destruct (Hconv _ _ _ _ _ Hbn) as [Hc _ _ _ _ _]. congruence. }
    destruct (inv_others _ _ Hinv op Hnot) as [Ht0 Hattrs].
    rewrite Htype in Ht0. symmetry in Ht0.
    destruct (ready op Hop Ht0) as (x & a & b & m & v & Hbn).
    destruct (inv_todo _ _ Hinv op x a b m v Hop Hnot Ht0 Hbn) as (Hi & Hval & Hreg).
    pose proof Hbn as [_ Hx Hflag Hnd _ _].
    assert (Hflags : ∀ y, is_parameter (var_heap st y) = is_parameter (var_heap st0 y)).
    { intros y. apply (inv_vars _ _ Hinv). }
    assert (Hnames : ∀ y, var_name (var_heap st y) = var_name (var_heap st0 y)).
    { intros y. apply (inv_vars _ _ Hinv). }
    assert (Hmv : m ≠ v).
    { apply NoDup_cons in Hnd as [_ Hnd]. apply NoDup_cons in Hnd as [_ Hnd].
      apply NoDup_cons in Hnd as [Hm _]. set_solver. }
    destruct (replace_batchnorm_to_conv_body_spec op st x a b m v) as
      (st' & Hrun & Hops & Hop' & Hvars & Hvals & Hw & Hb & Hvariables & Hoperations).
    { done. }
    { done. }
    { unfold parameters. rewrite Hi.
      rewrite filter_cons_False by (rewrite Hflags, Hx; done).
      rewrite !filter_cons_True by (rewrite Hflags; apply Hflag; set_solver). done. }
    { apply NoDup_cons. split; [| done]. intros Hin.
      rewrite (Hflag _ Hin) in Hx. done. }
    { rewrite Hnames. apply dict_in_get. rewrite Hreg by set_solver. by eexists. }
    { rewrite Hnames. apply dict_in_get. rewrite Hreg by set_solver. by eexists. }
    { rewrite !Hnames. intros Heq.
      assert (Some m = Some v) as [= ?]; [| done].
      rewrite <- (Hreg m) by set_solver. rewrite Heq. apply Hreg. set_solver. }
    rewrite !Hnames in Hvariables.
    exists st', (op :: seen). split; [done |]. split; [| split; [set_solver | set_solver]].
    split.
    + intros r. destruct (decide (r = op)) as [->|Hr].
      * rewrite Hop'. cbn [op_name]. apply (inv_names _ _ Hinv).
      * rewrite Hops by done. cbn [unlink_var op_name]. apply (inv_names _ _ Hinv).
    + intros y. destruct (Hvars y) as [-> ->]. apply (inv_vars _ _ Hinv).
    + rewrite Hoperations. apply (inv_operations _ _ Hinv).
    + intros r Hr. apply not_elem_of_cons in Hr as [Hr Hrd].
      rewrite Hops by done. cbn [unlink_var op_type attributes].
      by apply (inv_others _ _ Hinv).
    + intros r x' a' b' m' v' Hr Hrd Htr Hbn'.
      apply not_elem_of_cons in Hrd as [Hrop Hrd].
      destruct (inv_todo _ _ Hinv r x' a' b' m' v' Hr Hrd Htr Hbn') as (Hi' & Hval' & Hreg').
      assert (Hapart : ∀ p, p ∈ [a; b; m; v] → p ∉ [x'; a'; b'; m'; v']).
      { intros p Hp. by apply (apart op r x a b m v x' a' b' m' v' p). }
      split; [| split].
      * rewrite Hops by done. cbn [unlink_var op_inputs]. rewrite Hi'.
        rewrite (filter_ne_not_in v) by (apply Hapart; set_solver).
        by rewrite (filter_ne_not_in m) by (apply Hapart; set_solver).
      * intros p Hp. rewrite Hvals; [by apply Hval' | |].
        -- intros ->. apply (Hapart a); set_solver.
        -- intros ->. apply (Hapart b); set_solver.
      * intros p Hp. rewrite Hvariables.
        assert (Hpne : ∀ q, q ∈ [m; v] →
                            var_name (var_heap st0 p) ≠ var_name (var_heap st0 q)).
        { intros q Hq Heq.
          assert (Some p = Some q) as [= ->].
          { rewrite <- (Hreg' p Hp). rewrite Heq. apply Hreg. done. }
          apply (Hapart q); set_solver. }
        rewrite !dict_get_dict_pop_ne by (apply Hpne; set_solver).
        by apply Hreg'.
    + intros r Hr. apply elem_of_cons in Hr as [->|Hr].
      * split; [done |]. split; [done |].
        intros x' a' b' m' v' Hbn'.
        destruct (batchnorm_same _ _ _ _ _ _ _ _ _ _ _ _ Hbn Hbn')
          as (-> & -> & -> & -> & ->).
        rewrite Hattrs in Hw, Hb, Hop'.
        rewrite (Hval a), (Hval v) in Hw, Hb, Hop' by set_solver.
        rewrite (Hval b), (Hval m) in Hb by set_solver.
        split.
        -- by rewrite Hop'.
        -- by rewrite Hop'.
        -- by rewrite Hop'.
        -- done.
        -- done.
        -- intros p Hp. rewrite Hvariables.
           apply elem_of_cons in Hp as [->|Hp]; [apply dict_in_pop |].
           apply list_elem_of_singleton in Hp as ->.
           apply dict_in_pop_false, dict_in_pop.
      * destruct (inv_done _ _ Hinv r Hr) as (Hrops & Htr & Hconv).
        assert (Hrop : r ≠ op) by (by intros ->).
        split; [done |]. split; [done |].
        intros x' a' b' m' v' Hbn'.
        destruct (Hconv _ _ _ _ _ Hbn') as [Hc1 Hc2 Hc3 Hc4 Hc5 Hc6].
        assert (Hapart : ∀ p, p ∈ [a; b; m; v] → p ∉ [x'; a'; b'; m'; v']).
        { intros p Hp. by apply (apart op r x a b m v x' a' b' m' v' p). }
        split.
        -- rewrite Hops by done. done.
        -- rewrite Hops by done. cbn [unlink_var op_inputs]. rewrite Hc2.
           rewrite (filter_ne_not_in v)
             by (specialize (Hapart v ltac:(set_solver)); set_solver).
           by rewrite (filter_ne_not_in m)
             by (specialize (Hapart m ltac:(set_solver)); set_solver).
        -- rewrite Hops by done. done.
        -- rewrite Hvals; [done | |].
           ++ intros ->. apply (Hapart a); set_solver.
           ++ intros ->. apply (Hapart b); set_solver.
        -- rewrite Hvals; [done | |].
           ++ intros ->. apply (Hapart a); set_solver.
           ++ intros ->. apply (Hapart b); set_solver.
        -- intros p Hp. rewrite Hvariables.
           by apply dict_in_pop_false, dict_in_pop_false, Hc6.
  - exists st, seen. split; [| split; [done | split; [done |]]].
    + unfold replace_batchnorm_to_conv_body. rewrite bind_get.
      by rewrite decide_False.
    + intros Ht0. destruct (decide (op ∈ seen)) as [|Hnot]; [done |].
      destruct (inv_others _ _ Hinv op Hnot) as [Ht _]. congruence.
Qed.

Lemma inv_loop (l : list op_ref) (seen : list op_ref) (st : State) :
  inv seen st → (∀ op, op ∈ l → op ∈ dict_values (operations st0)) →
  ∃ st' seen',
    for_in l (replace_batchnorm_to_conv_body neg numel dimension) st = (Return (), st')
    ∧ inv seen' st'
    ∧ (∀ r, r ∈ seen → r ∈ seen')
    ∧ (∀ op, op ∈ l → op_type (op_heap st0 op) = "BatchNormalization" → op ∈ seen').
Proof.
  revert seen st. induction l as [|op l IH]; intros seen st Hinv Hl.
  - exists st, seen. split; [done |]. split; [done |]. split; [done |].
    intros op Hop. by apply elem_of_nil in Hop.
  - destruct (inv_step seen st op Hinv) as (st1 & seen1 & Hrun1 & Hinv1 & Hsub1 & Hop1).
    { apply Hl. by left. }
    destruct (IH seen1 st1 Hinv1) as (st' & seen' & Hrun & Hinv' & Hsub & Hops).
    { intros r Hr. apply Hl. by right. }
    exists st', seen'. split; [| split; [done | split]].
    + cbn [for_in]. by rewrite (bind_Return_state _ _ _ _ _ Hrun1).
    + intros r Hr. by apply Hsub, Hsub1.
    + intros r Hr Ht. apply elem_of_cons in Hr as [->|Hr].
      * by apply Hsub, Hop1.
      * by apply Hops.
Qed.

End Loop.

Lemma for_in_no_batchnorm (l : list op_ref) (st : State) :
  (∀ r, r ∈ l → op_type (op_heap st r) ≠ "BatchNormalization") →
  for_in l (replace_batchnorm_to_conv_body neg numel dimension) st = (Return (), st).
Proof.
  induction l as [|r l IH]; intros Hl; [done |].
  cbn [for_in].
  rewrite (bind_Return_state _ _ st () st).
  - apply IH. intros r' Hr'. apply Hl. by right.
  - unfold replace_batchnorm_to_conv_body. rewrite bind_get.
    rewrite decide_False; [done |]. apply Hl. by left.
Qed.

(** *** [replace_batchnorm_to_conv] *)



(** X25.  The first BatchNormalization of the graph not having four
    parameters stops the pass with an [AssertionError]; the warning that
    announces its replacement is all the pass has done by then. *)
Theorem replace_batchnorm_to_conv_asserts (st : State) (l1 l2 : list op_ref)
    (op : op_ref) :
  dict_values (operations st) = l1 ++ op :: l2 →
  (∀ r, r ∈ l1 → op_type (op_heap st r) ≠ "BatchNormalization") →
  op_type (op_heap st op) = "BatchNormalization" →
  length (parameters st op) ≠ 4 →
  replace_batchnorm_to_conv neg numel dimension st
  = (Raise AssertionError,
     emit (warning ("Isolated BatchNormalization(" +:+ op_name (op_heap st op)
                    +:+ ") was detected, "
                    +:+ "PPQ will replace it to 1*1 Convolution("
                    +:+ pretty dimension +:+ "D).")) st).
Proof.
  intros Hops Hl1 Htype Hlen.
  unfold replace_batchnorm_to_conv. rewrite bind_get, Hops.
  rewrite for_in_app, for_in_no_batchnorm by done.
  cbn [for_in]. apply bind_Raise_state.
  unfold replace_batchnorm_to_conv_body. rewrite bind_get.
  rewrite decide_True by done. rewrite bind_modify.
  apply bind_Raise_state. by rewrite bool_decide_eq_false_2.
Qed.

End BatchNorm.

Section Witnesses.
Import Samples SamplesMore.
#[local] Open Scope nat_scope.

(** Stand-ins for [-x] and for [x.numel()]. *)
Definition minus (v : value (@Tensor exact_torch) (@PyFloat exact_torch))
  : value (@Tensor exact_torch) (@PyFloat exact_torch) :=
  mul (VInt (-1)) v.

Definition one_element (v : value (@Tensor exact_torch) (@PyFloat exact_torch)) : Z := 1.

Lemma conv_bn_batchnorm : batchnorm conv_bn 1 3 4 5 6 7.
Proof.
  split.
  - reflexivity.
  - reflexivity.
  - intros p Hp. repeat (apply elem_of_cons in Hp as [->|Hp]; [reflexivity |]).
    by apply elem_of_nil in Hp.
  - apply (bool_decide_unpack _). vm_compute. exact I.
  - intros p Hp. repeat (apply elem_of_cons in Hp as [->|Hp]; [reflexivity |]).
    by apply elem_of_nil in Hp.
  - intros p Hp. repeat (apply elem_of_cons in Hp as [->|Hp]; [cbn; set_solver |]).
    by apply elem_of_nil in Hp.
Qed.


Lemma replace_batchnorm_to_conv_asserts_witness :
  replace_batchnorm_to_conv minus one_element 2 bn_without_variance
  = (Raise AssertionError,
     emit (warning ("Isolated BatchNormalization("
                    +:+ op_name (op_heap bn_without_variance 1)
                    +:+ ") was detected, "
                    +:+ "PPQ will replace it to 1*1 Convolution("
                    +:+ pretty 2%Z +:+ "D).")) bn_without_variance).
Proof.
  apply (replace_batchnorm_to_conv_asserts minus one_element 2 bn_without_variance
           [0] [] 1).
  - reflexivity.
  - intros r Hr. apply list_elem_of_singleton in Hr as ->. done.
  - reflexivity.
  - apply (bool_decide_unpack _). vm_compute. exact I.
Defined.

(** The converted graph of the sample, run: [gain = 6] over
    [sqrt(variance + 1e-5) = 2] is the weight; the bias is
    [6 * (-1) / 2 + 5]. *)
Example replace_batchnorm_to_conv_sample :
  let st' := (replace_batchnorm_to_conv minus one_element 2 conv_bn).2 in
  op_type (op_heap st' 1) = "Conv"
  ∧ op_inputs (op_heap st' 1) = [3; 4; 5]
  ∧ (variables st').*1 = ["x"; "W"; "B"; "y"; "gain"; "shift"; "z"]
  ∧ this <$> number (var_value (var_heap st' 4)) = Some 3%Q
  ∧ this <$> number (var_value (var_heap st' 5)) = Some 2%Q
  ∧ dict_get "pads" (attributes (op_heap st' 1))
    = Some (VList [VInt 0; VInt 0; VInt 0; VInt 0]).
Proof. repeat split; vm_compute; reflexivity. Qed.

End Witnesses.
End BatchNormFacts.
